(* ===== verification/_CoqProject ===== *)
-Q . S2P
Prelude.v
Rpc.v
Base64.v
KVServer.v
KVModel.v
KVClerk.v
Lock.v
Raft.v
RaftCluster.v
ShardCfg.v
Coordinator.v
MRWorker.v
MRApps.v
Labrpc.v
KVNet.v
RaftNet.v
KvTest.v
RaftTest.v
Demux.v
TesterGroup.v
Annotation.v
MRJob.v
MRTest.v
MRLogger.v
Logs.v
OpLog.v
Labgob.v
ShardTest.v
ShardConcur.v
ShardPartition.v
Rsm.v
TesterConfig.v
Daemon.v
Sock.v
RaftDrive.v
ControlRpc.v
KvRun.v
Timeline.v
MRTiming.v
MRHarness.v
Programs.v
Stubs.v
ShardDrive.v
Setup.v
