(* ===== verification/Prelude.v ===== *)
(** * Verification of the 6.5840 distributed-systems labs

    The repository holds one student's solutions to the labs of MIT 6.5840, in Go, with
    the course's test infrastructure.  Its parts and how they interact:

    - MapReduce ([src/map_reduce]): a coordinator hands out map and reduce tasks over RPC
      and reassigns the tasks of silent workers; workers run the application's functions
      on files in a shared directory; [mrsequential] is the reference implementation.
    - Key/value server ([src/src/kvsrv1]): a versioned store, a clerk that retries over an
      unreliable network, and a distributed lock built on the clerk.
    - Raft ([src/src/raft1]): leader election; log replication is still a stub.
    - Shard configurations ([src/src/shardkv1/shardcfg]); the sharded service itself is a
      stub.
    - Test infrastructure ([src/src/labrpc], [src/src/labgob], [src/src/tester1],
      [src/src/kvtest1], [src/src/models1], and the drivers beside each lab): the simulated
      network, the checks of types before encoding, groups of servers and their
      persisters, server processes and the sockets to them, client loops with their
      checks, the linearizability model and the log it judges, the annotation of a test's
      timeline.

    ** The files

    Each file opens with the sources it translates; definitions keep the source's names.

    - [Prelude]: machine integers with their wrap-around written out ([u32], [u64],
      [i32], [i64]); the result type [go] of code that may end the process ([Fatal]) or
      panic ([Panic]) and its monad; indexing; [strconv.Itoa]; [strings.Split]; FNV-1a;
      counting ([occ]); strings; a concrete codec ([bits_of]) used by the examples.
    - [Rpc]: the argument and reply records of [kvsrv1/rpc/rpc.go].
    - [KVServer] ([kvsrv1/server.go]): the store and its two handlers as functions on the
      state; runs of requests.
    - [KVModel] ([models1/kv.go]): the sequential specification the tests check histories
      against.  Refinement: it accepts every history of the server but those in which a Put
      was answered ErrNoKey.
    - [KVClerk] ([kvsrv1/client.go]): the retry loops over a schedule of attempts, each
      with the requests other clients make before it and a [fate].  The class [IKVClerk]
      states what a clerk promises; the clerk discharges it.
    - [Lock] ([kvsrv1/lock/lock.go]): [Acquire] and [Release] as programs of clerk calls,
      proved against [IKVClerk] only, for any number of clients.
    - [Raft] ([raft1/raft.go]): the state of a server and its handlers, role changes and
      goroutine steps, whole; [RaftCluster]: a step relation for a cluster whose
      goroutines interleave freely and whose RPCs may be lost or answered late; [RaftNet]: the
      cluster over the network of [Labrpc], where a handler is a goroutine of its own that may run
      after its caller has given up.
    - [ShardCfg] ([shardkv1/shardcfg/shardcfg.go]): join, leave, rebalance, the checks.
    - [Coordinator] ([map_reduce/mr/coordinator.go]): every handler and the watcher of a
      task; jobs as sequences of requests, among which [MakeCoordinator] sets the phase.
    - [MRWorker] ([map_reduce/mr/worker.go], [mr_utils.go], [main/mrsequential.go]): the
      execution of tasks on a directory of files; [json], [sort] and temporary files are
      classes with the laws the code relies on.  [MRApps]: the applications.
    - [Labrpc] ([labrpc/labrpc.go]): ends, routing, losses, delays, dispatch, with a heap
      of server objects and handlers that may run after their caller was answered; [KVNet]:
      the key/value server behind it and the clerk's loops over it, which discharge the
      attempts that [KVClerk] assumes.
    - [KvTest] ([kvtest1/kvtest.go]): client loops and checks as programs over [IKVClerk].
    - [OpLog] ([kvtest1/porcupine.go]): the four logging routines as interleaved steps,
      and the check of the log; the [porcupine] library is a parameter.  [KvRun] (the rest
      of [kvtest.go], with [kvsrv1/test.go] and [kvraft1/test.go]): starting and stopping
      clients over channels, a client that fails, the partitioner, the makers of clerks as a class.
    - [RaftTest] ([tester1/persister.go], [raft1/server.go], [raft1/test.go]): the
      persister, the applier of a test server, the tester's log and leader checks.
      [RaftDrive] (the rest of [raft1/test.go], [raft1/proxy.go], and the drivers of
      [kvraft1]): making, killing and restarting servers, [wait].
    - [Rsm] ([kvraft1/rsm]): the counter server and its tester; [ShardTest]
      ([shardkv1/test.go]): joining and leaving groups.  The replicated state machine and
      the controller, which are stubs, are classes with the laws the tests rely on and the
      stubs do not meet.
      [ShardConcur] ([concurCtrler] and the checks of [partitionCtrler], same file):
      several controllers at once, over a class of shared controllers; [ShardPartition]
      (the whole of [partitionCtrler]): a controller that is cut off and its successor;
      [ShardDrive] (the rest of the file): clerks, leaders, the check that data is sharded.
    - [Demux] ([tester1/demux], [tester1/sockrpc/rpcclnt.go]): framing, the table of
      outstanding calls, and the runs of one connection.  [Sock] ([tester1/demux],
      [tester1/sockrpc]): dialling, the hand-shake, the accept loop and any number of
      connections over byte streams that may end at any byte; each connection refines the
      runs of [Demux].
    - [TesterGroup] ([tester1/group.go], [srv.go], [clnts.go]): connections, partitions
      and restarts of one group on the network of [Labrpc], over daemons that may not start,
      may not be reachable and may die; [TesterConfig]
      ([tester1/config.go] and the rest of those files): all groups and clients of a
      test, and who owns which end; [Daemon] ([tester1/daemonsrv.go], [daemonclnt.go],
      [testsrv.go], [sockrpc]): the processes behind a group; [ControlRpc] (the RPCs of
      [raft1/server.go], [raft1/test.go] and [kvraft1/rsm/server.go], with their proxies):
      the calls between the tester and its processes, and the socket files.
    - [Annotation] ([tester1/annotation.go]): the recorder and the fault state;
      [Timeline]: the public interface and the calls from server processes
      ([tester1/annotator.go]).
    - [Labgob] ([labgob/labgob.go]): the checks of types and of decoding targets.
    - [MRJob] ([map_reduce/mr/worker.go], the loop): workers and coordinator together;
      [MRTest] ([mr/util.go]): the comparison with the sequential output; [MRLogger]
      ([mr/logger.go]), [Logs] ([src/logger.go], [kvsrv1/logger.go]); [MRTiming] ([mrapps/mtiming.go], [rtiming.go], [jobcount.go]);
      [MRHarness] (the rest of [mr/util.go]): counting patterns in the outputs, the
      processes of a run and their channel, the test directory; [Base64]: the random
      names of files and sockets.
    - [Programs] ([map_reduce/main], [src/src/main]): what the programs do with their
      arguments; [Stubs]: the parts that are not implemented yet ([kvraft1], [rsm.go],
      [shardkv1/shardgrp], the starter version of MapReduce in [src/src/mr]) as they
      stand, and what the tests make of them; [Setup]: the path of a daemon's program, memory
      statistics, counting clerks, set-up and clean-up of tests.

    ** What the theorems show

    - The lock is mutually exclusive over any clerk that meets the interface; the clerk
      meets it over any schedule of losses; the simulated network, late handlers included,
      produces only such schedules; the server refines the linearizability model up to
      ErrNoKey.  Together: mutual
      exclusion of the lock on the server over the unreliable network.
    - MapReduce: whatever the interleaving of workers, deaths and re-assignments, a job
      that is done has the lines of the sequential program, and every job can still be
      finished, as long as the run is [prompt]: the coordinator's phase is set before the
      last map task is reported, pings arrive in time, and no worker dies between the
      deletion of a reduce task's inputs and its report.  The code does not enforce these;
      what happens without them are theorems too ([late_phase_wedges_job],
      [reduce_rerun_empties_output]).  Reduce tasks wait for the maps in any case; [Done] is
      exact if the phase is set in time; a silent worker's task is
      handed out again; writes of output files are atomic; the test's comparison passes;
      the count of parallel workers is right up to deaths during the count; the output is
      final when the first process of a run has exited; the counts the tests make are
      those of the processes that ran tasks.
    - Raft: one vote per term and server, at most one majority winner per term, also over the
      simulated network with handlers that run late; every run of the cluster is one over the
      network; the exact condition for becoming leader.  The code violates election safety in two ways and
      can panic during the first election; concrete runs are given.
    - Shard configurations: [Rebalance] terminates with loads within one of each other;
      every reachable configuration routes every key to an existing group; over a controller
      that keeps the laws its comments ask for, also when
      several controllers join and leave groups at once, or one is cut off in the middle of a
      change and another takes over; what the tests' checks decide in each case.
    - Infrastructure: an RPC is executed at most once and answered at most once; each
      caller of a connection gets its own answer, from the bytes up, and an answer of some
      kind when the connection is lost; a call through a server process, or from the
      tester to one, has the outcome of the direct call; the start-up of a process cannot
      block and finds its sockets free;
      no end has two owners whatever a test does and whichever daemons die, and a call of the
      tester returns exactly if the daemons it needs answer; partitions separate; the
      annotations and the tester's proxies agree on which servers are up, and with the
      processes as long as these start; clients are
      stopped and collected without blocking unless one fails; the checks of the tests accept every
      correct service and report every disagreement but those a snapshot brings in, and the
      histories they log are linearizable (the clock not set back, no ErrNoKey); failures are shown exactly while
      there are any, and those that were begun follow each other in order (same clock).
    - Defects found on the way are theorems too (two leaders in a term, a leader without a
      majority, a wedged job, an emptied output file), each a closed run of the model.

    ** Bounds and fuel

    Go's [int] has 64 bits.  Versions are [uint64]: theorems that depend on a version not
    wrapping bound the number of requests by 2^64; counters of [int] by 2^62 or 2^63; the
    tags of the demultiplexer by 2^32.  Loops that are not structural take fuel:
    [Rebalance] 73 moves, because each move takes at least two from a sum of squares of
    at most 144; [reduce_runs] and [runes] the length of their input; [Acquire],
    [OnePut], [OneClientAppend] and [PutAtLeastOnce] any number of turns, chosen by the
    step that calls them, with a theorem on how many turns suffice where the code
    promises to return.  Retry loops consume a schedule, and
    [clerk_Put_returns_iff_delivered] says when they return.  The search of [labgob]
    takes fuel for the types not yet seen ([type_fuel]), which shrink; the loop of the
    MapReduce logger grows the slice it runs over, and four times its length suffices; where a
    theorem says that a protocol can finish ([to_go] in [KvRun] and [Daemon], [remaining]
    in [Coordinator]) a measure falls with each step of the run it constructs.

    Concurrency is modelled at the granularity of the locks: a handler that holds the
    mutex for its whole body is one step; code between critical sections is separate
    steps; sleeps and timers are choices of the scheduler; random numbers are arguments.
    The order of a Go map's iteration is an argument where the result could depend on it.

    ** What is not modelled

    The start of a process as the operating system does it, files other than the common
    directory and the socket files, and the text of most messages, as pure input and
    output; [encoding/gob], [encoding/json], [sort], [porcupine] and reflection, which are
    parameters with laws; regular expressions other than the tests'; Raft's log, the
    replicated state machine, the kvraft server and the sharded service beyond their
    stubs, because there is no code; the services that some programs of [src/src/main]
    call, which are not in the repository; the test cases themselves.  What is left of the
    modelled files is the declaration of flags, wrappers that only call another package, and
    printing. *)

From Stdlib Require Export ZArith Lia Ascii String.
From stdpp Require Export base gmap strings list fin_maps sets sorting pretty numbers functions.

#[export] Set Warnings "-clear-no-such-hyp".

Local Open Scope Z_scope.

(** ** Machine integers

    Go's [int] is 64 bits wide on the platforms the labs run on; [Tversion] is a
    [uint64], demultiplexer tags are [uint32] and the operation counters [int32].
    An integer of width [w] is a [Z] kept in range by writing its wrap-around out. *)

Definition u32 (z : Z) : Z := z mod 2 ^ 32.
Definition u64 (z : Z) : Z := z mod 2 ^ 64.
Definition i32 (z : Z) : Z := (z + 2 ^ 31) mod 2 ^ 32 - 2 ^ 31.
Definition i64 (z : Z) : Z := (z + 2 ^ 63) mod 2 ^ 64 - 2 ^ 63.

(** ** Crashes

    [log.Fatalf] and [t.Fatalf] end the process ([Fatal]); a nil dereference, a call
    through a nil function and an index out of range are run-time panics ([Panic]). *)

Inductive crash := Fatal | Panic.

Inductive go (A : Type) :=
  | Ret (a : A)
  | Crash (c : crash).
Arguments Ret {A} a.
Arguments Crash {A} c.

#[export] Instance go_ret : MRet go := fun A a => Ret a.
#[export] Instance go_bind : MBind go := fun A B f m =>
  match m with
  | Ret a => f a
  | Crash c => Crash c
  end.

(** Reading an index that may be out of range. *)
Definition index {A} (l : list A) (i : nat) : go A :=
  match l !! i with
  | Some a => Ret a
  | None => Crash Panic
  end.

#[export] Instance crash_eq_dec : EqDecision crash.
Proof. solve_decision. Defined.

(** ** Network outcomes *)

(** What the network does to one RPC: it loses the request, or loses the reply of a
    request that was executed, or delivers both. *)
Inductive fate := ReqLost | ReplyLost | Delivered.

#[export] Instance fate_eq_dec : EqDecision fate.
Proof. solve_decision. Defined.

(** ** Strings *)

(** [strconv.Itoa]. *)
Definition Itoa (z : Z) : string := pretty z.

(** [strings.Split] for a separator of one byte: always at least one piece. *)
Fixpoint split_on (sep : ascii) (s : string) : list string :=
  match s with
  | EmptyString => [""%string]
  | String c s' =>
      if decide (c = sep) then ""%string :: split_on sep s'
      else match split_on sep s' with
           | [] => [String c ""]
           | w :: ws => String c w :: ws
           end
  end.

(** Whether a byte occurs in a string. *)
Fixpoint has_byte (b : ascii) (s : string) : bool :=
  match s with
  | EmptyString => false
  | String c s' => bool_decide (c = b) || has_byte b s'
  end.

(** [hash/fnv]: the 32-bit FNV-1a hash of the bytes of a string. *)
Fixpoint fnv32a_from (h : Z) (s : string) : Z :=
  match s with
  | EmptyString => h
  | String c s' => fnv32a_from (u32 (Z.lxor h (Z.of_N (N_of_ascii c)) * 16777619)) s'
  end.

Definition fnv32a (s : string) : Z := fnv32a_from 2166136261 s.

(** Decimal digits. *)
Definition digit (c : ascii) : option Z :=
  let n := Z.of_nat (nat_of_ascii c) - 48 in
  if decide (0 <= n <= 9) then Some n else None.

Fixpoint digits_from (acc : Z) (s : string) : option Z :=
  match s with
  | EmptyString => Some acc
  | String c s' => d ← digit c; digits_from (10 * acc + d) s'
  end.

(** ** Counting *)

(** How often [x] occurs in [l], as a Go [int]. *)
Definition occ {A} `{EqDecision A} (x : A) (l : list A) : Z :=
  Z.of_nat (length (filter (x =.) l)).

(** ** Shared tactics *)

(** Case analysis on every [decide], [if] and [match] of the goal, closing what
    congruence closes. *)
Ltac go_cases :=
  repeat (first [ case_decide | case_bool_decide | case_match ]; simplify_eq/=; try done).

(** A bind on a value or on a crash takes its step. *)
Ltac run_go := cbn [mbind go_bind].

Create HintDb go_db.

(** ** Machine-integer lemmas *)

Lemma u64_small z : 0 <= z < 2 ^ 64 -> u64 z = z.
Proof. apply Z.mod_small. Qed.

Lemma u32_small z : 0 <= z < 2 ^ 32 -> u32 z = z.
Proof. apply Z.mod_small. Qed.

Lemma u64_range z : 0 <= u64 z < 2 ^ 64.
Proof. apply Z.mod_pos_bound. lia. Qed.

Lemma u32_range z : 0 <= u32 z < 2 ^ 32.
Proof. apply Z.mod_pos_bound. lia. Qed.

Lemma i64_range z : - 2 ^ 63 <= i64 z < 2 ^ 63.
Proof.
  unfold i64. pose proof (Z.mod_pos_bound (z + 2 ^ 63) (2 ^ 64)). lia.
Qed.

Lemma i64_small z : - 2 ^ 63 <= z < 2 ^ 63 -> i64 z = z.
Proof. intros. unfold i64. rewrite Z.mod_small; lia. Qed.

Lemma i32_small z : - 2 ^ 31 <= z < 2 ^ 31 -> i32 z = z.
Proof. intros. unfold i32. rewrite Z.mod_small; lia. Qed.

#[export] Hint Resolve u64_range u32_range i64_range : go_db.

(** ** Counting lemmas *)

Section occ.
  Context {A : Type} `{EqDecision A}.
  Implicit Types (x y : A) (l : list A).

Lemma occ_nil x : occ x [] = 0.
Proof. done. Qed.

Lemma occ_cons x y l : occ x (y :: l) = (if decide (x = y) then 1 else 0) + occ x l.
Proof. unfold occ. rewrite filter_cons. case_decide; simpl; lia. Qed.

Lemma occ_app x l k : occ x (l ++ k) = occ x l + occ x k.
Proof. unfold occ. rewrite list.filter_app, length_app. lia. Qed.

Lemma occ_nonneg x l : 0 <= occ x l.
Proof. unfold occ. lia. Qed.

Lemma occ_le_length x l : occ x l <= Z.of_nat (length l).
Proof. unfold occ. pose proof (length_filter (x =.) l). lia. Qed.

Lemma occ_pos x l : 0 < occ x l <-> x ∈ l.
Proof.
  induction l as [|y l IH]; [rewrite elem_of_nil; unfold occ; simpl; split; [lia|done]|].
  rewrite occ_cons, elem_of_cons, <- IH. pose proof (occ_nonneg x l).
  case_decide; split; try lia; try tauto.
Qed.

(** Overwriting one entry moves one occurrence. *)
Lemma occ_insert x y z l i :
  l !! i = Some y ->
  occ x (<[i := z]> l) = occ x l - (if decide (x = y) then 1 else 0) + (if decide (x = z) then 1 else 0).
Proof.
  intros Hi. rewrite insert_take_drop by (by eapply lookup_lt_Some).
  rewrite <- (take_drop_middle l i y Hi) at 3. rewrite !occ_app, !occ_cons. lia.
Qed.

End occ.

(** The hash of a string is a 32-bit number. *)
Lemma fnv32a_range s : 0 <= fnv32a s < 2 ^ 32.
Proof.
  unfold fnv32a. assert (0 <= 2166136261 < 2 ^ 32) as H by lia. revert H.
  generalize 2166136261. induction s as [|c s IH]; intros h Hh; [done|].
  apply IH, u32_range.
Qed.

#[export] Hint Resolve occ_nonneg fnv32a_range : go_db.

(** ** String lemmas *)

Lemma split_on_absent sep s : has_byte sep s = false -> split_on sep s = [s].
Proof.
  induction s as [|c s IH]; [done|]. simpl. intros [Hc Hs]%orb_false_iff.
  rewrite bool_decide_eq_false in Hc. rewrite decide_False by done.
  by rewrite IH.
Qed.

Lemma split_on_cons_sep sep s : split_on sep (String sep s) = ""%string :: split_on sep s.
Proof. simpl. by rewrite decide_True. Qed.

Lemma split_on_app sep s t :
  has_byte sep s = false -> split_on sep (s +:+ String sep t) = s :: split_on sep t.
Proof.
  induction s as [|c s IH]; [intros _; apply split_on_cons_sep|].
  simpl. intros [Hc Hs]%orb_false_iff. rewrite bool_decide_eq_false in Hc.
  rewrite decide_False by done. by rewrite IH.
Qed.

Lemma has_byte_app b s t : has_byte b (s +:+ t) = has_byte b s || has_byte b t.
Proof. induction s as [|c s IH]; [done|]. simpl. rewrite IH. by rewrite orb_assoc. Qed.

(** Decimal numerals contain only digits: a byte that is no digit does not occur. *)

Lemma pretty_N_go_lacks b x s :
  (forall n, pretty_N_char n <> b) -> has_byte b s = false -> has_byte b (pretty_N_go x s) = false.
Proof.
  intros Hb. revert s. induction (N.lt_wf_0 x) as [x _ IH]. intros s Hs.
  destruct (decide (x = 0%N)) as [->|Hx]; [by rewrite pretty_N_go_0|].
  rewrite pretty_N_go_step by lia. apply IH; [apply N.div_lt; lia|].
  simpl. rewrite bool_decide_eq_false_2 by apply Hb. done.
Qed.

Lemma pretty_N_go_nonempty x s : (0 < x)%N \/ s <> ""%string -> pretty_N_go x s <> ""%string.
Proof.
  revert s. induction (N.lt_wf_0 x) as [x _ IH]. intros s Hs.
  destruct (decide (x = 0%N)) as [->|Hx]; [rewrite pretty_N_go_0; destruct Hs; [lia|done]|].
  rewrite pretty_N_go_step by lia. apply IH; [apply N.div_lt; lia|]. by right.
Qed.

Lemma pretty_N_nonempty (n : N) : pretty n <> ""%string.
Proof.
  unfold pretty, pretty_N. case_decide; [done|]. apply pretty_N_go_nonempty. lia.
Qed.

Lemma Itoa_lacks b z : (forall n, pretty_N_char n <> b) -> 0 <= z -> has_byte b (Itoa z) = false.
Proof.
  intros Hb. destruct z as [|p|p]; [|intros _|lia].
  - intros _. unfold has_byte, Itoa. simpl.
    by rewrite bool_decide_eq_false_2 by exact (Hb 0%N).
  - change (Itoa (Z.pos p)) with (pretty (N.pos p)). unfold pretty, pretty_N.
    case_decide; [done|]. by apply pretty_N_go_lacks.
Qed.

Ltac not_a_digit := intros ?; unfold pretty_N_char; by repeat case_match.

Lemma Itoa_no_dash z : 0 <= z -> has_byte "-" (Itoa z) = false.
Proof. apply Itoa_lacks. not_a_digit. Qed.

Lemma Itoa_no_star z : 0 <= z -> has_byte "*" (Itoa z) = false.
Proof. apply Itoa_lacks. not_a_digit. Qed.

Lemma Itoa_no_dot z : 0 <= z -> has_byte "." (Itoa z) = false.
Proof. apply Itoa_lacks. not_a_digit. Qed.

Lemma Itoa_no_slash z : 0 <= z -> has_byte "/" (Itoa z) = false.
Proof. apply Itoa_lacks. not_a_digit. Qed.

Lemma digit_char n : (n < 10)%N -> digit (pretty_N_char n) = Some (Z.of_N n).
Proof.
  intros Hn. destruct n as [|p]; [done|]. do 4 (destruct p as [p|p|]; try done); lia.
Qed.

Lemma digits_pretty_N_go x : forall s, digits_from 0 (pretty_N_go x s) = digits_from (Z.of_N x) s.
Proof.
  induction (N.lt_wf_0 x) as [x _ IH]. intros s.
  destruct (decide (x = 0%N)) as [->|Hx]; [by rewrite pretty_N_go_0|].
  rewrite pretty_N_go_step by lia. rewrite IH by (apply N.div_lt; lia). cbn [digits_from].
  rewrite digit_char by (apply N.mod_lt; lia). cbn [mbind option_bind]. f_equal.
  rewrite N2Z.inj_div, N2Z.inj_mod. pose proof (Z.div_mod (Z.of_N x) (Z.of_N 10)). lia.
Qed.

Lemma digits_Itoa z : 0 <= z -> digits_from 0 (Itoa z) = Some z.
Proof.
  intros Hz. destruct z as [|p|p]; [done| |lia]. change (Itoa (Z.pos p)) with (pretty (N.pos p)). unfold pretty, pretty_N.
  rewrite decide_False by done. by rewrite digits_pretty_N_go.
Qed.

Lemma Itoa_nonempty z : Itoa z <> ""%string.
Proof.
  destruct z as [|p|p]; [done| |done]. apply (pretty_N_nonempty (N.pos p)).
Qed.

Lemma Itoa_inj z1 z2 : Itoa z1 = Itoa z2 -> z1 = z2.
Proof. apply (inj (pretty : Z -> string)). Qed.

(** Concatenation of strings. *)

Lemma string_cons_app c s t : String c s +:+ t = String c (s +:+ t).
Proof. done. Qed.

Lemma string_nil_app s : "" +:+ s = s.
Proof. done. Qed.

Lemma string_app_nil_r s : s +:+ "" = s.
Proof. induction s as [|c s IH]; [done|]. by rewrite string_cons_app, IH. Qed.

Lemma string_app_assoc s t u : (s +:+ t) +:+ u = s +:+ t +:+ u.
Proof. induction s as [|c s IH]; [done|]. by rewrite !string_cons_app, IH. Qed.

Lemma string_app_inj_l s t u : s +:+ t = s +:+ u -> t = u.
Proof. induction s as [|c s IH]; [done|]. rewrite !string_cons_app. by intros [= H%IH]. Qed.

Lemma string_length_app s t : String.length (s +:+ t) = (String.length s + String.length t)%nat.
Proof. induction s as [|c s IH]; [done|]. rewrite string_cons_app. simpl. by rewrite IH. Qed.

Lemma string_app_inj_r s t u : s +:+ u = t +:+ u -> s = t.
Proof.
  revert t. induction s as [|c s IH]; intros [|d t]; rewrite ?string_cons_app, ?string_nil_app; [done| | |].
  - intros H%(f_equal String.length). simpl in H. rewrite string_length_app in H. lia.
  - intros H%(f_equal String.length). simpl in H. rewrite string_length_app in H. lia.
  - intros [= -> H%IH]. by subst.
Qed.

(** What follows the last occurrence of a byte is determined. *)
Lemma last_sep_unique sep x y a b :
  has_byte sep a = false -> has_byte sep b = false ->
  x +:+ String sep a = y +:+ String sep b -> x = y /\ a = b.
Proof.
  intros Ha Hb. revert y. induction x as [|c x IH]; intros [|d y]; rewrite ?string_cons_app, ?string_nil_app.
  - by intros [= ->].
  - intros [= _ ->]. rewrite has_byte_app in Ha. simpl in Ha.
    by rewrite bool_decide_eq_true_2, orb_true_r in Ha.
  - intros [= _ <-]. rewrite has_byte_app in Hb. simpl in Hb.
    by rewrite bool_decide_eq_true_2, orb_true_r in Hb.
  - intros [= -> [-> ->]%IH]. done.
Qed.

(** The concatenation of a list of strings, as a loop of [append]s leaves it. *)
Definition concat_strings (l : list string) : string := foldl String.append ""%string l.

Lemma concat_strings_acc l : forall s, foldl String.append s l = s +:+ concat_strings l.
Proof.
  unfold concat_strings. induction l as [|x l IH]; intros s; simpl; [by rewrite string_app_nil_r|].
  rewrite IH, (IH (_ +:+ x)). by rewrite string_app_assoc.
Qed.

Lemma concat_strings_cons x l : concat_strings (x :: l) = x +:+ concat_strings l.
Proof. unfold concat_strings at 1. simpl. by rewrite concat_strings_acc, string_nil_app. Qed.

Lemma fmap_bind_list {A B C} (f : B -> C) (g : A -> list B) l :
  f <$> (l ≫= g) = l ≫= (fun x => f <$> g x).
Proof. induction l as [|x l IH]; [done|]. rewrite !bind_cons, fmap_app. by rewrite IH. Qed.

(** Positive numbers as strings of bits, for concrete codecs. *)
Fixpoint bits_of (p : positive) : string :=
  match p with
  | xH => ""
  | xO q => String "0" (bits_of q)
  | xI q => String "1" (bits_of q)
  end.

Fixpoint of_bits (s : string) : positive :=
  match s with
  | EmptyString => xH
  | String c s' => if decide (c = "0"%char) then xO (of_bits s') else xI (of_bits s')
  end.

Lemma of_bits_of p : of_bits (bits_of p) = p.
Proof. induction p as [p IH|p IH|]; simpl; by rewrite ?IH. Qed.

(** Choosing a value for each of finitely many indices. *)
Lemma Forall_exists_fun {A} `{Inhabited A} m (P : nat -> A -> Prop) :
  (forall i, (i < m)%nat -> exists x, P i x) -> exists f, forall i, (i < m)%nat -> P i (f i).
Proof.
  induction m as [|m IH]; intros Hall; [exists (fun _ => inhabitant); lia|].
  destruct IH as [f Hf]; [intros; apply Hall; lia|]. destruct (Hall m ltac:(lia)) as [x Hx].
  exists (fun i => if decide (i = m) then x else f i). intros i Hi.
  case_decide as E; [by rewrite E|]. apply Hf. lia.
Qed.
