(* ===== verification/Rpc.v ===== *)
(** * RPC vocabulary of the key/value service

    The error codes, versions and argument and reply records of
    [src/src/kvsrv1/rpc/rpc.go].  An [Err] is a Go string, so a reply that a handler
    never writes carries the empty string, the zero value. *)

From S2P Require Import Prelude.
Local Open Scope Z_scope.

Abbreviation Err := string.

Definition OK : Err := "OK".
Definition ErrNoKey : Err := "ErrNoKey".
Definition ErrVersion : Err := "ErrVersion".
Definition ErrMaybe : Err := "ErrMaybe".
Definition ErrWrongLeader : Err := "ErrWrongLeader".
Definition ErrWrongGroup : Err := "ErrWrongGroup".

(** A [uint64]. *)
Abbreviation Tversion := Z.

Record PutArgs := mkPutArgs { put_Key : string; put_Value : string; put_Version : Tversion }.
Record PutReply := mkPutReply { put_Err : Err }.
Record GetArgs := mkGetArgs { get_Key : string }.
Record GetReply := mkGetReply { get_Value : string; get_Version : Tversion; get_Err : Err }.

(** The zero values a caller passes in. *)
Definition PutReply0 : PutReply := mkPutReply "".
Definition GetReply0 : GetReply := mkGetReply "" 0 "".

#[export] Instance PutArgs_eq_dec : EqDecision PutArgs.
Proof. solve_decision. Defined.
#[export] Instance GetArgs_eq_dec : EqDecision GetArgs.
Proof. solve_decision. Defined.
