(* ===== verification/Base64.v ===== *)
(** * Random names

    [RandString] of [src/map_reduce/mr/util.go] and [Randstring] of [src/src/tester1/config.go]: the URL
    encoding of base64 on random bytes, cut to the length asked for.  The names of sockets, test
    directories and client ends are made of such strings. *)

From S2P Require Import Prelude.
Local Open Scope Z_scope.

(** ** Base64 *)

(** The alphabet of [base64.URLEncoding]. *)
Definition encodeURL : string := "ABCDEFGHIJKLMNOPQRSTUVWXYZabcdefghijklmnopqrstuvwxyz0123456789-_".

(** The character of a six-bit value. *)
Definition sextet (v : Z) : ascii := default "A"%char (String.get (Z.to_nat v) encodeURL).

Definition low6 (v : Z) : Z := Z.land v 63.

(** Three bytes give four characters; at the end, one or two bytes are padded. *)
Fixpoint EncodeToString (src : list Z) : string :=
  match src with
  | b0 :: b1 :: b2 :: rest =>
      let val := Z.lor (Z.shiftl b0 16) (Z.lor (Z.shiftl b1 8) b2) in
      String (sextet (low6 (Z.shiftr val 18))) (String (sextet (low6 (Z.shiftr val 12)))
        (String (sextet (low6 (Z.shiftr val 6))) (String (sextet (low6 val)) (EncodeToString rest))))
  | [b0; b1] =>
      let val := Z.lor (Z.shiftl b0 16) (Z.shiftl b1 8) in
      String (sextet (low6 (Z.shiftr val 18))) (String (sextet (low6 (Z.shiftr val 12)))
        (String (sextet (low6 (Z.shiftr val 6))) "="))
  | [b0] =>
      let val := Z.shiftl b0 16 in
      String (sextet (low6 (Z.shiftr val 18))) (String (sextet (low6 (Z.shiftr val 12))) "==")
  | [] => ""
  end.

Example encoded : EncodeToString [77; 97; 110] = "TWFu"%string /\ EncodeToString [255; 239] = "_-8="%string /\ EncodeToString [77] = "TQ=="%string.
Proof. done. Qed.

(** [s[0:n]] panics beyond the end. *)
Definition slice_to (n : nat) (s : string) : go string :=
  if decide (n <= String.length s)%nat then Ret (String.substring 0 n s) else Crash Panic.

(** [b] are the [2*n] bytes that [crand.Read] gives; a negative [n] panics in [make]. *)
Definition RandString (n : Z) (b : list Z) : go string :=
  if decide (n < 0) then Crash Panic
  else slice_to (Z.to_nat n) (EncodeToString b).

(** [coordinatorSock]. *)
Definition coordinatorSock (b : list Z) : go string :=
  s ← RandString 20 b; Ret ("/tmp/5840-mr-" +:+ s).

(** ** Lemmas *)

Definition is_byte (b : Z) : Prop := 0 <= b < 256.

(** A letter, a digit, a dash or an underscore. *)
Definition url_safe (c : ascii) : bool := has_byte c encodeURL.

Fixpoint all_safe (s : string) : bool :=
  match s with EmptyString => true | String c s' => url_safe c && all_safe s' end.

Lemma low6_range v : 0 <= low6 v < 64.
Proof. unfold low6. change 63 with (Z.ones 6). rewrite Z.land_ones by lia. apply Z.mod_pos_bound. lia. Qed.

Lemma all_sextets (P : Z -> Prop) `{forall v, Decision (P v)} :
  forallb (fun v => bool_decide (P v)) (seqZ 0 64) = true -> forall v, 0 <= v < 64 -> P v.
Proof.
  intros Hall v Hv. rewrite forallb_forall in Hall. specialize (Hall v). rewrite <-list_elem_of_In, elem_of_seqZ in Hall.
  by apply bool_decide_eq_true in Hall; [|lia].
Qed.

Lemma sextet_safe v : 0 <= v < 64 -> url_safe (sextet v) = true.
Proof. apply (all_sextets (fun v => url_safe (sextet v) = true)). vm_compute. reflexivity. Qed.

(** The value of a character. *)
Fixpoint position (c : ascii) (s : string) : Z :=
  match s with EmptyString => 0 | String d s' => if decide (c = d) then 0 else 1 + position c s' end.

Lemma position_sextet v : 0 <= v < 64 -> position (sextet v) encodeURL = v.
Proof. apply (all_sextets (fun v => position (sextet v) encodeURL = v)). vm_compute. reflexivity. Qed.

Lemma sextet_inj v w : 0 <= v < 64 -> 0 <= w < 64 -> sextet v = sextet w -> v = w.
Proof. intros Hv Hw E. by rewrite <-(position_sextet v Hv), E, position_sextet. Qed.

Lemma lor_shiftl_add a b k : 0 <= k -> 0 <= b < 2 ^ k -> Z.lor (Z.shiftl a k) b = a * 2 ^ k + b.
Proof.
  intros Hk Hb. assert (Z.land (Z.shiftl a k) b = 0) as E.
  { apply Z.bits_inj'. intros i Hi. rewrite Z.land_spec, Z.bits_0, Z.shiftl_spec by lia.
    destruct (decide (i < k)) as [Hlt|Hge]; [by rewrite Z.testbit_neg_r by lia|].
    replace (Z.testbit b i) with false; [apply andb_false_r|]. symmetry.
    destruct (decide (b = 0)) as [->|]; [apply Z.bits_0|]. apply Z.bits_above_log2; [lia|].
    apply Z.log2_lt_pow2; [lia|]. eapply Z.lt_le_trans; [apply Hb|]. apply Z.pow_le_mono_r; lia. }
  rewrite <-Z.lxor_lor by done. rewrite <-Z.add_nocarry_lxor by done. by rewrite Z.shiftl_mul_pow2.
Qed.

(** The four characters determine the three bytes. *)
Definition val3 (b0 b1 b2 : Z) : Z := Z.lor (Z.shiftl b0 16) (Z.lor (Z.shiftl b1 8) b2).

Lemma val3_eq b0 b1 b2 : is_byte b0 -> is_byte b1 -> is_byte b2 -> val3 b0 b1 b2 = b0 * 65536 + b1 * 256 + b2.
Proof.
  unfold is_byte, val3. intros H0 H1 H2. rewrite (lor_shiftl_add b1 b2 8) by lia. rewrite lor_shiftl_add by lia. lia.
Qed.

Lemma low6_shiftr v k : 0 <= k -> low6 (Z.shiftr v k) = v / 2 ^ k mod 64.
Proof. intros Hk. unfold low6. change 63 with (Z.ones 6). by rewrite Z.land_ones, Z.shiftr_div_pow2 by lia. Qed.

Lemma sextets_sum v :
  0 <= v < 2 ^ 24 ->
  v = (v / 262144 mod 64) * 262144 + (v / 4096 mod 64) * 4096 + (v / 64 mod 64) * 64 + v mod 64.
Proof. intros Hv. Z.to_euclidean_division_equations. lia. Qed.

Lemma sextets_inj v w :
  0 <= v < 2 ^ 24 -> 0 <= w < 2 ^ 24 ->
  low6 (Z.shiftr v 18) = low6 (Z.shiftr w 18) -> low6 (Z.shiftr v 12) = low6 (Z.shiftr w 12) ->
  low6 (Z.shiftr v 6) = low6 (Z.shiftr w 6) -> low6 v = low6 w -> v = w.
Proof.
  intros Hv Hw. rewrite !low6_shiftr by lia. unfold low6. change 63 with (Z.ones 6). rewrite !Z.land_ones by lia.
  change (2 ^ 18) with 262144. change (2 ^ 12) with 4096. change (2 ^ 6) with 64. intros E1 E2 E3 E4.
  rewrite (sextets_sum v Hv), (sextets_sum w Hw), E1, E2, E3, E4. done.
Qed.

Lemma EncodeToString_3 b0 b1 b2 rest :
  EncodeToString (b0 :: b1 :: b2 :: rest)
  = String (sextet (low6 (Z.shiftr (val3 b0 b1 b2) 18))) (String (sextet (low6 (Z.shiftr (val3 b0 b1 b2) 12)))
      (String (sextet (low6 (Z.shiftr (val3 b0 b1 b2) 6))) (String (sextet (low6 (val3 b0 b1 b2))) (EncodeToString rest)))).
Proof. done. Qed.

(** Four characters of the text for three bytes. *)
Lemma encode_prefix m : forall b, (3 * m <= length b)%nat ->
  (4 * m <= String.length (EncodeToString b))%nat /\ all_safe (String.substring 0 (4 * m) (EncodeToString b)) = true.
Proof.
  induction m as [|m IH]; intros b Hb; [split; [lia|by destruct (EncodeToString b)]|].
  destruct b as [|b0 [|b1 [|b2 b]]]; simpl in Hb; try lia. rewrite EncodeToString_3.
  replace (4 * S m)%nat with (S (S (S (S (4 * m))))) by lia. destruct (IH b ltac:(lia)) as [Hl Hs].
  cbn [String.length String.substring all_safe]. rewrite !sextet_safe by apply low6_range. split; [lia|exact Hs].
Qed.

Lemma substring_safe n : forall m s, (n <= m)%nat -> all_safe (String.substring 0 m s) = true -> all_safe (String.substring 0 n s) = true.
Proof.
  induction n as [|n IH]; intros [|m] [|c s] Hn; try done; [lia|]. simpl. intros [Hc Hs]%andb_true_iff. rewrite Hc. simpl. eapply IH; [|done]. lia.
Qed.

Lemma length_substring n : forall s, (n <= String.length s)%nat -> String.length (String.substring 0 n s) = n.
Proof. induction n as [|n IH]; intros [|c s] Hs; simpl in *; [done|done|lia|]. rewrite IH by lia. done. Qed.

Lemma encode_inj m : forall b b', Forall is_byte b -> Forall is_byte b' -> (3 * m <= length b)%nat -> (3 * m <= length b')%nat ->
  String.substring 0 (4 * m) (EncodeToString b) = String.substring 0 (4 * m) (EncodeToString b') -> take (3 * m) b = take (3 * m) b'.
Proof.
  induction m as [|m IH]; intros b b' Hb Hb' Hl Hl' E; [done|].
  destruct b as [|b0 [|b1 [|b2 b]]]; simpl in Hl; try lia. destruct b' as [|c0 [|c1 [|c2 b']]]; simpl in Hl'; try lia.
  apply list.Forall_cons in Hb as [H0 Hb]. apply list.Forall_cons in Hb as [H1 Hb]. apply list.Forall_cons in Hb as [H2 Hb].
  apply list.Forall_cons in Hb' as [H0' Hb']. apply list.Forall_cons in Hb' as [H1' Hb']. apply list.Forall_cons in Hb' as [H2' Hb'].
  rewrite !EncodeToString_3 in E. replace (4 * S m)%nat with (S (S (S (S (4 * m))))) in E by lia.
  cbn [String.substring] in E. injection E as E1 E2 E3 E4 E.
  apply sextet_inj in E1, E2, E3, E4; [|apply low6_range..]. specialize (IH b b' Hb Hb' ltac:(lia) ltac:(lia) E).
  assert (val3 b0 b1 b2 = val3 c0 c1 c2) as Ev.
  { apply sextets_inj; try done; rewrite val3_eq by done; unfold is_byte in *; lia. }
  rewrite !val3_eq in Ev by done. unfold is_byte in *. replace (3 * S m)%nat with (S (S (S (3 * m)))) by lia.
  cbn [take]. assert (b0 = c0 /\ b1 = c1 /\ b2 = c2) as (->&->&->) by lia. by rewrite IH.
Qed.

(** ** Properties *)

(** Random names are as asked for.  For any [n] that is not negative and any random bytes,
    [RandString(n)] does not panic and returns [n] letters, digits, dashes and underscores, so that
    the names can stand in paths and patterns; two names of length [4 * m] are the same only if
    the first [3 * m] random bytes are. *)
Theorem RandString_names n b :
  Z.of_nat (length b) = 2 * n -> Forall is_byte b ->
  exists s, RandString n b = Ret s /\ Z.of_nat (String.length s) = n /\ all_safe s = true
    /\ forall m b', n = 4 * Z.of_nat m -> Z.of_nat (length b') = 2 * n -> Forall is_byte b' ->
         RandString n b' = Ret s -> take (3 * m) b' = take (3 * m) b.
Proof.
  intros Hl Hb. unfold RandString. rewrite decide_False by lia. set (k := Z.to_nat n).
  assert (forall b : list Z, Z.of_nat (length b) = 2 * n ->
            (k <= String.length (EncodeToString b))%nat /\ all_safe (String.substring 0 k (EncodeToString b)) = true) as Henc.
  { intros b0 Hb0. destruct (encode_prefix (length b0 / 3) b0) as [H1 H2]; [apply Nat.Div0.mul_div_le|].
    destruct (decide (k <= 4 * (length b0 / 3))%nat) as [Hk|Hk]; [split; [lia|by eapply substring_safe]|].
    assert (length b0 = 2%nat /\ k = 1%nat) as [Hl2 ->].
    { pose proof (Nat.div_mod_eq (length b0) 3). pose proof (Nat.mod_upper_bound (length b0) 3). lia. }
    destruct b0 as [|x [|y [|]]]; try done. cbn [EncodeToString String.length String.substring all_safe].
    rewrite sextet_safe by apply low6_range. split; [lia|done]. }
  destruct (Henc b Hl) as [H1 H2]. unfold slice_to. rewrite decide_True by done. eexists. split; [done|].
  split; [rewrite length_substring by done; lia|]. split; [done|]. intros m b' Hn Hl' Hb' E.
  rewrite decide_False, decide_True in E by (lia || by apply Henc). injection E as E. replace k with (4 * m)%nat in E by lia.
  apply encode_inj; [done..|lia|lia|done].
Qed.

Lemma RandString_names_witness : exists s, RandString 2 [77; 97; 110; 33] = Ret s /\ String.length s = 2%nat.
Proof.
  destruct (RandString_names 2 [77; 97; 110; 33]) as (s&E&Hl&_).
  - reflexivity.
  - repeat (apply list.Forall_cons; split; [unfold is_byte; lia|]). apply list.Forall_nil. exact I.
  - exists s. split; [exact E|lia].
Defined.
