(* ===== verification/KVServer.v ===== *)
(** * The single-machine key/value server

    [src/src/kvsrv1/server.go]: a map from keys to versioned values behind a mutex.
    Every handler holds the mutex for its whole body, so a handler is one atomic state
    transformer; a run of the server is a sequence of handler executions. *)

From S2P Require Import Prelude Rpc.
Local Open Scope Z_scope.

Record ValueVersion := mkVV { value : string; version : Tversion }.

Record KVServer := mkKV { store : gmap string ValueVersion }.

Definition MakeKVServer : KVServer := mkKV ∅.

(** [Get] writes the reply it is handed and leaves the store alone. *)
Definition Get (kv : KVServer) (args : GetArgs) (reply : GetReply) : GetReply :=
  match store kv !! get_Key args with
  | None => mkGetReply (get_Value reply) (get_Version reply) ErrNoKey
  | Some vv => mkGetReply (value vv) (version vv) OK
  end.

(** [Put] is a compare-and-set on the version; [version + 1] is a [uint64] sum. *)
Definition Put (kv : KVServer) (args : PutArgs) (reply : PutReply) : KVServer * PutReply :=
  match store kv !! put_Key args with
  | Some vv =>
      if decide (put_Version args = version vv) then
        (mkKV (<[put_Key args := mkVV (put_Value args) (u64 (put_Version args + 1))]> (store kv)),
         mkPutReply OK)
      else (kv, mkPutReply ErrVersion)
  | None =>
      if decide (put_Version args = 0) then
        (mkKV (<[put_Key args := mkVV (put_Value args) 1]> (store kv)), mkPutReply OK)
      else (kv, mkPutReply ErrNoKey)
  end.

(** ** Runs of the server *)

Inductive op := OpGet (a : GetArgs) | OpPut (a : PutArgs).
#[export] Instance op_eq_dec : EqDecision op.
Proof. solve_decision. Defined.

Inductive out := OutGet (r : GetReply) | OutPut (r : PutReply).

Definition exec (kv : KVServer) (o : op) : KVServer * out :=
  match o with
  | OpGet a => (kv, OutGet (Get kv a GetReply0))
  | OpPut a => let '(kv', r) := Put kv a PutReply0 in (kv', OutPut r)
  end.

Fixpoint run (kv : KVServer) (ops : list op) : KVServer :=
  match ops with
  | [] => kv
  | o :: ops' => run (exec kv o).1 ops'
  end.

(** Whether one operation is a Put on [k] that the server accepted. *)
Definition accepts (kv : KVServer) (k : string) (o : op) : bool :=
  match o with
  | OpGet _ => false
  | OpPut a => bool_decide (put_Key a = k) && bool_decide (put_Err (Put kv a PutReply0).2 = OK)
  end.

Fixpoint accepted (k : string) (kv : KVServer) (ops : list op) : nat :=
  match ops with
  | [] => 0
  | o :: ops' => (if accepts kv k o then 1 else 0) + accepted k (exec kv o).1 ops'
  end%nat.

(** How often the Put request [a] itself is accepted during a run. *)
Fixpoint applied (a : PutArgs) (kv : KVServer) (ops : list op) : nat :=
  match ops with
  | [] => 0
  | o :: ops' =>
      (if bool_decide (o = OpPut a) && accepts kv (put_Key a) o then 1 else 0)
      + applied a (exec kv o).1 ops'
  end%nat.

(** The version of a key: 0 when absent. *)
Definition ver (kv : KVServer) (k : string) : Z :=
  match store kv !! k with Some vv => version vv | None => 0 end.

(** ** Behaviour of one handler *)

Lemma run_app kv ops1 ops2 : run kv (ops1 ++ ops2) = run (run kv ops1) ops2.
Proof. revert kv. induction ops1; simpl; auto. Qed.

(** The contract of the store as one compare-and-set register per key. *)
Lemma Put_cas kv a r :
  let kv' := (Put kv a r).1 in
  let e := put_Err (Put kv a r).2 in
  (ver kv (put_Key a) = put_Version a /\ e = OK
   /\ store kv' = <[put_Key a := mkVV (put_Value a) (u64 (put_Version a + 1))]> (store kv))
  \/ (ver kv (put_Key a) <> put_Version a /\ kv' = kv
      /\ e = match store kv !! put_Key a with Some _ => ErrVersion | None => ErrNoKey end).
Proof.
  unfold Put, ver. destruct (store kv !! put_Key a) as [vv|] eqn:E; case_decide as Hv; simpl.
  - left. by rewrite Hv.
  - by right.
  - left. by rewrite Hv.
  - by right.
Qed.

Lemma Put_OK_iff kv a r :
  put_Err (Put kv a r).2 = OK <-> ver kv (put_Key a) = put_Version a.
Proof. destruct (Put_cas kv a r) as [(?&?&_)|(?&_&->)]; [done|]. by case_match. Qed.

Lemma Put_rejected kv a r : put_Err (Put kv a r).2 <> OK -> (Put kv a r).1 = kv.
Proof. destruct (Put_cas kv a r) as [(?&?&_)|(?&?&_)]; done. Qed.

Lemma Put_lookup_ne kv a r k :
  k <> put_Key a -> store (Put kv a r).1 !! k = store kv !! k.
Proof.
  intros. destruct (Put_cas kv a r) as [(_&_&->)|(_&->&_)]; [|done].
  by rewrite lookup_insert_ne.
Qed.

Lemma Put_applied kv a r :
  ver kv (put_Key a) = put_Version a ->
  (Put kv a r).2 = mkPutReply OK
  /\ store (Put kv a r).1 !! put_Key a = Some (mkVV (put_Value a) (u64 (put_Version a + 1))).
Proof.
  intros H. destruct (Put_cas kv a r) as [(_&He&->)|(?&_)]; [|done].
  split; [|by rewrite lookup_insert_eq]. destruct ((Put kv a r).2). by simpl in He; subst.
Qed.

(** The outcome does not depend on the reply record passed in. *)
Lemma Put_reply_irrel kv a r r' : Put kv a r = Put kv a r'.
Proof. done. Qed.

(** ** Versions count accepted Puts *)

(** [counted kv k n]: after [n] accepted Puts on [k], the key is absent when [n] is 0
    and carries version [n], as a [uint64], otherwise. *)
Definition counted (kv : KVServer) (k : string) (n : nat) : Prop :=
  match store kv !! k with
  | None => n = 0%nat
  | Some vv => (0 < n)%nat /\ version vv = u64 (Z.of_nat n)
  end.

Lemma counted_ver kv k n : counted kv k n -> ver kv k = u64 (Z.of_nat n).
Proof. unfold counted, ver. case_match; [naive_solver|]. by intros ->. Qed.

Lemma accepts_ver kv k o :
  accepts kv k o = true <->
  exists a, o = OpPut a /\ put_Key a = k /\ ver kv k = put_Version a.
Proof.
  destruct o as [a|a]; simpl; [naive_solver|].
  rewrite andb_true_iff, !bool_decide_eq_true, Put_OK_iff. naive_solver.
Qed.

Lemma counted_exec kv k o n :
  counted kv k n -> counted (exec kv o).1 k ((if accepts kv k o then 1 else 0) + n)%nat.
Proof.
  intros Hc. destruct o as [a|a]; [done|]. simpl.
  destruct (Put kv a PutReply0) as [kv' r] eqn:E. simpl.
  assert (kv' = (Put kv a PutReply0).1) as -> by by rewrite E.
  assert (r = (Put kv a PutReply0).2) as -> by by rewrite E.
  destruct (decide (put_Key a = k)) as [<-|Hk].
  - rewrite bool_decide_true by done. simpl.
    destruct (Put_cas kv a PutReply0) as [(Hv&He&Hs)|(Hv&->&He)].
    + rewrite bool_decide_true by done. unfold counted. rewrite Hs, lookup_insert_eq. simpl.
      split; [lia|]. rewrite <-Hv, (counted_ver _ _ _ Hc). unfold u64.
      rewrite Zplus_mod_idemp_l. f_equal. lia.
    + rewrite bool_decide_false; [done|]. rewrite He. by case_match.
  - rewrite bool_decide_false by done. simpl. unfold counted.
    by rewrite Put_lookup_ne.
Qed.

Lemma counted_run kv k ops n :
  counted kv k n -> counted (run kv ops) k (accepted k kv ops + n).
Proof.
  revert kv n. induction ops as [|o ops IH]; intros kv n Hc; [done|]. simpl.
  replace (_ + _ + n)%nat
    with (accepted k (exec kv o).1 ops + ((if accepts kv k o then 1 else 0) + n))%nat by lia.
  by apply IH, counted_exec.
Qed.

Lemma counted_init k : counted MakeKVServer k 0.
Proof. done. Qed.

Lemma accepted_le k kv ops : (accepted k kv ops <= length ops)%nat.
Proof. revert kv. induction ops; intros; simpl; [done|]. case_match; [specialize (IHops (exec kv a).1); lia|]. specialize (IHops (exec kv a).1); lia. Qed.

(** A request whose version is already behind the key is never accepted again. *)
Lemma applied_stale a kv ops n :
  counted kv (put_Key a) n -> Z.of_nat (n + length ops) < 2 ^ 64 ->
  put_Version a < Z.of_nat n -> applied a kv ops = 0%nat.
Proof.
  revert kv n. induction ops as [|o ops IH]; intros kv n Hc Hn Hv; [done|]. simpl in *.
  pose proof (counted_exec _ _ o _ Hc) as Hc'.
  assert (ver kv (put_Key a) = Z.of_nat n) as Hver.
  { rewrite (counted_ver _ _ _ Hc). apply u64_small. lia. }
  rewrite (IH _ _ Hc') by (case_match; lia).
  case_bool_decide as Ho; [subst o|done]. rewrite andb_true_l.
  destruct (accepts kv (put_Key a) (OpPut a)) eqn:E; [|done].
  apply accepts_ver in E as (a'&[= <-]&_&?). lia.
Qed.

Lemma applied_le_1 a kv ops n :
  counted kv (put_Key a) n -> Z.of_nat (n + length ops) < 2 ^ 64 -> (applied a kv ops <= 1)%nat.
Proof.
  revert kv n. induction ops as [|o ops IH]; intros kv n Hc Hn; simpl in *; [lia|].
  pose proof (counted_exec _ _ o _ Hc) as Hc'.
  destruct (bool_decide (o = OpPut a) && accepts kv (put_Key a) o) eqn:E.
  - apply andb_true_iff in E as [Ho%bool_decide_eq_true E]. rewrite E in Hc'.
    apply accepts_ver in E as (a'&->&_&Hv). simplify_eq.
    rewrite (counted_ver _ _ _ Hc), u64_small in Hv by lia.
    rewrite (applied_stale _ _ _ _ Hc') by lia. lia.
  - apply (IH _ _ Hc'). case_match; lia.
Qed.

(** ** Properties *)

(** A Put is a compare-and-set on the version of its key.  It succeeds exactly when
    the request carries the current version (0 for an absent key), then installs the
    value with the next [uint64] version so that the following Get returns both; in
    every other case it changes nothing and answers ErrVersion for a present key and
    ErrNoKey for an absent one; keys other than its own are never touched. *)
Theorem put_is_versioned_cas kv a :
  let '(kv', reply) := Put kv a PutReply0 in
  (put_Err reply = OK <-> ver kv (put_Key a) = put_Version a)
  /\ (put_Err reply = OK ->
      Get kv' (mkGetArgs (put_Key a)) GetReply0
      = mkGetReply (put_Value a) (u64 (put_Version a + 1)) OK)
  /\ (put_Err reply <> OK ->
      kv' = kv /\ put_Err reply = match store kv !! put_Key a with Some _ => ErrVersion | None => ErrNoKey end)
  /\ (forall k, k <> put_Key a -> store kv' !! k = store kv !! k).
Proof.
  destruct (Put kv a PutReply0) as [kv' reply] eqn:E.
  pose proof (Put_OK_iff kv a PutReply0) as Hok. rewrite E in Hok.
  split; [done|]. split; [|split].
  - intros Hv%Hok. apply (Put_applied _ _ PutReply0) in Hv as [_ Hl]. rewrite E in Hl.
    simpl in Hl. unfold Get. simpl. by rewrite Hl.
  - pose proof (Put_cas kv a PutReply0) as Hcas. rewrite E in Hcas. naive_solver.
  - intros k Hk. rewrite <-(Put_lookup_ne kv a PutReply0 k) by done. by rewrite E.
Qed.

(** Whatever sequence of requests a fresh server has handled, the version of every
    key is the number of Puts accepted for it, as a [uint64], and a key is present
    exactly when some Put for it was accepted. *)
Theorem version_counts_accepted_puts ops k :
  let n := accepted k MakeKVServer ops in
  match store (run MakeKVServer ops) !! k with
  | None => n = 0%nat
  | Some vv => (0 < n)%nat /\ version vv = u64 (Z.of_nat n)
  end.
Proof.
  pose proof (counted_run MakeKVServer k ops 0 (counted_init k)) as H.
  by rewrite Nat.add_0_r in H.
Qed.

(** One Put request, however often the network delivers it and whatever else the
    server handles in between, is applied at most once, as long as fewer than 2^64
    requests are served. *)
Theorem put_applied_at_most_once ops a :
  Z.of_nat (length ops) < 2 ^ 64 -> (applied a MakeKVServer ops <= 1)%nat.
Proof. intros. by apply (applied_le_1 a _ _ 0 (counted_init _)). Qed.

Definition witness_put : PutArgs := mkPutArgs "k" "v" 0.

Lemma put_applied_at_most_once_witness :
  applied witness_put MakeKVServer [OpPut witness_put; OpPut witness_put] = 1%nat
  /\ (applied witness_put MakeKVServer [OpPut witness_put; OpPut witness_put] <= 1)%nat.
Proof. split; [by vm_compute|]. apply put_applied_at_most_once. vm_compute. done. Defined.
