(* ===== verification/KVModel.v ===== *)
(** * The sequential model the linearizability checker uses

    [src/src/models1/kv.go]: [KvModel], the per-key register that histories of clerk
    operations are checked against, and the refinement of the server to it.
    [porcupine.Operation] belongs to a third-party package; the record below has the
    fields the sources read and write. *)

From S2P Require Import Prelude Rpc KVServer.
Local Open Scope Z_scope.

Record KvInput := mkIn { in_Op : Z; in_Key : string; in_Value : string; in_Version : Z }.
Record KvOutput := mkOut { out_Value : string; out_Version : Z; out_Err : string }.
Record KvState := mkSt { st_Value : string; st_Version : Z }.

(** The checker's state is an [interface{}]: a [KvState], or the string the default
    branch of [Step] returns. *)
Inductive state := St (s : KvState) | StInvalid.

Record Operation := mkOperation {
  op_ClientId : Z;
  Input : KvInput;
  op_Call : Z;
  Output : KvOutput;
  op_Return : Z;
}.

Definition Init : state := St (mkSt "" 0).

(** The assertion [state.(KvState)] panics on any other dynamic type. *)
Definition Step (st : state) (inp : KvInput) (out : KvOutput) : go (bool * state) :=
  match st with
  | StInvalid => Crash Panic
  | St s =>
      if decide (in_Op inp = 0) then
        Ret (bool_decide (out_Value out = st_Value s), st)
      else if decide (in_Op inp = 1) then
        if decide (st_Version s = in_Version inp) then
          Ret (bool_decide (out_Err out = "OK") || bool_decide (out_Err out = "ErrMaybe"),
               St (mkSt (in_Value inp) (u64 (st_Version s + 1))))
        else
          Ret (bool_decide (out_Err out = "ErrVersion") || bool_decide (out_Err out = "ErrMaybe"),
               st)
      else Ret (false, StInvalid)
  end.

(** The map [m] that [Partition] builds, then the keys in sorted order. *)
Fixpoint group_by_key (history : list Operation) (m : gmap string (list Operation)) :
    gmap string (list Operation) :=
  match history with
  | [] => m
  | v :: rest =>
      let key := in_Key (Input v) in
      group_by_key rest (<[key := default [] (m !! key) ++ [v]]> m)
  end.

Definition Partition (history : list Operation) : list (list Operation) :=
  let m := group_by_key history ∅ in
  let keys := merge_sort String.le (map_to_list m).*1 in
  (fun k => default [] (m !! k)) <$> keys.

(** ** The server's operations as checker operations *)

Definition op_key (o : op) : string :=
  match o with OpGet a => get_Key a | OpPut a => put_Key a end.

(** A server operation as the checker sees it; the server knows neither clients nor times. *)
Definition log_entry (kv : KVServer) (o : op) : Operation :=
  match o with
  | OpGet a =>
      let r := Get kv a GetReply0 in
      mkOperation 0 (mkIn 0 (get_Key a) "" 0) 0 (mkOut (get_Value r) (get_Version r) (get_Err r)) 0
  | OpPut a =>
      mkOperation 0 (mkIn 1 (put_Key a) (put_Value a) (put_Version a)) 0
        (mkOut "" 0 (put_Err (Put kv a PutReply0).2)) 0
  end.

Fixpoint history (kv : KVServer) (ops : list op) : list Operation :=
  match ops with
  | [] => []
  | o :: ops' => log_entry kv o :: history (exec kv o).1 ops'
  end.

Fixpoint replay (st : state) (h : list Operation) : go bool :=
  match h with
  | [] => Ret true
  | o :: h' =>
      '(ok, st') ← Step st (Input o) (Output o);
      rest ← replay st' h';
      Ret (ok && rest)
  end.

(** The register of one key. *)
Definition abs (kv : KVServer) (k : string) : KvState :=
  match store kv !! k with
  | Some vv => mkSt (value vv) (version vv)
  | None => mkSt "" 0
  end.

(** A Put on an absent key with a version other than 0: the server's ErrNoKey. *)
Definition no_key_put (o : Operation) : bool :=
  bool_decide (in_Op (Input o) = 1) && bool_decide (out_Err (Output o) = ErrNoKey).

Definition has_key (k : string) (o : Operation) : Prop := in_Key (Input o) = k.
#[export] Instance has_key_dec k o : Decision (has_key k o).
Proof. unfold has_key. apply _. Defined.

Lemma abs_ver kv k : st_Version (abs kv k) = ver kv k.
Proof. unfold abs, ver. by case_match. Qed.

Lemma log_entry_key kv o : in_Key (Input (log_entry kv o)) = op_key o.
Proof. by destruct o. Qed.

(** One server operation is one step of the register, accepted unless it is the
    ErrNoKey answer. *)
Lemma step_log_entry kv o :
  let e := log_entry kv o in
  Step (St (abs kv (op_key o))) (Input e) (Output e)
  = Ret (negb (no_key_put e), St (abs (exec kv o).1 (op_key o))).
Proof.
  destruct o as [a|a]; simpl.
  - unfold Get, abs, no_key_put. by destruct (store kv !! get_Key a); simpl; rewrite ?bool_decide_true.
  - destruct (Put kv a PutReply0) as [kv' r] eqn:E. simpl.
    pose proof (Put_cas kv a PutReply0) as Hcas. rewrite E in Hcas. simpl in Hcas.
    unfold no_key_put. simpl.
    destruct Hcas as [(Hv&->&Hs)|(Hv&->&He)]; rewrite <-abs_ver in Hv.
    + rewrite decide_True by done. simpl. do 2 f_equal. unfold abs at 2. rewrite Hs, lookup_insert_eq.
      simpl. by rewrite Hv.
    + rewrite decide_False by done. simpl. rewrite He. by case_match.
Qed.

Lemma abs_exec_ne kv o k : k <> op_key o -> abs (exec kv o).1 k = abs kv k.
Proof.
  destruct o as [a|a]; simpl; [done|]. intros.
  destruct (Put kv a PutReply0) as [kv' r] eqn:E. simpl. unfold abs.
  rewrite <-(Put_lookup_ne kv a PutReply0 k) by done. by rewrite E.
Qed.

Lemma replay_history kv ops k :
  replay (St (abs kv k)) (filter (has_key k) (history kv ops))
  = Ret (forallb (fun o => negb (no_key_put o)) (filter (has_key k) (history kv ops))).
Proof.
  revert kv. induction ops as [|o ops IH]; intros kv; [done|]. cbn [history].
  destruct (decide (op_key o = k)) as [<-|Hk].
  - rewrite filter_cons_True by apply log_entry_key. cbn [replay forallb].
    rewrite step_log_entry. run_go. by rewrite IH.
  - rewrite filter_cons_False by (unfold has_key; by rewrite log_entry_key).
    rewrite <-(abs_exec_ne kv o k) by done. apply IH.
Qed.

(** ** Partition *)

Lemma lookup_group_by_key h m k :
  group_by_key h m !! k =
    match filter (has_key k) h with
    | [] => m !! k
    | part => Some (default [] (m !! k) ++ part)
    end.
Proof.
  revert m. induction h as [|v h IH]; intros m; [done|]. cbn [group_by_key]. rewrite IH.
  destruct (decide (has_key k v)) as [Hk|Hk].
  - rewrite (filter_cons_True _ v) by done. unfold has_key in Hk. subst k.
    rewrite lookup_insert_eq. simpl. case_match; [done|]. by rewrite <-app_assoc.
  - rewrite (filter_cons_False _ v) by done. by rewrite lookup_insert_ne.
Qed.

Definition partition_keys (h : list Operation) : list string :=
  merge_sort String.le (map_to_list (group_by_key h ∅)).*1.

Lemma partition_keys_present h k :
  k ∈ partition_keys h <-> filter (has_key k) h <> [].
Proof.
  unfold partition_keys. rewrite merge_sort_Permutation, list_elem_of_fmap.
  transitivity (is_Some (group_by_key h ∅ !! k)).
  - split.
    + intros [[k' p] [-> Hp]]. apply elem_of_map_to_list in Hp. simpl. by eexists.
    + intros [p Hp]. exists (k, p). by rewrite elem_of_map_to_list.
  - rewrite lookup_group_by_key. rewrite lookup_empty. case_match; [|naive_solver].
    split; [|done]. by intros [? ?].
Qed.

Lemma partition_keys_sorted h : Sorted String.le (partition_keys h) /\ NoDup (partition_keys h).
Proof.
  unfold partition_keys. split.
  - apply Sorted_merge_sort, _.
  - rewrite merge_sort_Permutation. apply NoDup_fst_map_to_list.
Qed.

Lemma Partition_filters h :
  Partition h = (fun k => filter (has_key k) h) <$> partition_keys h.
Proof.
  unfold Partition. fold (partition_keys h). apply list_fmap_ext. intros i k Hk.
  apply list_elem_of_lookup_2, partition_keys_present in Hk.
  rewrite lookup_group_by_key, lookup_empty. by case_match.
Qed.

Lemma concat_filters_Permutation ks h :
  NoDup ks -> (forall o, o ∈ h -> in_Key (Input o) ∈ ks) ->
  concat ((fun k => filter (has_key k) h) <$> ks) ≡ₚ h.
Proof.
  revert h. induction ks as [|k ks IH]; intros h Hnd Hin.
  - destruct h as [|o h]; [done|]. specialize (Hin o). set_solver.
  - inversion_clear Hnd as [|? ? Hk Hnd']. cbn [fmap list_fmap concat].
    assert ((fun k' => filter (has_key k') h) <$> ks
            = (fun k' => filter (has_key k') (filter (fun o => ~ has_key k o) h)) <$> ks) as ->.
    { apply list_fmap_ext. intros i k' Hk'%list_elem_of_lookup_2.
      rewrite list_filter_filter. apply list_filter_iff. intros o. unfold has_key.
      split; [|naive_solver]. intros <-. split; [done|]. by intros <-. }
    rewrite IH; [|done|].
    + induction h as [|o h IHh]; [done|]. rewrite !filter_cons.
      destruct (decide (has_key k o)).
      * rewrite decide_False by naive_solver. simpl. f_equiv. apply IHh. set_solver.
      * rewrite decide_True by done. rewrite <-Permutation_middle. f_equiv. apply IHh. set_solver.
    + intros o [Ho1 Ho2]%list_elem_of_filter. specialize (Hin o Ho2). unfold has_key in Ho1.
      set_solver.
Qed.

(** ** Properties *)

(** [Partition] splits a history into the per-key subhistories, one per key that
    occurs, in increasing key order, each in the original order, and loses or
    duplicates no operation. *)
Theorem partition_is_per_key_split h :
  exists ks, Sorted String.le ks /\ NoDup ks
    /\ (forall k, k ∈ ks <-> exists o, o ∈ h /\ in_Key (Input o) = k)
    /\ Partition h = (fun k => filter (has_key k) h) <$> ks
    /\ concat (Partition h) ≡ₚ h.
Proof.
  assert (forall k, k ∈ partition_keys h <-> exists o, o ∈ h /\ in_Key (Input o) = k) as Hks.
  { intros k. rewrite partition_keys_present. split.
    - destruct (filter (has_key k) h) as [|o p] eqn:E; [done|]. intros _. exists o.
      assert (o ∈ filter (has_key k) h) as Ho%list_elem_of_filter by (rewrite E; set_solver).
      naive_solver.
    - intros (o&Ho&Hk) E. assert (o ∈ filter (has_key k) h) as Hf
        by by apply list_elem_of_filter.
      rewrite E in Hf. set_solver. }
  destruct (partition_keys_sorted h) as [Hs Hn].
  exists (partition_keys h). do 3 (split; [done|]). split; [apply Partition_filters|].
  rewrite Partition_filters. apply concat_filters_Permutation; [done|]. intros o Ho.
  apply Hks. eauto.
Qed.

(** C7: every run of the server is sequentially what [KvModel] describes: replaying the
    part of each key through [Step] from [Init] accepts it exactly when the server never
    answered ErrNoKey to a Put on that key. *)
Theorem server_refines_KvModel ops part :
  part ∈ Partition (history MakeKVServer ops) ->
  replay Init part = Ret (forallb (fun o => negb (no_key_put o)) part).
Proof.
  rewrite Partition_filters. intros (k&->&_)%list_elem_of_fmap.
  apply (replay_history MakeKVServer ops k).
Qed.

Definition witness_ops : list op :=
  [OpPut (mkPutArgs "a" "x" 0); OpGet (mkGetArgs "b"); OpPut (mkPutArgs "a" "y" 1);
   OpGet (mkGetArgs "a"); OpPut (mkPutArgs "a" "z" 1)].

Lemma server_refines_KvModel_witness :
  exists part, Partition (history MakeKVServer witness_ops) !! 0%nat = Some part
    /\ length part = 4%nat /\ replay Init part = Ret true.
Proof.
  eexists. split; [vm_compute; reflexivity|]. split; [reflexivity|].
  transitivity (Ret (A:=bool) true); [|done].
  refine (eq_trans (server_refines_KvModel witness_ops _ _) _); [|vm_compute; reflexivity].
  vm_compute. left.
Defined.

(** The checker's model rejects the answer the server documents for a Put with a
    nonzero version on a missing key: [Step] accepts only ErrVersion or ErrMaybe there,
    while the server answers ErrNoKey. *)
Theorem KvModel_rejects_ErrNoKey kv a :
  store kv !! put_Key a = None -> put_Version a <> 0 ->
  let e := log_entry kv (OpPut a) in
  out_Err (Output e) = ErrNoKey
  /\ Step (St (abs kv (put_Key a))) (Input e) (Output e) = Ret (false, St (abs kv (put_Key a))).
Proof.
  intros Hk Hv. pose proof (step_log_entry kv (OpPut a)) as Hs. simpl in Hs |- *.
  assert (Put kv a PutReply0 = (kv, mkPutReply ErrNoKey)) as E.
  { unfold Put. rewrite Hk. by rewrite decide_False. }
  rewrite E in *. done.
Qed.

Lemma KvModel_rejects_ErrNoKey_witness :
  out_Err (Output (log_entry MakeKVServer (OpPut (mkPutArgs "k" "v" 5)))) = ErrNoKey.
Proof. apply (KvModel_rejects_ErrNoKey MakeKVServer (mkPutArgs "k" "v" 5)); [reflexivity|discriminate]. Defined.
