(* ===== verification/KVClerk.v ===== *)
(** * The key/value clerk and the interface it offers

    [src/src/kvsrv1/client.go]: [Get] and [Put] retry an RPC until a reply arrives, and
    [Put] turns an ErrVersion on a resent request into ErrMaybe.  The network decides the
    fate of every RPC; a schedule lists, for each attempt, the requests of other clients
    that the server handles first and what happens to the attempt.  The last section
    states what a clerk promises to its users ([IKVClerk] of [src/src/kvtest1/kvtest.go])
    as a class and discharges it for this clerk. *)

From S2P Require Import Prelude Rpc KVServer.
Local Open Scope Z_scope.

Record attempt := mkAttempt { before : list op; how : fate }.

(** [ck.clnt.Call]: the reply, when one arrives, and the server afterwards. *)
Definition Call {R} (handler : KVServer -> KVServer * R) (at_ : attempt) (kv : KVServer) :
    KVServer * option R :=
  let kv1 := run kv (before at_) in
  match how at_ with
  | ReqLost => (kv1, None)
  | ReplyLost => ((handler kv1).1, None)
  | Delivered => ((handler kv1).1, Some (handler kv1).2)
  end.

(** The clerk: its identity comes from the package-level [count]. *)
Record Clerk := mkClerk { server : string; id : Z }.

Definition MakeClerk (count : Z) (srv : string) : Clerk * Z :=
  let count := i64 (count + 1) in (mkClerk srv count, count).

(** [None]: the schedule ended while the clerk was still retrying. *)
Fixpoint Get (sched : list attempt) (key : string) (kv : KVServer) :
    KVServer * option (string * Tversion * Err) :=
  match sched with
  | [] => (kv, None)
  | at_ :: rest =>
      let args := mkGetArgs key in
      match Call (fun s => (s, KVServer.Get s args GetReply0)) at_ kv with
      | (kv', None) => Get rest key kv'
      | (kv', Some reply) => (kv', Some (get_Value reply, get_Version reply, get_Err reply))
      end
  end.

(** [retry] is the variadic argument: empty on the first attempt. *)
Fixpoint put (sched : list attempt) (key value : string) (version : Tversion)
    (retry : list bool) (kv : KVServer) : KVServer * option Err :=
  match sched with
  | [] => (kv, None)
  | at_ :: rest =>
      let args := mkPutArgs key value version in
      match Call (fun s => KVServer.Put s args PutReply0) at_ kv with
      | (kv', None) => put rest key value version [true] kv'
      | (kv', Some reply) =>
          if (match retry with [] => false | r :: _ => r end)
             && bool_decide (put_Err reply = ErrVersion)
          then (kv', Some ErrMaybe)
          else (kv', Some (put_Err reply))
      end
  end.

Definition Put (sched : list attempt) (key value : string) (version : Tversion)
    (kv : KVServer) : KVServer * option Err :=
  put sched key value version [] kv.

(** The attempts a call consumes: up to the first delivered one. *)
Fixpoint consumed (sched : list attempt) : list attempt :=
  match sched with
  | [] => []
  | at_ :: rest => at_ :: match how at_ with Delivered => [] | _ => consumed rest end
  end.

(** What other clients do to the server during a call. *)
Definition env (sched : list attempt) : list op := concat (before <$> consumed sched).

(** ** What a clerk promises *)

(** A Put happens atomically or not at all: when it happens the client learns OK or
    ErrMaybe; when it does not, the version did not match and the client learns the
    server's error or ErrMaybe. *)
Definition put_atomic (kv : KVServer) (a : PutArgs) (e : Err) (kv' : KVServer) : Prop :=
  (ver kv (put_Key a) = put_Version a /\ kv' = (KVServer.Put kv a PutReply0).1
   /\ (e = OK \/ e = ErrMaybe))
  \/ (ver kv (put_Key a) <> put_Version a /\ kv' = kv
      /\ (e = put_Err (KVServer.Put kv a PutReply0).2 \/ e = ErrMaybe)).

(** The interface: the entry a key reads as, and the laws of [Get] and [Put]. *)
Class IKVClerk (S : Type) := {
  entry : S -> string -> option ValueVersion;
  ck_get : S -> string -> string * Tversion * Err -> Prop;
  ck_put : S -> PutArgs -> Err -> S -> Prop;
  ck_get_law s k v n e :
    ck_get s k (v, n, e) ->
    match entry s k with
    | Some vv => v = value vv /\ n = version vv /\ e = OK
    | None => v = ""%string /\ n = 0 /\ e = ErrNoKey
    end;
  ck_put_law s a e s' :
    ck_put s a e s' ->
    (from_option version 0 (entry s (put_Key a)) = put_Version a /\ (e = OK \/ e = ErrMaybe)
     /\ entry s' (put_Key a) = Some (mkVV (put_Value a) (u64 (put_Version a + 1)))
     /\ forall k, k <> put_Key a -> entry s' k = entry s k)
    \/ (from_option version 0 (entry s (put_Key a)) <> put_Version a /\ s' = s
        /\ (e = ErrMaybe \/ e = match entry s (put_Key a) with Some _ => ErrVersion | None => ErrNoKey end))
}.

Lemma ver_entry kv k : ver kv k = from_option version 0 (store kv !! k).
Proof. unfold ver. by destruct (store kv !! k). Qed.

(** ** Retry loops *)

Lemma Call_lost {R} (h : KVServer -> KVServer * R) at_ kv kv' :
  Call h at_ kv = (kv', None) ->
  (how at_ = ReqLost /\ kv' = run kv (before at_))
  \/ (how at_ = ReplyLost /\ kv' = (h (run kv (before at_))).1).
Proof. unfold Call. destruct (how at_); intros [=]; subst; auto. Qed.

Lemma Call_delivered {R} (h : KVServer -> KVServer * R) at_ kv kv' r :
  Call h at_ kv = (kv', Some r) ->
  how at_ = Delivered /\ kv' = (h (run kv (before at_))).1 /\ r = (h (run kv (before at_))).2.
Proof. unfold Call. destruct (how at_); intros [=]; subst; auto. Qed.

Lemma env_lost at_ rest : how at_ <> Delivered -> env (at_ :: rest) = before at_ ++ env rest.
Proof. unfold env. simpl. by destruct (how at_). Qed.

Lemma env_delivered at_ rest : how at_ = Delivered -> env (at_ :: rest) = before at_.
Proof. unfold env. simpl. intros ->. simpl. by rewrite app_nil_r. Qed.

Definition some_delivered (sched : list attempt) : Prop :=
  Exists (fun at_ => how at_ = Delivered) sched.

Lemma put_returns_iff sched key v n retry kv :
  is_Some (put sched key v n retry kv).2 <-> some_delivered sched.
Proof.
  revert kv retry. induction sched as [|at_ rest IH]; intros kv retry; simpl.
  { unfold some_delivered. rewrite Exists_nil. by split; [intros [? ?]|]. }
  unfold some_delivered. rewrite Exists_cons. fold (some_delivered rest).
  destruct (Call _ at_ kv) as [kv' [r|]] eqn:E.
  - apply Call_delivered in E as (->&_). case_match; simpl; naive_solver.
  - rewrite IH. apply Call_lost in E as [[-> _]|[-> _]]; naive_solver.
Qed.

Section put_loop.
Context (key v : string) (n : Tversion).
Let a := mkPutArgs key v n.

(** Once the key has moved past the request's version, the loop changes nothing more and
    can only report ErrMaybe. *)
Lemma put_after_applied sched kv kv' e c :
  counted kv key c -> (0 < c)%nat -> n < Z.of_nat c ->
  Z.of_nat (c + length (env sched)) < 2 ^ 64 -> put sched key v n [true] kv = (kv', Some e) ->
  e = ErrMaybe /\ kv' = run kv (env sched).
Proof.
  revert kv c. induction sched as [|at_ rest IH]; intros kv c Hc Hpos Hn Hlen; simpl; [done|].
  pose proof (counted_run _ _ (before at_) _ Hc) as Hc1.
  pose proof (accepted_le key kv (before at_)) as Hle.
  assert (length (before at_) <= length (env (at_ :: rest)))%nat as Hle'.
  { destruct (decide (how at_ = Delivered)).
    - by rewrite env_delivered. - rewrite env_lost, length_app by done. lia. }
  assert (ver (run kv (before at_)) key <> n) as Hv.
  { rewrite (counted_ver _ _ _ Hc1), u64_small by lia. lia. }
  assert (exists vv, store (run kv (before at_)) !! key = Some vv) as [vv Hvv].
  { unfold counted in Hc1. case_match; [by eexists|]. lia. }
  destruct (Put_cas (run kv (before at_)) a PutReply0) as [(?&_)|(_&Hs&He)]; [done|].
  simpl in He. rewrite Hvv in He.
  destruct (Call _ at_ kv) as [kv1 [r|]] eqn:E.
  - apply Call_delivered in E as (Hd&->&->). fold a. rewrite He, Hs.
    rewrite bool_decide_true by done. simpl. intros [= <- <-]. by rewrite env_delivered.
  - intros Hp. assert (how at_ <> Delivered /\ kv1 = run kv (before at_)) as [Hd ->].
    { apply Call_lost in E as [[-> ->]|[-> ->]]; [done|]. fold a. by rewrite Hs. }
    rewrite env_lost in * by done. rewrite length_app in Hlen.
    rewrite run_app. eapply IH; [exact Hc1| | | |exact Hp]; lia.
Qed.

Lemma Put_counted kv c :
  counted kv key c -> ver kv key = n -> Z.of_nat c < 2 ^ 64 ->
  counted (KVServer.Put kv a PutReply0).1 key (S c) /\ n = Z.of_nat c.
Proof.
  intros Hc Hv Hlt. split; [|rewrite <-Hv, (counted_ver _ _ _ Hc); by apply u64_small; lia].
  pose proof (counted_exec kv key (OpPut a) c Hc) as H.
  assert (accepts kv key (OpPut a) = true) as Ha by (apply accepts_ver; by exists a).
  rewrite Ha in H. simpl in H. by destruct (KVServer.Put kv a PutReply0).
Qed.

(** The whole loop: some atomic Put happens at one point of the environment's run. *)
Lemma put_loop_linearizes sched kv kv' retry e c :
  counted kv key c -> Z.of_nat (c + length (env sched) + 1) < 2 ^ 64 ->
  put sched key v n retry kv = (kv', Some e) ->
  exists pre post mid, env sched = pre ++ post /\ put_atomic (run kv pre) a e mid
    /\ kv' = run mid post /\ (e <> ErrMaybe -> post = [])
    /\ (retry = [] -> e = ErrVersion -> length (consumed sched) = 1%nat).
Proof.
  revert kv retry c. induction sched as [|at_ rest IH]; intros kv retry c Hc Hlen; simpl; [done|].
  pose proof (counted_run _ _ (before at_) _ Hc) as Hc1.
  pose proof (accepted_le key kv (before at_)) as Hle.
  set (kv1 := run kv (before at_)) in *.
  destruct (Call _ at_ kv) as [kv2 [r|]] eqn:E.
  - apply Call_delivered in E as (Hd&->&->). fold a kv1.
    rewrite env_delivered in * by done. rewrite Hd. intros Hret.
    exists (before at_), [], kv'. rewrite app_nil_r. split; [done|].
    split; [|split; [done|split; [done|done]]].
    destruct (Put_cas kv1 a PutReply0) as [(Hv&He&_)|(Hv&Hs&He)].
    + rewrite He in Hret. rewrite andb_false_r in Hret. injection Hret as <- <-. left. auto.
    + right. destruct (_ && _) in Hret; injection Hret as <- <-; auto.
  - intros Hp. assert (how at_ <> Delivered) as Hd.
    { by apply Call_lost in E as [[-> _]|[-> _]]. }
    rewrite env_lost in * by done. rewrite length_app in Hlen.
    assert (kv2 = kv1 \/ (ver kv1 key = n /\ kv2 = (KVServer.Put kv1 a PutReply0).1)) as Hkv2.
    { apply Call_lost in E as [[_ ->]|[_ ->]]; [by left|]. fold a kv1.
      destruct (Put_cas kv1 a PutReply0) as [(Hv&_)|(Hv&Hs&_)]; [by right|]. by left. }
    assert (forall e', put rest key v n [true] kv2 = (kv', Some e') -> e' <> ErrVersion) as Hnv.
    { clear. revert kv2. induction rest as [|at' rest IH]; intros kv2 e'; simpl; [done|].
      destruct (Call _ at' kv2) as [kv3 [r|]]; [|by apply IH].
      case_bool_decide; intros [= _ <-]; done. }
    destruct Hkv2 as [->|[Hv ->]].
    + destruct (IH _ _ _ Hc1 ltac:(lia) Hp) as (pre&post&mid&He&Ha&Hkv&Hpost&_).
      exists (before at_ ++ pre), post, mid. rewrite He, app_assoc, run_app.
      repeat split; try done. intros _ He'. exfalso. by apply (Hnv e).
    + destruct (Put_counted kv1 _ Hc1 Hv ltac:(lia)) as [Hc2 Hn].
      destruct (put_after_applied rest _ _ _ _ Hc2 ltac:(lia) ltac:(lia) ltac:(lia) Hp) as [-> ->].
      exists (before at_), (env rest), (KVServer.Put kv1 a PutReply0).1.
      repeat split; try done. left. auto.
Qed.
End put_loop.

Lemma Get_loop sched key kv kv' res :
  Get sched key kv = (kv', Some res) ->
  kv' = run kv (env sched)
  /\ res = (let r := KVServer.Get kv' (mkGetArgs key) GetReply0 in
            (get_Value r, get_Version r, get_Err r)).
Proof.
  revert kv. induction sched as [|at_ rest IH]; intros kv; simpl; [done|].
  destruct (Call _ at_ kv) as [kv1 [r|]] eqn:E.
  - apply Call_delivered in E as (Hd&->&->). intros [= <- <-]. by rewrite env_delivered.
  - intros Hg. assert (how at_ <> Delivered /\ kv1 = run kv (before at_)) as [Hd ->].
    { by apply Call_lost in E as [[-> ->]|[-> ->]]. }
    rewrite env_lost, run_app by done. by apply IH.
Qed.

(** ** The clerk implements the interface *)

#[export] Program Instance kvsrv_IKVClerk : IKVClerk KVServer := {|
  entry kv k := store kv !! k;
  ck_get kv k res :=
    res = (let r := KVServer.Get kv (mkGetArgs k) GetReply0 in
           (get_Value r, get_Version r, get_Err r));
  ck_put := put_atomic;
|}.
Next Obligation.
  intros kv k v n e [= -> -> ->]. unfold KVServer.Get. simpl. by destruct (store kv !! k).
Qed.
Next Obligation.
  intros kv a e kv' [(Hv&->&He)|(Hv&->&He)].
  - left. rewrite <-ver_entry. split; [done|]. split; [done|].
    split; [by apply Put_applied|]. intros. by apply Put_lookup_ne.
  - right. rewrite <-ver_entry. split; [done|]. split; [done|].
    destruct He as [->| ->]; [right|by left].
    destruct (Put_cas kv a PutReply0) as [(?&_)|(_&_&?)]; done.
Qed.

(** ** Properties *)

(** C2: a clerk's Put is linearizable.  Whatever RPCs the network loses and whatever
    other clients do meanwhile, a Put that returns behaves as one atomic Put placed at
    some point of the other clients' requests, or as none: if it happened the clerk
    returns OK or ErrMaybe, if it did not the clerk returns the server's error or
    ErrMaybe; any answer but ErrMaybe describes the server at the moment of the reply,
    and a bare ErrVersion is only ever the answer to the first RPC. *)
Theorem clerk_Put_linearizable ops sched key v n kv' e :
  let kv := run MakeKVServer ops in
  let a := mkPutArgs key v n in
  Z.of_nat (length ops + length (env sched) + 1) < 2 ^ 64 ->
  Put sched key v n kv = (kv', Some e) ->
  exists pre post mid, env sched = pre ++ post /\ put_atomic (run kv pre) a e mid
    /\ kv' = run mid post /\ (e <> ErrMaybe -> post = [])
    /\ (e = ErrVersion -> length (consumed sched) = 1%nat).
Proof.
  intros kv a Hlen Hp.
  pose proof (counted_run MakeKVServer key ops 0 (counted_init _)) as Hc.
  pose proof (accepted_le key MakeKVServer ops).
  destruct (put_loop_linearizes key v n sched _ _ _ _ _ Hc ltac:(lia) Hp)
    as (pre&post&mid&H1&H2&H3&H4&H5).
  exists pre, post, mid. naive_solver.
Qed.

(** Two attempts: the first is applied but its reply is lost, another client reads, and
    the second sees the newer version. *)
Definition witness_sched : list attempt :=
  [mkAttempt [] ReplyLost; mkAttempt [OpGet (mkGetArgs "l")] Delivered].

Lemma clerk_Put_linearizable_witness :
  exists pre post mid, env witness_sched = pre ++ post
    /\ put_atomic (run MakeKVServer pre) (mkPutArgs "l" "v" 0) ErrMaybe mid
    /\ (Put witness_sched "l" "v" 0 MakeKVServer).1 = run mid post.
Proof.
  destruct (clerk_Put_linearizable [] witness_sched "l" "v" 0
              (Put witness_sched "l" "v" 0 MakeKVServer).1 ErrMaybe)
    as (pre&post&mid&H1&H2&H3&_).
  - vm_compute. reflexivity.
  - vm_compute. reflexivity.
  - exists pre, post, mid. auto.
Defined.

(** A clerk's Put returns as soon as the network delivers one of its attempts, and
    only then: with no delivered attempt it keeps retrying. *)
Theorem clerk_Put_returns_iff_delivered sched key v n kv :
  is_Some (Put sched key v n kv).2 <-> Exists (fun at_ => how at_ = Delivered) sched.
Proof. apply put_returns_iff. Qed.

(** A clerk's Get changes nothing at the server and returns the entry the server
    holds at the moment of the reply, or ErrNoKey with the zero value and version. *)
Theorem clerk_Get_reads_current sched key kv kv' val n e :
  Get sched key kv = (kv', Some (val, n, e)) ->
  kv' = run kv (env sched)
  /\ match store kv' !! key with
     | Some vv => val = value vv /\ n = version vv /\ e = OK
     | None => val = ""%string /\ n = 0 /\ e = ErrNoKey
     end.
Proof.
  intros [Hs Hr]%Get_loop. split; [done|].
  injection Hr as -> -> ->. unfold KVServer.Get. simpl. by destruct (store kv' !! key).
Qed.

Definition witness_kv : KVServer := run MakeKVServer [OpPut (mkPutArgs "l" "v" 0)].

Lemma clerk_Get_reads_current_witness :
  Get witness_sched "l" witness_kv = (witness_kv, Some ("v"%string, 1, OK))
  /\ witness_kv = run witness_kv (env witness_sched).
Proof.
  assert (Get witness_sched "l" witness_kv = (witness_kv, Some ("v"%string, 1, OK))) as H
    by (vm_compute; reflexivity).
  split; [exact H|]. exact (proj1 (clerk_Get_reads_current _ _ _ _ _ _ _ H)).
Defined.
