(* ===== verification/Lock.v ===== *)
(** * The lock built on a key/value clerk

    [src/src/kvsrv1/lock/lock.go].  A lock word is ["1-<id>"] when client [id] holds the
    lock and ["0-<id>"] after [id] released it.  [Acquire] and [Release] are programs that
    talk to the service through the [IKVClerk] interface; the theorems are proved against
    that interface, for any number of clients whose Gets and Puts interleave. *)

From S2P Require Import Prelude Rpc KVServer KVClerk.
Local Open Scope Z_scope.
Local Open Scope string_scope.

(** A program of clerk calls: the call it waits on and what it does with the answer.
    [PStuck] is the end of the fuel of a loop. *)
Inductive prog :=
  | PGet (key : string) (k : string * Tversion * Err -> prog)
  | PPut (a : PutArgs) (k : Err -> prog)
  | PDone
  | PStuck.

Record Lock := mkLock { lockname : string; id : string }.

(** [getId]: the package counter, and its decimal numeral. *)
Definition getId (count : Z) : string * Z :=
  let count := i64 (count + 1)%Z in (Itoa count, count).

Definition MakeLock (count : Z) (name : string) : Lock * Z :=
  let '(i, count) := getId count in (mkLock name i, count).

(** The fields of a lock word: the client named in it, and whether it is locked. *)
Definition word_id (val : string) : string :=
  match split_on "-" val with _ :: w :: _ => w | _ => "" end.

Definition word_locked (val : string) : bool :=
  match split_on "-" val with w :: _ :: _ => bool_decide (w = "1") | _ => false end.

(** The test under which [Acquire] tries to take the lock. *)
Definition may_take (lk : Lock) (val : string) : bool :=
  bool_decide (word_id val = "") || bool_decide (word_id val = id lk)
  || negb (word_locked val).

Definition acquire_put (lk : Lock) (ver : Tversion) (again : prog) : prog :=
  PPut (mkPutArgs (lockname lk) ("1-" +:+ id lk) ver)
    (fun err => if decide (err = OK) then PDone else again).

(** One turn of the loop of [Acquire]. *)
Definition acquire_iter (lk : Lock) (again : prog) : prog :=
  PGet (lockname lk) (fun '(val, ver, _) =>
    if may_take lk val then acquire_put lk ver again else again).

(** [Acquire] allowed [fuel] turns. *)
Fixpoint Acquire (fuel : nat) (lk : Lock) : prog :=
  match fuel with
  | O => PStuck
  | S fuel' => acquire_iter lk (Acquire fuel' lk)
  end.

Definition release_put (lk : Lock) (ver : Tversion) : prog :=
  PPut (mkPutArgs (lockname lk) ("0-" +:+ id lk) ver) (fun _ => PDone).

Definition Release (lk : Lock) : prog :=
  PGet (lockname lk) (fun '(val, ver, err) =>
    if decide (err = "ErrNoKey") then PDone
    else if decide (word_id val <> "") then release_put lk ver
    else PDone).

(** ** Concurrent clients *)

(** Where a client is: outside, inside a call to [Acquire], holding the lock, or inside a
    call to [Release]. *)
Inductive status :=
  | Out
  | Acquiring (p : prog)
  | In
  | Releasing (p : prog).

Section clients.
Context {S : Type} `{IKVClerk S} (name : string).

(** Client [c] uses the lock object with identity [c]. *)
Definition lk (c : Z) : Lock := mkLock name (Itoa c).

Abbreviation conf := (S * (Z -> status))%type.

(** Clients call [Release] only while they hold the lock, as the lock's users do;
    [step_other] is a Put of anybody to another key. *)
Inductive lstep : conf -> conf -> Prop :=
  | step_acquire s pcs c fuel : (0 < c)%Z ->
      pcs c = Out -> lstep (s, pcs) (s, <[c := Acquiring (Acquire fuel (lk c))]> pcs)
  | step_acq_get s pcs c key k res :
      pcs c = Acquiring (PGet key k) -> ck_get s key res ->
      lstep (s, pcs) (s, <[c := Acquiring (k res)]> pcs)
  | step_acq_put s pcs c a k e s' :
      pcs c = Acquiring (PPut a k) -> ck_put s a e s' ->
      lstep (s, pcs) (s', <[c := Acquiring (k e)]> pcs)
  | step_acquired s pcs c :
      pcs c = Acquiring PDone -> lstep (s, pcs) (s, <[c := In]> pcs)
  | step_release s pcs c :
      pcs c = In -> lstep (s, pcs) (s, <[c := Releasing (Release (lk c))]> pcs)
  | step_rel_get s pcs c key k res :
      pcs c = Releasing (PGet key k) -> ck_get s key res ->
      lstep (s, pcs) (s, <[c := Releasing (k res)]> pcs)
  | step_rel_put s pcs c a k e s' :
      pcs c = Releasing (PPut a k) -> ck_put s a e s' ->
      lstep (s, pcs) (s', <[c := Releasing (k e)]> pcs)
  | step_released s pcs c :
      pcs c = Releasing PDone -> lstep (s, pcs) (s, <[c := Out]> pcs)
  | step_other s pcs a e s' :
      put_Key a <> name -> ck_put s a e s' -> lstep (s, pcs) (s', pcs).

(** The initial configuration: nobody has touched the lock. *)
Definition linit (cf : conf) : Prop := entry cf.1 name = None /\ forall c, cf.2 c = Out.

(** ** The invariant *)

Definition entry_ver (s : S) : Z := from_option version 0 (entry s name).
Definition entry_val (s : S) : string := from_option value "" (entry s name).

(** [c] holds the lock: inside the critical section, or about to enter it, or in the
    part of [Release] before its Put. *)
Definition owns (st : status) : Prop :=
  match st with
  | In | Acquiring PDone | Releasing (PGet _ _) | Releasing (PPut _ _) => True
  | _ => False
  end.

(** What each status says about the service. *)
Definition status_ok (s : S) (c : Z) (st : status) : Prop :=
  match st with
  | Out | Releasing PDone => True
  | In | Acquiring PDone => entry_val s = "1-" +:+ Itoa c
  | Acquiring (PGet key k) => exists fuel, PGet key k = Acquire fuel (lk c)
  | Acquiring (PPut a k) => exists fuel ver,
      PPut a k = acquire_put (lk c) ver (Acquire fuel (lk c))
      /\ (0 <= ver <= entry_ver s)%Z /\ (entry_ver s = ver -> may_take (lk c) (entry_val s) = true)
  | Acquiring PStuck => True
  | Releasing (PGet key k) => PGet key k = Release (lk c) /\ entry_val s = "1-" +:+ Itoa c
  | Releasing (PPut a k) => PPut a k = release_put (lk c) (entry_ver s)
      /\ entry_val s = "1-" +:+ Itoa c
  | Releasing PStuck => False
  end.

(** After [n] steps the version is at most [n]. *)
Definition linv (n : nat) (cf : conf) : Prop :=
  (0 <= entry_ver cf.1 <= Z.of_nat n)%Z
  /\ forall c, cf.2 c <> Out -> (0 < c)%Z /\ status_ok cf.1 c (cf.2 c).

(** ** Lock words *)

Lemma word_id_locked c : (0 < c)%Z -> word_id ("1-" +:+ Itoa c) = Itoa c.
Proof.
  intros. unfold word_id. change ("1-" +:+ Itoa c) with ("1" +:+ String "-" (Itoa c)).
  rewrite split_on_app by done. rewrite split_on_absent; [done|]. apply Itoa_no_dash. lia.
Qed.

Lemma word_locked_locked c : (0 < c)%Z -> word_locked ("1-" +:+ Itoa c) = true.
Proof.
  intros. unfold word_locked. change ("1-" +:+ Itoa c) with ("1" +:+ String "-" (Itoa c)).
  rewrite split_on_app by done. rewrite split_on_absent; [done|]. apply Itoa_no_dash. lia.
Qed.

(** A locked word may be taken only by the client it names. *)
Lemma may_take_locked c d :
  (0 < d)%Z -> may_take (lk c) ("1-" +:+ Itoa d) = true -> c = d.
Proof.
  intros Hd. unfold may_take. rewrite word_id_locked, word_locked_locked by done. simpl.
  rewrite orb_false_r, orb_true_iff, !bool_decide_eq_true.
  intros [He|He]; [by apply Itoa_nonempty in He|]. by apply Itoa_inj in He.
Qed.

Lemma word_inj c d : "1-" +:+ Itoa c = "1-" +:+ Itoa d -> c = d.
Proof. intros [= He]. by apply Itoa_inj. Qed.

(** ** Preservation *)

Lemma status_ok_owner s c st : owns st -> status_ok s c st -> entry_val s = "1-" +:+ Itoa c.
Proof. destruct st as [|[]| |[]]; simpl; naive_solver. Qed.

(** A change to other keys does not matter. *)
Lemma status_ok_ext s s' c st :
  entry s' name = entry s name -> status_ok s c st -> status_ok s' c st.
Proof.
  intros He. assert (entry_val s' = entry_val s) as Hv by (unfold entry_val; by rewrite He).
  assert (entry_ver s' = entry_ver s) as Hn by (unfold entry_ver; by rewrite He).
  unfold status_ok. by rewrite Hv, Hn.
Qed.

(** A Put on the lock word by somebody else, which raises the version, keeps the facts of
    every client that does not own the lock. *)
Lemma status_ok_put s s' c st :
  (entry_ver s < entry_ver s')%Z -> ~ owns st -> status_ok s c st -> status_ok s' c st.
Proof.
  intros Hlt Hown. destruct st as [|[]| |[]]; simpl in *; try naive_solver.
  intros (fuel&ver&->&Hle&_). exists fuel, ver. split; [done|]. lia.
Qed.

(** Reading the lock word. *)
Lemma ck_get_entry s val n e :
  ck_get s name (val, n, e) ->
  val = entry_val s /\ n = entry_ver s /\ (e = "ErrNoKey" -> entry_val s = "").
Proof.
  intros Hg%ck_get_law. unfold entry_val, entry_ver.
  destruct (entry s name); simpl in *; naive_solver.
Qed.

(** A Put on the lock word raises the version by one or changes nothing. *)
Lemma ck_put_word s a e s' :
  put_Key a = name -> (0 <= entry_ver s)%Z -> (entry_ver s + 1 < 2 ^ 64)%Z -> ck_put s a e s' ->
  (entry_ver s = put_Version a /\ (e = OK \/ e = ErrMaybe)
   /\ entry_ver s' = (entry_ver s + 1)%Z /\ entry_val s' = put_Value a)
  \/ (entry_ver s <> put_Version a /\ s' = s /\ e <> OK).
Proof.
  intros Hk H0 Hlt Hp%ck_put_law. rewrite Hk in Hp. fold (entry_ver s) in Hp.
  destruct Hp as [(Hv&He&Hs&_)|(Hv&->&He)].
  2: { right. split; [done|]. split; [done|]. by destruct He as [->| ->]; [|case_match]. }
  left.
  split; [done|]. split; [done|]. unfold entry_val, entry_ver. rewrite Hs. simpl.
  split; [|done]. fold (entry_ver s). rewrite u64_small; lia.
Qed.

Lemma ck_put_other s a e s' :
  put_Key a <> name -> ck_put s a e s' -> entry s' name = entry s name.
Proof. intros Hk Hp%ck_put_law. naive_solver. Qed.

(** One client moves; the others keep their facts. *)
Lemma linv_update n n' s s' pcs c st :
  linv n (s, pcs) -> (0 < c)%Z -> (0 <= entry_ver s' <= Z.of_nat n')%Z -> status_ok s' c st ->
  (forall d, d <> c -> pcs d <> Out -> (0 < d)%Z -> status_ok s d (pcs d) -> status_ok s' d (pcs d)) ->
  linv n' (s', <[c := st]> pcs).
Proof.
  intros [Hv Hc] Hpos Hv' Hst Hoth. split; [done|]. intros d Hd. simpl in *.
  destruct (decide (c = d)) as [<-|Hne].
  - by rewrite fn_lookup_insert.
  - rewrite fn_lookup_insert_ne in * by done. destruct (Hc d Hd). auto.
Qed.

Lemma status_ok_Acquire s c fuel : status_ok s c (Acquiring (Acquire fuel (lk c))).
Proof. destruct fuel; simpl; [done|]. by eexists (Datatypes.S _). Qed.

Lemma linv_get n s pcs c st key k res :
  linv n (s, pcs) -> ck_get s key res ->
  (pcs c = Acquiring (PGet key k) /\ st = Acquiring (k res))
  \/ (pcs c = Releasing (PGet key k) /\ st = Releasing (k res)) ->
  linv (Datatypes.S n) (s, <[c := st]> pcs).
Proof.
  intros Hinv Hg Hpc. destruct res as [[val m] e]. pose proof Hinv as [Hv Hc].
  destruct (Hc c) as [Hpos Hst]; [simpl; destruct Hpc as [[-> _]|[-> _]]; done|].
  eapply linv_update; [done|done|simpl in *; lia| |done].
  destruct Hpc as [[Hpc ->]|[Hpc ->]]; simpl in Hst; rewrite Hpc in Hst.
  - destruct Hst as [[|fuel] Heq]; [done|]. injection Heq as -> ->.
    apply ck_get_entry in Hg as (->&->&_). cbv beta iota. simpl in Hv.
    destruct (may_take (lk c) (entry_val s)) eqn:E; [|apply status_ok_Acquire].
    exists fuel, (entry_ver s). split; [done|]. split; [lia|done].
  - destruct Hst as [[= -> ->] Hval]. apply ck_get_entry in Hg as (->&->&He).
    rewrite decide_False by (intros ->; rewrite Hval in He; naive_solver).
    rewrite Hval, word_id_locked by done. rewrite decide_True by apply Itoa_nonempty. done.
Qed.

Lemma linv_put n s s' pcs c st a k e :
  linv n (s, pcs) -> (Z.of_nat n + 1 < 2 ^ 64)%Z -> ck_put s a e s' ->
  (pcs c = Acquiring (PPut a k) /\ st = Acquiring (k e))
  \/ (pcs c = Releasing (PPut a k) /\ st = Releasing (k e)) ->
  linv (Datatypes.S n) (s', <[c := st]> pcs).
Proof.
  intros Hinv Hn Hp Hpc. pose proof Hinv as [Hv Hc]. simpl in Hv.
  destruct (Hc c) as [Hpos Hst]; [simpl; destruct Hpc as [[-> _]|[-> _]]; done|].
  assert (put_Key a = name) as Hk.
  { destruct Hpc as [[Hpc _]|[Hpc _]]; simpl in Hst; rewrite Hpc in Hst.
    - by destruct Hst as (fuel&ver&[= -> _]&_). - by destruct Hst as [[= -> _] _]. }
  assert (entry_ver s = put_Version a -> forall d, (0 < d)%Z -> entry_val s = "1-" +:+ Itoa d -> c = d)
    as Hown.
  { intros He d Hd Hval. destruct Hpc as [[Hpc _]|[Hpc _]]; simpl in Hst; rewrite Hpc in Hst.
    - destruct Hst as (fuel&ver&[= -> _]&_&Ht). specialize (Ht He). rewrite Hval in Ht.
      by apply may_take_locked in Ht.
    - destruct Hst as [_ Hst]. apply word_inj. congruence. }
  destruct (ck_put_word s a e s' Hk ltac:(lia) ltac:(lia) Hp) as [(He&Hok&Hver&Hval)|(He&->&Hok)].
  - eapply linv_update; [done|done|simpl; lia| |].
    + destruct Hpc as [[Hpc ->]|[Hpc ->]]; simpl in Hst; rewrite Hpc in Hst.
      * destruct Hst as (fuel&ver&[= -> ->]&_). case_decide; [done|apply status_ok_Acquire].
      * by destruct Hst as [[= -> ->] _].
    + intros d Hd Hout Hdpos Hdst. apply (status_ok_put s); [lia| |done].
      intros Ho%(status_ok_owner s d); [|done]. by apply Hd, eq_sym, (Hown He d).
  - eapply linv_update; [done|done|simpl; lia| |done].
    destruct Hpc as [[Hpc ->]|[Hpc ->]]; simpl in Hst; rewrite Hpc in Hst.
    + destruct Hst as (fuel&ver&[= -> ->]&_). case_decide; [done|apply status_ok_Acquire].
    + by destruct Hst as [[= -> ->] _].
Qed.

Lemma linv_step n cf cf' :
  linv n cf -> (Z.of_nat n + 1 < 2 ^ 64)%Z -> lstep cf cf' -> linv (Datatypes.S n) cf'.
Proof.
  intros Hinv Hn Hstep. pose proof Hinv as [Hv Hc].
  destruct Hstep as [s pcs c fuel Hpos Hpc|s pcs c key k res Hpc Hg|s pcs c a k e s' Hpc Hp
    |s pcs c Hpc|s pcs c Hpc|s pcs c key k res Hpc Hg|s pcs c a k e s' Hpc Hp
    |s pcs c Hpc|s pcs a e s' Hk Hp]; simpl in Hv.
  - eapply linv_update; [done|done|lia|apply status_ok_Acquire|done].
  - eapply linv_get; eauto.
  - eapply linv_put; eauto.
  - destruct (Hc c) as [Hpos Hst]; [simpl; by rewrite Hpc|]. simpl in Hst. rewrite Hpc in Hst.
    eapply linv_update; [done|done|lia|done|done].
  - destruct (Hc c) as [Hpos Hst]; [simpl; by rewrite Hpc|]. simpl in Hst. rewrite Hpc in Hst.
    eapply linv_update; [done|done|lia|done|done].
  - eapply linv_get; eauto.
  - eapply linv_put; eauto.
  - destruct (Hc c) as [Hpos Hst]; [simpl; by rewrite Hpc|].
    eapply linv_update; [done|done|lia|done|done].
  - apply (ck_put_other _ _ _ _ Hk) in Hp. split; simpl.
    + unfold entry_ver in *. rewrite Hp. lia.
    + intros c Ho. destruct (Hc c Ho) as [Hpos Hst]. split; [done|]. by eapply status_ok_ext.
Qed.

Lemma linv_init cf : linit cf -> linv 0 cf.
Proof.
  intros [He Hout]. split; [unfold entry_ver; by rewrite He|]. intros c Hc. by rewrite Hout in Hc.
Qed.

Lemma linv_nsteps n cf cf' m :
  linv m cf -> (Z.of_nat (m + n) < 2 ^ 64)%Z -> nsteps lstep n cf cf' -> linv (m + n) cf'.
Proof.
  intros Hinv Hlen Hs. revert m Hinv Hlen. induction Hs as [cf|n cf cf1 cf' Hs1 Hs IH]; intros m Hinv Hlen.
  - by rewrite Nat.add_0_r.
  - rewrite Nat.add_succ_r, <-Nat.add_succ_l. apply IH; [|lia]. eapply linv_step; [done|lia|done].
Qed.
End clients.

(** ** Running a program alone on a reliable network *)

Fixpoint interp (p : prog) (kv : KVServer) : KVServer * prog :=
  match p with
  | PGet key k =>
      let r := KVServer.Get kv (mkGetArgs key) GetReply0 in
      interp (k (get_Value r, get_Version r, get_Err r)) kv
  | PPut a k => let '(kv', r) := KVServer.Put kv a PutReply0 in interp (k (put_Err r)) kv'
  | PDone => (kv, PDone)
  | PStuck => (kv, PStuck)
  end.

(** ** Properties *)

(** C1: mutual exclusion.  For any number of clients sharing one lock through any clerk
    that satisfies the interface, in any interleaving of their Gets, Puts and calls,
    with lost replies reported as ErrMaybe, two clients are never inside the critical
    section together, as long as fewer than 2^64 steps are taken. *)
Theorem lock_mutual_exclusion {S} `{IKVClerk S} name n cf cf' c d :
  linit name cf -> (Z.of_nat n < 2 ^ 64)%Z -> nsteps (lstep name) n cf cf' ->
  cf'.2 c = In -> cf'.2 d = In -> c = d.
Proof.
  intros Hinit Hn Hs Hc Hd.
  destruct (linv_nsteps name n cf cf' 0 (linv_init _ _ Hinit) Hn Hs) as [_ Hinv].
  destruct (Hinv c) as [_ Hc']; [by rewrite Hc|]. destruct (Hinv d) as [_ Hd']; [by rewrite Hd|].
  rewrite Hc in Hc'. rewrite Hd in Hd'. simpl in *. apply word_inj. congruence.
Qed.

Definition witness_cf : KVServer * (Z -> status) := (MakeKVServer, fun _ => Out).

Lemma lock_mutual_exclusion_witness :
  exists cf', nsteps (lstep "l") 4 witness_cf cf' /\ cf'.2 1%Z = In /\ (1 = 1)%Z.
Proof.
  pose (w := mkPutArgs "l" "1-1" 0).
  assert (exists cf', nsteps (lstep "l") 4 witness_cf cf' /\ cf'.2 1%Z = In) as (cf'&Hs&Hin).
  { eexists. split.
    - eapply nsteps_l; [apply (step_acquire "l" _ _ 1%Z 1); [lia|reflexivity]|].
      eapply nsteps_l; [eapply (step_acq_get "l" _ _ 1%Z); [reflexivity|reflexivity]|].
      eapply nsteps_l.
      { eapply (step_acq_put "l" _ _ 1%Z w _ OK); [reflexivity|left].
        split; [reflexivity|]. split; [reflexivity|]. by left. }
      eapply nsteps_l; [apply (step_acquired "l" _ _ 1%Z); reflexivity|]. apply nsteps_O.
    - reflexivity. }
  exists cf'. split; [exact Hs|]. split; [exact Hin|].
  refine (lock_mutual_exclusion "l" 4 witness_cf cf' 1 1 _ _ Hs Hin Hin).
  - split; reflexivity.
  - vm_compute. reflexivity.
Defined.

(** A holder's Release always frees the lock, whatever the clerk answers: when the
    Put of Release takes place the lock word becomes "0-<id>", every client may take
    it, and the client that released no longer owns it. *)
Theorem release_frees_lock {S} `{IKVClerk S} name n cf cf' s pcs c a k e s' :
  linit name cf -> (Z.of_nat n + 1 < 2 ^ 64)%Z -> nsteps (lstep name) n cf cf' ->
  cf' = (s, pcs) -> pcs c = Releasing (PPut a k) -> ck_put s a e s' ->
  entry_val name s' = "0-" +:+ Itoa c /\ k e = PDone
  /\ forall d, may_take (lk name d) (entry_val name s') = true.
Proof.
  intros Hinit Hn Hs -> Hpc Hp.
  destruct (linv_nsteps name n cf _ 0 (linv_init _ _ Hinit) ltac:(lia) Hs) as [Hv Hinv].
  destruct (Hinv c) as [Hpos Hst]; [simpl; by rewrite Hpc|]. simpl in Hst, Hv.
  rewrite Hpc in Hst. destruct Hst as [[= -> ->] _].
  destruct (ck_put_word name s (mkPutArgs name ("0-" +:+ Itoa c) (entry_ver name s)) e s')
    as [(_&_&_&->)|(Hne&_)]; [done|lia|lia|done| |done].
  split; [done|]. split; [done|]. intros d. unfold may_take. simpl.
  replace (word_locked ("0-" +:+ Itoa c)) with false; [by rewrite orb_true_r|].
  unfold word_locked. change ("0-" +:+ Itoa c) with ("0" +:+ String "-" (Itoa c)).
  rewrite split_on_app by done. by destruct (split_on "-" (Itoa c)).
Qed.

Lemma release_frees_lock_witness :
  exists s, entry_val (S:=KVServer) "l" s = "0-1".
Proof.
  pose (w := mkPutArgs "l" "1-1" 0). pose (w' := mkPutArgs "l" "0-1" 1).
  assert (exists cf', nsteps (lstep "l") 6 witness_cf cf'
    /\ cf'.1 = (KVServer.Put MakeKVServer w PutReply0).1
    /\ cf'.2 1%Z = Releasing (release_put (lk "l" 1%Z) 1)) as (cf'&Hs&Hs1&Hr).
  { eexists. split; [|split].
    - eapply nsteps_l; [apply (step_acquire "l" _ _ 1%Z 1); [lia|reflexivity]|].
      eapply nsteps_l; [eapply (step_acq_get "l" _ _ 1%Z); [reflexivity|reflexivity]|].
      eapply nsteps_l.
      { eapply (step_acq_put "l" _ _ 1%Z w _ OK); [reflexivity|left].
        split; [reflexivity|]. split; [reflexivity|]. by left. }
      eapply nsteps_l; [apply (step_acquired "l" _ _ 1%Z); reflexivity|].
      eapply nsteps_l; [apply (step_release "l" _ _ 1%Z); reflexivity|].
      eapply nsteps_l; [eapply (step_rel_get "l" _ _ 1%Z); [reflexivity|reflexivity]|].
      apply nsteps_O.
    - reflexivity.
    - reflexivity. }
  destruct cf' as [s pcs]. simpl in Hs1, Hr. subst s.
  exists (KVServer.Put (KVServer.Put MakeKVServer w PutReply0).1 w' PutReply0).1.
  refine (proj1 (release_frees_lock "l" 6 witness_cf _ _ pcs 1 _ _ ErrMaybe _ _ _ Hs eq_refl Hr _)).
  - split; reflexivity.
  - vm_compute. reflexivity.
  - left. split; [reflexivity|]. split; [reflexivity|]. by right.
Defined.

(** Uncontended and on a reliable network, [Acquire] returns in its first turn
    whenever the lock word is not locked by another client, leaving the client's own
    locked word at the next version, and a following [Release] returns and unlocks it. *)
Theorem acquire_release_uncontended kv name c fuel :
  (0 < c)%Z -> (0 <= ver kv name)%Z -> (ver kv name + 2 < 2 ^ 64)%Z ->
  may_take (lk name c) (from_option value "" (store kv !! name)) = true ->
  let '(kv1, p1) := interp (Acquire (S fuel) (lk name c)) kv in
  let '(kv2, p2) := interp (Release (lk name c)) kv1 in
  p1 = PDone /\ store kv1 !! name = Some (mkVV ("1-" +:+ Itoa c) (ver kv name + 1))
  /\ p2 = PDone /\ store kv2 !! name = Some (mkVV ("0-" +:+ Itoa c) (ver kv name + 2)).
Proof.
  intros Hc H0 Hlt Hm. cbn [Acquire acquire_iter interp lk lockname id].
  assert (KVServer.Get kv (mkGetArgs name) GetReply0
          = mkGetReply (from_option value "" (store kv !! name)) (ver kv name)
              (if store kv !! name is Some _ then OK else ErrNoKey)) as ->.
  { unfold KVServer.Get, ver. simpl. by destruct (store kv !! name). }
  cbn [get_Value get_Version get_Err]. rewrite Hm.
  cbn [acquire_put interp]. set (a := mkPutArgs _ _ _).
  pose proof (Put_applied kv a PutReply0 eq_refl) as [Hr Hl].
  destruct (KVServer.Put kv a PutReply0) as [kv1 r1]. simpl in Hr, Hl. subst r1. simpl.
  rewrite u64_small in Hl by lia.
  unfold KVServer.Get. simpl. rewrite Hl. simpl. rewrite word_id_locked by done.
  rewrite decide_True by apply Itoa_nonempty. cbn [release_put interp].
  set (b := mkPutArgs _ _ _).
  assert (ver kv1 name = ver kv name + 1)%Z as Hv1 by (unfold ver at 1; by rewrite Hl).
  pose proof (Put_applied kv1 b PutReply0 Hv1) as [Hr2 Hl2].
  destruct (KVServer.Put kv1 b PutReply0) as [kv2 r2]. simpl in Hr2, Hl2 |- *.
  rewrite u64_small in Hl2 by lia. rewrite Hl2. repeat split. do 2 f_equal. lia.
Qed.

Lemma acquire_release_uncontended_witness :
  (interp (Acquire 1 (lk "l" 7)) MakeKVServer).2 = PDone.
Proof.
  pose proof (acquire_release_uncontended MakeKVServer "l" 7 0 ltac:(lia)
                ltac:(vm_compute; discriminate) ltac:(vm_compute; reflexivity)
                ltac:(vm_compute; reflexivity)) as H.
  destruct (interp (Acquire 1 (lk "l" 7)) MakeKVServer) as [kv1 p1].
  destruct (interp (Release (lk "l" 7)) kv1). exact (proj1 H).
Defined.
