(* ===== verification/Raft.v ===== *)
(** * Raft leader election

    [src/src/raft1/raft.go], the part the repository implements: terms, votes, elections
    and heartbeats (Lab 3A); the log, persistence and snapshots are empty methods there
    and empty here.  This file models one server.  Every RPC handler and every reply
    handler holds [rf.mu] for its whole body and is one atomic transformer; the pieces of
    [makeCandidate], [requestVoteFromServer] and [startHeartbeat] that run outside the
    mutex are separate definitions, so that [RaftCluster] can interleave them. *)

From S2P Require Import Prelude.
Local Open Scope Z_scope.

Inductive Role := follower | candidate | leader.

#[export] Instance Role_eq_dec : EqDecision Role.
Proof. solve_decision. Defined.

(** ** Vote counter *)

Record Votes := mkVotes { counter : Z; total : Z }.

Definition NewVotes (total : Z) : Votes := mkVotes 0 total.
Definition Vote (v : Votes) : Votes := mkVotes (i64 (counter v + 1)) (total v).
Definition HasMajority (v : Votes) : bool := bool_decide (counter v > total v `quot` 2).
Definition Reset (v : Votes) : Votes := mkVotes 0 (total v).

(** ** Server state

    A [context.CancelFunc] is the number of the context it cancels; a field that was never
    assigned is [None], and calling it is a nil-function panic.  [cancelled] holds the
    contexts whose [Done] channel is closed and [nctx] the next unused number. *)

Record Raft := mkRaft {
  npeers : nat;
  me : Z;
  role : Role;
  currentTerm : Z;
  votedFor : Z;
  votes : Votes;
  abortHeartbeat : option nat;
  abortElection : option nat;
  checkpoint : Z;
  cancelled : gset nat;
  nctx : nat
}.

Definition set_role (r : Role) (rf : Raft) : Raft :=
  mkRaft (npeers rf) (me rf) r (currentTerm rf) (votedFor rf) (votes rf) (abortHeartbeat rf)
    (abortElection rf) (checkpoint rf) (cancelled rf) (nctx rf).
Definition set_term (t : Z) (rf : Raft) : Raft :=
  mkRaft (npeers rf) (me rf) (role rf) t (votedFor rf) (votes rf) (abortHeartbeat rf)
    (abortElection rf) (checkpoint rf) (cancelled rf) (nctx rf).
Definition set_votedFor (c : Z) (rf : Raft) : Raft :=
  mkRaft (npeers rf) (me rf) (role rf) (currentTerm rf) c (votes rf) (abortHeartbeat rf)
    (abortElection rf) (checkpoint rf) (cancelled rf) (nctx rf).
Definition set_votes (v : Votes) (rf : Raft) : Raft :=
  mkRaft (npeers rf) (me rf) (role rf) (currentTerm rf) (votedFor rf) v (abortHeartbeat rf)
    (abortElection rf) (checkpoint rf) (cancelled rf) (nctx rf).
Definition set_checkpoint (now : Z) (rf : Raft) : Raft :=
  mkRaft (npeers rf) (me rf) (role rf) (currentTerm rf) (votedFor rf) (votes rf)
    (abortHeartbeat rf) (abortElection rf) now (cancelled rf) (nctx rf).
Definition cancel_ctx (i : nat) (rf : Raft) : Raft :=
  mkRaft (npeers rf) (me rf) (role rf) (currentTerm rf) (votedFor rf) (votes rf)
    (abortHeartbeat rf) (abortElection rf) (checkpoint rf) ({[i]} ∪ cancelled rf) (nctx rf).

(** Calling a stored cancel function. *)
Definition call_cancel (f : option nat) (rf : Raft) : go Raft :=
  match f with
  | None => Crash Panic
  | Some i => Ret (cancel_ctx i rf)
  end.

(** [readPersist] and [persist] restore and save nothing. *)
Definition readPersist (data : list Z) (rf : Raft) : Raft :=
  match data with
  | [] => rf
  | _ => rf
  end.
Definition persist (rf : Raft) : Raft := rf.

(** [Make]: the state before the election ticker starts. *)
Definition Make (npeers : nat) (me now : Z) (raftstate : list Z) : Raft :=
  readPersist raftstate
    (mkRaft npeers me follower 0 (-1) (NewVotes (Z.of_nat npeers)) None None now ∅ 0).

Definition Start (rf : Raft) : Z * Z * bool := (-1, -1, true).
Definition GetState (rf : Raft) : Z * bool := (currentTerm rf, bool_decide (role rf = leader)).
Definition Snapshot (index : Z) (snapshot : list Z) (rf : Raft) : Raft := rf.

(** ** Role transitions *)

Definition makeFollower (newTerm : Z) (rf : Raft) : go Raft :=
  let prevRole := role rf in
  let rf := set_term newTerm (set_role follower rf) in
  match prevRole with
  | candidate => call_cancel (abortElection rf) rf
  | leader => call_cancel (abortHeartbeat rf) rf
  | follower => Ret rf
  end.

(** The critical section of [makeCandidate]; the call to [requestVotes] follows outside. *)
Definition makeCandidate (now : Z) (rf : Raft) : go Raft :=
  rf ← (match role rf with leader => call_cancel (abortHeartbeat rf) rf | _ => Ret rf end);
  let rf := set_role candidate rf in
  let rf := set_term (i64 (currentTerm rf + 1)) rf in
  let rf := set_votes (Vote (votes rf)) rf in
  let rf := set_votedFor (me rf) rf in
  Ret (set_checkpoint now rf).

(** [makeLeader]: the role is assigned before it is tested.  [startHeartbeat] is spawned by
    the caller's step. *)
Definition makeLeader (rf : Raft) : go Raft :=
  let rf := set_role leader rf in
  match role rf with
  | candidate => call_cancel (abortElection rf) rf
  | _ => Ret rf
  end.

(** ** RPC handlers *)

Record RequestVoteArgs := mkRVArgs { rv_Term : Z; rv_CandidateId : Z }.
Record RequestVoteReply := mkRVReply { rvr_Term : Z; rvr_VoteGranted : bool }.
Record AppendEntriesArgs := mkAEArgs { ae_Term : Z; ae_LeaderId : Z }.
Record AppendEntriesReply := mkAEReply { aer_Term : Z; aer_Success : bool }.

Definition RVReply0 : RequestVoteReply := mkRVReply 0 false.
Definition AEReply0 : AppendEntriesReply := mkAEReply 0 false.

Definition RequestVote (args : RequestVoteArgs) (reply : RequestVoteReply) (now : Z) (rf : Raft) :
    Raft * RequestVoteReply :=
  let '(rf, reply) :=
    if decide (rv_Term args < currentTerm rf) then
      (rf, mkRVReply (currentTerm rf) false)
    else if decide (rv_Term args = currentTerm rf /\ votedFor rf <> -1
                    /\ votedFor rf <> rv_CandidateId args) then
      (rf, mkRVReply (rvr_Term reply) false)
    else
      (set_term (rv_Term args) (set_votedFor (rv_CandidateId args) rf),
       mkRVReply (rvr_Term reply) true) in
  (set_checkpoint now rf, reply).

Definition AppendEntries (args : AppendEntriesArgs) (reply : AppendEntriesReply) (now : Z)
    (rf : Raft) : go (Raft * AppendEntriesReply) :=
  let reply := mkAEReply (currentTerm rf) (aer_Success reply) in
  if decide (ae_Term args < currentTerm rf) then
    Ret (rf, mkAEReply (aer_Term reply) false)
  else
    let reply := mkAEReply (aer_Term reply) true in
    rf ← makeFollower (aer_Term reply) rf;
    Ret (set_checkpoint now rf, reply).

(** ** Elections *)

Definition shouldStartElection (now rnd : Z) (rf : Raft) : bool :=
  let ms := 1000 + rnd `rem` 1500 in
  bool_decide (i64 (now - checkpoint rf) > ms) && bool_decide (role rf <> leader).

(** The other servers, in the order of [rf.peers]. *)
Definition others (rf : Raft) : list nat :=
  filter (fun i => Z.of_nat i <> me rf) (seq 0 (npeers rf)).

(** [requestVotes]: a fresh context, and the servers a goroutine is started for. *)
Definition requestVotes (rf : Raft) : Raft * nat * list nat :=
  let ctx := nctx rf in
  (mkRaft (npeers rf) (me rf) (role rf) (currentTerm rf) (votedFor rf) (votes rf)
     (abortHeartbeat rf) (Some ctx) (checkpoint rf) (cancelled rf) (S ctx),
   ctx, others rf).

(** The arguments [requestVoteFromServer] builds when its goroutine starts to run. *)
Definition requestVoteArgs (rf : Raft) : RequestVoteArgs := mkRVArgs (currentTerm rf) (me rf).

(** The second component says whether [makeLeader] started a heartbeat goroutine. *)
Definition handleRequestVote (reply : RequestVoteReply) (rf : Raft) : go (Raft * bool) :=
  if decide (rvr_Term reply > currentTerm rf) then
    rf ← makeFollower (rvr_Term reply) rf; Ret (rf, false)
  else if rvr_VoteGranted reply then
    let rf := set_votes (Vote (votes rf)) rf in
    if HasMajority (votes rf) && bool_decide (role rf = candidate)
    then rf ← makeLeader rf; Ret (rf, true)
    else Ret (rf, false)
  else Ret (rf, false).

(** ** Heartbeats *)

(** [startHeartbeat] up to its loop: a fresh context that demotion will cancel. *)
Definition startHeartbeat (rf : Raft) : Raft * nat :=
  let ctx := nctx rf in
  (mkRaft (npeers rf) (me rf) (role rf) (currentTerm rf) (votedFor rf) (votes rf)
     (Some ctx) (abortElection rf) (checkpoint rf) (cancelled rf) (S ctx), ctx).

(** The arguments [sendHeartbeat] builds under the mutex. *)
Definition heartbeatArgs (rf : Raft) : AppendEntriesArgs := mkAEArgs (currentTerm rf) (me rf).

Definition handleAppendEntries (reply : AppendEntriesReply) (rf : Raft) : go Raft :=
  if decide (aer_Term reply > currentTerm rf) then makeFollower (aer_Term reply) rf
  else Ret rf.

(** ** Lemmas about one server *)

(** The fields no handler touches, and the vote. *)
Lemma makeFollower_ok t rf rf' :
  makeFollower t rf = Ret rf' ->
  role rf' = follower /\ currentTerm rf' = t /\ votedFor rf' = votedFor rf
  /\ votes rf' = votes rf /\ me rf' = me rf /\ npeers rf' = npeers rf
  /\ checkpoint rf' = checkpoint rf /\ abortElection rf' = abortElection rf
  /\ abortHeartbeat rf' = abortHeartbeat rf.
Proof.
  unfold makeFollower, call_cancel. intros H.
  destruct (role rf), (abortElection rf) eqn:E1, (abortHeartbeat rf) eqn:E2; simpl in H;
    rewrite ?E1, ?E2 in H; simplify_eq/=; rewrite ?E1, ?E2; auto 10.
Qed.

Lemma makeFollower_crash t rf c :
  makeFollower t rf = Crash c ->
  c = Panic /\ ((role rf = candidate /\ abortElection rf = None)
                \/ (role rf = leader /\ abortHeartbeat rf = None)).
Proof.
  unfold makeFollower, call_cancel. destruct (role rf), rf as [? ? ? ? ? ? [] []];
    simpl; intros; simplify_eq; auto.
Qed.

Lemma makeLeader_eq rf : makeLeader rf = Ret (set_role leader rf).
Proof. done. Qed.

Lemma makeCandidate_ok now rf rf' :
  makeCandidate now rf = Ret rf' ->
  role rf' = candidate /\ currentTerm rf' = i64 (currentTerm rf + 1) /\ votedFor rf' = me rf
  /\ votes rf' = Vote (votes rf) /\ me rf' = me rf /\ npeers rf' = npeers rf.
Proof.
  unfold makeCandidate, call_cancel. intros H.
  destruct (role rf), (abortHeartbeat rf); simpl in H; simplify_eq/=; auto 10.
Qed.

Lemma handleRequestVote_ok reply rf rf' b :
  handleRequestVote reply rf = Ret (rf', b) ->
  votedFor rf' = votedFor rf /\ me rf' = me rf /\ npeers rf' = npeers rf
  /\ currentTerm rf' = Z.max (currentTerm rf) (rvr_Term reply).
Proof.
  unfold handleRequestVote. case_decide.
  - destruct (makeFollower _ rf) as [rf1|] eqn:E; simpl; [|done]. intros [= -> <-].
    apply makeFollower_ok in E as (_&->&->&_&->&->&_). repeat split. lia.
  - rewrite Z.max_l by lia. destruct (rvr_VoteGranted reply); [|by intros [= -> _]].
    destruct (_ && _); simpl; by intros [= <- _].
Qed.

Lemma AppendEntries_ok args reply now rf rf' r :
  AppendEntries args reply now rf = Ret (rf', r) ->
  aer_Term r = currentTerm rf /\ currentTerm rf' = currentTerm rf
  /\ votedFor rf' = votedFor rf /\ me rf' = me rf.
Proof.
  unfold AppendEntries. simpl. case_decide; [by intros [= <- <-]|].
  destruct (makeFollower (currentTerm rf) rf) as [rf1|c] eqn:E; simpl; [|done].
  intros [= <- <-]. apply makeFollower_ok in E as (?&?&?&?&?&_). auto.
Qed.

Lemma handleAppendEntries_ok reply rf rf' :
  handleAppendEntries reply rf = Ret rf' ->
  currentTerm rf' = Z.max (currentTerm rf) (aer_Term reply)
  /\ votedFor rf' = votedFor rf /\ me rf' = me rf.
Proof.
  unfold handleAppendEntries. case_decide.
  - intros (?&->&->&_&->&_)%makeFollower_ok. repeat split. lia.
  - intros [= <-]. repeat split. lia.
Qed.

(** ** Properties *)

(** [RequestVote] grants a vote exactly when the request's term is not behind the
    server's and, within the same term, the server has not voted for somebody else; a
    granted vote records the candidate and the term, a refused one changes neither, and
    only a request from an older term is answered with the server's term. *)
Theorem request_vote_decision args now rf :
  let '(rf', reply) := RequestVote args RVReply0 now rf in
  (rvr_VoteGranted reply = true <->
     currentTerm rf <= rv_Term args
     /\ (rv_Term args = currentTerm rf -> votedFor rf = -1 \/ votedFor rf = rv_CandidateId args))
  /\ (rvr_VoteGranted reply = true ->
      currentTerm rf' = rv_Term args /\ votedFor rf' = rv_CandidateId args)
  /\ (rvr_VoteGranted reply = false -> rf' = set_checkpoint now rf)
  /\ rvr_Term reply = (if bool_decide (rv_Term args < currentTerm rf) then currentTerm rf else 0).
Proof.
  unfold RequestVote. case_decide as H1; [|case_decide as H2]; simpl.
  - rewrite bool_decide_true by done. repeat split; try done. intros [? _]. lia.
  - rewrite bool_decide_false by done. repeat split; try done. naive_solver.
  - rewrite bool_decide_false by done. repeat split; try done; [lia|].
    intros Heq. destruct (decide (votedFor rf = -1)), (decide (votedFor rf = rv_CandidateId args)); auto.
    exfalso. naive_solver.
Qed.

(** a leader that grants a vote to a candidate of a newer term moves to that term and
    still reports itself leader: [RequestVote] never changes the role. *)
Theorem request_vote_never_demotes args reply now rf :
  let rf' := (RequestVote args reply now rf).1 in
  role rf' = role rf /\ abortHeartbeat rf' = abortHeartbeat rf /\ cancelled rf' = cancelled rf.
Proof. unfold RequestVote. case_decide; [|case_decide]; done. Qed.

(** [AppendEntries] on a server refuses a leader of an older term and changes nothing;
    otherwise it succeeds and makes the server a follower whose term stays its own: the
    leader's newer term is never adopted.  It panics exactly when the role has no cancel
    function to call yet. *)
Theorem append_entries_outcome args now rf :
  match AppendEntries args AEReply0 now rf with
  | Ret (rf', reply) =>
      aer_Term reply = currentTerm rf /\ currentTerm rf' = currentTerm rf
      /\ votedFor rf' = votedFor rf
      /\ if bool_decide (ae_Term args < currentTerm rf)
         then aer_Success reply = false /\ rf' = rf
         else aer_Success reply = true /\ role rf' = follower /\ checkpoint rf' = now
  | Crash c =>
      c = Panic /\ currentTerm rf <= ae_Term args
      /\ ((role rf = candidate /\ abortElection rf = None)
          \/ (role rf = leader /\ abortHeartbeat rf = None))
  end.
Proof.
  unfold AppendEntries. simpl. case_decide as Ht.
  { by rewrite bool_decide_true. }
  rewrite bool_decide_false by done.
  destruct (makeFollower (currentTerm rf) rf) as [rf'|c] eqn:E; simpl.
  - apply makeFollower_ok in E as (?&?&?&_). auto 10.
  - apply makeFollower_crash in E as [-> ?]. split; [done|]. split; [lia|done].
Qed.

(** The replies of an election, handled one after the other. *)
Fixpoint handle_all (rs : list RequestVoteReply) (rf : Raft) : go Raft :=
  match rs with
  | [] => Ret rf
  | r :: rs' => '(rf, _) ← handleRequestVote r rf; handle_all rs' rf
  end.

Definition granted (t : Z) (r : RequestVoteReply) : Prop :=
  rvr_VoteGranted r = true /\ rvr_Term r <= t.

Lemma handle_all_grants rs rf :
  Forall (granted (currentTerm rf)) rs -> role rf <> follower ->
  0 <= counter (votes rf) -> counter (votes rf) + Z.of_nat (length rs) < 2 ^ 63 ->
  exists rf', handle_all rs rf = Ret rf' /\ currentTerm rf' = currentTerm rf
    /\ counter (votes rf') = counter (votes rf) + Z.of_nat (length rs)
    /\ (role rf' = leader <->
        role rf = leader \/ (rs <> [] /\ counter (votes rf') > total (votes rf) `quot` 2)).
Proof.
  revert rf. induction rs as [|r rs IH]; intros rf Hg Hrole H0 Hlt; simpl in *.
  { exists rf. repeat split; [lia|by left|]. by intros [?|[? _]]. }
  inversion_clear Hg as [|? ? [Hv Ht] Hg']. unfold handleRequestVote.
  rewrite decide_False by lia. rewrite Hv.
  set (rf1 := set_votes (Vote (votes rf)) rf).
  assert (counter (votes rf1) = counter (votes rf) + 1) as Hc.
  { unfold rf1, Vote. simpl. rewrite i64_small; lia. }
  destruct (HasMajority (votes rf1) && bool_decide (role rf1 = candidate)) eqn:Em.
  - apply andb_true_iff in Em as [Hm _]. unfold HasMajority in Hm.
    rewrite bool_decide_eq_true in Hm. simpl.
    destruct (IH (set_role leader rf1)) as (rf'&->&Ht'&Hc'&Hr'); [done|done|simpl in *; lia|simpl in *; lia|].
    exists rf'. split; [done|]. split; [done|]. simpl in *. split; [lia|].
    split; [|intros _; apply Hr'; by left]. intros _. right. split; [done|]. lia.
  - simpl. destruct (IH rf1) as (rf'&->&Ht'&Hc'&Hr'); [done|done|lia|lia|].
    exists rf'. split; [done|]. split; [done|]. split; [lia|].
    rewrite Hr'. simpl. split; [naive_solver|]. intros [?|[_ Hgt]]; [by left|].
    destruct (decide (role rf = leader)); [by left|]. right.
    apply andb_false_iff in Em as [Em|Em]; unfold HasMajority in Em; rewrite bool_decide_eq_false in Em.
    + split; [|done]. intros ->. simpl in Hc'. unfold rf1 in *. simpl in *. lia.
    + exfalso. apply Em. simpl. by destruct (role rf).
Qed.

(** A candidate that has only its own vote and then receives [k] granted replies of
    its term is leader afterwards exactly when 1 + k is more than half of the servers. *)
Theorem election_won_by_majority rf rs :
  role rf = candidate -> counter (votes rf) = 1 -> Forall (granted (currentTerm rf)) rs ->
  rs <> [] -> Z.of_nat (length rs) + 1 < 2 ^ 63 ->
  exists rf', handle_all rs rf = Ret rf' /\ currentTerm rf' = currentTerm rf
    /\ (role rf' = leader <-> 1 + Z.of_nat (length rs) > total (votes rf) `quot` 2).
Proof.
  intros Hr Hc Hg Hne Hlt.
  destruct (handle_all_grants rs rf) as (rf'&H1&H2&H3&H4); [done|by rewrite Hr|lia|lia|].
  exists rf'. split; [done|]. split; [done|]. rewrite H4, H3, Hc, Hr. naive_solver.
Qed.

Definition witness_candidate : Raft :=
  mkRaft 3 0 candidate 1 0 (mkVotes 1 3) None (Some 0%nat) 0 ∅ 1.

Lemma election_won_by_majority_witness :
  exists rf', handle_all [mkRVReply 0 true] witness_candidate = Ret rf' /\ role rf' = leader.
Proof.
  destruct (election_won_by_majority witness_candidate [mkRVReply 0 true]) as (rf'&H&_&Hl).
  - reflexivity.
  - reflexivity.
  - constructor; [|constructor]. split; [reflexivity|]. vm_compute. discriminate.
  - discriminate.
  - vm_compute. reflexivity.
  - exists rf'. split; [exact H|]. apply Hl. vm_compute. reflexivity.
Defined.
