(* ===== verification/RaftCluster.v ===== *)
(** * A cluster of Raft servers

    The goroutines of [src/src/raft1/raft.go] running on [n] servers over a network that
    may lose requests and replies.  A process is one goroutine at one of its preemption
    points; a step picks a process, runs it to its next preemption point and puts back the
    processes it leaves behind.  [history] is a ghost record of every vote cast. *)

From S2P Require Import Prelude Raft.
Local Open Scope Z_scope.

Inductive proc :=
  | PTick (s : nat)                                        (* electionTicker, top of loop *)
  | PCandidate (s : nat)                                   (* decided to call makeCandidate *)
  | PRequestVotes (s : nat)                                (* makeCandidate has unlocked *)
  | PVoteArgs (s ctx p : nat)                              (* requestVoteFromServer, started *)
  | PVoteLoop (s ctx p : nat) (args : RequestVoteArgs)     (* its retry loop *)
  | PVoteReply (s : nat) (reply : RequestVoteReply)        (* a reply to handle *)
  | PHeartbeat (s : nat)                                   (* startHeartbeat, started *)
  | PHbLoop (s ctx : nat)                                  (* its loop *)
  | PBeat (s p : nat)                                      (* sendHeartbeat, started *)
  | PBeatCall (s p : nat) (args : AppendEntriesArgs)       (* its RPC *)
  | PBeatReply (s : nat) (reply : AppendEntriesReply).     (* a reply to handle *)

(** Clock, random draw and network outcome a step may depend on. *)
Record choice := mkChoice { now : Z; rnd : Z; net : fate }.

Abbreviation vote := (nat * Z * Z)%type.  (* voter, term, candidate *)

Record cluster := mkCluster { servers : list Raft; procs : list proc; history : list vote }.

(** What a step leaves: servers, new processes, votes cast. *)
Abbreviation result := (list Raft * list proc * list vote)%type.

Definition electionTicker (s : nat) (ch : choice) (rf : Raft) : list proc :=
  [if shouldStartElection (now ch) (rnd ch) rf then PCandidate s else PTick s].

(** One turn of the loop of [requestVoteFromServer]. *)
Definition requestVoteFromServer (s ctx p : nat) (args : RequestVoteArgs) (ch : choice)
    (srvs : list Raft) (rf : Raft) : option (go result) :=
  if decide (ctx ∈ cancelled rf) then Some (Ret (srvs, [], []))
  else match net ch with
       | ReqLost => Some (Ret (srvs, [PVoteLoop s ctx p args], []))
       | lost_or_delivered =>
           match srvs !! p with
           | None => None
           | Some rfp =>
               let '(rfp', reply) := RequestVote args RVReply0 (now ch) rfp in
               Some (Ret (<[p := rfp']> srvs,
                          [match lost_or_delivered with
                           | Delivered => PVoteReply s reply
                           | _ => PVoteLoop s ctx p args
                           end],
                          if rvr_VoteGranted reply
                          then [(p, rv_Term args, rv_CandidateId args)] else []))
           end
       end.

(** The RPC of [sendHeartbeat]: no retry. *)
Definition sendHeartbeat (s p : nat) (args : AppendEntriesArgs) (ch : choice)
    (srvs : list Raft) : option (go result) :=
  match net ch with
  | ReqLost => Some (Ret (srvs, [], []))
  | lost_or_delivered =>
      match srvs !! p with
      | None => None
      | Some rfp =>
          Some ('(rfp', reply) ← AppendEntries args AEReply0 (now ch) rfp;
                Ret (<[p := rfp']> srvs,
                     match lost_or_delivered with Delivered => [PBeatReply s reply] | _ => [] end,
                     []))
      end
  end.

(** The server whose goroutine a process is. *)
Definition owner (p : proc) : nat :=
  match p with
  | PTick s | PCandidate s | PRequestVotes s | PVoteArgs s _ _ | PVoteLoop s _ _ _
  | PVoteReply s _ | PHeartbeat s | PHbLoop s _ | PBeat s _ | PBeatCall s _ _
  | PBeatReply s _ => s
  end.

Definition step_proc (p : proc) (ch : choice) (srvs : list Raft) : option (go result) :=
  match srvs !! owner p with
  | None => None
  | Some rf =>
      match p with
      | PTick s => Some (Ret (srvs, electionTicker s ch rf, []))
      | PCandidate s =>
          Some (rf' ← makeCandidate (now ch) rf;
                Ret (<[s := rf']> srvs, [PRequestVotes s], [(s, currentTerm rf', votedFor rf')]))
      | PRequestVotes s =>
          let '(rf', ctx, peers) := requestVotes rf in
          Some (Ret (<[s := rf']> srvs, PTick s :: (PVoteArgs s ctx <$> peers), []))
      | PVoteArgs s ctx p => Some (Ret (srvs, [PVoteLoop s ctx p (requestVoteArgs rf)], []))
      | PVoteLoop s ctx p args => requestVoteFromServer s ctx p args ch srvs rf
      | PVoteReply s reply =>
          Some ('(rf', won) ← handleRequestVote reply rf;
                Ret (<[s := rf']> srvs, if (won : bool) then [PHeartbeat s] else [], []))
      | PHeartbeat s =>
          let '(rf', ctx) := startHeartbeat rf in
          Some (Ret (<[s := rf']> srvs, [PHbLoop s ctx], []))
      | PHbLoop s ctx =>
          if decide (ctx ∈ cancelled rf) then Some (Ret (srvs, [], []))
          else Some (Ret (srvs, PHbLoop s ctx :: (PBeat s <$> others rf), []))
      | PBeat s p => Some (Ret (srvs, [PBeatCall s p (heartbeatArgs rf)], []))
      | PBeatCall s p args => sendHeartbeat s p args ch srvs
      | PBeatReply s reply =>
          Some (rf' ← handleAppendEntries reply rf; Ret (<[s := rf']> srvs, [], []))
      end
  end.

(** Run process number [i]; [None] when there is no such process. *)
Definition step (i : nat) (ch : choice) (c : cluster) : option (go cluster) :=
  match procs c !! i with
  | None => None
  | Some p =>
      match step_proc p ch (servers c) with
      | None => None
      | Some (Crash x) => Some (Crash x)
      | Some (Ret (srvs, ps, vs)) =>
          Some (Ret (mkCluster srvs (take i (procs c) ++ ps ++ drop (S i) (procs c))
                       (history c ++ vs)))
      end
  end.

Definition init (n : nat) (now0 : Z) : cluster :=
  mkCluster ((fun i => Make n (Z.of_nat i) now0 []) <$> seq 0 n) (PTick <$> seq 0 n) [].

Definition cstep (c c' : cluster) : Prop := exists i ch, step i ch c = Some (Ret c').

(** A run along a list of scheduling decisions. *)
Fixpoint run (evs : list (nat * choice)) (c : cluster) : option (go cluster) :=
  match evs with
  | [] => Some (Ret c)
  | (i, ch) :: evs' =>
      match step i ch c with
      | Some (Ret c') => run evs' c'
      | r => r
      end
  end.

(** ** The voting invariant *)

(** How one server may change in a step, and whether it casts a vote in it. *)
Definition server_step (rf rf' : Raft) (votes : bool) : Prop :=
  me rf' = me rf /\ currentTerm rf <= currentTerm rf'
  /\ if votes
     then 0 <= votedFor rf'
          /\ (currentTerm rf' = currentTerm rf -> votedFor rf = -1 \/ votedFor rf = votedFor rf')
     else currentTerm rf' = currentTerm rf -> votedFor rf' = votedFor rf.

(** Terms in flight are below the bound, and requests name their sender. *)
Definition proc_ok (b : Z) (p : proc) : Prop :=
  match p with
  | PVoteLoop s _ _ args => 0 <= rv_Term args <= b /\ rv_CandidateId args = Z.of_nat s
  | PVoteReply _ reply => rvr_Term reply <= b
  | PBeatReply _ reply => aer_Term reply <= b
  | _ => True
  end.

Definition server_ok (b : Z) (s : nat) (rf : Raft) : Prop :=
  me rf = Z.of_nat s /\ 0 <= currentTerm rf <= b.

(** Every vote cast is consistent with what its voter remembers. *)
Definition vote_ok (srvs : list Raft) (vt : vote) : Prop :=
  let '(v, t, cand) := vt in
  0 <= cand /\ exists rf, srvs !! v = Some rf /\ t <= currentTerm rf
    /\ (t = currentTerm rf -> votedFor rf = cand).

Definition unique_votes (h : list vote) : Prop :=
  forall v t c1 c2, (v, t, c1) ∈ h -> (v, t, c2) ∈ h -> c1 = c2.

Definition cinv (b : Z) (c : cluster) : Prop :=
  (forall s rf, servers c !! s = Some rf -> server_ok b s rf)
  /\ Forall (proc_ok b) (procs c)
  /\ Forall (vote_ok (servers c)) (history c)
  /\ unique_votes (history c).

(** ** Preservation *)

Lemma RequestVote_step args now rf rf' reply :
  RequestVote args RVReply0 now rf = (rf', reply) -> 0 <= rv_CandidateId args ->
  server_step rf rf' (rvr_VoteGranted reply)
  /\ currentTerm rf' <= Z.max (currentTerm rf) (rv_Term args)
  /\ rvr_Term reply <= Z.max 0 (currentTerm rf)
  /\ (rvr_VoteGranted reply = true ->
      currentTerm rf' = rv_Term args /\ votedFor rf' = rv_CandidateId args).
Proof.
  unfold RequestVote, server_step. intros Hrv Hc.
  case_decide; [|case_decide]; simplify_eq/=; repeat split; try done; lia.
Qed.

(** Shape of every step: at most one server changes, as [server_step] allows. *)
Definition step_shape (b : Z) (srvs srvs' : list Raft) (ps : list proc) (vs : list vote) : Prop :=
  Forall (proc_ok b) ps
  /\ ((srvs' = srvs /\ vs = [])
      \/ exists s rf rf' votes, srvs !! s = Some rf /\ srvs' = <[s := rf']> srvs
          /\ server_step rf rf' votes /\ currentTerm rf' <= b
          /\ vs = if (votes : bool) then [(s, currentTerm rf', votedFor rf')] else []).

Lemma step_shape_server b srvs s rf rf' ps :
  Forall (proc_ok b) ps -> srvs !! s = Some rf -> me rf' = me rf ->
  currentTerm rf <= currentTerm rf' <= b ->
  (currentTerm rf' = currentTerm rf -> votedFor rf' = votedFor rf) ->
  step_shape b srvs (<[s := rf']> srvs) ps [].
Proof.
  intros. split; [done|]. right. exists s, rf, rf', false. unfold server_step. intuition lia.
Qed.

(** The handlers, wherever they run. *)
Lemma RequestVote_shape b srvs p rf rf' args now reply :
  (forall s rf, srvs !! s = Some rf -> server_ok b s rf) -> srvs !! p = Some rf ->
  RequestVote args RVReply0 now rf = (rf', reply) -> 0 <= rv_Term args <= b -> 0 <= rv_CandidateId args ->
  rvr_Term reply <= b
  /\ forall ps, Forall (proc_ok (b + 1)) ps ->
     step_shape (b + 1) srvs (<[p := rf']> srvs) ps
       (if rvr_VoteGranted reply then [(p, rv_Term args, rv_CandidateId args)] else []).
Proof.
  intros Hsrv Hp Er Ht Hc. destruct (Hsrv _ _ Hp) as [_ Htp].
  apply RequestVote_step in Er as (Hstep&Hle&Hr&Hg); [|done]. split; [lia|]. intros ps Hps.
  split; [done|]. right. exists p, rf, rf', (rvr_VoteGranted reply). split_and!; [done..|lia|].
  destruct (rvr_VoteGranted reply); [|done]. by destruct Hg as [-> ->].
Qed.

Lemma AppendEntries_shape b srvs p rf rf' args now reply :
  (forall s rf, srvs !! s = Some rf -> server_ok b s rf) -> srvs !! p = Some rf ->
  AppendEntries args AEReply0 now rf = Ret (rf', reply) ->
  aer_Term reply <= b
  /\ forall ps, Forall (proc_ok (b + 1)) ps -> step_shape (b + 1) srvs (<[p := rf']> srvs) ps [].
Proof.
  intros Hsrv Hp Er. destruct (Hsrv _ _ Hp) as [_ Htp]. apply AppendEntries_ok in Er as (Hrt&Hct&Hvf&Hm).
  split; [lia|]. intros ps Hps. by eapply step_shape_server; [|done|done|lia|].
Qed.

Lemma step_proc_shape b p ch srvs srvs' ps vs :
  (forall s rf, srvs !! s = Some rf -> server_ok b s rf) -> proc_ok b p -> b + 1 < 2 ^ 63 ->
  step_proc p ch srvs = Some (Ret (srvs', ps, vs)) -> step_shape (b + 1) srvs srvs' ps vs.
Proof.
  intros Hsrv Hp Hb. unfold step_proc. destruct (srvs !! owner p) as [rf|] eqn:Erf; [|done].
  pose proof (Hsrv _ _ Erf) as [Hme Ht].
  assert (forall qs : list proc, (forall q, q ∈ qs -> proc_ok (b + 1) q) -> step_shape (b + 1) srvs srvs qs [])
    as Hsame.
  { intros qs Hqs. split; [by apply list.Forall_forall, Hqs|by left]. }
  destruct p as [s|s|s|s ctx p|s ctx p args|s reply|s|s ctx|s p|s p args|s reply]; simpl in *.
  - intros [= <- <- <-]. apply Hsame. unfold electionTicker. intros q ->%list_elem_of_singleton.
    by case_match.
  - destruct (makeCandidate (now ch) rf) as [rf'|] eqn:E; simpl; [|done]. intros [= <- <- <-].
    apply makeCandidate_ok in E as (_&Hterm&Hv&_&Hme'&_).
    rewrite i64_small in Hterm by lia.
    split; [by repeat constructor|]. right. exists s, rf, rf', true.
    split; [done|]. split; [done|]. unfold server_step. rewrite Hv. repeat split; lia.
  - intros [= <- <- <-]. eapply step_shape_server; [|done|done|simpl; lia|done].
    constructor; [done|]. apply Forall_fmap, list.Forall_forall. done.
  - intros [= <- <- <-]. apply Hsame. intros q ->%list_elem_of_singleton. simpl. lia.
  - unfold requestVoteFromServer. case_decide; [intros [= <- <- <-]; apply Hsame; set_solver|].
    destruct (net ch) eqn:En; [intros [= <- <- <-]; apply Hsame; intros q ->%list_elem_of_singleton; simpl; lia| |];
    (destruct (srvs !! p) as [rfp|] eqn:Ep; [|done];
     destruct (RequestVote args RVReply0 (now ch) rfp) as [rfp' r] eqn:Er;
     destruct (RequestVote_shape _ _ _ _ _ _ _ _ Hsrv Ep Er) as [Hr Hsh]; [lia..|];
     intros [= <- <- <-]; apply Hsh; repeat constructor; simpl; lia).
  - destruct (handleRequestVote reply rf) as [[rf' won]|] eqn:E; simpl; [|done].
    intros [= <- <- <-]. apply handleRequestVote_ok in E as (Hv&Hm&_&Hterm).
    eapply step_shape_server; [|done|done|lia|done]. destruct won; by repeat constructor.
  - intros [= <- <- <-]. eapply step_shape_server; [|done|done|simpl; lia|done]. by repeat constructor.
  - case_decide; intros [= <- <- <-]; apply Hsame; intros q Hq; [set_solver|].
    apply elem_of_cons in Hq as [->|Hq]; [done|]. apply list_elem_of_fmap in Hq as (?&->&_). done.
  - intros [= <- <- <-]. apply Hsame. by intros q ->%list_elem_of_singleton.
  - unfold sendHeartbeat.
    destruct (net ch) eqn:En; [intros [= <- <- <-]; apply Hsame; set_solver| |];
    (destruct (srvs !! p) as [rfp|] eqn:Ep; [|done];
     destruct (AppendEntries args AEReply0 (now ch) rfp) as [[rfp' r]|] eqn:Er; simpl; [|done];
     destruct (AppendEntries_shape _ _ _ _ _ _ _ _ Hsrv Ep Er) as [Hr Hsh];
     intros [= <- <- <-]; apply Hsh; repeat constructor; simpl; lia).
  - destruct (handleAppendEntries reply rf) as [rf'|] eqn:E; simpl; [|done].
    intros [= <- <- <-]. apply handleAppendEntries_ok in E as (Hterm&Hv&Hm).
    eapply step_shape_server; [|done|done|lia|done]. constructor.
Qed.

Lemma vote_ok_update srvs s rf rf' votes vt :
  srvs !! s = Some rf -> server_step rf rf' votes -> vote_ok srvs vt ->
  vote_ok (<[s := rf']> srvs) vt.
Proof.
  destruct vt as [[v t] cand]. intros Hs (_&Hle&Hv) (Hc&rf0&Hrf0&Ht&Heq). split; [done|].
  destruct (decide (v = s)) as [->|Hne].
  - assert (rf0 = rf) as -> by congruence. exists rf'.
    split; [apply list_lookup_insert_eq; by eapply lookup_lt_Some|].
    split; [lia|]. intros ->. assert (currentTerm rf' = currentTerm rf) as E by lia.
    rewrite E in Heq. specialize (Heq eq_refl). destruct votes; [|by rewrite Hv].
    destruct Hv as [_ [?|?]%(fun H => H E)]; lia.
  - exists rf0. by rewrite list_lookup_insert_ne.
Qed.

Lemma unique_votes_new srvs s rf rf' h :
  srvs !! s = Some rf -> server_step rf rf' true -> Forall (vote_ok srvs) h -> unique_votes h ->
  unique_votes (h ++ [(s, currentTerm rf', votedFor rf')]).
Proof.
  intros Hs (_&Hle&Hpos&Hv) Hok Hu.
  assert (forall cand, (s, currentTerm rf', cand) ∈ h -> cand = votedFor rf') as Hold.
  { intros cand Hin. rewrite list.Forall_forall in Hok.
    destruct (Hok _ Hin) as (Hc&rf0&Hrf0&Ht&Heq). assert (rf0 = rf) as -> by congruence.
    assert (currentTerm rf' = currentTerm rf) as E by lia. rewrite E in Heq.
    destruct (Hv E); specialize (Heq eq_refl); lia. }
  intros v t c1 c2 H1 H2. rewrite elem_of_app, list_elem_of_singleton in H1, H2.
  destruct H1 as [H1|H1], H2 as [H2|H2]; simplify_eq; eauto using eq_sym.
Qed.

Lemma cinv_shape b srvs srvs' qs qs' ps h vs :
  cinv b (mkCluster srvs qs h) -> step_shape (b + 1) srvs srvs' ps vs -> Forall (proc_ok (b + 1)) qs' ->
  cinv (b + 1) (mkCluster srvs' qs' (h ++ vs)).
Proof.
  intros (Hsrv&_&Hok&Hu) [_ Hshape] Hqs. simpl in *.
  destruct Hshape as [[-> ->]|(s&rf&rf'&votes&Hs&->&Hst&Hle&->)].
  - rewrite app_nil_r. split; [|done]. intros s rf Hrf. destruct (Hsrv s rf Hrf). split; [done|lia].
  - assert (Forall (vote_ok (<[s := rf']> srvs)) h) as Hok'.
    { eapply Forall_impl; [|done]. intros vt Hvt. by eapply vote_ok_update. }
    split; [|split; [done|split]]; simpl.
    + intros s' rf0 Hrf0. destruct (decide (s' = s)) as [->|Hne].
      * rewrite list_lookup_insert_eq in Hrf0 by by eapply lookup_lt_Some. simplify_eq.
        destruct (Hsrv s rf Hs), Hst as (Hm&?&_). split; [congruence|lia].
      * rewrite list_lookup_insert_ne in Hrf0 by done. destruct (Hsrv s' rf0 Hrf0). split; [done|lia].
    + destruct votes; [|by rewrite app_nil_r]. apply Forall_app_2; [done|]. constructor; [|done].
      destruct Hst as (_&_&Hpos&_). split; [done|]. exists rf'.
      split; [apply list_lookup_insert_eq; by eapply lookup_lt_Some|done].
    + destruct votes; [|by rewrite app_nil_r]. by eapply unique_votes_new.
Qed.

Lemma proc_ok_later b p : proc_ok b p -> proc_ok (b + 1) p.
Proof. destruct p; simpl; try done; lia. Qed.

Lemma cinv_step b c c' : cinv b c -> b + 1 < 2 ^ 63 -> cstep c c' -> cinv (b + 1) c'.
Proof.
  intros Hinv Hb (i&ch&Hs). unfold step in Hs.
  destruct (procs c !! i) as [p|] eqn:Ep; [|done]. destruct c as [srvs0 procs0 h]. simpl in *.
  destruct (step_proc p ch srvs0) as [[[[srvs ps] vs]|]|] eqn:E; simplify_eq. destruct (Hinv) as (Hsrv&Hps&_).
  assert (proc_ok b p) as Hp by (eapply list.Forall_forall; [done|by eapply list_elem_of_lookup_2]).
  pose proof (step_proc_shape _ _ _ _ _ _ _ Hsrv Hp Hb E) as Hsh.
  eapply cinv_shape; [done..|].
  assert (Forall (proc_ok (b + 1)) procs0) by eauto using Forall_impl, proc_ok_later.
  apply Forall_app_2; [by apply Forall_take|]. apply Forall_app_2; [apply Hsh|]. by apply Forall_drop.
Qed.

Lemma cinv_init n now0 : cinv 0 (init n now0).
Proof.
  split; [|split; [|split; [constructor|]]].
  - intros s rf Hs. simpl in Hs. apply list_lookup_fmap_Some in Hs as (i&->&Hi).
    apply lookup_seq in Hi as [-> _]. done.
  - simpl. apply Forall_fmap, list.Forall_forall. done.
  - intros v t c1 c2 H. by apply not_elem_of_nil in H.
Qed.

Lemma cinv_nsteps k b c c' :
  cinv b c -> b + Z.of_nat k < 2 ^ 63 -> nsteps cstep k c c' -> cinv (b + Z.of_nat k) c'.
Proof.
  intros Hinv Hb Hs. revert b Hinv Hb. induction Hs as [c|k c c1 c' Hs1 Hs IH]; intros b Hinv Hb.
  - by rewrite Z.add_0_r.
  - replace (b + Z.of_nat (S k)) with (b + 1 + Z.of_nat k) by lia. apply IH; [|lia].
    eapply cinv_step; [done|lia|done].
Qed.

Lemma cstep_terms b c c' s rf :
  cinv b c -> b + 1 < 2 ^ 63 -> cstep c c' -> servers c !! s = Some rf ->
  exists rf', servers c' !! s = Some rf' /\ currentTerm rf <= currentTerm rf'.
Proof.
  intros (Hsrv&Hps&_) Hb (i&ch&Hs) Hrf. unfold step in Hs.
  destruct (procs c !! i) as [p|] eqn:Ep; [|done].
  destruct (step_proc p ch (servers c)) as [[[[srvs ps] vs]|]|] eqn:E; simplify_eq. simpl.
  assert (proc_ok b p) as Hp by (eapply list.Forall_forall; [done|by eapply list_elem_of_lookup_2]).
  destruct (step_proc_shape _ _ _ _ _ _ _ Hsrv Hp Hb E)
    as [_ [[-> _]|(s1&rf1&rf'&votes&Hs&->&(_&Hle&_)&_)]]; [by exists rf|].
  destruct (decide (s = s1)) as [->|Hne]; simplify_eq.
  - exists rf'. split; [apply list_lookup_insert_eq; by eapply lookup_lt_Some|done].
  - exists rf. by rewrite list_lookup_insert_ne.
Qed.

(** ** Quorums *)

(** The servers that voted for [cand] in [t], without repetition. *)
Definition voters (h : list vote) (t cand : Z) : gset nat :=
  list_to_set (omap (fun '(v, t', c') =>
    if decide (t' = t /\ c' = cand) then Some v else None) h).

Lemma elem_of_voters h t cand v : v ∈ voters h t cand <-> (v, t, cand) ∈ h.
Proof.
  unfold voters. rewrite elem_of_list_to_set, list_elem_of_omap. split.
  - intros ([[v' t'] c']&Hin&Hv). case_decide; naive_solver.
  - intros Hin. exists (v, t, cand). split; [done|]. by rewrite decide_True.
Qed.

(** Two majorities of [n] servers share one. *)
Lemma majorities_intersect (n : nat) (V1 V2 : gset nat) :
  (forall v, v ∈ V1 ∪ V2 -> (v < n)%nat) -> (n < 2 * size V1)%nat -> (n < 2 * size V2)%nat ->
  exists v, v ∈ V1 /\ v ∈ V2.
Proof.
  intros Hn H1 H2. destruct (decide (V1 ∩ V2 = ∅)) as [Hd|Hne].
  - exfalso. assert (size (V1 ∪ V2) <= size (set_seq (C:=gset nat) 0 n))%nat as Hle.
    { apply subseteq_size. intros v Hv. apply elem_of_set_seq. specialize (Hn v Hv). lia. }
    rewrite size_union in Hle by set_solver. rewrite size_set_seq in Hle. lia.
  - apply set_choose_L in Hne as [v Hv]. exists v. set_solver.
Qed.

Lemma cinv_majority b c t c1 c2 :
  cinv b c -> (length (servers c) < 2 * size (voters (history c) t c1))%nat ->
  (length (servers c) < 2 * size (voters (history c) t c2))%nat -> c1 = c2.
Proof.
  intros (_&_&Hok&Hu) H1 H2. rewrite list.Forall_forall in Hok.
  destruct (majorities_intersect (length (servers c)) _ _ ltac:(
    intros v [Hv|Hv]%elem_of_union; apply elem_of_voters, Hok in Hv as (_&rf&Hrf&_);
    by apply lookup_lt_Some in Hrf) H1 H2) as (v&Hv1&Hv2).
  apply elem_of_voters in Hv1, Hv2. by eapply Hu.
Qed.

Lemma cinv_nsteps_length k b c c' :
  cinv b c -> b + Z.of_nat k < 2 ^ 63 -> nsteps cstep k c c' ->
  length (servers c') = length (servers c).
Proof.
  intros Hinv Hb Hs. revert b Hinv Hb. induction Hs as [|k c c1 c' Hs1 Hs IH]; intros b Hinv Hb; [done|].
  rewrite (IH (b + 1)); [|eapply cinv_step; [done|lia|done]|lia].
  destruct Hs1 as (i&ch&Hs1). unfold step in Hs1.
  destruct (procs c !! i) as [p|] eqn:Ep; [|done].
  destruct (step_proc p ch (servers c)) as [[[[srvs ps] vs]|]|] eqn:E; simplify_eq. simpl.
  destruct Hinv as (Hsrv&Hps&_).
  assert (proc_ok b p) as Hp by (eapply list.Forall_forall; [done|by eapply list_elem_of_lookup_2]).
  destruct (step_proc_shape b _ _ _ _ _ _ Hsrv Hp ltac:(lia) E)
    as [_ [[-> _]|(?&?&?&?&_&->&_)]]; [done|]. by rewrite length_insert.
Qed.

Lemma run_nsteps evs c c' : run evs c = Some (Ret c') -> nsteps cstep (length evs) c c'.
Proof.
  revert c. induction evs as [|[i ch] evs IH]; intros c; simpl; [intros [= ->]; constructor|].
  destruct (step i ch c) as [[c1|]|] eqn:E; try done. intros H. econstructor; [|by apply IH].
  by exists i, ch.
Qed.

(** ** Properties *)

(** C4: in every run of a cluster of [n] servers, with any interleaving, losses and
    duplicated requests, no server votes for two different candidates in one term. *)
Theorem one_vote_per_term n now0 k c v t c1 c2 :
  nsteps cstep k (init n now0) c -> Z.of_nat k < 2 ^ 63 ->
  (v, t, c1) ∈ history c -> (v, t, c2) ∈ history c -> c1 = c2.
Proof.
  intros Hs Hk. destruct (cinv_nsteps k 0 _ _ (cinv_init n now0) Hk Hs) as (_&_&_&Hu).
  apply Hu.
Qed.

(** C8: at most one candidate of a term can ever gather the votes of a majority of the
    servers. *)
Theorem majority_winner_unique n now0 k c t c1 c2 :
  nsteps cstep k (init n now0) c -> Z.of_nat k < 2 ^ 63 ->
  (n < 2 * size (voters (history c) t c1))%nat -> (n < 2 * size (voters (history c) t c2))%nat ->
  c1 = c2.
Proof.
  intros Hs Hk H1 H2. pose proof (cinv_init n now0) as Hi.
  pose proof (cinv_nsteps_length k 0 _ _ Hi Hk Hs) as Hlen. simpl in Hlen. rewrite length_fmap, length_seq in Hlen.
  subst n. eapply cinv_majority; [by eapply (cinv_nsteps k 0)|done..].
Qed.

(** The current term of a server never decreases, in any step of any run. *)
Theorem terms_never_decrease n now0 k c c' s rf :
  nsteps cstep k (init n now0) c -> Z.of_nat k + 1 < 2 ^ 63 -> cstep c c' ->
  servers c !! s = Some rf ->
  exists rf', servers c' !! s = Some rf' /\ currentTerm rf <= currentTerm rf'.
Proof.
  intros Hs Hk Hstep Hrf. pose proof (cinv_nsteps k 0 _ _ (cinv_init n now0) ltac:(lia) Hs) as Hinv.
  eapply cstep_terms; [done|lia|done|done].
Qed.

(** *** Concrete runs *)

Definition at_ (t : Z) : choice := mkChoice t 0 Delivered.

(** Server 0 of three campaigns in term 1 and wins with the vote of server 1. *)
Definition run_first_leader : list (nat * choice) :=
  [(0%nat, at_ 5000); (0%nat, at_ 5000); (0%nat, at_ 5000);
   (1%nat, at_ 5000); (1%nat, at_ 5000); (1%nat, at_ 5000)].

(** Then server 2 campaigns twice, the second time in term 2, and gets the vote of
    server 0. *)
Definition run_second_leader : list (nat * choice) :=
  run_first_leader ++
  [(4%nat, at_ 5000); (4%nat, at_ 5000); (4%nat, at_ 5000);
   (4%nat, at_ 10000); (4%nat, at_ 10000); (4%nat, at_ 10000);
   (5%nat, at_ 10000); (5%nat, at_ 10000); (5%nat, at_ 10000)].

(** Where a run of [n] servers ends. *)
Definition final (n : nat) (evs : list (nat * choice)) : cluster :=
  match run evs (init n 0) with Some (Ret c) => c | _ => init n 0 end.

Definition nth_server (c : cluster) (s : nat) : Raft :=
  default (Make 0 0 0 []) (servers c !! s).

Definition witness_cluster : cluster := final 3 run_second_leader.

Lemma witness_steps : nsteps cstep 15 (init 3 0) witness_cluster.
Proof. apply (run_nsteps run_second_leader). vm_compute. reflexivity. Qed.

Lemma one_vote_per_term_witness :
  (0%nat, 2, 2) ∈ history witness_cluster /\ (2 = 2)%Z.
Proof.
  assert ((0%nat, 2, 2) ∈ history witness_cluster) as H
    by (apply list_elem_of_In; vm_compute; tauto).
  split; [exact H|].
  exact (one_vote_per_term 3 0 15 witness_cluster 0 2 2 2 witness_steps eq_refl H H).
Defined.

Lemma majority_winner_unique_witness :
  (3 < 2 * size (voters (history witness_cluster) 2 2))%nat /\ (2 = 2)%Z.
Proof.
  assert (3 < 2 * size (voters (history witness_cluster) 2 2))%nat as H by (vm_compute; lia).
  split; [exact H|].
  exact (majority_winner_unique 3 0 15 witness_cluster 2 2 2 witness_steps eq_refl H H).
Defined.

Lemma terms_never_decrease_witness :
  exists c' rf', servers c' !! 0%nat = Some rf' /\ 0 <= currentTerm rf'.
Proof.
  exists (final 3 [(0%nat, at_ 5000)]).
  apply (terms_never_decrease 3 0 0 (init 3 0) _ 0 (Make 3 0 0 [])).
  - constructor.
  - vm_compute. reflexivity.
  - exists 0%nat, (at_ 5000). vm_compute. reflexivity.
  - vm_compute. reflexivity.
Defined.

(** C21: election safety fails.  In a cluster of three servers a run of fifteen steps, with
    no message lost, ends with two servers that both report to be leader of term 2: a
    leader that votes for a newer term keeps its role. *)
Theorem two_leaders_in_one_term :
  exists evs c rf0 rf2, run evs (init 3 0) = Some (Ret c)
    /\ servers c !! 0%nat = Some rf0 /\ GetState rf0 = (2, true)
    /\ servers c !! 2%nat = Some rf2 /\ GetState rf2 = (2, true).
Proof.
  exists run_second_leader, witness_cluster, (nth_server witness_cluster 0), (nth_server witness_cluster 2).
  repeat apply conj; vm_compute; reflexivity.
Qed.

(** Server 0 of five campaigns three times before any request is delivered; then one is. *)
Definition run_minority : list (nat * choice) :=
  [(0%nat, at_ 5000); (0%nat, at_ 5000); (0%nat, at_ 5000);
   (0%nat, at_ 10000); (0%nat, at_ 10000); (0%nat, at_ 10000);
   (0%nat, at_ 15000); (0%nat, at_ 15000); (0%nat, at_ 15000);
   (1%nat, at_ 15000); (1%nat, at_ 15000); (1%nat, at_ 15000)].

(** C40: the vote counter is never reset, so a leader need not have a majority: in a
    cluster of five servers one run makes a server leader of a term in which only itself
    and one other server voted for it. *)
Theorem leader_without_majority :
  exists evs c rf, run evs (init 5 0) = Some (Ret c) /\ servers c !! 0%nat = Some rf
    /\ GetState rf = (3, true) /\ size (voters (history c) 3 (me rf)) = 2%nat.
Proof.
  exists run_minority, (final 5 run_minority), (nth_server (final 5 run_minority) 0).
  repeat apply conj; vm_compute; reflexivity.
Qed.

(** Server 1 becomes candidate of term 1, and before it has called [requestVotes] the
    heartbeat of leader 0 arrives. *)
Definition run_panic : list (nat * choice) :=
  [(0%nat, at_ 5000); (0%nat, at_ 5000); (0%nat, at_ 5000);
   (2%nat, at_ 5000); (2%nat, at_ 5000); (2%nat, at_ 5000);
   (3%nat, at_ 5000); (3%nat, at_ 5000);
   (2%nat, at_ 5000); (2%nat, at_ 5000); (3%nat, at_ 5000); (3%nat, at_ 5000)].

(** A heartbeat that reaches a server between the critical section of
    [makeCandidate] and [requestVotes] in its first election crashes it: [makeFollower]
    calls the cancel function of the election before it is assigned. *)
Theorem heartbeat_during_first_election_panics :
  exists evs, run evs (init 3 0) = Some (Crash Panic).
Proof. exists run_panic. vm_compute. reflexivity. Qed.
