(* ===== verification/ShardCfg.v ===== *)
(** * Shard configurations

    [src/src/shardkv1/shardcfg/shardcfg.go]: the assignment of shards to replica groups,
    the operations of the shard controller on it and the checker the tests run.

    A Go map is ranged over in an arbitrary order.  [Join] takes its argument as the list
    of entries in the order the loop meets them; the other loops over maps do not depend
    on the order.  [Rebalance] loops until the loads differ by at most one, so its model
    has fuel; [rebalance_fuel] iterations are always enough. *)

From S2P Require Import Prelude.
Local Open Scope Z_scope.

Definition NShards : Z := 12.
Definition NumFirst : Z := 1.
Definition Gid1 : Z := 1.

Definition Key2Shard (key : string) : Z := fnv32a key `mod` NShards.

Record ShardConfig := mkCfg {
  Num : Z;
  Shards : list Z;
  Groups : gmap Z (list string);
}.

Definition set_Shards (c : ShardConfig) (l : list Z) : ShardConfig := mkCfg (Num c) l (Groups c).
Definition set_Groups (c : ShardConfig) (m : gmap Z (list string)) : ShardConfig :=
  mkCfg (Num c) (Shards c) m.
Definition set_Num (c : ShardConfig) (n : Z) : ShardConfig := mkCfg n (Shards c) (Groups c).

Definition MakeShardConfig : ShardConfig := mkCfg 0 (replicate (Z.to_nat NShards) 0) ∅.

(** The copy enters every group into a new map, one by one. *)
Definition Copy (cfg : ShardConfig) : ShardConfig :=
  let c := set_Shards (set_Num MakeShardConfig (Num cfg)) (Shards cfg) in
  foldl (fun c '(k, srvs) => set_Groups c (<[k := srvs]> (Groups c))) c (map_to_list (Groups cfg)).

(** [counts[g] += 1] for every shard: a missing entry of a Go map reads as zero. *)
Definition count_shards (shards : list Z) : gmap Z Z :=
  foldl (fun counts g => <[g := default 0 (counts !! g) + 1]> counts) ∅ shards.

Definition sorted_gids (c : ShardConfig) : list Z :=
  merge_sort Z.le (map_to_list (Groups c)).*1.

(** One turn of the loop of [analyze] on [(mg, mn, lg, ln)]. *)
Definition analyze_gid (counts : gmap Z Z) (acc : Z * Z * Z * Z) (g : Z) : Z * Z * Z * Z :=
  let '(mg, mn, lg, ln) := acc in
  let n := default 0 (counts !! g) in
  let '(lg, ln) := if decide (n < ln) then (g, n) else (lg, ln) in
  let '(mg, mn) := if decide (n > mn) then (g, n) else (mg, mn) in
  (mg, mn, lg, ln).

(** mostgroup, mostn, leastgroup, leastn *)
Definition analyze (c : ShardConfig) : Z * Z * Z * Z :=
  foldl (analyze_gid (count_shards (Shards c))) (-1, -1, -1, 257) (sorted_gids c).

Definition least (c : ShardConfig) : Z :=
  let '(_, _, lg, _) := analyze c in lg.

(** The loop that assigns the shards of missing groups; it ranges over a copy of the
    array, from shard number [s]. *)
Fixpoint assign_unassigned (s : nat) (gs : list Z) (c : ShardConfig) : ShardConfig :=
  match gs with
  | [] => c
  | g :: gs' =>
      assign_unassigned (S s) gs'
        (match Groups c !! g with
         | Some _ => c
         | None => set_Shards c (<[s := least c]> (Shards c))
         end)
  end.

(** Move the first shard of [mg] to [lg]. *)
Fixpoint move_one (mg lg : Z) (shards : list Z) : list Z :=
  match shards with
  | [] => []
  | g :: gs => if decide (g = mg) then lg :: gs else g :: move_one mg lg gs
  end.

(** The endless [for] loop; [None] when the fuel runs out. *)
Fixpoint move_shards (fuel : nat) (c : ShardConfig) : option ShardConfig :=
  match fuel with
  | O => None
  | S fuel' =>
      let '(mg, mn, lg, ln) := analyze c in
      if decide (mn < ln + 2) then Some c
      else move_shards fuel' (set_Shards c (move_one mg lg (Shards c)))
  end.

Definition Rebalance (fuel : nat) (c : ShardConfig) : option ShardConfig :=
  if decide (size (Groups c) < 1)%nat
  then Some (set_Shards c (replicate (length (Shards c)) 0))
  else move_shards fuel (assign_unassigned 0 (Shards c) c).

(** Each move takes at least two from the sum of the squares of the loads, at most 144. *)
Definition rebalance_fuel : nat := 73.

(** Whether one of [servers] is in a group already. *)
Definition in_some_group (m : gmap Z (list string)) (servers : list string) : bool :=
  existsb (fun '(xgid, xservers) =>
             existsb (fun s1 => existsb (fun s2 => bool_decide (s1 = s2)) servers) xservers)
          (map_to_list m).

(** The loop of [Join]: [false] as second component is the early return. *)
Fixpoint join_loop (servers : list (Z * list string)) (changed : bool) (cfg : ShardConfig)
    : go (ShardConfig * bool) :=
  match servers with
  | [] => if changed then Ret (set_Num cfg (i64 (Num cfg + 1)), true) else Crash Fatal
  | (gid, srvs) :: rest =>
      match Groups cfg !! gid with
      | Some _ => Ret (cfg, false)
      | None =>
          if in_some_group (Groups cfg) srvs then Crash Fatal
          else join_loop rest true (set_Groups cfg (<[gid := srvs]> (Groups cfg)))
      end
  end.

Definition Join (servers : list (Z * list string)) (cfg : ShardConfig) : go (ShardConfig * bool) :=
  join_loop servers false cfg.

Fixpoint leave_loop (gids : list Z) (changed : bool) (cfg : ShardConfig)
    : go (ShardConfig * bool) :=
  match gids with
  | [] => if changed then Ret (set_Num cfg (i64 (Num cfg + 1)), true) else Crash Fatal
  | gid :: rest =>
      match Groups cfg !! gid with
      | None => Ret (cfg, false)
      | Some _ => leave_loop rest true (set_Groups cfg (delete gid (Groups cfg)))
      end
  end.

Definition Leave (gids : list Z) (cfg : ShardConfig) : go (ShardConfig * bool) :=
  leave_loop gids false cfg.

Definition JoinBalance (fuel : nat) (servers : list (Z * list string)) (cfg : ShardConfig)
    : go (option (ShardConfig * bool)) :=
  '(c, ok) ← Join servers cfg;
  Ret (if (ok : bool) then (fun c' => (c', true)) <$> Rebalance fuel c else Some (c, false)).

Definition LeaveBalance (fuel : nat) (gids : list Z) (cfg : ShardConfig)
    : go (option (ShardConfig * bool)) :=
  '(c, ok) ← Leave gids cfg;
  Ret (if (ok : bool) then (fun c' => (c', true)) <$> Rebalance fuel c else Some (c, false)).

(** [cfg.Shards[sh]] panics when [sh] is not the number of a shard. *)
Definition GidServers (cfg : ShardConfig) (sh : Z) : go (Z * list string * bool) :=
  if decide (0 <= sh) then
    gid ← index (Shards cfg) (Z.to_nat sh);
    Ret (match Groups cfg !! gid with
         | Some srvs => (gid, srvs, true)
         | None => (gid, [], false)
         end)
  else Crash Panic.

Definition IsMember (cfg : ShardConfig) (gid : Z) : bool :=
  existsb (fun g => bool_decide (g = gid)) (Shards cfg).

(** [max] and [min] of [CheckConfig]. *)
Definition spread (cfg : ShardConfig) : Z * Z :=
  let counts := count_shards (Shards cfg) in
  foldl (fun '(max, min) g =>
           let n := default 0 (counts !! g) in
           (if decide (n > max) then n else max, if decide (n < min) then n else min))
        (0, 257) (map_to_list (Groups cfg)).*1.

Definition CheckConfig (cfg : ShardConfig) (groups : list Z) : go unit :=
  if decide (size (Groups cfg) <> length groups) then Crash Fatal
  else if existsb (fun g => bool_decide (Groups cfg !! g = None)) groups then Crash Fatal
  else if bool_decide (0 < length groups)%nat
          && existsb (fun g => bool_decide (Groups cfg !! g = None)) (Shards cfg) then Crash Fatal
  else let '(max, min) := spread cfg in
       if decide (max > min + 1) then Crash Fatal else Ret tt.

(** ** Invariant *)

(** The number of shards is fixed: [Shards] is an array. *)
Definition wf (c : ShardConfig) : Prop := length (Shards c) = Z.to_nat NShards.

Definition valid (c : ShardConfig) (g : Z) : Prop := is_Some (Groups c !! g).

Definition load (c : ShardConfig) (g : Z) : Z := occ g (Shards c).

(** Every shard is served by a group, and loads differ by at most one. *)
Definition balanced (c : ShardConfig) : Prop :=
  Forall (valid c) (Shards c) /\
  forall g1 g2, valid c g1 -> valid c g2 -> load c g1 <= load c g2 + 1.

#[export] Instance valid_dec c g : Decision (valid c g).
Proof. unfold valid. apply _. Defined.

(** ** Loads *)

Lemma count_shards_lookup l g : default 0 (count_shards l !! g) = occ g l.
Proof.
  unfold count_shards.
  enough (forall m, default 0 (foldl (fun counts g => <[g := default 0 (counts !! g) + 1]> counts) m l !! g)
                    = default 0 (m !! g) + occ g l) as H by (by rewrite H, lookup_empty).
  induction l as [|x l IH]; intros m; simpl; [rewrite occ_nil; lia|].
  rewrite IH, occ_cons. case_decide as E.
  - subst x. rewrite lookup_insert_eq. simpl. lia.
  - rewrite lookup_insert_ne by done. lia.
Qed.

Lemma elem_of_sorted_gids c g : g ∈ sorted_gids c <-> valid c g.
Proof.
  unfold sorted_gids, valid. rewrite merge_sort_Permutation, list_elem_of_fmap. split.
  - intros ([k v]&->&H%elem_of_map_to_list). by exists v.
  - intros [v H]. exists (g, v). by rewrite elem_of_map_to_list.
Qed.

Lemma sorted_gids_NoDup c : NoDup (sorted_gids c).
Proof. unfold sorted_gids. rewrite merge_sort_Permutation. apply NoDup_fst_map_to_list. Qed.

Lemma load_bound c g : wf c -> 0 <= load c g <= 12.
Proof. intros H. pose proof (occ_nonneg g (Shards c)). pose proof (occ_le_length g (Shards c)).
  unfold load, wf in *. rewrite H in *. change (Z.of_nat (Z.to_nat NShards)) with 12 in *. lia. Qed.

(** What [analyze] has found after the groups [seen]. *)
Definition analyzed (n : Z -> Z) (seen : list Z) (acc : Z * Z * Z * Z) : Prop :=
  let '(mg, mn, lg, ln) := acc in
  (forall g, g ∈ seen -> ln <= n g <= mn) /\
  (seen = [] /\ mn = -1 /\ ln = 257 \/
   mg ∈ seen /\ mn = n mg /\ lg ∈ seen /\ ln = n lg).

Lemma analyze_gid_analyzed counts n seen acc g :
  (forall g, default 0 (counts !! g) = n g) -> (forall g, 0 <= n g <= 256) ->
  analyzed n seen acc -> analyzed n (seen ++ [g]) (analyze_gid counts acc g).
Proof.
  intros Hc Hn. destruct acc as [[[mg mn] lg] ln]. unfold analyzed, analyze_gid.
  rewrite Hc. specialize (Hn g). intros [H1 H2].
  destruct (decide (n g < ln)), (decide (n g > mn)); simpl; (split;
    [intros g' [?%H1| ->%list_elem_of_singleton]%elem_of_app;
       destruct H2 as [(->&->&->)|(?&->&?&->)]; lia || set_solver + ..
    |right; destruct H2 as [(->&->&->)|(?&->&?&->)]; set_solver by lia]).
Qed.

Lemma analyze_analyzed c :
  wf c -> analyzed (load c) (sorted_gids c) (analyze c).
Proof.
  intros Hwf. unfold analyze.
  enough (forall gs seen acc, analyzed (load c) seen acc ->
    analyzed (load c) (seen ++ gs) (foldl (analyze_gid (count_shards (Shards c))) acc gs)) as H.
  { apply (H _ []). split; [intros ? ?%elem_of_nil; done|by left]. }
  induction gs as [|g gs IH]; intros seen acc Hacc; simpl; [by rewrite app_nil_r|].
  rewrite cons_middle, app_assoc. apply IH, analyze_gid_analyzed; [| |done].
  - intros g'. apply count_shards_lookup.
  - intros g'. pose proof (load_bound c g' Hwf). lia.
Qed.

(** With at least one group, [analyze] returns a most and a least loaded one. *)
Lemma analyze_spec c mg mn lg ln :
  wf c -> Groups c <> ∅ -> analyze c = (mg, mn, lg, ln) ->
  valid c mg /\ mn = load c mg /\ valid c lg /\ ln = load c lg /\
  forall g, valid c g -> ln <= load c g <= mn.
Proof.
  intros Hwf Hne E. pose proof (analyze_analyzed c Hwf) as H. rewrite E in H.
  destruct H as [Hall [(Hnil&_)|(Hm&->&Hl&->)]].
  - destruct (map_choose _ Hne) as (g&x&Hg). exfalso. apply (not_elem_of_nil g).
    rewrite <- Hnil. apply elem_of_sorted_gids. by exists x.
  - rewrite elem_of_sorted_gids in *. repeat split; try done;
      apply Hall, elem_of_sorted_gids; done.
Qed.

(** ** Assigning the shards of missing groups *)

Lemma least_valid c : wf c -> Groups c <> ∅ -> valid c (least c).
Proof.
  intros Hwf Hne. unfold least. destruct (analyze c) as [[[mg mn] lg] ln] eqn:E.
  by destruct (analyze_spec c mg mn lg ln Hwf Hne E) as (_&_&?&_).
Qed.

Lemma assign_unassigned_frame gs : forall s c,
  Groups (assign_unassigned s gs c) = Groups c /\ Num (assign_unassigned s gs c) = Num c
  /\ length (Shards (assign_unassigned s gs c)) = length (Shards c).
Proof.
  induction gs as [|g gs IH]; intros s c; simpl; [done|].
  destruct (Groups c !! g); [apply IH|]. destruct (IH (S s) (set_Shards c (<[s:=least c]> (Shards c))))
    as (->&->&->). simpl. by rewrite length_insert.
Qed.

Lemma assign_unassigned_valid gs : forall s c,
  wf c -> Groups c <> ∅ -> drop s (Shards c) = gs -> Forall (valid c) (take s (Shards c)) ->
  Forall (valid c) (Shards (assign_unassigned s gs c)).
Proof.
  induction gs as [|g gs IH]; intros s c Hwf Hne Hdrop Htake; simpl.
  - rewrite <- (take_drop s (Shards c)), Hdrop, app_nil_r. done.
  - assert (Shards c !! s = Some g) as Hs
      by (rewrite <- (Nat.add_0_r s), <- lookup_drop, Hdrop; done).
    assert (drop (S s) (Shards c) = gs) as Hdrop' by 
      (by rewrite <- Nat.add_1_r, <- drop_drop, Hdrop).
    destruct (Groups c !! g) as [v|] eqn:Eg.
    + apply IH; [done..|]. rewrite (take_S_r _ _ g) by done.
      apply Forall_app; split; [done|]. repeat constructor. by exists v.
    + apply (IH (S s) (set_Shards c (<[s:=least c]> (Shards c)))); simpl; [..|].
      * unfold wf. simpl. by rewrite length_insert.
      * done.
      * by rewrite drop_insert_lt by lia.
      * erewrite take_S_r by (apply list_lookup_insert_eq; by eapply lookup_lt_Some).
        rewrite take_insert_ge by lia. apply Forall_app; split; [done|].
        constructor; [exact (least_valid c Hwf Hne)|done].
Qed.

(** ** Moving shards *)

Lemma move_one_insert mg lg l :
  mg ∈ l -> exists i, l !! i = Some mg /\ move_one mg lg l = <[i := lg]> l.
Proof.
  induction l as [|x l IH]; [by intros ?%elem_of_nil|]. intros H. simpl.
  case_decide as E; [subst; by exists O|].
  apply elem_of_cons in H as [->|H]; [done|]. destruct (IH H) as (i&Hi&->). by exists (S i).
Qed.

(** The sum of the squares of the loads. *)
Definition potential (c : ShardConfig) : Z :=
  foldr (fun g z => load c g * load c g + z) 0 (sorted_gids c).

Lemma foldr_sum_Permutation (f : Z -> Z) l k :
  l ≡ₚ k -> foldr (fun g z => f g + z) 0 l = foldr (fun g z => f g + z) 0 k.
Proof. induction 1; simpl; lia. Qed.

Lemma foldr_sum_ext (f h : Z -> Z) l :
  (forall g, g ∈ l -> f g = h g) -> foldr (fun g z => f g + z) 0 l = foldr (fun g z => h g + z) 0 l.
Proof. induction l as [|x l IH]; intros H; simpl; [done|]. rewrite H, IH by set_solver. done. Qed.

Lemma foldr_sum_nonneg (f : Z -> Z) l :
  (forall g, 0 <= f g) -> 0 <= foldr (fun g z => f g + z) 0 l.
Proof. intros H. induction l as [|x l IH]; simpl; [lia|]. specialize (H x). lia. Qed.

(** Two different members of a list without duplicates can be taken out of it. *)
Lemma NoDup_two (l : list Z) a b :
  NoDup l -> a ∈ l -> b ∈ l -> a <> b -> exists k, (l ≡ₚ a :: b :: k) /\ (a ∉ k) /\ (b ∉ k).
Proof.
  intros Hnd [k1 Hk1]%elem_of_Permutation Hb Hab. rewrite Hk1 in Hnd, Hb.
  apply elem_of_cons in Hb as [?|[k2 Hk2]%elem_of_Permutation]; [congruence|].
  exists k2. rewrite Hk1, Hk2. rewrite Hk2 in Hnd.
  apply list.NoDup_cons in Hnd as [Ha [Hb _]%list.NoDup_cons]. split; [done|]. set_solver.
Qed.

Lemma move_one_load c mg lg g :
  mg ∈ Shards c -> mg <> lg ->
  load (set_Shards c (move_one mg lg (Shards c))) g
  = load c g - (if decide (g = mg) then 1 else 0) + (if decide (g = lg) then 1 else 0).
Proof.
  intros Hin Hne. destruct (move_one_insert mg lg (Shards c) Hin) as (i&Hi&E).
  unfold load. simpl. rewrite E. by apply occ_insert.
Qed.

Lemma move_one_potential c mg lg :
  valid c mg -> valid c lg -> load c lg + 2 <= load c mg ->
  potential (set_Shards c (move_one mg lg (Shards c))) <= potential c - 2.
Proof.
  intros Hm Hl Hld. assert (mg <> lg) as Hne by (intros ->; lia).
  assert (mg ∈ Shards c) as Hin by (apply occ_pos; pose proof (occ_nonneg lg (Shards c)); unfold load in *; lia).
  destruct (NoDup_two (sorted_gids c) mg lg) as (k&Hk&Hmk&Hlk);
    [apply sorted_gids_NoDup|by apply elem_of_sorted_gids..|done|].
  unfold potential. change (sorted_gids (set_Shards c _)) with (sorted_gids c).
  rewrite (foldr_sum_Permutation (fun g => load c g * load c g) _ _ Hk).
  set (c' := set_Shards _ _).
  rewrite (foldr_sum_Permutation (fun g => load c' g * load c' g) _ _ Hk). simpl.
  rewrite (foldr_sum_ext (fun g => load c' g * load c' g) (fun g => load c g * load c g)).
  - subst c'. rewrite !move_one_load by done.
    rewrite (decide_True (P:=mg=mg)), (decide_False (P:=mg=lg)), (decide_False (P:=lg=mg)), (decide_True (P:=lg=lg)) by done.
    nia.
  - intros g Hg. subst c'. rewrite move_one_load, !decide_False by set_solver. lia.
Qed.

(** Loads of different groups add up to at most the number of shards. *)
Lemma sum_occ_le l (shards : list Z) :
  NoDup l -> foldr (fun g z => occ g shards + z) 0 l <= Z.of_nat (length shards).
Proof.
  intros Hnd. induction shards as [|x shards IH]; [induction l; simpl; unfold occ in *; simpl in *|].
  - lia.
  - apply list.NoDup_cons in Hnd as [_ Hnd]. specialize (IHl Hnd). lia.
  - destruct (decide (x ∈ l)) as [Hx|Hx].
    + apply elem_of_Permutation in Hx as [k Hk]. rewrite Hk in Hnd.
      apply list.NoDup_cons in Hnd as [Hxk _].
      rewrite (foldr_sum_Permutation (fun g => occ g shards) _ _ Hk) in IH. simpl in IH.
      rewrite (foldr_sum_Permutation (fun g => occ g (x :: shards)) _ _ Hk). simpl.
      rewrite occ_cons, decide_True by done.
      rewrite (foldr_sum_ext (fun g => occ g (x :: shards)) (fun g => occ g shards)); [lia|].
      intros g Hg. rewrite occ_cons, decide_False by (by intros ->). lia.
    + rewrite (foldr_sum_ext _ (fun g => occ g shards)); [simpl; lia|].
      intros g Hg. rewrite occ_cons, decide_False by (by intros ->). lia.
Qed.

Lemma foldr_sum_le (f h : Z -> Z) l :
  (forall g, f g <= h g) -> foldr (fun g z => f g + z) 0 l <= foldr (fun g z => h g + z) 0 l.
Proof. intros H. induction l as [|x l IH]; simpl; [lia|]. specialize (H x). lia. Qed.

Lemma foldr_sum_scale (f : Z -> Z) k l :
  foldr (fun g z => k * f g + z) 0 l = k * foldr (fun g z => f g + z) 0 l.
Proof. induction l as [|x l IH]; simpl; lia. Qed.

Lemma potential_bound c : wf c -> 0 <= potential c <= 144.
Proof.
  intros Hwf. unfold potential. split; [apply foldr_sum_nonneg; nia|].
  pose proof (sum_occ_le _ (Shards c) (sorted_gids_NoDup c)) as H. rewrite Hwf in H.
  etrans; [apply (foldr_sum_le _ (fun g => 12 * load c g)); intros g;
           pose proof (load_bound c g Hwf); nia|].
  rewrite (foldr_sum_scale (load c)).
  change (Z.of_nat (Z.to_nat NShards)) with 12 in H. unfold load. lia.
Qed.

Lemma move_shards_S fuel c :
  move_shards (S fuel) c =
  let '(mg, mn, lg, ln) := analyze c in
  if decide (mn < ln + 2) then Some c
  else move_shards fuel (set_Shards c (move_one mg lg (Shards c))).
Proof. reflexivity. Qed.

Lemma move_shards_returns fuel : forall c,
  wf c -> Groups c <> ∅ -> Forall (valid c) (Shards c) -> potential c < 2 * Z.of_nat fuel ->
  exists c', move_shards fuel c = Some c' /\ Groups c' = Groups c /\ Num c' = Num c
             /\ wf c' /\ balanced c'.
Proof.
  induction fuel as [|fuel IH]; intros c Hwf Hne Hv Hp;
    [pose proof (potential_bound c Hwf); lia|]. simpl.
  destruct (analyze c) as [[[mg mn] lg] ln] eqn:E.
  destruct (analyze_spec c mg mn lg ln Hwf Hne E) as (Hm&->&Hl&->&Hall).
  case_decide as Hd.
  - exists c. split_and!; try done. split; [done|]. intros g1 g2 [_ H1]%Hall [H2 _]%Hall. lia.
  - assert (mg ∈ Shards c) as Hin
      by (apply occ_pos; pose proof (occ_nonneg lg (Shards c)); unfold load in *; lia).
    destruct (move_one_insert mg lg _ Hin) as (i&Hi&Ei).
    destruct (IH (set_Shards c (move_one mg lg (Shards c)))) as (c'&?&?&?&?&?); simpl.
    + unfold wf. simpl. rewrite Ei. by rewrite length_insert.
    + done.
    + rewrite Ei. by apply Forall_insert.
    + pose proof (move_one_potential c mg lg Hm Hl ltac:(lia)). lia.
    + by exists c'.
Qed.

(** ** Rebalance *)

Lemma replicate_spread c : Groups c = ∅ -> spread c = (0, 257).
Proof. intros E. unfold spread. by rewrite E, map_to_list_empty. Qed.

Lemma Rebalance_returns c :
  wf c -> exists c', Rebalance rebalance_fuel c = Some c' /\ Groups c' = Groups c
    /\ Num c' = Num c /\ wf c'
    /\ (Groups c <> ∅ -> balanced c')
    /\ (Groups c = ∅ -> Shards c' = replicate (Z.to_nat NShards) 0).
Proof.
  intros Hwf. unfold Rebalance. case_decide as Hsz.
  - assert (Groups c = ∅) as E by (apply map_size_empty_iff; lia).
    eexists. split_and!; [done..| | |]; simpl.
    + unfold wf. simpl. by rewrite length_replicate.
    + done.
    + intros _. by rewrite Hwf.
  - assert (Groups c <> ∅) as Hne by (intros E; rewrite E, map_size_empty in Hsz; lia).
    destruct (assign_unassigned_frame (Shards c) 0 c) as (Eg&En&El).
    pose proof (assign_unassigned_valid (Shards c) 0 c Hwf Hne eq_refl ltac:(constructor)) as Hv.
    set (c1 := assign_unassigned 0 (Shards c) c) in *.
    assert (wf c1) as Hwf1 by (unfold wf; by rewrite El).
    destruct (move_shards_returns rebalance_fuel c1) as (c'&?&?&?&?&?); [done|congruence| | |].
    + eapply Forall_impl; [|exact Hv]. intros g. unfold valid. by rewrite Eg.
    + pose proof (potential_bound c1 Hwf1). unfold rebalance_fuel. lia.
    + exists c'. split_and!; congruence.
Qed.

(** ** The checker *)

Lemma assign_unassigned_id gs : forall s c, Forall (valid c) gs -> assign_unassigned s gs c = c.
Proof.
  induction gs as [|g gs IH]; intros s c H; [done|]. simpl.
  inversion H as [|? ? [v Hg] Hgs]; subst. rewrite Hg. by apply IH.
Qed.

Lemma Rebalance_id c : wf c -> Groups c <> ∅ -> balanced c -> Rebalance rebalance_fuel c = Some c.
Proof.
  intros Hwf He [Hv Hbal]. unfold Rebalance.
  rewrite decide_False by (apply map_size_non_empty_iff in He; lia).
  rewrite assign_unassigned_id by done. unfold rebalance_fuel. rewrite move_shards_S.
  destruct (analyze c) as [[[mg mn] lg] ln] eqn:Ea.
  destruct (analyze_spec c mg mn lg ln Hwf He Ea) as (Hm&->&Hl&->&_).
  rewrite decide_True; [done|]. specialize (Hbal mg lg Hm Hl). lia.
Qed.

Lemma spread_loop_within c m gs : (forall g, g ∈ gs -> m <= load c g <= m + 1) -> forall max min,
  max <= m + 1 -> m <= min ->
  let '(max, min) :=
    foldl (fun '(max, min) g =>
             let n := default 0 (count_shards (Shards c) !! g) in
             (if decide (n > max) then n else max, if decide (n < min) then n else min))
          (max, min) gs in max <= m + 1 /\ m <= min.
Proof.
  induction gs as [|g gs IH]; intros H max min Hmax Hmin; [done|]. simpl.
  assert (m <= load c g <= m + 1) as Hg by (apply H; set_solver +).
  rewrite count_shards_lookup. unfold load in Hg.
  apply IH; [intros g' Hg'; apply H; set_solver + Hg'| |]; case_decide; lia.
Qed.

Lemma existsb_invalid c l :
  Forall (valid c) l -> existsb (fun g => bool_decide (Groups c !! g = None)) l = false.
Proof.
  induction 1 as [|g l [v Hg] _ IH]; [done|]. simpl. rewrite IH, orb_false_r.
  apply bool_decide_eq_false. by rewrite Hg.
Qed.

Definition gids (c : ShardConfig) : list Z := (map_to_list (Groups c)).*1.

Lemma gids_valid c : Forall (valid c) (gids c).
Proof.
  apply list.Forall_forall. intros g ([k v]&->&Hk%elem_of_map_to_list)%list_elem_of_fmap. by exists v.
Qed.

Lemma spread_ok c :
  wf c -> balanced c \/ Groups c = ∅ -> let '(max, min) := spread c in max <= min + 1.
Proof.
  intros Hwf [[_ Hb]|E]; [|rewrite replicate_spread by done; lia].
  destruct (decide (Groups c = ∅)) as [E|Hne]; [rewrite replicate_spread by done; lia|].
  destruct (analyze c) as [[[mg mn] lg] ln] eqn:Ea.
  destruct (analyze_spec c mg mn lg ln Hwf Hne Ea) as (Hm&->&Hl&->&Hall).
  pose proof (load_bound c lg Hwf).
  assert (let '(max, min) := spread c in max <= load c lg + 1 /\ load c lg <= min) as Hs.
  { apply spread_loop_within; [|lia..]. intros g Hg%(proj1 (list.Forall_forall _ _) (gids_valid c)).
    specialize (Hb g lg Hg Hl). specialize (Hall g Hg). lia. }
  destruct (spread c) as [max min]. lia.
Qed.

Lemma CheckConfig_passes c gs :
  wf c -> balanced c \/ Groups c = ∅ -> gs ≡ₚ gids c -> CheckConfig c gs = Ret tt.
Proof.
  intros Hwf Hb Hgs. pose proof (spread_ok c Hwf Hb) as Hs. unfold CheckConfig.
  assert (size (Groups c) = length gs) as Hlen
    by (rewrite Hgs; unfold gids; by rewrite length_fmap, length_map_to_list).
  rewrite decide_False by tauto. rewrite existsb_invalid by (rewrite Hgs; apply gids_valid).
  assert (bool_decide (0 < length gs)%nat &&
          existsb (fun g => bool_decide (Groups c !! g = None)) (Shards c) = false) as ->.
  { destruct Hb as [[Hv _]|E]; [rewrite existsb_invalid by done; apply andb_false_r|].
    rewrite <- Hlen, E, map_size_empty. done. }
  destruct (spread c) as [max min]. rewrite decide_False by lia. done.
Qed.

(** ** Join and Leave *)

(** No server is in two groups. *)
Definition disjoint_groups (m : gmap Z (list string)) : Prop :=
  forall g1 g2 l1 l2 s, m !! g1 = Some l1 -> m !! g2 = Some l2 -> s ∈ l1 -> s ∈ l2 -> g1 = g2.

Lemma in_some_group_false m srvs :
  in_some_group m srvs = false -> forall g l s, m !! g = Some l -> s ∈ l -> s ∉ srvs.
Proof.
  intros H g l s Hg Hs Hin. apply not_true_iff_false in H. apply H.
  apply existsb_exists. exists (g, l). split; [by apply list_elem_of_In, elem_of_map_to_list|].
  apply existsb_exists. exists s. split; [by apply list_elem_of_In|].
  apply existsb_exists. exists s. split; [by apply list_elem_of_In|by apply bool_decide_eq_true].
Qed.

Lemma disjoint_groups_insert m gid srvs :
  disjoint_groups m -> in_some_group m srvs = false -> disjoint_groups (<[gid := srvs]> m).
Proof.
  intros Hd Hi g1 g2 l1 l2 s [[<- <-]|[_ H1]]%lookup_insert_Some [[<- <-]|[_ H2]]%lookup_insert_Some Hs1 Hs2.
  - done.
  - by destruct (in_some_group_false _ _ Hi _ _ _ H2 Hs2).
  - by destruct (in_some_group_false _ _ Hi _ _ _ H1 Hs1).
  - by apply (Hd g1 g2 l1 l2 s).
Qed.

Lemma disjoint_groups_delete m gid : disjoint_groups m -> disjoint_groups (delete gid m).
Proof. intros Hd g1 g2 l1 l2 s [_ H1]%lookup_delete_Some [_ H2]%lookup_delete_Some. by apply (Hd g1 g2). Qed.

(** What a loop of [Join] that returns has done, successful or not. *)
Lemma join_loop_Ret servers : forall changed cfg c ok,
  join_loop servers changed cfg = Ret (c, ok) -> disjoint_groups (Groups cfg) ->
  Shards c = Shards cfg /\ disjoint_groups (Groups c)
  /\ (ok = true -> Num c = i64 (Num cfg + 1) /\ Groups c = list_to_map servers ∪ Groups cfg
                   /\ Forall (fun '(gid, _) => Groups cfg !! gid = None) servers).
Proof.
  induction servers as [|[gid srvs] servers IH]; intros changed cfg c ok H Hd; simpl in H.
  - destruct changed; simplify_eq. simpl. rewrite map_empty_union. done.
  - destruct (Groups cfg !! gid) eqn:Eg; [simplify_eq; done|].
    destruct (in_some_group (Groups cfg) srvs) eqn:Ei; [done|].
    destruct (IH _ _ _ _ H) as (Hs&Hd'&Hok); [by apply disjoint_groups_insert|].
    split_and!; [done..|]. intros E. destruct (Hok E) as (Hn&Hg&Hf). split_and!; [done| |].
    + assert ((list_to_map servers : gmap Z (list string)) !! gid = None) as Hno.
      { apply not_elem_of_list_to_map_1. intros ([g l]&->&Hin)%list_elem_of_fmap.
        rewrite list.Forall_forall in Hf. specialize (Hf _ Hin). simpl in Hf.
        by rewrite lookup_insert_eq in Hf. }
      rewrite Hg. simpl. by rewrite <- insert_union_r, insert_union_l by done.
    + constructor; [done|]. eapply Forall_impl; [|exact Hf]. intros [g l]. simpl.
      by intros [? ?]%lookup_insert_None.
Qed.

Lemma leave_loop_Ret gs : forall changed cfg c ok,
  leave_loop gs changed cfg = Ret (c, ok) -> disjoint_groups (Groups cfg) ->
  Shards c = Shards cfg /\ disjoint_groups (Groups c)
  /\ (ok = true -> Num c = i64 (Num cfg + 1)
                   /\ Groups c = filter (fun '(g, _) => g ∉ gs) (Groups cfg)).
Proof.
  induction gs as [|gid gs IH]; intros changed cfg c ok H Hd; simpl in H.
  - destruct changed; simplify_eq. simpl. split_and!; [done..|]. intros _. split; [done|].
    symmetry. apply map_filter_id. intros i x _. apply not_elem_of_nil.
  - destruct (Groups cfg !! gid) eqn:Eg; [|simplify_eq; done].
    destruct (IH _ _ _ _ H) as (Hs&Hd'&Hok); [by apply disjoint_groups_delete|].
    split_and!; [done..|]. intros E. destruct (Hok E) as (Hn&Hg). split; [done|].
    rewrite Hg. simpl. apply map_eq. intros i. apply option_eq. intros x.
    rewrite !map_lookup_filter_Some, lookup_delete_Some, not_elem_of_cons. naive_solver.
Qed.

(** ** Reachable configurations *)

(** A successful [JoinBalance] or [LeaveBalance] of the controller. *)
Inductive ctrl_step : ShardConfig -> ShardConfig -> Prop :=
  | ctrl_join servers c c' :
      JoinBalance rebalance_fuel servers c = Ret (Some (c', true)) -> ctrl_step c c'
  | ctrl_leave gs c c' :
      LeaveBalance rebalance_fuel gs c = Ret (Some (c', true)) -> ctrl_step c c'.

Definition cfg_inv (c : ShardConfig) : Prop :=
  wf c /\ disjoint_groups (Groups c) /\ (balanced c \/ Groups c = ∅).

Lemma Rebalance_inv c c' :
  wf c -> disjoint_groups (Groups c) -> Rebalance rebalance_fuel c = Some c' -> cfg_inv c'.
Proof.
  intros Hwf Hd E. destruct (Rebalance_returns c Hwf) as (c''&E'&Hg&_&Hwf'&Hb&_).
  simplify_eq. unfold cfg_inv. rewrite Hg. split_and!; [done..|].
  destruct (decide (Groups c = ∅)); auto.
Qed.

Lemma ctrl_step_inv c c' : ctrl_step c c' -> cfg_inv c -> cfg_inv c'.
Proof.
  intros [servers ? ? H|gs ? ? H] (Hwf&Hd&_).
  - unfold JoinBalance, mbind, go_bind in H. destruct (Join servers c0) as [[c1 ok]|] eqn:E; [|done].
    destruct (join_loop_Ret _ _ _ _ _ E Hd) as (Es&Hd'&_). destruct ok; [|done].
    destruct (Rebalance _ c1) as [c2|] eqn:Er; simplify_eq/=.
    eapply Rebalance_inv; [|done..]. unfold wf. by rewrite Es.
  - unfold LeaveBalance, mbind, go_bind in H. destruct (Leave gs c0) as [[c1 ok]|] eqn:E; [|done].
    destruct (leave_loop_Ret _ _ _ _ _ E Hd) as (Es&Hd'&_). destruct ok; [|done].
    destruct (Rebalance _ c1) as [c2|] eqn:Er; simplify_eq/=.
    eapply Rebalance_inv; [|done..]. unfold wf. by rewrite Es.
Qed.

Lemma reachable_inv c : rtc ctrl_step MakeShardConfig c -> cfg_inv c.
Proof.
  intros H. assert (cfg_inv MakeShardConfig) as H0.
  { split_and!; [done| |by right]. intros g1 g2 l1 l2 s H1. simpl in H1. by rewrite lookup_empty in H1. }
  induction H as [|c1 c2 c3 H12 _ IH]; [done|]. eapply IH, ctrl_step_inv; done.
Qed.

(** The copy is the same configuration, in a map of its own. *)
Lemma Copy_eq c : Copy c = c.
Proof.
  unfold Copy. destruct c as [n l m]. simpl.
  enough (forall k m0, foldl (fun c '(k, srvs) => set_Groups c (<[k := srvs]> (Groups c)))
                         (mkCfg n l m0) k = mkCfg n l (list_to_map (reverse k) ∪ m0)) as H.
  { change (set_Shards _ l) with (mkCfg n l ∅). rewrite H. f_equal. rewrite map_union_empty.
    rewrite (list_to_map_proper _ (map_to_list m)); [apply list_to_map_to_list| |apply reverse_Permutation].
    rewrite reverse_Permutation. apply NoDup_fst_map_to_list. }
  induction k as [|[g s] k IH]; intros m0; simpl; [by rewrite map_empty_union|].
  unfold set_Groups at 2. simpl. rewrite IH, reverse_cons, list_to_map_app, <- map_union_assoc. simpl.
  by rewrite <- insert_union_l, map_empty_union.
Qed.

Lemma Key2Shard_range key : 0 <= Key2Shard key < NShards.
Proof. unfold Key2Shard. apply Z.mod_pos_bound. reflexivity. Qed.

Lemma IsMember_spec c g : IsMember c g = true <-> g ∈ Shards c.
Proof.
  unfold IsMember. rewrite existsb_exists. setoid_rewrite bool_decide_eq_true.
  setoid_rewrite <- list_elem_of_In. naive_solver.
Qed.

(** ** Properties *)

(** C5: [Rebalance] terminates (within [rebalance_fuel] moves) from every assignment of the
    twelve shards, keeps the number and the groups, and leaves a configuration that
    [CheckConfig] accepts for exactly its groups: every shard on an existing group, loads
    that differ by at most one. *)
Theorem rebalance_terminates_balanced c gs :
  wf c -> gs ≡ₚ gids c ->
  exists c', Rebalance rebalance_fuel c = Some c' /\ Groups c' = Groups c /\ Num c' = Num c
             /\ wf c' /\ (Groups c <> ∅ -> balanced c') /\ CheckConfig c' gs = Ret tt.
Proof.
  intros Hwf Hgs. destruct (Rebalance_returns c Hwf) as (c'&E&Hg&Hn&Hwf'&Hb&Hu).
  exists c'. split_and!; try done. apply CheckConfig_passes; [done| |].
  - destruct (decide (Groups c = ∅)); [right; congruence|auto].
  - unfold gids. by rewrite Hg.
Qed.

(** [Rebalance] moves nothing when the assignment is already balanced, so applying it
    twice is the same as applying it once. *)
Theorem rebalance_idempotent c c' :
  wf c -> Rebalance rebalance_fuel c = Some c' -> Rebalance rebalance_fuel c' = Some c'.
Proof.
  intros Hwf E. destruct (Rebalance_returns c Hwf) as (c0&E'&Hg&Hn&Hwf'&Hb&Hu). rewrite E in E'. injection E' as <-.
  destruct (decide (Groups c = ∅)) as [He|He]; [|apply Rebalance_id; [done|congruence|by apply Hb]].
  unfold Rebalance. rewrite decide_True by (rewrite Hg, He, map_size_empty; lia).
  f_equal. destruct c' as [n l m]. unfold set_Shards; simpl in *. by rewrite Hu by done.
Qed.

(** C20: in every configuration the controller reaches by successful [JoinBalance] and
    [LeaveBalance] calls there are twelve shards, no server belongs to two groups, and
    once there is a group every key hashes to a shard that [GidServers] finds served by an
    existing group. *)
Theorem reachable_configs_serve_every_key c key :
  rtc ctrl_step MakeShardConfig c ->
  wf c /\ disjoint_groups (Groups c)
  /\ (Groups c <> ∅ -> exists gid srvs,
        GidServers c (Key2Shard key) = Ret (gid, srvs, true)
        /\ Groups c !! gid = Some srvs /\ IsMember c gid = true).
Proof.
  intros H. destruct (reachable_inv c H) as (Hwf&Hd&Hb). split_and!; [done..|]. intros Hne.
  destruct Hb as [[Hv _]|?]; [|done]. unfold GidServers.
  pose proof (Key2Shard_range key) as Hk. rewrite decide_True by lia.
  destruct (lookup_lt_is_Some_2 (Shards c) (Z.to_nat (Key2Shard key))) as [gid Hgid].
  { unfold wf in Hwf. rewrite Hwf. lia. }
  unfold index. rewrite Hgid. simpl.
  destruct (Forall_lookup_1 _ _ _ _ Hv Hgid) as [srvs Hs]. rewrite Hs.
  exists gid, srvs. split_and!; [done..|]. apply IsMember_spec. by eapply list_elem_of_lookup_2.
Qed.

(** what [Join] does when it succeeds (the named groups, none of them known before, are
    added and the number goes up by one; the shards stay), and what [Leave] does. *)
Theorem join_leave_outcome c c1 c2 servers gs :
  disjoint_groups (Groups c) -> Join servers c = Ret (c1, true) -> Leave gs c = Ret (c2, true) ->
  (Groups c1 = list_to_map servers ∪ Groups c /\ Num c1 = i64 (Num c + 1) /\ Shards c1 = Shards c)
  /\ (Groups c2 = filter (fun '(g, _) => g ∉ gs) (Groups c)
      /\ Num c2 = i64 (Num c + 1) /\ Shards c2 = Shards c).
Proof.
  intros Hd [? [_ H1]]%join_loop_Ret [? [_ H2]]%leave_loop_Ret; [|done..].
  destruct (H1 eq_refl) as (?&?&?), (H2 eq_refl) as (?&?). done.
Qed.

(** *** Concrete configurations *)

Definition two_groups : list (Z * list string) := [(1, ["a"; "b"]%string); (2, ["c"]%string)].

Definition cfg_of (r : go (option (ShardConfig * bool))) : ShardConfig :=
  match r with Ret (Some (c, _)) => c | _ => MakeShardConfig end.

Definition cfg_joined : ShardConfig := cfg_of (JoinBalance rebalance_fuel two_groups MakeShardConfig).
Definition cfg_three : ShardConfig := cfg_of (JoinBalance rebalance_fuel [(3, ["d"]%string)] cfg_joined).
Definition cfg_left : ShardConfig := cfg_of (LeaveBalance rebalance_fuel [1; 3] cfg_three).

Lemma joined_step : ctrl_step MakeShardConfig cfg_joined.
Proof. apply (ctrl_join two_groups). vm_compute. reflexivity. Qed.

Lemma three_step : ctrl_step cfg_joined cfg_three.
Proof. apply (ctrl_join [(3, ["d"]%string)]). vm_compute. reflexivity. Qed.

Lemma left_step : ctrl_step cfg_three cfg_left.
Proof. apply (ctrl_leave [1; 3]). vm_compute. reflexivity. Qed.

Example three_assignment : Shards cfg_three = [3; 3; 3; 3; 1; 2; 1; 2; 1; 2; 1; 2].
Proof. vm_compute. reflexivity. Qed.

Lemma rebalance_terminates_balanced_witness :
  exists c', Rebalance rebalance_fuel (set_Shards cfg_joined (replicate 12 7)) = Some c'
             /\ CheckConfig c' [2; 1] = Ret tt.
Proof.
  destruct (rebalance_terminates_balanced (set_Shards cfg_joined (replicate 12 7)) [2; 1])
    as (c'&E&_&_&_&_&H).
  - reflexivity.
  - vm_compute. first [apply Permutation_swap | reflexivity].
  - exists c'. split; [exact E|exact H].
Defined.

Lemma rebalance_idempotent_witness : Rebalance rebalance_fuel cfg_three = Some cfg_three.
Proof.
  apply (rebalance_idempotent (set_Shards cfg_three (Shards cfg_joined))).
  - vm_compute. reflexivity.
  - vm_compute. reflexivity.
Defined.

Lemma reachable_configs_serve_every_key_witness :
  exists gid srvs, GidServers cfg_left (Key2Shard "a") = Ret (gid, srvs, true).
Proof.
  destruct (reachable_configs_serve_every_key cfg_left "a") as (_&_&H).
  - eapply rtc_l; [exact joined_step|]. eapply rtc_l; [exact three_step|].
    eapply rtc_l; [exact left_step|]. apply rtc_refl.
  - destruct H as (gid&srvs&H&_); [vm_compute; discriminate|]. by exists gid, srvs.
Defined.

Definition cfg_only (r : go (ShardConfig * bool)) : ShardConfig :=
  match r with Ret (c, _) => c | _ => MakeShardConfig end.

Lemma join_leave_outcome_witness :
  exists c1 c2, Num c1 = 2 /\ Num c2 = 2 /\ Shards c1 = Shards c2.
Proof.
  exists (cfg_only (Join [(3, ["d"]%string)] cfg_joined)), (cfg_only (Leave [1] cfg_joined)).
  destruct (reachable_inv cfg_joined (rtc_once _ _ joined_step)) as (_&Hd&_).
  destruct (join_leave_outcome cfg_joined (cfg_only (Join [(3, ["d"]%string)] cfg_joined))
    (cfg_only (Leave [1] cfg_joined)) [(3, ["d"]%string)] [1] Hd) as [(_&->&->) (_&->&->)].
  - vm_compute. reflexivity.
  - vm_compute. reflexivity.
  - repeat apply conj; vm_compute; reflexivity.
Defined.
