(* ===== verification/Coordinator.v ===== *)
(** * The MapReduce coordinator

    [src/map_reduce/mr/coordinator.go] with the messages of [rpc.go].  Every handler runs
    under the coordinator's mutex, so a handler is one function on the state; the clock is
    an argument.  [GetTask] also starts a goroutine that calls [checkTask] every ten
    seconds, for ever: the model returns the index of the task it watches, and the system
    of the last part keeps these watchers. *)

From S2P Require Import Prelude.
Local Open Scope Z_scope.

(** ** Messages *)

Definition TaskTypeMap : string := "map".
Definition TaskTypeReduce : string := "reduce".
Definition TaskTypeWait : string := "wait".
Definition TaskTypeExit : string := "exit".

Definition TaskStatusPending : string := "pending".
Definition TaskStatusOnGoing : string := "ongoing".
Definition TaskStatusDone : string := "done".

Record PingIn := mkPingIn { ping_WorkerId : string }.
Record GetTaskIn := mkGetTaskIn { get_WorkerId : string }.
Record GetTaskOut := mkGetTaskOut {
  out_Id : string;
  out_Input : string;
  out_Type : string;
  out_NReduce : Z;
  out_Idx : Z;
}.
Record UpdateTaskIn := mkUpdateTaskIn {
  upd_WorkerId : string;
  upd_TaskId : string;
  upd_Status : string;
}.
Record UpdateTaskOut := mkUpdateTaskOut { upd_Success : bool }.

(** The zero value the RPC library passes as reply. *)
Definition GetTaskOut0 : GetTaskOut := mkGetTaskOut "" "" "" 0 0.

(** ** State *)

Record TaskId := mkTaskId { taskCounter : Z }.

Definition taskId : TaskId := mkTaskId 0.

Definition get (t : TaskId) : TaskId * string :=
  let t' := mkTaskId (i64 (taskCounter t + 1)) in (t', Itoa (taskCounter t')).

Record Task := mkTask {
  id : string;
  input : string;
  tType : string;
  status : string;
  workerId : string;
  idx : Z;
  lastPing : Z;
}.

Definition set_status (t : Task) (s : string) : Task :=
  mkTask (id t) (input t) (tType t) s (workerId t) (idx t) (lastPing t).
Definition set_workerId (t : Task) (w : string) : Task :=
  mkTask (id t) (input t) (tType t) (status t) w (idx t) (lastPing t).
Definition set_lastPing (t : Task) (now : Z) : Task :=
  mkTask (id t) (input t) (tType t) (status t) (workerId t) (idx t) now.

Definition JobPhaseMap : string := "map".
Definition JobPhaseReduce : string := "reduce".
Definition JobPhaseDone : string := "done".

Record Coordinator := mkCoordinator {
  phase : string;
  tasks : list Task;
  nReduce : Z;
}.

Definition set_tasks (c : Coordinator) (l : list Task) : Coordinator :=
  mkCoordinator (phase c) l (nReduce c).
Definition set_phase (c : Coordinator) (p : string) : Coordinator :=
  mkCoordinator p (tasks c) (nReduce c).

(** ** Operations *)

Fixpoint create_map_tasks (files : list string) (t : TaskId) : TaskId * list Task :=
  match files with
  | [] => (t, [])
  | filename :: rest =>
      let '(t1, n) := get t in
      let '(t2, l) := create_map_tasks rest t1 in
      (t2, mkTask n filename TaskTypeMap TaskStatusPending "" 0 0 :: l)
  end.

Fixpoint create_reduce_tasks (idxs : list nat) (t : TaskId) : TaskId * list Task :=
  match idxs with
  | [] => (t, [])
  | i :: rest =>
      let '(t1, n) := get t in
      let '(t2, l) := create_reduce_tasks rest t1 in
      (t2, mkTask n ("mr-*-" +:+ Itoa (Z.of_nat i) +:+ ".json") TaskTypeReduce TaskStatusPending
             "" (Z.of_nat i) 0 :: l)
  end.

Definition createTasks (files : list string) (nReduce : Z) (t : TaskId) (c : Coordinator)
    : TaskId * Coordinator :=
  let '(t1, maps) := create_map_tasks files t in
  let '(t2, reduces) := create_reduce_tasks (seq 0 (Z.to_nat nReduce)) t1 in
  (t2, set_tasks c (maps ++ reduces)).

(** The coordinator before its server starts; [start] is the critical section after it. *)
Definition MakeCoordinator (files : list string) (nReduce : Z) (t : TaskId) : TaskId * Coordinator :=
  createTasks files nReduce t (mkCoordinator "" [] nReduce).

Definition start (c : Coordinator) : Coordinator := set_phase c JobPhaseMap.

Definition Ping (args : PingIn) (now : Z) (c : Coordinator) : Coordinator :=
  set_tasks c ((fun task => if decide (workerId task = ping_WorkerId args)
                            then set_lastPing task now else task) <$> tasks c).

(** First index, from [i], of a pending task of type [ty]; -1 if there is none. *)
Fixpoint find_pending (i : Z) (ty : string) (l : list Task) : Z :=
  match l with
  | [] => -1
  | task :: rest =>
      if decide (tType task = ty /\ status task = TaskStatusPending) then i
      else find_pending (i + 1) ty rest
  end.

Definition findPendingTask (c : Coordinator) : Z :=
  find_pending 0 (if decide (phase c = JobPhaseReduce) then TaskTypeReduce else TaskTypeMap) (tasks c).

(** State, reply and, when a task is handed out, its index: the goroutine watches it. *)
Definition GetTask (args : GetTaskIn) (reply : GetTaskOut) (now : Z) (t : TaskId) (c : Coordinator)
    : TaskId * Coordinator * GetTaskOut * option nat :=
  if decide (phase c = JobPhaseDone) then
    let '(t', n) := get t in
    (t', c, mkGetTaskOut n (out_Input reply) TaskTypeExit (out_NReduce reply) (out_Idx reply), None)
  else
    let k := findPendingTask c in
    if decide (k = -1) then
      let '(t', n) := get t in
      (t', c, mkGetTaskOut n (out_Input reply) TaskTypeWait (out_NReduce reply) (out_Idx reply), None)
    else
      match tasks c !! Z.to_nat k with
      | None => (t, c, reply, None)
      | Some task =>
          let reply' := mkGetTaskOut (id task) (input task) (tType task) (nReduce c) (idx task) in
          let task' := set_lastPing (set_workerId (set_status task TaskStatusOnGoing)
                                       (get_WorkerId args)) now in
          (t, set_tasks c (<[Z.to_nat k := task']> (tasks c)), reply', Some (Z.to_nat k))
      end.

Definition check_task (now : Z) (task : Task) : Task :=
  if decide (status task = TaskStatusOnGoing) then
    if decide (i64 (now - lastPing task) > 10000)
    then set_workerId (set_status task TaskStatusPending) "" else task
  else task.

(** [checkTask] on the task with index [i]. *)
Definition checkTask (i : nat) (now : Z) (c : Coordinator) : Coordinator :=
  set_tasks c (alter (check_task now) i (tasks c)).

(** The loop of [UpdateTask]: the tasks, [mapDone] and [reduceDone]. *)
Fixpoint update_loop (args : UpdateTaskIn) (l : list Task) (mapDone reduceDone : bool)
    : list Task * bool * bool :=
  match l with
  | [] => ([], mapDone, reduceDone)
  | task :: rest =>
      let task := if decide (id task = upd_TaskId args)
                  then set_status task (upd_Status args) else task in
      let '(mapDone, reduceDone) :=
        if decide (tType task = TaskTypeMap /\ status task <> TaskStatusDone)
        then (false, reduceDone)
        else if decide (tType task = TaskTypeReduce /\ status task <> TaskStatusDone)
             then (mapDone, false) else (mapDone, reduceDone) in
      let '(rest', m, r) := update_loop args rest mapDone reduceDone in
      (task :: rest', m, r)
  end.

Definition UpdateTask (args : UpdateTaskIn) (c : Coordinator) : Coordinator * UpdateTaskOut :=
  let '(l, mapDone, reduceDone) := update_loop args (tasks c) true true in
  let c := set_tasks c l in
  (if (mapDone && negb reduceDone)%bool then set_phase c JobPhaseReduce
   else if (mapDone && reduceDone)%bool then set_phase c JobPhaseDone else c,
   mkUpdateTaskOut true).

Definition Done (c : Coordinator) : bool := bool_decide (phase c = JobPhaseDone).

(** ** The running job *)

(** The coordinator, the id generator, the goroutines started so far, and whether
    [MakeCoordinator] has gone through the critical section that sets the phase. *)
Record job := mkJob { gen : TaskId; coord : Coordinator; watchers : list nat; started : bool }.

(** The job when [server] begins to accept requests: the phase is not set yet. *)
Definition job_init (files : list string) (n : Z) : job :=
  let '(t, c) := MakeCoordinator files n taskId in mkJob t c [] false.

(** What happens once requests are accepted: [MakeCoordinator] sets the phase, at any
    moment and once; any worker asks, pings or reports any task as done (the only status a
    worker sends); any watcher fires. *)
Inductive event :=
  | EStart
  | EPing (w : string) (now : Z)
  | EGetTask (w : string) (now : Z)
  | EDone (w : string) (task : string)
  | ECheck (i : nat) (now : Z).

Definition handle (e : event) (j : job) : job :=
  match e with
  | EStart => if started j then j else mkJob (gen j) (start (coord j)) (watchers j) true
  | EPing w now => mkJob (gen j) (Ping (mkPingIn w) now (coord j)) (watchers j) (started j)
  | EGetTask w now =>
      let '(t, c, _, k) := GetTask (mkGetTaskIn w) GetTaskOut0 now (gen j) (coord j) in
      mkJob t c (match k with Some i => i :: watchers j | None => watchers j end) (started j)
  | EDone w n =>
      mkJob (gen j) (UpdateTask (mkUpdateTaskIn w n TaskStatusDone) (coord j)).1 (watchers j) (started j)
  | ECheck i now =>
      if decide (i ∈ watchers j) then mkJob (gen j) (checkTask i now (coord j)) (watchers j) (started j) else j
  end.

Definition handle_all (es : list event) (j : job) : job := foldl (fun j e => handle e j) j es.

(** What [GetTask] answers a worker. *)
Definition answer (w : string) (now : Z) (j : job) : GetTaskOut :=
  let '(_, _, reply, _) := GetTask (mkGetTaskIn w) GetTaskOut0 now (gen j) (coord j) in reply.

(** ** Lemmas on the operations *)

Definition done (t : Task) : Prop := status t = TaskStatusDone.

#[export] Instance done_dec t : Decision (done t).
Proof. unfold done. apply _. Defined.

(** All tasks of type [ty] are done. *)
Definition all_done (ty : string) (l : list Task) : bool :=
  forallb (fun t => negb (bool_decide (tType t = ty /\ ~ done t))) l.

Lemma all_done_true ty l :
  all_done ty l = true <-> forall t, t ∈ l -> tType t = ty -> done t.
Proof.
  unfold all_done. rewrite forallb_forall. setoid_rewrite <- list_elem_of_In.
  setoid_rewrite negb_true_iff. setoid_rewrite bool_decide_eq_false.
  split; intros H t Ht; specialize (H t Ht).
  - intros Hty. destruct (decide (done t)); tauto.
  - intros [Hty Hn]. auto.
Qed.

Lemma all_done_false ty l :
  all_done ty l = false <-> exists t, t ∈ l /\ tType t = ty /\ ~ done t.
Proof.
  unfold all_done. induction l as [|x l IH]; simpl; [split; [done|intros (?&?%elem_of_nil&_); done]|].
  rewrite andb_false_iff, negb_false_iff, bool_decide_eq_true, IH. set_solver.
Qed.

Definition apply_update (args : UpdateTaskIn) (t : Task) : Task :=
  if decide (id t = upd_TaskId args) then set_status t (upd_Status args) else t.

Lemma update_loop_spec args l : forall m r,
  update_loop args l m r =
  (apply_update args <$> l,
   m && all_done TaskTypeMap (apply_update args <$> l),
   r && all_done TaskTypeReduce (apply_update args <$> l))%bool.
Proof.
  induction l as [|t l IH]; intros m r; simpl; [by rewrite !andb_true_r|].
  fold (apply_update args t). set (t' := apply_update args t). unfold done.
  destruct (decide (tType t' = TaskTypeMap /\ status t' <> TaskStatusDone)) as [[H1 H2]|H1].
  - rewrite IH, (bool_decide_eq_true_2 (tType t' = TaskTypeMap /\ _)) by done.
    rewrite (bool_decide_eq_false_2 (tType t' = TaskTypeReduce /\ _)) by (rewrite H1; by intros []).
    simpl. by rewrite andb_false_r.
  - rewrite (bool_decide_eq_false_2 (tType t' = TaskTypeMap /\ _)) by done.
    case_decide as H2; rewrite IH.
    + rewrite (bool_decide_eq_true_2 (tType t' = TaskTypeReduce /\ _)) by done.
      simpl. by rewrite andb_false_r.
    + by rewrite (bool_decide_eq_false_2 (tType t' = TaskTypeReduce /\ _)) by done.
Qed.

(** The phase is still to be set although the last map task was reported. *)
Definition late (j : job) : bool :=
  (negb (started j) && all_done TaskTypeMap (tasks (coord j)))%bool.

(** [MakeCoordinator] does not come late in the run [es] from [j]. *)
Fixpoint timely (es : list event) (j : job) : bool :=
  match es with
  | [] => true
  | e :: rest =>
      ((if e is EStart then negb (late j) else true) && timely rest (handle e j))%bool
  end.

(** The parts of a task that never change. *)
Definition sig (t : Task) : string * string * string * Z := (id t, input t, tType t, idx t).

Lemma apply_update_sig args t : sig (apply_update args t) = sig t.
Proof. unfold apply_update. by case_decide. Qed.

Lemma check_task_sig now t : sig (check_task now t) = sig t.
Proof. unfold check_task. by repeat case_decide. Qed.

Lemma find_pending_spec ty l : forall i,
  find_pending i ty l = -1 /\ (0 <= i -> forall t, t ∈ l -> tType t = ty -> status t <> TaskStatusPending)
  \/ exists k t, find_pending i ty l = i + Z.of_nat k /\ l !! k = Some t
                 /\ tType t = ty /\ status t = TaskStatusPending
                 /\ forall k' t', (k' < k)%nat -> l !! k' = Some t' ->
                      ~ (tType t' = ty /\ status t' = TaskStatusPending).
Proof.
  induction l as [|t l IH]; intros i; simpl; [left; split; [done|]; by intros _ ? ?%elem_of_nil|].
  case_decide as H.
  - right. exists O, t. split_and!; [lia|done|tauto|tauto|]. intros; lia.
  - destruct (IH (i + 1)) as [[E Hn]|(k&u&E&Hu&Hty&Hst&Hmin)].
    + left. split; [done|]. intros Hi u [->|Hu]%elem_of_cons Hty; [tauto|]. apply Hn; [lia|done..].
    + right. exists (S k), u. split_and!; [lia|done..|].
      intros [|k'] t' Hk' Ht'; simplify_eq/=; [done|]. apply (Hmin k'); [lia|done].
Qed.

(** The three outcomes of [GetTask]. *)
Lemma GetTask_cases args reply now t c :
  (phase c = JobPhaseDone /\
     GetTask args reply now t c =
       ((get t).1, c, mkGetTaskOut (get t).2 (out_Input reply) TaskTypeExit (out_NReduce reply) (out_Idx reply), None))
  \/ (phase c <> JobPhaseDone /\
      (forall u, u ∈ tasks c ->
         tType u = (if decide (phase c = JobPhaseReduce) then TaskTypeReduce else TaskTypeMap) ->
         status u <> TaskStatusPending) /\
      GetTask args reply now t c =
       ((get t).1, c, mkGetTaskOut (get t).2 (out_Input reply) TaskTypeWait (out_NReduce reply) (out_Idx reply), None))
  \/ (phase c <> JobPhaseDone /\ exists k u, tasks c !! k = Some u /\ status u = TaskStatusPending /\
      tType u = (if decide (phase c = JobPhaseReduce) then TaskTypeReduce else TaskTypeMap) /\
      (forall k' u', (k' < k)%nat -> tasks c !! k' = Some u' ->
         ~ (tType u' = tType u /\ status u' = TaskStatusPending)) /\
      GetTask args reply now t c =
       (t, set_tasks c (<[k := set_lastPing (set_workerId (set_status u TaskStatusOnGoing)
                                              (get_WorkerId args)) now]> (tasks c)),
        mkGetTaskOut (id u) (input u) (tType u) (nReduce c) (idx u), Some k)).
Proof.
  unfold GetTask. destruct (decide (phase c = JobPhaseDone)) as [Hd|Hd]; [left; by destruct (get t)|].
  right. unfold findPendingTask.
  set (ty := if decide (phase c = JobPhaseReduce) then TaskTypeReduce else TaskTypeMap).
  destruct (find_pending_spec ty (tasks c) 0) as [[E Hn]|(k&u&E&Hu&Hty&Hst&Hmin)]; rewrite E.
  - left. rewrite decide_True by done. split_and!; [done|by apply Hn|by destruct (get t)].
  - right. split; [done|]. exists k, u. rewrite decide_False by lia.
    rewrite Z.add_0_l, Nat2Z.id, Hu. rewrite Hty. done.
Qed.

(** ** Invariant *)

Definition task_ok (t : Task) : Prop :=
  (tType t = TaskTypeMap \/ tType t = TaskTypeReduce) /\
  (status t = TaskStatusPending \/ status t = TaskStatusOnGoing \/ status t = TaskStatusDone).

(** The phase is "map", or not set yet. *)
Definition mapping (c : Coordinator) : Prop :=
  phase c <> JobPhaseReduce /\ phase c <> JobPhaseDone.

(** The phase tells exactly which tasks are left. *)
Definition phase_ok (c : Coordinator) : Prop :=
  mapping c /\ all_done TaskTypeMap (tasks c) = false
  \/ phase c = JobPhaseReduce /\ all_done TaskTypeMap (tasks c) = true
     /\ all_done TaskTypeReduce (tasks c) = false
  \/ phase c = JobPhaseDone /\ all_done TaskTypeMap (tasks c) = true
     /\ all_done TaskTypeReduce (tasks c) = true.

Definition watched (j : job) : Prop :=
  forall k t, tasks (coord j) !! k = Some t -> status t = TaskStatusOnGoing -> k ∈ watchers j.

Definition job_inv (j : job) : Prop :=
  Forall task_ok (tasks (coord j)) /\ phase_ok (coord j) /\ watched j.

(** One task after another: what never changes, and done tasks stay done. *)
Definition evolves (l l' : list Task) : Prop :=
  Forall2 (fun t t' => sig t = sig t' /\ (done t -> done t')) l l'.

(** No task becomes done. *)
Definition none_done (l l' : list Task) : Prop :=
  Forall2 (fun t t' => tType t = tType t' /\ (done t <-> done t')) l l'.

Lemma none_done_all_done ty l l' : none_done l l' -> all_done ty l = all_done ty l'.
Proof.
  induction 1 as [|t t' l l' [Ht Hd] _ IH]; [done|]. unfold all_done in *. simpl. rewrite IH, Ht.
  do 2 f_equal. apply bool_decide_ext. by rewrite Hd.
Qed.

Lemma none_done_phase_ok c l :
  none_done (tasks c) l -> phase_ok c -> phase_ok (set_tasks c l).
Proof. intros H. unfold phase_ok. simpl. by rewrite !(none_done_all_done _ _ _ H). Qed.

Lemma Forall2_fmap_same {A} (R : A -> A -> Prop) (f : A -> A) l :
  (forall x, R x (f x)) -> Forall2 R l (f <$> l).
Proof. intros H. induction l; constructor; [apply H|done]. Qed.

(** Replacing one element. *)
Lemma Forall2_insert_same {A} (R : A -> A -> Prop) l k x y :
  (forall z, R z z) -> l !! k = Some x -> R x y -> Forall2 R l (<[k := y]> l).
Proof.
  intros Hr Hk Hxy. rewrite <- (list_insert_id l k x Hk) at 1.
  apply Forall2_insert; [|done]. by apply Forall_Forall2_diag, Forall_true.
Qed.

Lemma alter_insert_lookup {A} (f : A -> A) (l : list A) k :
  alter f k l = match l !! k with Some x => <[k := f x]> l | None => l end.
Proof.
  apply list_eq. intros i. destruct (decide (i = k)) as [->|Hne].
  - rewrite list_lookup_alter_eq. destruct (l !! k) as [x|] eqn:E; [|by rewrite E].
    by rewrite list_lookup_insert_eq by (by eapply lookup_lt_Some).
  - rewrite list_lookup_alter_ne by done. destruct (l !! k); [|done].
    by rewrite list_lookup_insert_ne by done.
Qed.

Lemma done_not_ongoing t : status t = TaskStatusOnGoing -> ~ done t.
Proof. unfold done. by intros ->. Qed.

Lemma done_not_pending t : status t = TaskStatusPending -> ~ done t.
Proof. unfold done. by intros ->. Qed.

(** *** The effect of an event on the tasks *)

Lemma handle_evolves e j : evolves (tasks (coord j)) (tasks (coord (handle e j))).
Proof.
  destruct e as [|w now|w now|w n|i now]; simpl.
  - case_match; by apply Forall_Forall2_diag, Forall_true.
  - apply Forall2_fmap_same. intros t. by case_decide.
  - destruct (GetTask_cases (mkGetTaskIn w) GetTaskOut0 now (gen j) (coord j))
      as [[_ ->]|[(_&_&->)|(_&k&u&Hk&Hst&_&_&->)]]; simpl;
      [by apply Forall_Forall2_diag, Forall_true..|].
    apply (Forall2_insert_same _ _ k u); [done..|]. split; [done|].
    intros Hd. by destruct (done_not_pending u Hst).
  - unfold UpdateTask. rewrite update_loop_spec.
    assert (evolves (tasks (coord j)) (apply_update (mkUpdateTaskIn w n TaskStatusDone) <$> tasks (coord j))).
    { apply Forall2_fmap_same. intros t. unfold apply_update. by case_decide. }
    by repeat case_match.
  - case_decide; simpl; [|by apply Forall_Forall2_diag, Forall_true].
    rewrite alter_insert_lookup. destruct (_ !! i) as [u|] eqn:E; [|by apply Forall_Forall2_diag, Forall_true].
    apply (Forall2_insert_same _ _ i u); [done..|]. split; [by rewrite check_task_sig|].
    unfold check_task. case_decide as Ho; [|done]. intros Hd. by destruct (done_not_ongoing u Ho).
Qed.

Lemma handle_all_evolves es : forall j, evolves (tasks (coord j)) (tasks (coord (handle_all es j))).
Proof.
  induction es as [|e es IH]; intros j; simpl; [by apply Forall_Forall2_diag, Forall_true|].
  specialize (IH (handle e j)). pose proof (handle_evolves e j) as H. unfold evolves in *.
  eapply Forall2_trans; [|exact H|exact IH]. simpl. intros t1 t2 t3 [-> ?] [-> ?]. auto.
Qed.

Lemma evolves_all_done ty l l' : evolves l l' -> all_done ty l = true -> all_done ty l' = true.
Proof.
  rewrite !all_done_true. intros H Hd t' Ht' Hty.
  apply list_elem_of_lookup in Ht' as [k Hk].
  destruct (Forall2_lookup_r _ _ _ _ _ H Hk) as (t&Ht&Hs&Himp). apply Himp, Hd.
  - by eapply list_elem_of_lookup_2.
  - unfold sig in Hs. congruence.
Qed.

(** *** Preservation *)

Lemma task_ok_set_done t : task_ok t -> task_ok (set_status t TaskStatusDone).
Proof. unfold task_ok. simpl. tauto. Qed.

Lemma Ping_inv w now j : job_inv j -> job_inv (handle (EPing w now) j).
Proof.
  intros (Hok&Hp&Hw). simpl. split_and!; simpl.
  - apply Forall_fmap. eapply Forall_impl; [|exact Hok]. intros t Ht. simpl. by case_decide.
  - apply none_done_phase_ok; [|done]. apply Forall2_fmap_same. intros t. by case_decide.
  - intros k t. simpl. rewrite list_lookup_fmap. intros (u&Hu&->)%fmap_Some Hst.
    apply (Hw k u Hu). by case_decide.
Qed.

Lemma GetTask_inv w now j : job_inv j -> job_inv (handle (EGetTask w now) j).
Proof.
  intros (Hok&Hp&Hw). simpl.
  destruct (GetTask_cases (mkGetTaskIn w) GetTaskOut0 now (gen j) (coord j))
    as [[_ ->]|[(_&_&->)|(_&k&u&Hk&Hst&_&_&->)]]; [done..|].
  split_and!; simpl.
  - apply Forall_insert; [done|]. pose proof (Forall_lookup_1 _ _ _ _ Hok Hk) as [? _].
    split; simpl; tauto.
  - apply none_done_phase_ok; [|done].
    apply (Forall2_insert_same _ _ k u); [done..|]. split; [done|].
    split; [intros Hd; by destruct (done_not_pending u Hst)|by intros ?].
  - intros i t Hi Ho. simpl in *. destruct (decide (i = k)) as [->|Hne]; [set_solver +|].
    rewrite list_lookup_insert_ne in Hi by done. apply elem_of_cons. right. by apply (Hw i t).
Qed.

Lemma UpdateTask_inv w n j : job_inv j -> job_inv (handle (EDone w n) j).
Proof.
  intros (Hok&Hp&Hw). set (args := mkUpdateTaskIn w n TaskStatusDone).
  assert (evolves (tasks (coord j)) (apply_update args <$> tasks (coord j))) as He.
  { apply Forall2_fmap_same. intros t. unfold apply_update. by case_decide. }
  simpl. fold args. unfold UpdateTask. rewrite update_loop_spec. simpl.
  set (l := apply_update args <$> tasks (coord j)) in *. split_and!.
  - assert (Forall task_ok l) as Hl.
    { apply Forall_fmap. eapply Forall_impl; [|exact Hok]. intros t Ht. simpl. unfold apply_update.
      case_decide; [by apply task_ok_set_done|done]. }
    by repeat case_match.
  - destruct (all_done TaskTypeMap l) eqn:Em, (all_done TaskTypeReduce l) eqn:Er;
      unfold phase_ok; simpl; rewrite ?Em, ?Er; [tauto..| |].
    all: left; split; [|done]; destruct Hp as [[Hph _]|[(_&Hm&_)|(_&Hm&_)]]; [done|..].
    all: by rewrite (evolves_all_done _ _ _ He Hm) in Em.
  - assert (forall k t, l !! k = Some t -> status t = TaskStatusOnGoing -> k ∈ watchers j) as H.
    { intros k t. subst l. rewrite list_lookup_fmap. intros (u&Hu&->)%fmap_Some.
      unfold apply_update. case_decide; [done|]. by apply Hw. }
    intros k t. simpl. by repeat case_match; apply H.
Qed.

Lemma checkTask_inv i now j : job_inv j -> job_inv (handle (ECheck i now) j).
Proof.
  intros (Hok&Hp&Hw). simpl. case_decide; [|done]. unfold checkTask.
  rewrite alter_insert_lookup. destruct (_ !! i) as [u|] eqn:E; simpl; [|by split_and!].
  split_and!; simpl.
  - apply Forall_insert; [done|]. pose proof (Forall_lookup_1 _ _ _ _ Hok E).
    unfold check_task. case_decide; [|done]. case_decide; [|done].
    destruct H0. split; simpl; tauto.
  - apply none_done_phase_ok; [|done].
    apply (Forall2_insert_same _ _ i u); [done..|]. unfold check_task.
    case_decide as Ho; [|done]. case_decide; [|done]. split; [done|].
    split; [intros Hd; by destruct (done_not_ongoing u Ho)|by intros ?].
  - intros k t Hk Ho. simpl in *. destruct (decide (k = i)) as [->|Hne]; [done|].
    rewrite list_lookup_insert_ne in Hk by done. by apply (Hw k t).
Qed.

(** Setting the phase after the last map task was reported undoes what the report did. *)
Lemma start_inv j : job_inv j -> late j = false -> job_inv (handle EStart j).
Proof.
  intros (Hok&Hp&Hw) Hl. simpl. unfold late in Hl. destruct (started j); [done|].
  split_and!; simpl; [done|by left|done].
Qed.

Lemma handle_inv e j : job_inv j -> (e = EStart -> late j = false) -> job_inv (handle e j).
Proof.
  destruct e; intros Hj Hl;
    [by apply start_inv, Hl|by apply Ping_inv|by apply GetTask_inv|by apply UpdateTask_inv|by apply checkTask_inv].
Qed.

Lemma handle_all_inv es : forall j, job_inv j -> timely es j = true -> job_inv (handle_all es j).
Proof.
  induction es as [|e es IH]; intros j Hj Ht; [done|]. simpl in Ht.
  apply andb_true_iff in Ht as [He Ht]. apply IH; [|done]. apply handle_inv; [done|].
  intros ->. by apply negb_true_iff.
Qed.

Lemma timely_app es es' : forall j,
  timely (es ++ es') j = true -> timely es j = true /\ timely es' (handle_all es j) = true.
Proof.
  induction es as [|e es IH]; intros j; [done|]. simpl. rewrite !andb_true_iff.
  intros [? [? ?]%IH]. done.
Qed.

(** Whenever the phase is set, it is "reduce" only once every map task is done. *)
Lemma handle_reduce_phase e j :
  (phase (coord j) = JobPhaseReduce -> all_done TaskTypeMap (tasks (coord j)) = true) ->
  phase (coord (handle e j)) = JobPhaseReduce -> all_done TaskTypeMap (tasks (coord (handle e j))) = true.
Proof.
  intros Hj. assert (phase (coord (handle e j)) = phase (coord j) ->
    phase (coord (handle e j)) = JobPhaseReduce -> all_done TaskTypeMap (tasks (coord (handle e j))) = true) as Hsame.
  { intros E Hp. eapply evolves_all_done; [apply handle_evolves|]. rewrite E in Hp. auto. }
  destruct e as [|w now|w now|w n|i now]; [| | | |].
  - simpl. by destruct (started j).
  - by apply Hsame.
  - apply Hsame. simpl. by destruct (GetTask_cases (mkGetTaskIn w) GetTaskOut0 now (gen j) (coord j))
      as [[_ ->]|[(_&_&->)|(_&k&u&_&_&_&_&->)]].
  - revert Hsame. simpl. unfold UpdateTask. rewrite update_loop_spec. simpl.
    destruct (all_done TaskTypeMap (_ <$> _)) eqn:Em; simpl; [by destruct (all_done TaskTypeReduce _)|].
    intros Hsame. by apply Hsame.
  - apply Hsame. simpl. by case_decide.
Qed.

Lemma handle_all_reduce_phase es : forall j,
  (phase (coord j) = JobPhaseReduce -> all_done TaskTypeMap (tasks (coord j)) = true) ->
  phase (coord (handle_all es j)) = JobPhaseReduce -> all_done TaskTypeMap (tasks (coord (handle_all es j))) = true.
Proof. induction es as [|e es IH]; intros j Hj; [done|]. by apply IH, handle_reduce_phase. Qed.

(** *** The initial state *)

Lemma create_map_tasks_types files : forall t,
  Forall (fun u => tType u = TaskTypeMap /\ status u = TaskStatusPending) (create_map_tasks files t).2
  /\ length (create_map_tasks files t).2 = length files.
Proof.
  induction files as [|f files IH]; intros t; simpl; [done|].
  destruct (IH (mkTaskId (i64 (taskCounter t + 1)))) as [H1 H2].
  destruct (create_map_tasks files _) as [t2 l]. simpl in *. split; [by constructor|by rewrite H2].
Qed.

Lemma create_reduce_tasks_types idxs : forall t,
  Forall (fun u => tType u = TaskTypeReduce /\ status u = TaskStatusPending) (create_reduce_tasks idxs t).2
  /\ length (create_reduce_tasks idxs t).2 = length idxs.
Proof.
  induction idxs as [|i idxs IH]; intros t; simpl; [done|].
  destruct (IH (mkTaskId (i64 (taskCounter t + 1)))) as [H1 H2].
  destruct (create_reduce_tasks idxs _) as [t2 l]. simpl in *. split; [by constructor|by rewrite H2].
Qed.

Lemma job_init_tasks files n :
  exists maps reduces, tasks (coord (job_init files n)) = maps ++ reduces
    /\ length maps = length files /\ length reduces = Z.to_nat n
    /\ Forall (fun u => tType u = TaskTypeMap /\ status u = TaskStatusPending) maps
    /\ Forall (fun u => tType u = TaskTypeReduce /\ status u = TaskStatusPending) reduces.
Proof.
  unfold job_init, MakeCoordinator, createTasks.
  pose proof (create_map_tasks_types files taskId) as [H1 H2].
  destruct (create_map_tasks files taskId) as [t1 maps].
  pose proof (create_reduce_tasks_types (seq 0 (Z.to_nat n)) t1) as [H3 H4].
  destruct (create_reduce_tasks _ t1) as [t2 reduces]. simpl in *.
  rewrite length_seq in H4. by exists maps, reduces.
Qed.

Lemma job_init_phase files n : phase (coord (job_init files n)) = "".
Proof.
  unfold job_init, MakeCoordinator, createTasks. by repeat case_match; simplify_eq/=.
Qed.

Lemma job_init_pending files n :
  Forall (fun u => status u = TaskStatusPending) (tasks (coord (job_init files n))).
Proof.
  destruct (job_init_tasks files n) as (maps&reduces&->&_&_&Hm&Hr). apply Forall_app.
  split; (eapply Forall_impl; [|done]); by intros t [].
Qed.

Lemma job_init_inv files n : files <> [] -> job_inv (job_init files n).
Proof.
  intros Hne. pose proof (job_init_pending files n) as Hpend. rewrite list.Forall_forall in Hpend.
  destruct (job_init_tasks files n) as (maps&reduces&E&Hlm&_&Hm&Hr).
  rewrite list.Forall_forall in Hm, Hr. split_and!.
  - rewrite list.Forall_forall. intros t Ht. specialize (Hpend t Ht). rewrite E, elem_of_app in Ht.
    split; [|tauto]. destruct Ht as [[? _]%Hm|[? _]%Hr]; tauto.
  - left. split; [by unfold mapping; rewrite job_init_phase|]. apply all_done_false.
    destruct maps as [|m maps]; [by destruct files|]. exists m. rewrite E.
    destruct (Hm m ltac:(set_solver +)) as [? Hs].
    split_and!; [set_solver +|done|by apply done_not_pending].
  - intros k t Hk Ho. rewrite (Hpend t) in Ho by (by eapply list_elem_of_lookup_2). done.
Qed.

Lemma job_init_not_late files n : files <> [] -> late (job_init files n) = false.
Proof.
  intros Hne. destruct (job_init_inv files n Hne) as (_&[[_ Hm]|[[Hp _]|[Hp _]]]&_).
  - unfold late. by rewrite Hm, andb_false_r.
  - by rewrite job_init_phase in Hp.
  - by rewrite job_init_phase in Hp.
Qed.

Lemma job_init_start files n :
  tasks (coord (handle EStart (job_init files n))) = tasks (coord (job_init files n)).
Proof. simpl. by case_match. Qed.

(** Task ids are consecutive numerals. *)
Lemma create_map_tasks_ids files : forall n, Z.of_nat (n + length files) < 2 ^ 63 ->
  create_map_tasks files (mkTaskId (Z.of_nat n)) =
    (mkTaskId (Z.of_nat (n + length files)), (create_map_tasks files (mkTaskId (Z.of_nat n))).2)
  /\ id <$> (create_map_tasks files (mkTaskId (Z.of_nat n))).2
     = (fun i => Itoa (Z.of_nat i)) <$> seq (S n) (length files).
Proof.
  induction files as [|f files IH]; intros n Hn; simpl in *; [by rewrite Nat.add_0_r|].
  rewrite i64_small by lia. replace (Z.of_nat n + 1) with (Z.of_nat (S n)) by lia.
  destruct (IH (S n) ltac:(lia)) as [E1 E2].
  destruct (create_map_tasks files (mkTaskId (Z.of_nat (S n)))) as [t l]. simpl in *.
  injection E1 as ->. split; [do 2 f_equal; lia|]. f_equal. exact E2.
Qed.

Lemma create_reduce_tasks_ids idxs : forall n, Z.of_nat (n + length idxs) < 2 ^ 63 ->
  id <$> (create_reduce_tasks idxs (mkTaskId (Z.of_nat n))).2
  = (fun i => Itoa (Z.of_nat i)) <$> seq (S n) (length idxs).
Proof.
  induction idxs as [|f idxs IH]; intros n Hn; simpl in *; [done|].
  rewrite i64_small by lia. replace (Z.of_nat n + 1) with (Z.of_nat (S n)) by lia.
  specialize (IH (S n) ltac:(lia)).
  destruct (create_reduce_tasks idxs (mkTaskId (Z.of_nat (S n)))) as [t l]. simpl in *.
  f_equal. exact IH.
Qed.

Lemma job_init_ids files n :
  Z.of_nat (length files + Z.to_nat n) < 2 ^ 63 -> NoDup (id <$> tasks (coord (job_init files n))).
Proof.
  intros Hb. unfold job_init, MakeCoordinator, createTasks. change taskId with (mkTaskId (Z.of_nat 0)).
  destruct (create_map_tasks_ids files 0 ltac:(lia)) as [E1 E2].
  destruct (create_map_tasks files _) as [t maps]. simpl in *. injection E1 as ->.
  pose proof (create_reduce_tasks_ids (seq 0 (Z.to_nat n)) (length files)) as E3.
  destruct (create_reduce_tasks _ _) as [t' reduces]. simpl in *.
  rewrite fmap_app, E2, E3 by (rewrite length_seq; lia).
  rewrite <- fmap_app, <- (seq_app _ _ 1). apply NoDup_fmap_2; [|apply NoDup_seq].
  intros i i' H%Itoa_inj. lia.
Qed.

Lemma evolves_ids l l' : evolves l l' -> id <$> l = id <$> l'.
Proof. induction 1 as [|t t' l l' [Hs _] _ IH]; [done|]. injection Hs as Hi _ _ _.
  rewrite !fmap_cons. by rewrite Hi, IH. Qed.

Lemma evolves_length l l' : evolves l l' -> length l = length l'.
Proof. apply Forall2_length. Qed.

(** *** Reports of an id that belongs to one task *)

Lemma apply_update_unique args l k u :
  NoDup (id <$> l) -> l !! k = Some u -> id u = upd_TaskId args ->
  apply_update args <$> l = <[k := set_status u (upd_Status args)]> l.
Proof.
  intros Hnd Hk Hid. apply list_eq. intros i. rewrite list_lookup_fmap.
  destruct (decide (i = k)) as [->|Hne].
  - rewrite Hk, list_lookup_insert_eq by (by eapply lookup_lt_Some). simpl. unfold apply_update.
    by rewrite decide_True.
  - rewrite list_lookup_insert_ne by done. destruct (l !! i) as [t|] eqn:Ei; [|done]. simpl.
    unfold apply_update. case_decide as E; [|done]. exfalso. apply Hne.
    eapply (NoDup_lookup _ i k (id u) Hnd); rewrite list_lookup_fmap;
      [rewrite Ei; simpl; congruence|by rewrite Hk].
Qed.

Lemma UpdateTask_tasks args c :
  tasks (UpdateTask args c).1 = apply_update args <$> tasks c.
Proof. unfold UpdateTask. rewrite update_loop_spec. by repeat case_match. Qed.

(** The number of tasks that are not done. *)
Definition remaining (j : job) : Z :=
  occ false ((fun t => bool_decide (done t)) <$> tasks (coord j)).

Lemma remaining_zero j : job_inv j -> remaining j = 0 -> phase (coord j) = JobPhaseDone.
Proof.
  intros (_&Hp&_) H0. unfold remaining in H0.
  assert (forall t, t ∈ tasks (coord j) -> done t) as Hall.
  { intros t Ht. destruct (decide (done t)) as [|Hn]; [done|]. exfalso.
    assert (0 < 0) as ?; [|lia]. rewrite <- H0 at 2. apply occ_pos, list_elem_of_fmap.
    exists t. split; [by rewrite bool_decide_eq_false_2|done]. }
  destruct Hp as [[_ Hf]|[(_&_&Hf)|[? _]]]; [..|done].
  all: apply all_done_false in Hf as (t&Ht&_&[]); by apply Hall.
Qed.

(** What a state in which no task is under way gives a worker. *)
Definition idle (j : job) : Prop :=
  forall t, t ∈ tasks (coord j) -> status t <> TaskStatusOnGoing.

(** A worker is told to wait only if some task of the current phase is under way. *)
Lemma wait_ongoing w now j :
  job_inv j -> out_Type (answer w now j) = TaskTypeWait ->
  exists k t, tasks (coord j) !! k = Some t /\ status t = TaskStatusOnGoing /\ k ∈ watchers j
    /\ tType t = (if decide (phase (coord j) = JobPhaseReduce) then TaskTypeReduce else TaskTypeMap)
    /\ phase (coord j) <> JobPhaseDone.
Proof.
  intros (Hok&Hp&Hw) Ha. unfold answer in Ha. rewrite list.Forall_forall in Hok.
  destruct (GetTask_cases (mkGetTaskIn w) GetTaskOut0 now (gen j) (coord j))
    as [[_ E]|[(Hnd&Hnone&E)|(_&k&u&_&_&Hty&_&E)]]; rewrite E in Ha; simpl in Ha; [done| |].
  2: { rewrite Hty in Ha. by destruct (decide _). }
  assert (exists t, t ∈ tasks (coord j) /\ ~ done t /\
    tType t = if decide (phase (coord j) = JobPhaseReduce) then TaskTypeReduce else TaskTypeMap)
    as (t&Ht&Hd&Hty).
  { destruct Hp as [[Hph Hf]|[(Hph&_&Hf)|[? _]]]; [..|done];
      apply all_done_false in Hf as (t&?&?&?); exists t; split_and!; try done; [|by rewrite Hph].
    by rewrite decide_False by apply Hph. }
  apply list_elem_of_lookup in Ht as Hk. destruct Hk as [k Hk].
  assert (status t = TaskStatusOnGoing) as Ho.
  { destruct (Hok t Ht) as [_ [?|[?|?]]]; [|done|by destruct Hd]. by destruct (Hnone t Ht Hty). }
  exists k, t. split_and!; [done..|by eapply Hw|done|done].
Qed.

(** One round of a worker: get a task, report it done. *)
Definition worker_round (w : string) (now : Z) (j : job) : job :=
  handle (EDone w (out_Id (answer w now j))) (handle (EGetTask w now) j).

Lemma worker_round_progress w now j :
  job_inv j -> NoDup (id <$> tasks (coord j)) -> idle j -> 0 < remaining j ->
  idle (worker_round w now j) /\ remaining (worker_round w now j) = remaining j - 1.
Proof.
  intros Hj Hnd Hidle Hrem. pose proof Hj as (_&Hp&_). unfold worker_round. simpl.
  assert (out_Type (answer w now j) <> TaskTypeWait) as Hnw.
  { intros (k&t&Hk&Ho&_)%wait_ongoing; [|done]. apply (Hidle t); [by eapply list_elem_of_lookup_2|done]. }
  unfold answer in *.
  destruct (GetTask_cases (mkGetTaskIn w) GetTaskOut0 now (gen j) (coord j))
    as [[Hd E]|[(_&_&E)|(_&k&u&Hk&Hst&_&_&E)]]; rewrite E in *; simpl in *; [|done|].
  - exfalso. destruct Hp as [[H _]|[[H _]|(_&H1&H2)]]; [by apply H|by rewrite Hd in H|].
    apply occ_pos, list_elem_of_fmap in Hrem as (t&Hf&Ht). symmetry in Hf.
    apply bool_decide_eq_false in Hf. destruct Hj as (Hok&_&_). rewrite list.Forall_forall in Hok.
    rewrite all_done_true in H1, H2. destruct (Hok t Ht) as [[Hty|Hty] _]; auto.
  - set (u' := set_lastPing (set_workerId (set_status u TaskStatusOnGoing) w) now) in *.
    assert (k < length (tasks (coord j)))%nat as Hlt by (by eapply lookup_lt_Some).
    assert (tasks (UpdateTask (mkUpdateTaskIn w (id u) TaskStatusDone)
              (set_tasks (coord j) (<[k := u']> (tasks (coord j))))).1
            = <[k := set_status u' TaskStatusDone]> (tasks (coord j))) as Et.
    { rewrite UpdateTask_tasks. simpl. rewrite (apply_update_unique _ _ k u').
      - by rewrite list_insert_insert_eq.
      - rewrite list_fmap_insert. rewrite list_insert_id; [done|]. by rewrite list_lookup_fmap, Hk.
      - by rewrite list_lookup_insert_eq.
      - done. }
    unfold idle, remaining. simpl. rewrite Et. split.
    + intros t [i Hi]%list_elem_of_lookup. destruct (decide (i = k)) as [->|Hne].
      * rewrite list_lookup_insert_eq in Hi by done. by simplify_eq.
      * rewrite list_lookup_insert_ne in Hi by done. apply Hidle. by eapply list_elem_of_lookup_2.
    + rewrite list_fmap_insert, (occ_insert _ false); [|].
      * rewrite decide_True, decide_False by done. lia.
      * rewrite list_lookup_fmap, Hk. simpl. f_equal. by apply bool_decide_eq_false_2, done_not_pending.
Qed.

Lemma worker_rounds_finish w now k : forall j,
  job_inv j -> NoDup (id <$> tasks (coord j)) -> idle j -> remaining j = Z.of_nat k ->
  phase (coord (Nat.iter k (worker_round w now) j)) = JobPhaseDone.
Proof.
  induction k as [|k IH]; intros j Hj Hnd Hi Hr; [by apply remaining_zero|].
  rewrite Nat.iter_succ_r. destruct (worker_round_progress w now j) as [Hi' Hr']; [done..|lia|].
  apply IH; [by apply UpdateTask_inv, GetTask_inv| |done|lia].
  unfold worker_round. by rewrite <- !(evolves_ids _ _ (handle_evolves _ _)).
Qed.

(** Once it is set, events other than reports leave the phase alone. *)
Lemma handle_phase e j :
  started j = true -> (forall w n, e <> EDone w n) -> phase (coord (handle e j)) = phase (coord j).
Proof.
  intros Hs He. destruct e as [|w now|w now|w n|i now]; simpl; [by rewrite Hs|done| |by destruct (He w n)|by case_decide].
  by destruct (GetTask_cases (mkGetTaskIn w) GetTaskOut0 now (gen j) (coord j))
    as [[_ ->]|[(_&_&->)|(_&k&u&_&_&_&_&->)]].
Qed.

Lemma handle_started e j : started j = true -> started (handle e j) = true.
Proof.
  intros Hs. destruct e as [|w now|w now|w n|i now]; simpl; [by rewrite Hs|done| |done|by case_decide].
  by destruct (GetTask _ _ _ _ _) as [[[??]?]?].
Qed.

Lemma wedged w now es : forall j,
  Forall (fun e => forall w n, e <> EDone w n) es -> started j = true ->
  phase (coord j) = JobPhaseMap -> all_done TaskTypeMap (tasks (coord j)) = true ->
  Done (coord (handle_all es j)) = false
  /\ out_Type (answer w now (handle_all es j)) = TaskTypeWait.
Proof.
  induction es as [|e es IH]; intros j Hes Hs Hph Hd; simpl.
  - unfold Done, answer. rewrite Hph. split; [done|].
    destruct (GetTask_cases (mkGetTaskIn w) GetTaskOut0 now (gen j) (coord j))
      as [[H _]|[(_&_&->)|(_&k&u&Hk&Hst&Hty&_&_)]]; [by rewrite Hph in H|done|].
    exfalso. rewrite Hph in Hty. apply (done_not_pending u Hst).
    rewrite all_done_true in Hd. apply Hd; [by eapply list_elem_of_lookup_2|done].
  - inversion Hes; subst. apply IH; [done|by apply handle_started| |].
    + by rewrite handle_phase.
    + by eapply evolves_all_done; [apply handle_evolves|].
Qed.

(** ** Properties *)

(** C6: a reduce task is handed out only when every map task is done, also when
    [MakeCoordinator] sets the phase late; the task handed out was pending, and becomes the
    asking worker's, under way and watched. *)
Theorem reduce_only_after_maps files n es w now :
  let j := handle_all es (job_init files n) in
  out_Type (answer w now j) = TaskTypeReduce ->
  (forall t, t ∈ tasks (coord j) -> tType t = TaskTypeMap -> done t)
  /\ exists k t t', tasks (coord j) !! k = Some t /\ status t = TaskStatusPending
       /\ id t = out_Id (answer w now j)
       /\ tasks (coord (handle (EGetTask w now) j)) !! k = Some t'
       /\ status t' = TaskStatusOnGoing /\ workerId t' = w
       /\ k ∈ watchers (handle (EGetTask w now) j).
Proof.
  intros j Ha. assert (phase (coord j) = JobPhaseReduce -> all_done TaskTypeMap (tasks (coord j)) = true) as Hp.
  { apply handle_all_reduce_phase. by rewrite job_init_phase. }
  unfold answer in *. simpl.
  destruct (GetTask_cases (mkGetTaskIn w) GetTaskOut0 now (gen j) (coord j))
    as [[_ E]|[(_&_&E)|(Hnd&k&u&Hk&Hst&Hty&_&E)]]; rewrite E in *; simpl in *; [done..|].
  split.
  - apply all_done_true, Hp. rewrite Hty in Ha. by case_decide.
  - exists k, u, (set_lastPing (set_workerId (set_status u TaskStatusOnGoing) w) now).
    rewrite list_lookup_insert_eq by (by eapply lookup_lt_Some). split_and!; try done. set_solver +.
Qed.

(** C19: provided [MakeCoordinator] sets the phase while some map task is still to be
    reported ([timely]), [Done] holds exactly when every task is done, and then for ever.
    Without the proviso it is false: [late_phase_wedges_job]. *)
Theorem done_iff_all_tasks_done files n es es' :
  files <> [] -> timely (es ++ es') (job_init files n) = true ->
  let j := handle_all es (job_init files n) in
  (Done (coord j) = true <-> forall t, t ∈ tasks (coord j) -> done t)
  /\ (Done (coord j) = true -> Done (coord (handle_all es' j)) = true).
Proof.
  intros Hne Ht j. apply timely_app in Ht as [Ht Ht'].
  pose proof (handle_all_inv es _ (job_init_inv files n Hne) Ht) as Hj. fold j in Hj, Ht'.
  assert (forall j, job_inv j -> Done (coord j) = true <-> forall t, t ∈ tasks (coord j) -> done t) as Hiff.
  { clear. intros j (Hok&Hp&_). rewrite list.Forall_forall in Hok. unfold Done.
    rewrite bool_decide_eq_true. split.
    - intros Hd t Hin. destruct Hp as [[H _]|[[H _]|(_&H1&H2)]]; [by destruct H|by rewrite Hd in H|].
      rewrite all_done_true in H1, H2. destruct (Hok t Hin) as [[?|?] _]; auto.
    - intros Hall. destruct Hp as [[_ H]|[(_&_&H)|[? _]]]; [..|done].
      all: apply all_done_false in H as (t&Ht&_&[]); auto. }
  split; [by apply Hiff|]. intros Hd. apply Hiff; [by apply handle_all_inv|].
  intros t' [k Hk]%list_elem_of_lookup.
  destruct (Forall2_lookup_r _ _ _ _ _ (handle_all_evolves es' j) Hk) as (t&Hin&_&Himp).
  apply Himp, (proj1 (Hiff j Hj) Hd). by eapply list_elem_of_lookup_2.
Qed.

(** No wedge.  A worker is told to wait only while some task of the current phase is
    under way, and that task's watcher, once its worker has been silent for more than ten
    seconds, makes it pending again, after which no worker is told to wait. *)
Theorem silent_worker_recovered files n es w now t0 :
  files <> [] -> timely es (job_init files n) = true ->
  let j := handle_all es (job_init files n) in
  out_Type (answer w now j) = TaskTypeWait ->
  exists k t, tasks (coord j) !! k = Some t /\ status t = TaskStatusOnGoing
    /\ (i64 (t0 - lastPing t) > 10000 ->
        forall w' now', out_Type (answer w' now' (handle (ECheck k t0) j)) = tType t).
Proof.
  intros Hne Ht j Ha. pose proof (handle_all_inv es _ (job_init_inv files n Hne) Ht) as Hj. fold j in Hj.
  destruct (wait_ongoing w now j Hj Ha) as (k&t&Hk&Ho&Hw&Hty&Hnd). exists k, t. split_and!; [done..|].
  intros Hold w' now'. simpl. rewrite decide_True by done. unfold answer, checkTask. simpl.
  rewrite alter_insert_lookup, Hk. unfold check_task. rewrite !decide_True by done.
  set (c' := set_tasks _ _).
  destruct (GetTask_cases (mkGetTaskIn w') GetTaskOut0 now' (gen j) c')
    as [[H _]|[(_&Hnone&_)|(_&k'&u&_&_&Hty'&_&->)]]; [done| |simpl; rewrite Hty, Hty'; done].
  exfalso. refine (Hnone (set_workerId (set_status t TaskStatusPending) "") _ _ _); [|done..].
  simpl. by apply list_elem_of_insert, (lookup_lt_Some _ _ _ Hk).
Qed.

(** Progress.  One worker that gets a task, finishes it and reports it, again and
    again, completes the job in as many rounds as there are tasks, when the phase is set
    before it begins. *)
Theorem lone_worker_finishes_job files n w now :
  files <> [] -> Z.of_nat (length files + Z.to_nat n) < 2 ^ 63 ->
  Done (coord (Nat.iter (length files + Z.to_nat n) (worker_round w now) (handle EStart (job_init files n)))) = true.
Proof.
  intros Hne Hb. unfold Done. apply bool_decide_eq_true, worker_rounds_finish.
  - apply start_inv; [by apply job_init_inv|by apply job_init_not_late].
  - rewrite job_init_start. by apply job_init_ids.
  - unfold idle. rewrite job_init_start. pose proof (job_init_pending files n) as H. rewrite list.Forall_forall in H.
    intros t Ht. by rewrite (H t Ht).
  - pose proof (job_init_pending files n) as H. unfold remaining. rewrite job_init_start.
    destruct (job_init_tasks files n) as (maps&reduces&->&H1&H2&H3&H4).
    replace (length files + Z.to_nat n)%nat with (length (maps ++ reduces)) by (rewrite length_app; lia).
    assert (Forall (fun u => status u = TaskStatusPending) (maps ++ reduces)) as Hp.
    { apply Forall_app. split; (eapply Forall_impl; [|done]); by intros t []. }
    clear -Hp. induction Hp as [|t l Ht _ IH]; [done|]. rewrite fmap_cons, occ_cons, IH.
    rewrite bool_decide_eq_false_2 by (by apply done_not_pending). simpl. lia.
Qed.

(** Every report concerns at most one task: ids stay unique through the whole job, and
    a report of a task's id marks that task and leaves every other task as it is. *)
Theorem report_marks_one_task files n es w k t :
  Z.of_nat (length files + Z.to_nat n) < 2 ^ 63 ->
  let j := handle_all es (job_init files n) in
  tasks (coord j) !! k = Some t ->
  NoDup (id <$> tasks (coord j)) /\
  tasks (coord (handle (EDone w (id t)) j)) = <[k := set_status t TaskStatusDone]> (tasks (coord j)).
Proof.
  intros Hb j Hk. assert (NoDup (id <$> tasks (coord j))) as Hnd.
  { unfold j. rewrite <- (evolves_ids _ _ (handle_all_evolves es _)). by apply job_init_ids. }
  split; [done|]. simpl. rewrite UpdateTask_tasks. by apply apply_update_unique.
Qed.

(** *** Concrete jobs *)

Definition two_files : list string := ["a.txt"; "b.txt"]%string.

(** Worker [w] finishes both maps; worker [v] takes the first reduce task and dies. *)
Definition maps_finished : list event :=
  [EGetTask "w" 0; EStart; EGetTask "v" 1; EDone "w" "1"; EDone "v" "2"]%string.
Definition reduce_taken : list event := maps_finished ++ [EGetTask "v" 5]%string.

Lemma reduce_only_after_maps_witness :
  out_Type (answer "w" 7 (handle_all maps_finished (job_init two_files 1))) = TaskTypeReduce
  /\ exists k, k ∈ watchers (handle (EGetTask "w" 7) (handle_all maps_finished (job_init two_files 1))).
Proof.
  assert (out_Type (answer "w" 7 (handle_all maps_finished (job_init two_files 1))) = TaskTypeReduce) as H
    by (vm_compute; reflexivity).
  split; [exact H|].
  destruct (reduce_only_after_maps two_files 1 maps_finished "w" 7 H)
    as (_&k&t&t'&_&_&_&_&_&_&Hw).
  exists k. exact Hw.
Defined.

Lemma done_iff_all_tasks_done_witness :
  Done (coord (handle_all [EDone "w" "3"]
    (handle_all [EDone "w" "2"; EStart; EDone "w" "1"; EDone "w" "3"] (job_init two_files 1)))%string) = true.
Proof.
  apply (done_iff_all_tasks_done two_files 1 [EDone "w" "2"; EStart; EDone "w" "1"; EDone "w" "3"]%string
           [EDone "w" "3"]%string ltac:(discriminate) ltac:(vm_compute; reflexivity)).
  vm_compute. reflexivity.
Defined.

Lemma silent_worker_recovered_witness :
  exists k, out_Type (answer "w" 20001 (handle (ECheck k 20000)
              (handle_all reduce_taken (job_init two_files 1)))) = TaskTypeReduce.
Proof.
  destruct (silent_worker_recovered two_files 1 reduce_taken "w" 6 20000 ltac:(discriminate) ltac:(vm_compute; reflexivity))
    as (k&t&Hk&Ho&H); [vm_compute; reflexivity|].
  exists k. destruct k as [|[|[|k]]]; vm_compute in Hk; simplify_eq; try discriminate Ho.
  apply H. vm_compute. reflexivity.
Defined.

Lemma lone_worker_finishes_job_witness :
  Done (coord (Nat.iter 12 (worker_round "w" 0) (handle EStart (job_init two_files 10)))) = true.
Proof.
  apply (lone_worker_finishes_job two_files 10 "w" 0).
  - discriminate.
  - vm_compute. reflexivity.
Defined.

Lemma report_marks_one_task_witness :
  exists t, tasks (coord (handle (EDone "w" (id t)) (handle_all maps_finished (job_init two_files 1))))
            = <[2%nat := set_status t TaskStatusDone]>
                (tasks (coord (handle_all maps_finished (job_init two_files 1)))).
Proof.
  exists (mkTask "3" "mr-*-0.json" TaskTypeReduce TaskStatusPending "" 0 0).
  apply (report_marks_one_task two_files 1 maps_finished "w" 2
           (mkTask "3" "mr-*-0.json" TaskTypeReduce TaskStatusPending "" 0 0)).
  - vm_compute. reflexivity.
  - vm_compute. reflexivity.
Defined.

(** C23: the phase is set after the server accepts requests, so a fast worker can be undone:
    if the only map task is finished before [MakeCoordinator] returns, the phase goes back
    to "map" and the job never ends, however long the workers keep asking: every request
    is answered with "wait". *)
Theorem late_phase_wedges_job es w now :
  Forall (fun e => forall w n, e <> EDone w n) es ->
  let j := handle_all [EGetTask "w" 0; EDone "w" "1"]%string (job_init ["f"%string] 1) in
  let j' := handle_all es (handle EStart j) in
  phase (coord j) = JobPhaseReduce /\ Done (coord j') = false
  /\ out_Type (answer w now j') = TaskTypeWait.
Proof.
  intros Hes j j'. split; [vm_compute; reflexivity|].
  apply wedged; [done|vm_compute; reflexivity..].
Qed.

Lemma late_phase_wedges_job_witness :
  exists j', Done (coord j') = false /\ out_Type (answer "w" 9 j') = TaskTypeWait.
Proof.
  eexists. apply (late_phase_wedges_job [EGetTask "w" 5; ECheck 0 20000] "w" 9).
  repeat constructor; intros w n H; discriminate H.
Defined.
