(* ===== verification/MRWorker.v ===== *)
(** * MapReduce workers and the sequential reference

    [src/map_reduce/mr/worker.go] and [mr_utils.go], and the sequential implementation in
    [src/map_reduce/main/mrsequential.go].  The directory the processes share is a map
    from file names to contents.

    Parameters: the application's Map and Reduce (a plugin), and three pieces of the
    standard library whose result the language leaves open or whose text is long:
    [sort.Sort] (some sorted permutation), [encoding/json] on slices of pairs (a codec),
    and the name [os.CreateTemp] picks (a file that does not exist).  The order in which
    [range] visits a map is an argument. *)

From S2P Require Import Prelude Coordinator.
Local Open Scope Z_scope.

Record KeyValue := mkKV { Key : string; Value : string }.

#[export] Instance KeyValue_eq_dec : EqDecision KeyValue.
Proof. solve_decision. Defined.

Abbreviation files := (gmap string string).

(** ** Standard library *)

(** [encoding/json] on [[]KeyValue].  Strings that are not UTF-8 are altered by
    [Marshal], so the round trip holds for the pairs [json_ok] admits. *)
Class Json := {
  Marshal : list KeyValue -> option string;
  Unmarshal : string -> option (list KeyValue);
  json_ok : KeyValue -> Prop;
  json_round_trip l : Forall json_ok l -> exists s, Marshal l = Some s /\ Unmarshal s = Some l;
}.

(** Bytewise comparison of strings, as [<] on Go strings. *)
Definition str_lt (s t : string) : bool :=
  match String.compare s t with Lt => true | _ => false end.

Definition str_le (s t : string) : Prop := str_lt t s = false.

#[export] Instance str_le_dec : RelDecision str_le.
Proof. unfold str_le. intros s t. apply _. Defined.

Definition Less (a b : KeyValue) : bool := str_lt (Key a) (Key b).

(** What [sort.Sort] promises: a permutation in which no element is less than an earlier
    one. *)
Class SortByKey := {
  Sort : list KeyValue -> list KeyValue;
  Sort_perm l : Sort l ≡ₚ l;
  Sort_sorted l : StronglySorted (fun a b => Less b a = false) (Sort l);
}.

(** [os.CreateTemp("./", "tmp")] names a file that does not exist yet. *)
Class TempFile := {
  temp_name : files -> string;
  temp_fresh fs : fs !! temp_name fs = None;
}.

(** [filepath.Match] for patterns whose only special byte is a star. *)
Fixpoint star_match (pat : string) (name : string) : bool :=
  match pat with
  | EmptyString => match name with EmptyString => true | _ => false end
  | String c pat' =>
      if decide (c = "*"%char) then
        (fix star (name : string) : bool :=
           star_match pat' name ||
           match name with
           | EmptyString => false
           | String d name' => negb (bool_decide (d = "/"%char)) && star name'
           end) name
      else match name with
           | EmptyString => false
           | String d name' => bool_decide (c = d) && star_match pat' name'
           end
  end.

(** [filepath.Glob("./" + pat)] in a directory: the names that match, in order. *)
Definition Glob (pat : string) (fs : files) : list string :=
  filter (fun name => star_match pat name = true)
    (merge_sort str_le (map_to_list fs).*1).

(** ** Utilities *)

Definition ihash (key : string) : Z := Z.land (fnv32a key) (Z.ones 31).

(** ** The worker's file operations *)

Definition readFile (filename : string) (fs : files) : option string := fs !! filename.

(** How the system calls of [writeFile] end; a failing [Write] may leave a part. *)
Inductive write_outcome :=
  | CreateFails
  | WriteFails (written : string)
  | CloseFails
  | RenameFails
  | WriteOk.

#[export] Instance write_outcome_eq_dec : EqDecision write_outcome.
Proof. solve_decision. Defined.

Section worker.
  Context (mapfn : string -> string -> list KeyValue).
  Context (reducefn : string -> list string -> string).
  Context `{Json} `{SortByKey} `{TempFile}.

(** The file system, and whether the call succeeded. *)
Definition writeFile (o : write_outcome) (content filename : string) (fs : files) : files * bool :=
  let tmp := temp_name fs in
  match o with
  | CreateFails => (fs, false)
  | WriteFails written => (<[tmp := written]> fs, false)
  | CloseFails => (<[tmp := content]> fs, false)
  | RenameFails => (delete tmp (<[tmp := content]> fs), false)
  | WriteOk => (<[filename := content]> (delete tmp (<[tmp := content]> fs)), true)
  end.

(** ** Map tasks *)

(** The loop over the pairs; a bucket count of zero divides by zero. *)
Fixpoint fill_buckets (kvs : list KeyValue) (nBuckets : Z) (buckets : list (list KeyValue))
    : go (list (list KeyValue)) :=
  match kvs with
  | [] => Ret buckets
  | kv :: rest =>
      if decide (nBuckets = 0) then Crash Panic else
      let k := Z.to_nat (Z.rem (ihash (Key kv)) nBuckets) in
      bucket ← index buckets k;
      fill_buckets rest nBuckets (<[k := bucket ++ [kv]]> buckets)
  end.

Definition splitIntoBuckets (kvs : list KeyValue) (nBuckets : Z) : go (list (list KeyValue)) :=
  if decide (nBuckets < 0) then Crash Panic
  else fill_buckets kvs nBuckets (replicate (Z.to_nat nBuckets) []).

Definition bucket_file (taskId : string) (i : nat) : string :=
  "mr-" +:+ taskId +:+ "-" +:+ Itoa (Z.of_nat i) +:+ ".json".

(** The goroutines write different files; they run here in the order of the buckets, from
    number [i].  The second component is false if some bucket could not be encoded. *)
Fixpoint write_buckets (os : nat -> write_outcome) (taskId : string) (i : nat)
    (buckets : list (list KeyValue)) (fs : files) : files * bool :=
  match buckets with
  | [] => (fs, true)
  | bucket :: rest =>
      match Marshal (Sort bucket) with
      | None => let '(fs', _) := write_buckets os taskId (S i) rest fs in (fs', false)
      | Some json =>
          let '(fs1, _) := writeFile (os i) json (bucket_file taskId i) fs in
          write_buckets os taskId (S i) rest fs1
      end
  end.

Definition writeBucketsToDisk (os : nat -> write_outcome) (taskId : string)
    (buckets : list (list KeyValue)) (fs : files) : files * bool :=
  write_buckets os taskId 0 buckets fs.

Definition execMap (os : nat -> write_outcome) (task : GetTaskOut) (fs : files) : go files :=
  match readFile (out_Input task) fs with
  | None => Ret fs
  | Some content =>
      let intermediate := mapfn (out_Input task) content in
      buckets ← splitIntoBuckets intermediate (out_NReduce task);
      Ret (writeBucketsToDisk os (out_Id task) buckets fs).1
  end.

(** ** Reduce tasks *)

(** An error of [Unmarshal] is ignored: the content stays nil. *)
Fixpoint readReduceInputFiles (filenames : list string) (fs : files) : option (list KeyValue) :=
  match filenames with
  | [] => Some []
  | filename :: rest =>
      bytes ← readFile filename fs;
      kvs ← readReduceInputFiles rest fs;
      Some (default [] (Unmarshal bytes) ++ kvs)
  end.

(** A missing entry and a nil slice read the same. *)
Definition groupValuesByKey (kvs : list KeyValue) : gmap string (list string) :=
  foldl (fun groups kv =>
           match groups !! Key kv with
           | Some vs => <[Key kv := vs ++ [Value kv]]> groups
           | None => <[Key kv := [Value kv]]> groups
           end) ∅ kvs.

(** [fmt.Sprintf("%v %v\n", key, result)] *)
Definition format_line (key result : string) : string :=
  key +:+ " " +:+ result +:+ String "010" "".

(** [byKey] lists the entries of the map in the order [range] visits them. *)
Definition reduceValuesByKey (byKey : list (string * list string)) : string :=
  foldl (fun output '(key, values) => output +:+ format_line key (reducefn key values)) "" byKey.

Definition deleteIntermediateFiles (filenames : list string) (fs : files) : files :=
  foldl (fun fs filename => delete filename fs) fs filenames.

(** [visit] is the order in which [range] visits the map of groups. *)
Definition execReduce (visit : gmap string (list string) -> list (string * list string))
    (o : write_outcome) (task : GetTaskOut) (fs : files) : files :=
  let filenames := Glob (out_Input task) fs in
  match readReduceInputFiles filenames fs with
  | None => fs
  | Some kvs =>
      let output := reduceValuesByKey (visit (groupValuesByKey kvs)) in
      let '(fs', _) := writeFile o output ("mr-out-" +:+ Itoa (out_Idx task)) fs in
      deleteIntermediateFiles filenames fs'
  end.

(** ** The sequential implementation *)

(** The loop over the input files. *)
Fixpoint read_and_map (filenames : list string) (fs : files) : go (list KeyValue) :=
  match filenames with
  | [] => Ret []
  | filename :: rest =>
      match fs !! filename with
      | None => Crash Fatal
      | Some content =>
          let kva := mapfn filename content in
          intermediate ← read_and_map rest fs;
          Ret (kva ++ intermediate)
      end
  end.

(** The values of the run of pairs with key [key] at the front, and what follows it. *)
Fixpoint take_run (key : string) (l : list KeyValue) : list string * list KeyValue :=
  match l with
  | [] => ([], [])
  | kv :: rest =>
      if decide (Key kv = key) then
        let '(values, l') := take_run key rest in (Value kv :: values, l')
      else ([], l)
  end.

(** The lines the outer loop prints; each turn consumes at least one pair, so the length
    of the list is enough fuel. *)
Fixpoint reduce_runs (fuel : nat) (l : list KeyValue) : option (list string) :=
  match l with
  | [] => Some []
  | kv :: rest =>
      match fuel with
      | O => None
      | S fuel' =>
          let '(values, l') := take_run (Key kv) rest in
          let output := reducefn (Key kv) (Value kv :: values) in
          lines ← reduce_runs fuel' l';
          Some (format_line (Key kv) output :: lines)
      end
  end.

Definition mrsequential (filenames : list string) (fs : files) : go (option files) :=
  intermediate ← read_and_map filenames fs;
  let intermediate := Sort intermediate in
  Ret (lines ← reduce_runs (length intermediate) intermediate;
       Some (<["mr-out-0"%string := foldl String.append ""%string lines]> fs)).

End worker.

(** ** Lemmas: order on strings *)

Lemma str_le_antisym s t : str_le s t -> str_le t s -> s = t.
Proof.
  unfold str_le, str_lt. pose proof (String.compare_antisym s t) as Ha. intros H1 H2.
  apply String.compare_eq_iff. by destruct (String.compare s t), (String.compare t s).
Qed.

(** ** Lemmas: file patterns *)

Lemma star_match_literal p name : has_byte "*" p = false -> star_match p name = true <-> name = p.
Proof.
  revert name. induction p as [|c p IH]; intros name; simpl; [by destruct name|].
  intros [Hc Hp]%orb_false_iff. apply bool_decide_eq_false in Hc. rewrite decide_False by done.
  destruct name as [|d name]; [done|]. rewrite andb_true_iff, bool_decide_eq_true, (IH name Hp).
  naive_solver.
Qed.

Lemma star_match_prefix p pat name :
  has_byte "*" p = false ->
  star_match (p +:+ pat) name = true <-> exists rest, name = p +:+ rest /\ star_match pat rest = true.
Proof.
  revert name. induction p as [|c p IH]; intros name.
  - intros _. rewrite string_nil_app. split; [intros H; by exists name|].
    intros (rest&->&H). by rewrite string_nil_app.
  - rewrite string_cons_app. simpl. intros [Hc Hp]%orb_false_iff. apply bool_decide_eq_false in Hc.
    rewrite decide_False by done. destruct name as [|d name].
    + split; [done|]. by intros (rest&?&_).
    + rewrite andb_true_iff, bool_decide_eq_true, (IH name Hp). split.
      * intros (->&rest&->&H). exists rest. by rewrite string_cons_app.
      * intros (rest&Hn&H). rewrite string_cons_app in Hn. simplify_eq. eauto.
Qed.

Lemma star_match_star pat name :
  star_match (String "*" pat) name = true <->
  exists x rest, name = x +:+ rest /\ has_byte "/" x = false /\ star_match pat rest = true.
Proof.
  simpl. induction name as [|d name IH]; split.
  - rewrite orb_false_r. intros H. by exists "", "".
  - intros (x&rest&E&_&H). destruct x; [|done]. rewrite string_nil_app in E. subst. by rewrite H.
  - intros [H|H]%orb_true_iff; [by exists "", (String d name)|].
    apply andb_true_iff in H as [Hd (x&rest&->&Hx&H)%IH]. exists (String d x), rest.
    rewrite string_cons_app. split_and!; [done| |done]. simpl.
    apply negb_true_iff in Hd. by rewrite Hd.
  - intros ([|c x]&rest&E&Hx&H).
    + rewrite string_nil_app in E. subst. by rewrite H.
    + rewrite string_cons_app in E. injection E as -> ->. simpl in Hx.
      apply orb_false_iff in Hx as [Hc Hx]. rewrite Hc. simpl. apply orb_true_iff. right.
      apply IH. eauto.
Qed.

(** The pattern of reduce task [i], as [createTasks] writes it. *)
Definition bucket_pattern (i : nat) : string := "mr-*-" +:+ Itoa (Z.of_nat i) +:+ ".json".

Lemma bucket_pattern_match i name :
  star_match (bucket_pattern i) name = true <->
  exists x, has_byte "/" x = false /\ name = bucket_file x i.
Proof.
  unfold bucket_pattern, bucket_file.
  change ("mr-*-" +:+ Itoa (Z.of_nat i) +:+ ".json")
    with ("mr-" +:+ String "*" ("-" +:+ Itoa (Z.of_nat i) +:+ ".json")).
  rewrite star_match_prefix by done. setoid_rewrite star_match_star.
  assert (has_byte "*" ("-" +:+ Itoa (Z.of_nat i) +:+ ".json") = false) as Hlit.
  { rewrite !has_byte_app, Itoa_no_star by lia. done. }
  setoid_rewrite (fun r => star_match_literal _ r Hlit). split.
  - intros (r&->&x&r'&->&Hx&->). by exists x.
  - intros (x&Hx&->). eauto 10.
Qed.

(** Task id and bucket number can be read off the name. *)
Lemma bucket_file_inj x y i j : bucket_file x i = bucket_file y j -> x = y /\ i = j.
Proof.
  unfold bucket_file. intros H%string_app_inj_l.
  destruct (last_sep_unique "-" x y (Itoa (Z.of_nat i) +:+ ".json") (Itoa (Z.of_nat j) +:+ ".json"))
    as [-> E]; [..|exact H|].
  1,2: rewrite has_byte_app, Itoa_no_dash by lia; done.
  apply string_app_inj_r, Itoa_inj in E. split; [done|lia].
Qed.

Definition out_file (i : nat) : string := "mr-out-" +:+ Itoa (Z.of_nat i).

Lemma out_file_not_bucket i x j : out_file i <> bucket_file x j.
Proof.
  intros H%(f_equal (has_byte ".")). unfold out_file, bucket_file in H. revert H.
  rewrite !has_byte_app, !Itoa_no_dot by lia. simpl. by rewrite !orb_true_r.
Qed.

Lemma out_file_inj i j : out_file i = out_file j -> i = j.
Proof. unfold out_file. intros H%string_app_inj_l%Itoa_inj. lia. Qed.

Lemma elem_of_Glob pat fs name :
  name ∈ Glob pat fs <-> is_Some (fs !! name) /\ star_match pat name = true.
Proof.
  unfold Glob. rewrite list_elem_of_filter, merge_sort_Permutation, list_elem_of_fmap. split.
  - intros [Hm ([k v]&->&H%elem_of_map_to_list)]. split; [by exists v|done].
  - intros [[v Hv] Hm]. split; [done|]. exists (name, v). by rewrite elem_of_map_to_list.
Qed.

Lemma Glob_NoDup pat fs : NoDup (Glob pat fs).
Proof. apply list.NoDup_filter. rewrite merge_sort_Permutation. apply NoDup_fst_map_to_list. Qed.

(** ** Lemmas: grouping *)

(** The values of key [k], in order. *)
Definition values (k : string) (l : list KeyValue) : list string :=
  Value <$> filter (fun kv => Key kv = k) l.

Lemma values_app k l l' : values k (l ++ l') = values k l ++ values k l'.
Proof. unfold values. by rewrite list.filter_app, fmap_app. Qed.

Lemma values_cons k kv l :
  values k (kv :: l) = (if decide (Key kv = k) then [Value kv] else []) ++ values k l.
Proof. unfold values. rewrite filter_cons. by case_decide. Qed.

Lemma values_nil_iff k l : values k l = [] <-> k ∉ Key <$> l.
Proof.
  induction l as [|kv l IH]; [split; [set_solver|done]|].
  rewrite values_cons, fmap_cons, not_elem_of_cons, <- IH. case_decide; simpl; naive_solver.
Qed.

#[export] Instance values_Permutation k : Proper ((≡ₚ) ==> (≡ₚ)) (values k).
Proof. intros l l' H. unfold values. by rewrite H. Qed.

Lemma groupValuesByKey_lookup kvs k :
  groupValuesByKey kvs !! k = match values k kvs with [] => None | vs => Some vs end.
Proof.
  unfold groupValuesByKey. induction kvs as [|kv kvs IH] using rev_ind; [done|].
  rewrite foldl_app. simpl. set (g := foldl _ _ kvs) in *. rewrite values_app, values_cons, app_nil_r.
  destruct (decide (Key kv = k)) as [<-|Hne].
  - rewrite IH. destruct (values (Key kv) kvs) eqn:E; simpl; by rewrite lookup_insert_eq.
  - rewrite app_nil_r, <- IH. by destruct (g !! Key kv); rewrite lookup_insert_ne.
Qed.

(** The keys of the groups, in the order they are visited. *)
Lemma group_keys (visit : gmap string (list string) -> list (string * list string)) kvs :
  (forall m, visit m ≡ₚ map_to_list m) ->
  NoDup (visit (groupValuesByKey kvs)).*1
  /\ (forall k, k ∈ (visit (groupValuesByKey kvs)).*1 <-> k ∈ Key <$> kvs)
  /\ visit (groupValuesByKey kvs)
     = (fun k => (k, values k kvs)) <$> (visit (groupValuesByKey kvs)).*1.
Proof.
  intros Hv. set (g := groupValuesByKey kvs). split_and!.
  - rewrite Hv. apply NoDup_fst_map_to_list.
  - intros k. rewrite Hv.
    rewrite list_elem_of_fmap. split.
    + intros ([k' v]&->&H%elem_of_map_to_list). simpl. unfold g in H.
      rewrite groupValuesByKey_lookup in H. destruct (decide (k' ∈ Key <$> kvs)) as [|Hn]; [done|].
      apply values_nil_iff in Hn. by rewrite Hn in H.
    + intros Hk. exists (k, values k kvs). split; [done|]. apply elem_of_map_to_list. unfold g.
      rewrite groupValuesByKey_lookup. destruct (values k kvs) eqn:E; [|done].
      by apply values_nil_iff in E.
  - rewrite <- list_fmap_compose. symmetry. rewrite <- (list_fmap_id (visit g)) at 2.
    apply list_fmap_ext. intros i [k v] Hi%list_elem_of_lookup_2. simpl. f_equal.
    rewrite Hv in Hi. apply elem_of_map_to_list in Hi. unfold g in Hi.
    rewrite groupValuesByKey_lookup in Hi. by destruct (values k kvs); simplify_eq.
Qed.

(** ** Lemmas: runs of a sorted list *)

Abbreviation sorted := (StronglySorted (fun a b => Less b a = false)).

Lemma take_run_spec k l :
  exists run l', take_run k l = (Value <$> run, l') /\ l = run ++ l'
    /\ Forall (fun kv => Key kv = k) run
    /\ match l' with [] => True | kv :: _ => Key kv <> k end.
Proof.
  induction l as [|kv l (run&l'&E&->&Hrun&Hl')]; simpl; [by exists [], []|].
  case_decide as Hk.
  - rewrite E. exists (kv :: run), l'. split_and!; [done..| |done]. by constructor.
  - by exists [], (kv :: run ++ l').
Qed.

Lemma values_all k run : Forall (fun kv => Key kv = k) run -> values k run = Value <$> run.
Proof.
  induction 1 as [|kv run Hk _ IH]; [done|]. by rewrite values_cons, decide_True, IH by done.
Qed.

Lemma values_none k k' run : Forall (fun kv => Key kv = k) run -> k' <> k -> values k' run = [].
Proof.
  intros Hr Hk. apply values_nil_iff. intros (kv&->&Hin)%list_elem_of_fmap.
  rewrite list.Forall_forall in Hr. by apply Hk, Hr.
Qed.

Lemma StronglySorted_suffix {A} (R : A -> A -> Prop) l l' :
  StronglySorted R (l ++ l') -> StronglySorted R l'.
Proof. induction l as [|x l IH]; [done|]. intros H. inversion H; subst. auto. Qed.

(** The key of a run does not occur after it. *)
Lemma sorted_after_run kv run l' :
  sorted (kv :: run ++ l') -> match l' with [] => True | x :: _ => Key x <> Key kv end ->
  Key kv ∉ Key <$> l'.
Proof.
  intros Hs Hhd (x&Hx&Hin)%list_elem_of_fmap. destruct l' as [|y l']; [by apply elem_of_nil in Hin|].
  inversion Hs as [|? ? Hs' Hall]; subst. apply StronglySorted_suffix in Hs'.
  inversion Hs' as [|? ? _ Hy]; subst. rewrite list.Forall_forall in Hall, Hy.
  apply elem_of_cons in Hin as [->|Hin]; [done|]. apply Hhd, str_le_antisym.
  - rewrite Hx. apply (Hy x Hin).
  - apply (Hall y). set_solver +.
Qed.

(** The line of key [k] in the output for the pairs [l]. *)
Definition line_of (reducefn : string -> list string -> string) (l : list KeyValue) (k : string)
  : string := format_line k (reducefn k (values k l)).

Lemma reduce_runs_spec reducefn fuel : forall l,
  sorted l -> (length l <= fuel)%nat ->
  exists ks, reduce_runs reducefn fuel l = Some (line_of reducefn l <$> ks)
    /\ NoDup ks /\ forall k, k ∈ ks <-> k ∈ Key <$> l.
Proof.
  induction fuel as [|fuel IH]; intros [|kv rest] Hs Hlen; simpl in Hlen; [|lia| |].
  1,2: exists []; split_and!; [done|constructor|set_solver].
  destruct (take_run_spec (Key kv) rest) as (run&l'&E&Hrest&Hrun&Hhd). simpl. rewrite E.
  assert (Key kv ∉ Key <$> l') as Hk by (eapply sorted_after_run; [by rewrite <- Hrest|done]).
  destruct (IH l') as (ks&Er&Hnd&Hks).
  { inversion Hs; subst. by eapply StronglySorted_suffix. }
  { rewrite Hrest, length_app in Hlen. lia. }
  rewrite Er. simpl. exists (Key kv :: ks). split_and!.
  - rewrite fmap_cons. f_equal. f_equal.
    + unfold line_of. rewrite values_cons, (decide_True (P := Key kv = Key kv)) by done.
      rewrite Hrest, values_app, (values_all _ run) by done.
      apply values_nil_iff in Hk. by rewrite Hk, app_nil_r.
    + apply list_fmap_ext. intros i k Hi%list_elem_of_lookup_2. unfold line_of.
      assert (k <> Key kv) as Hne by (intros ->; by apply Hk, Hks).
      rewrite values_cons, decide_False, Hrest, values_app, (values_none (Key kv) k run) by (done || congruence). done.
  - constructor; [|done]. by rewrite Hks.
  - intros k. rewrite ?fmap_cons, !elem_of_cons, Hks, Hrest, fmap_app, elem_of_app.
    split; [tauto|]. intros [?|[(x&->&Hx)%list_elem_of_fmap|?]]; [tauto| |tauto].
    left. rewrite list.Forall_forall in Hrun. by apply Hrun.
Qed.

Lemma reduceValuesByKey_concat reducefn byKey :
  reduceValuesByKey reducefn byKey
  = concat_strings ((fun '(k, vs) => format_line k (reducefn k vs)) <$> byKey).
Proof.
  unfold reduceValuesByKey, concat_strings. generalize ""%string.
  induction byKey as [|[k vs] byKey IH]; intros s; [done|]. apply IH.
Qed.

(** ** Lemmas: buckets *)

(** The bucket of a pair. *)
Definition bucket_of (n : Z) (kv : KeyValue) : nat := Z.to_nat (Z.rem (ihash (Key kv)) n).

Lemma ihash_nonneg key : 0 <= ihash key.
Proof. unfold ihash. apply Z.land_nonneg. left. apply fnv32a_range. Qed.

Lemma bucket_of_lt n kv : 0 < n -> (bucket_of n kv < Z.to_nat n)%nat.
Proof.
  intros Hn. unfold bucket_of. pose proof (ihash_nonneg (Key kv)).
  pose proof (Z.rem_bound_pos (ihash (Key kv)) n). lia.
Qed.

Lemma fill_buckets_spec n kvs : 0 < n -> forall buckets,
  length buckets = Z.to_nat n ->
  exists b', fill_buckets kvs n buckets = Ret b' /\ length b' = Z.to_nat n
    /\ forall i b, buckets !! i = Some b ->
         b' !! i = Some (b ++ filter (fun kv => bucket_of n kv = i) kvs).
Proof.
  intros Hn. induction kvs as [|kv kvs IH]; intros buckets Hlen; simpl.
  - exists buckets. split_and!; [done..|]. intros i b Hb. by rewrite app_nil_r.
  - rewrite decide_False by lia. fold (bucket_of n kv).
    destruct (lookup_lt_is_Some_2 buckets (bucket_of n kv)) as [b Hb].
    { rewrite Hlen. by apply bucket_of_lt. }
    unfold index. rewrite Hb. simpl.
    destruct (IH (<[bucket_of n kv := b ++ [kv]]> buckets)) as (b'&E&Hlen'&Hb'); [by rewrite length_insert|].
    exists b'. split_and!; [done..|]. intros i bi Hi. rewrite filter_cons. case_decide as Hd.
    + subst i. simplify_eq. rewrite (Hb' _ (b ++ [kv])); [by rewrite <- app_assoc|].
      apply list_lookup_insert_eq. by eapply lookup_lt_Some.
    + apply Hb'. by rewrite list_lookup_insert_ne.
Qed.

(** [splitIntoBuckets] puts every pair into the bucket of its key, in order. *)
Lemma splitIntoBuckets_spec n kvs :
  0 < n -> exists bs, splitIntoBuckets kvs n = Ret bs /\ length bs = Z.to_nat n
    /\ forall i, (i < Z.to_nat n)%nat -> bs !! i = Some (filter (fun kv => bucket_of n kv = i) kvs).
Proof.
  intros Hn. unfold splitIntoBuckets. rewrite decide_False by lia.
  destruct (fill_buckets_spec n kvs Hn (replicate (Z.to_nat n) [])) as (bs&E&Hlen&H);
    [by rewrite length_replicate|].
  exists bs. split_and!; [done..|]. intros i Hi. apply (H i []). by apply lookup_replicate_2.
Qed.

(** ** Lemmas: files *)

#[local] Arguments writeFile : simpl never.

Lemma writeFile_ok `{TempFile} content filename fs :
  writeFile WriteOk content filename fs = (<[filename := content]> fs, true).
Proof. unfold writeFile. by rewrite delete_insert_id by apply temp_fresh. Qed.

(** Every write of a bucket happens as a whole or not at all. *)
Definition all_or_nothing (os : nat -> write_outcome) : Prop :=
  forall i, os i = WriteOk \/ os i = CreateFails.

Lemma write_buckets_spec `{Json} `{SortByKey} `{TempFile} os taskId bs : all_or_nothing os -> forall i fs,
  Forall (Forall json_ok) bs ->
  exists fs', write_buckets os taskId i bs fs = (fs', true)
    /\ (forall j b, bs !! j = Some b -> os (i + j)%nat = WriteOk ->
          exists s, fs' !! bucket_file taskId (i + j) = Some s /\ Unmarshal s = Some (Sort b))
    /\ (forall name, (forall j, (i <= j < i + length bs)%nat -> os j = WriteOk -> name <> bucket_file taskId j) ->
                     fs' !! name = fs !! name).
Proof.
  intros Hos. induction bs as [|b bs IH]; intros i fs Hok; simpl; [by exists fs|].
  inversion Hok as [|? ? Hb Hbs]; subst.
  destruct (json_round_trip (Sort b)) as (s&Hs&Hu); [by rewrite Sort_perm|]. rewrite Hs.
  set (fs1 := match os i with WriteOk => <[bucket_file taskId i := s]> fs | _ => fs end).
  assert (exists ok, writeFile (os i) s (bucket_file taskId i) fs = (fs1, ok)) as [ok ->].
  { unfold fs1. destruct (Hos i) as [Ho|Ho]; rewrite Ho; [rewrite writeFile_ok|]; by eexists. }
  destruct (IH (S i) fs1 Hbs) as (fs'&E&Hc&Hf). exists fs'. split_and!; [done|..].
  - intros [|j] b' Hj Ho; simplify_eq/=.
    + rewrite Nat.add_0_r in *. exists s. rewrite Hf.
      * unfold fs1. by rewrite Ho, lookup_insert_eq.
      * intros j Hj _ [_ ?]%bucket_file_inj. lia.
    + rewrite Nat.add_succ_r in *. by apply Hc.
  - intros name Hn. rewrite Hf by (intros j Hj; apply Hn; lia). unfold fs1.
    destruct (Hos i) as [Ho|Ho]; rewrite Ho; [|done].
    rewrite lookup_insert_ne; [done|]. apply not_eq_sym, Hn; [lia|done].
Qed.

(** ** Whole jobs *)

(** The tasks the coordinator creates: a map task per input file, reduce task [i] with the
    pattern of bucket [i]. *)
Definition map_task (n : Z) (taskId filename : string) : GetTaskOut :=
  mkGetTaskOut taskId filename TaskTypeMap n 0.

Definition reduce_task (n : Z) (i : nat) : GetTaskOut :=
  mkGetTaskOut "" (bucket_pattern i) TaskTypeReduce n (Z.of_nat i).

Section jobs.
  Context (mapfn : string -> string -> list KeyValue).
  Context (reducefn : string -> list string -> string).
  Context `{Json} `{SortByKey} `{TempFile}.
  Context (visit : gmap string (list string) -> list (string * list string)).

(** All tasks of a phase, one after the other; every system call succeeds. *)
Fixpoint run_maps (ts : list GetTaskOut) (fs : files) : go files :=
  match ts with
  | [] => Ret fs
  | t :: ts' => fs' ← execMap mapfn (fun _ => WriteOk) t fs; run_maps ts' fs'
  end.

Definition run_reduces (ts : list GetTaskOut) (fs : files) : files :=
  foldl (fun fs t => execReduce reducefn visit WriteOk t fs) fs ts.

(** A job: task id, input file and its content. *)
Abbreviation job_list := (list (string * string * string)).

(** All pairs the map function yields. *)
Definition produced (js : job_list) : list KeyValue :=
  js ≫= (fun '(_, f, c) => mapfn f c).

Definition in_bucket (n : Z) (i : nat) (l : list KeyValue) : list KeyValue :=
  filter (fun kv => bucket_of n kv = i) l.

(** Bucket [i] of every job of [js] is on disk, and no other file of that pattern. *)
Definition ready (n : Z) (js : job_list) (i : nat) (fs : files) : Prop :=
  (forall name, star_match (bucket_pattern i) name = true -> is_Some (fs !! name) ->
     exists x f c, (x, f, c) ∈ js /\ name = bucket_file x i)
  /\ (forall x f c, (x, f, c) ∈ js ->
       exists s, fs !! bucket_file x i = Some s
                 /\ Unmarshal s = Some (Sort (in_bucket n i (mapfn f c)))).

(** The buckets whose write succeeded are on disk, no other file changes. *)
Lemma execMap_writes os n x f c fs :
  all_or_nothing os -> 0 < n -> fs !! f = Some c -> Forall json_ok (mapfn f c) ->
  exists fs', execMap mapfn os (map_task n x f) fs = Ret fs'
    /\ (forall i, (i < Z.to_nat n)%nat -> os i = WriteOk ->
         exists s, fs' !! bucket_file x i = Some s
                   /\ Unmarshal s = Some (Sort (in_bucket n i (mapfn f c))))
    /\ (forall name, (forall i, (i < Z.to_nat n)%nat -> os i = WriteOk -> name <> bucket_file x i) ->
                     fs' !! name = fs !! name).
Proof.
  intros Hos Hn Hf Hok. unfold execMap, readFile. simpl. rewrite Hf.
  destruct (splitIntoBuckets_spec n (mapfn f c) Hn) as (bs&->&Hlen&Hbs). simpl.
  destruct (write_buckets_spec os x bs Hos 0 fs) as (fs'&E&Hc&Hfr).
  { apply list.Forall_forall. intros b [i Hi]%list_elem_of_lookup.
    rewrite Hbs in Hi by (rewrite <- Hlen; by eapply lookup_lt_Some). simplify_eq.
    apply list.Forall_forall. intros kv [_ Hin]%list_elem_of_filter.
    rewrite list.Forall_forall in Hok. by apply Hok. }
  exists fs'. unfold writeBucketsToDisk. rewrite E. split_and!; [done|..].
  - intros i Hi. apply (Hc i), Hbs, Hi.
  - intros name Hname. apply Hfr. intros j Hj. apply Hname. lia.
Qed.

Lemma execMap_spec n x f c fs :
  0 < n -> fs !! f = Some c -> Forall json_ok (mapfn f c) ->
  exists fs', execMap mapfn (fun _ => WriteOk) (map_task n x f) fs = Ret fs'
    /\ (forall i, (i < Z.to_nat n)%nat ->
         exists s, fs' !! bucket_file x i = Some s
                   /\ Unmarshal s = Some (Sort (in_bucket n i (mapfn f c))))
    /\ (forall name, (forall i, (i < Z.to_nat n)%nat -> name <> bucket_file x i) ->
                     fs' !! name = fs !! name).
Proof.
  intros Hn Hf Hok.
  destruct (execMap_writes (fun _ => WriteOk) n x f c fs ltac:(by left) Hn Hf Hok) as (fs'&E&Hb&Hfr).
  exists fs'. split_and!; [done|by intros; apply Hb|]. intros name Hname. apply Hfr. auto.
Qed.

Lemma run_maps_spec n js : 0 < n -> forall done fs,
  NoDup (done ++ js).*1.*1 ->
  Forall (fun '(x, f, c) => has_byte "/" x = false /\ fs !! f = Some c
            /\ Forall json_ok (mapfn f c)
            /\ forall y i, (i < Z.to_nat n)%nat -> f = bucket_file y i -> has_byte "/" y = true) js ->
  (forall i, (i < Z.to_nat n)%nat -> ready n done i fs) ->
  exists fs', run_maps ((fun '(x, f, _) => map_task n x f) <$> js) fs = Ret fs'
    /\ (forall i, (i < Z.to_nat n)%nat -> ready n (done ++ js) i fs').
Proof.
  intros Hn. induction js as [|[[x f] c] js IH]; intros done fs Hnd Hjs Hready; simpl.
  - exists fs. by rewrite app_nil_r.
  - apply list.Forall_cons in Hjs as [Hj Hjs']. destruct Hj as (Hx&Hf&Hok&Hfn).
    destruct (execMap_spec n x f c fs Hn Hf Hok) as (fs1&E&Hb&Hfr). rewrite E. simpl.
    rewrite cons_middle, app_assoc in Hnd |- *. apply IH; [done| |].
    + rewrite list.Forall_forall in Hjs' |- *. intros [[y g] d] Hin.
      destruct (Hjs' _ Hin) as (Hy&Hg&Hd&Hgn). split_and!; try done. rewrite Hfr; [done|].
      intros i Hi ->. specialize (Hgn x i Hi eq_refl). congruence.
    + intros i Hi. destruct (Hready i Hi) as [Hr1 Hr2]. split.
      * intros name Hm Hs. destruct (decide (name = bucket_file x i)) as [->|Hne].
        { exists x, f, c. split; [set_solver +|done]. }
        rewrite Hfr in Hs; [destruct (Hr1 name Hm Hs) as (y&g&d&Hin&->); exists y, g, d; set_solver + Hin|].
        apply bucket_pattern_match in Hm as (y&_&->). by intros j _ [-> ->]%bucket_file_inj.
      * intros y g d [Hin|[= -> -> ->]%list_elem_of_singleton]%elem_of_app; [|by apply Hb].
        destruct (Hr2 y g d Hin) as (s&Hs&Hu). exists s. split; [|done]. rewrite Hfr; [done|].
        intros j _ [-> _]%bucket_file_inj. rewrite !fmap_app in Hnd.
        apply list.NoDup_app in Hnd as (Hnd&_&_). apply list.NoDup_app in Hnd as (_&Hdis&_).
        apply (Hdis x); [|set_solver +]. apply list_elem_of_fmap. exists (x, g). split; [done|].
        apply list_elem_of_fmap. by exists (x, g, d).
Qed.

Lemma readReduceInputFiles_spec names fs :
  (forall name, name ∈ names -> is_Some (fs !! name)) ->
  readReduceInputFiles names fs
  = Some (names ≫= (fun name => default [] (Unmarshal (default ""%string (fs !! name))))).
Proof.
  induction names as [|name names IH]; intros Hall; [done|]. simpl. unfold readFile.
  destruct (Hall name ltac:(set_solver +)) as [s Hs]. rewrite Hs. simpl.
  rewrite IH; [done|]. intros x Hx. apply Hall, elem_of_cons. by right.
Qed.

(** The pairs read for reduce task [i] are those of bucket [i]. *)
Lemma ready_read n js i fs :
  NoDup js.*1.*1 -> Forall (fun '(x, _, _) => has_byte "/" x = false) js -> ready n js i fs ->
  exists kvs, readReduceInputFiles (Glob (bucket_pattern i) fs) fs = Some kvs
    /\ kvs ≡ₚ in_bucket n i (produced js).
Proof.
  intros Hnd Hslash [Hr1 Hr2]. rewrite list.Forall_forall in Hslash.
  assert (Glob (bucket_pattern i) fs ≡ₚ (fun x => bucket_file x i) <$> js.*1.*1) as Hg.
  { apply list.NoDup_Permutation; [apply Glob_NoDup| |].
    - apply NoDup_fmap_2; [|done]. by intros x y [? _]%bucket_file_inj.
    - intros name. rewrite elem_of_Glob, list_elem_of_fmap. split.
      + intros [Hs Hm]. destruct (Hr1 name Hm Hs) as (x&f&c&Hin&->). exists x. split; [done|].
        apply list_elem_of_fmap. exists (x, f). split; [done|]. apply list_elem_of_fmap. by exists (x, f, c).
      + intros (x&->&([x' f]&->&([[x'' f'] c]&[= -> ->]&Hin)%list_elem_of_fmap)%list_elem_of_fmap).
        destruct (Hr2 _ _ _ Hin) as (s&Hs&_). split; [by exists s|].
        apply bucket_pattern_match. exists x''. split; [apply (Hslash _ Hin)|done]. }
  rewrite readReduceInputFiles_spec by (by intros name [? _]%elem_of_Glob).
  eexists. split; [done|]. rewrite Hg. clear Hg Hr1 Hnd Hslash.
  induction js as [|[[x f] c] js IH]; [done|]. simpl.
  destruct (Hr2 x f c ltac:(set_solver +)) as (s&Hs&Hu). rewrite Hs. simpl. rewrite Hu. simpl.
  unfold in_bucket at 2. rewrite list.filter_app. apply Permutation_app.
  - by rewrite Sort_perm.
  - apply IH. intros y g d Hin. apply Hr2. set_solver + Hin.
Qed.

Lemma deleteIntermediateFiles_lookup names fs name :
  name ∉ names -> deleteIntermediateFiles names fs !! name = fs !! name.
Proof.
  unfold deleteIntermediateFiles. revert fs. induction names as [|x names IH]; intros fs Hn; [done|].
  apply not_elem_of_cons in Hn as [Hx Hn]. simpl. rewrite IH by done.
  apply lookup_delete_ne. by apply not_eq_sym.
Qed.

Lemma deleteIntermediateFiles_deleted names fs name :
  name ∈ names -> deleteIntermediateFiles names fs !! name = None.
Proof.
  unfold deleteIntermediateFiles. revert fs.
  induction names as [|x names IH]; intros fs Hn; [by apply elem_of_nil in Hn|]. simpl.
  destruct (decide (name ∈ names)) as [Hd|Hd]; [by apply IH|].
  apply elem_of_cons in Hn as [->|?]; [|done].
  change (deleteIntermediateFiles names (delete x fs) !! x = None).
  rewrite deleteIntermediateFiles_lookup by done. apply lookup_delete_eq.
Qed.

(** A key has all its pairs in one bucket. *)
Lemma values_in_bucket n i l k :
  k ∈ Key <$> in_bucket n i l -> values k (in_bucket n i l) = values k l.
Proof.
  intros (kv&->&[Hi _]%list_elem_of_filter)%list_elem_of_fmap. clear -Hi.
  induction l as [|x l IH]; [done|]. unfold in_bucket in *. rewrite filter_cons.
  destruct (decide (bucket_of n x = i)) as [Hd|Hd]; rewrite !values_cons, <- IH; [done|].
  rewrite decide_False; [done|]. intros E. apply Hd. rewrite <- Hi. unfold bucket_of. by rewrite E.
Qed.

Section reduce.
  Context (Hvisit : forall m, visit m ≡ₚ map_to_list m).
  Context (Hperm : forall k vs vs', vs ≡ₚ vs' -> reducefn k vs = reducefn k vs').

Lemma execReduce_spec n js i fs :
  NoDup js.*1.*1 -> Forall (fun '(x, _, _) => has_byte "/" x = false) js -> ready n js i fs ->
  exists ks, NoDup ks /\ (forall k, k ∈ ks <-> k ∈ Key <$> in_bucket n i (produced js))
    /\ execReduce reducefn visit WriteOk (reduce_task n i) fs !! out_file i
       = Some (concat_strings (line_of reducefn (produced js) <$> ks))
    /\ (forall name, name <> out_file i -> star_match (bucket_pattern i) name = false ->
         execReduce reducefn visit WriteOk (reduce_task n i) fs !! name = fs !! name).
Proof.
  intros Hnd Hslash Hready. destruct (ready_read n js i fs Hnd Hslash Hready) as (kvs&Er&Hkvs).
  destruct (group_keys visit kvs Hvisit) as (Hk1&Hk2&Hk3).
  set (ks := (visit (groupValuesByKey kvs)).*1) in *.
  exists ks. unfold execReduce. simpl. rewrite Er, delete_insert_id by apply temp_fresh. split_and!.
  - done.
  - intros k. by rewrite Hk2, Hkvs.
  - rewrite deleteIntermediateFiles_lookup.
    + unfold out_file. rewrite lookup_insert_eq. f_equal. rewrite reduceValuesByKey_concat, Hk3.
      f_equal. rewrite <- list_fmap_compose. apply list_fmap_ext.
      intros j k Hj%list_elem_of_lookup_2. simpl. unfold line_of. f_equal. apply Hperm.
      rewrite Hkvs, values_in_bucket; [done|]. rewrite <- Hkvs. by apply Hk2.
    + intros [_ (x&_&Hx)%bucket_pattern_match]%elem_of_Glob. by eapply out_file_not_bucket.
  - intros name Hn Hm. rewrite deleteIntermediateFiles_lookup.
    + rewrite lookup_insert_ne; [done|]. unfold out_file in Hn. done.
    + intros [_ Hm']%elem_of_Glob. apply not_false_iff_true in Hm'. done.
Qed.

Lemma bucket_pattern_disjoint i j name :
  star_match (bucket_pattern i) name = true -> star_match (bucket_pattern j) name = true -> i = j.
Proof.
  intros (x&_&->)%bucket_pattern_match (y&_&Hy)%bucket_pattern_match.
  by apply bucket_file_inj in Hy as [_ ?].
Qed.

Lemma run_reduces_spec n js order : forall fs,
  NoDup js.*1.*1 -> Forall (fun '(x, _, _) => has_byte "/" x = false) js ->
  NoDup order -> (forall i, i ∈ order -> ready n js i fs) ->
  exists ks : nat -> list string,
    (forall i, i ∈ order -> NoDup (ks i)
        /\ (forall k, k ∈ ks i <-> k ∈ Key <$> in_bucket n i (produced js))
        /\ run_reduces (reduce_task n <$> order) fs !! out_file i
           = Some (concat_strings (line_of reducefn (produced js) <$> ks i)))
    /\ (forall i, i ∉ order -> run_reduces (reduce_task n <$> order) fs !! out_file i = fs !! out_file i).
Proof.
  intros fs Hnd Hslash. revert fs. induction order as [|i order IH]; intros fs Hno Hready.
  - exists (fun _ => []). split; [by intros i ?%elem_of_nil|done].
  - apply list.NoDup_cons in Hno as [Hi Hno].
    destruct (execReduce_spec n js i fs Hnd Hslash (Hready i ltac:(set_solver +)))
      as (ki&Hk1&Hk2&Hout&Hfr).
    unfold run_reduces. rewrite fmap_cons. simpl. fold (run_reduces (reduce_task n <$> order)).
    set (fs1 := execReduce _ _ _ _ fs) in *.
    assert (forall j name, j ∈ order -> star_match (bucket_pattern j) name = true ->
              fs1 !! name = fs !! name) as Hsame.
    { intros j name Hj Hm. apply Hfr.
      - intros ->. apply bucket_pattern_match in Hm as (x&_&Hx). by eapply out_file_not_bucket.
      - apply not_true_is_false. intros Hm'.
        assert (i = j) as -> by (by eapply bucket_pattern_disjoint). done. }
    destruct (IH fs1 Hno) as (ks&Hks&Hrest).
    { intros j Hj. destruct (Hready j ltac:(set_solver + Hj)) as [Hr1 Hr2]. split.
      - intros name Hm Hs. rewrite (Hsame j) in Hs by done. by apply Hr1.
      - intros x f c Hin. destruct (Hr2 x f c Hin) as (s&Hs&Hu). exists s. split; [|done].
        rewrite (Hsame j); [done..|]. apply bucket_pattern_match. exists x. split; [|done].
        rewrite list.Forall_forall in Hslash. apply (Hslash _ Hin). }
    exists (fun j => if decide (j = i) then ki else ks j). split.
    + intros j [->|Hj]%elem_of_cons.
      * rewrite decide_True by done. split_and!; [done..|]. by rewrite Hrest.
      * rewrite decide_False by (by intros ->). by apply Hks.
    + intros j Hj%not_elem_of_cons. destruct Hj as [Hji Hj]. rewrite Hrest by done. apply Hfr.
      * by intros ?%out_file_inj.
      * apply not_true_is_false. intros (x&_&Hx)%bucket_pattern_match. by eapply out_file_not_bucket.
Qed.

End reduce.

Lemma read_and_map_spec js fs :
  Forall (fun '(_, f, c) => fs !! f = Some c) js ->
  read_and_map mapfn ((fun '(_, f, _) => f) <$> js) fs = Ret (produced js).
Proof.
  induction js as [|[[x f] c] js IH]; intros Hjs; [done|].
  apply list.Forall_cons in Hjs as [Hf Hjs]. rewrite fmap_cons.
  cbn [read_and_map]. rewrite Hf, (IH Hjs). done.
Qed.

End jobs.

(** The keys of the buckets are the keys of all pairs, each once. *)
Lemma bucket_keys n l (ks : nat -> list string) :
  0 < n ->
  (forall i, (i < Z.to_nat n)%nat -> NoDup (ks i) /\ forall k, k ∈ ks i <-> k ∈ Key <$> in_bucket n i l) ->
  NoDup (seq 0 (Z.to_nat n) ≫= ks) /\ forall k, k ∈ seq 0 (Z.to_nat n) ≫= ks <-> k ∈ Key <$> l.
Proof.
  intros Hn Hks. split.
  - apply NoDup_bind; [| |apply NoDup_seq].
    + intros i j k [_ Hi]%elem_of_seq [_ Hj]%elem_of_seq Hki Hkj.
      apply (Hks i Hi) in Hki as (kv&->&[<- _]%list_elem_of_filter)%list_elem_of_fmap.
      apply (Hks j Hj) in Hkj as (kv'&Ek&[<- _]%list_elem_of_filter)%list_elem_of_fmap.
      unfold bucket_of. by rewrite Ek.
    + intros i [_ Hi]%elem_of_seq. by apply Hks.
  - intros k. rewrite list_elem_of_bind. split.
    + intros (i&Hki&[_ Hi]%elem_of_seq).
      apply (Hks i Hi) in Hki as (kv&->&[_ Hin]%list_elem_of_filter)%list_elem_of_fmap.
      by apply list_elem_of_fmap_2.
    + intros (kv&->&Hin)%list_elem_of_fmap. pose proof (bucket_of_lt n kv Hn) as Hlt.
      exists (bucket_of n kv). split; [|apply elem_of_seq; lia]. apply (Hks _ Hlt).
      apply list_elem_of_fmap_2. by apply list_elem_of_filter.
Qed.

Lemma line_of_Permutation reducefn l l' k :
  (forall k vs vs', vs ≡ₚ vs' -> reducefn k vs = reducefn k vs') -> l ≡ₚ l' ->
  line_of reducefn l k = line_of reducefn l' k.
Proof. intros Hp Hl. unfold line_of. f_equal. apply Hp. by rewrite Hl. Qed.

(** What the sequential implementation writes. *)
Lemma mrsequential_spec `{SortByKey} mapfn reducefn js fs :
  (forall k vs vs', vs ≡ₚ vs' -> reducefn k vs = reducefn k vs') ->
  Forall (fun '(_, f, c) => fs !! f = Some c) js ->
  exists fsS ks, mrsequential mapfn reducefn ((fun '(_, f, _) => f) <$> js) fs = Ret (Some fsS)
    /\ fsS !! out_file 0 = Some (concat_strings (line_of reducefn (produced mapfn js) <$> ks))
    /\ NoDup ks /\ forall k, k ∈ ks <-> k ∈ Key <$> produced mapfn js.
Proof.
  intros Hp Hjs. unfold mrsequential. rewrite read_and_map_spec by done. simpl.
  set (K := produced mapfn js).
  destruct (reduce_runs_spec reducefn (length (Sort K)) (Sort K)) as (ks&E&Hnd&Hks);
    [apply Sort_sorted|done|].
  rewrite E. simpl. eexists _, ks. split_and!; [done| |done|].
  - change (out_file 0) with "mr-out-0"%string. rewrite lookup_insert_eq. f_equal.
    unfold concat_strings. f_equal. apply list_fmap_ext. intros i k _.
    apply line_of_Permutation; [done|apply Sort_perm].
  - intros k. by rewrite Hks, Sort_perm.
Qed.

(** ** Properties *)

(** The distributed computation agrees with the sequential one.  For every application
    whose Reduce does not depend on the order of the values, run every map task once, in
    any order, then every reduce task once, in any order: the lines of the files
    mr-out-0 ... mr-out-(n-1) are, as a multiset, the lines [mrsequential] prints for the
    same inputs, given in any order. *)
Theorem distributed_matches_sequential `{Json} `{SortByKey} `{TempFile}
    mapfn reducefn visit n js js' order fs :
  (forall m, visit m ≡ₚ map_to_list m) ->
  (forall k vs vs', vs ≡ₚ vs' -> reducefn k vs = reducefn k vs') ->
  0 < n -> NoDup js.*1.*1 ->
  Forall (fun '(x, f, c) => has_byte "/" x = false /\ fs !! f = Some c /\ Forall json_ok (mapfn f c)) js ->
  (forall i name, (i < Z.to_nat n)%nat -> star_match (bucket_pattern i) name = true -> fs !! name = None) ->
  js' ≡ₚ js -> order ≡ₚ seq 0 (Z.to_nat n) ->
  exists fs1 lines fsS slines,
    run_maps mapfn ((fun '(x, f, _) => map_task n x f) <$> js) fs = Ret fs1
    /\ (forall i, (i < Z.to_nat n)%nat ->
          run_reduces reducefn visit (reduce_task n <$> order) fs1 !! out_file i
          = Some (concat_strings (lines i)))
    /\ mrsequential mapfn reducefn ((fun '(_, f, _) => f) <$> js') fs = Ret (Some fsS)
    /\ fsS !! out_file 0 = Some (concat_strings slines)
    /\ (seq 0 (Z.to_nat n) ≫= lines) ≡ₚ slines.
Proof.
  intros Hvisit Hperm Hn Hnd Hjs Hfresh Hjs' Horder. pose proof Hjs as Hjs0.
  rewrite list.Forall_forall in Hjs0.
  destruct (run_maps_spec mapfn n js Hn [] fs) as (fs1&E1&Hready); [done| | |].
  { apply list.Forall_forall. intros [[x f] c] Hin. destruct (Hjs0 _ Hin) as (?&Hf&?).
    split_and!; [done..|]. intros y i Hi ->. apply not_false_iff_true. intros Hy.
    rewrite (Hfresh i) in Hf; [done..|]. apply bucket_pattern_match. eauto. }
  { intros i Hi. split; [|by intros ? ? ? ?%elem_of_nil].
    intros name Hm [s Hs]. by rewrite (Hfresh i) in Hs. }
  destruct (run_reduces_spec mapfn reducefn visit Hvisit Hperm n js order fs1) as (ks&Hks&_).
  { done. }
  { apply list.Forall_forall. intros [[x f] c] Hin. by destruct (Hjs0 _ Hin). }
  { rewrite Horder. apply NoDup_seq. }
  { intros i Hi. apply Hready. rewrite Horder, elem_of_seq in Hi. lia. }
  destruct (mrsequential_spec mapfn reducefn js' fs Hperm) as (fsS&sks&E2&Hout&Hsnd&Hsks).
  { rewrite Hjs'. apply list.Forall_forall. intros [[x f] c] Hin. by destruct (Hjs0 _ Hin) as (_&?&_). }
  assert (produced mapfn js' ≡ₚ produced mapfn js) as HK by (unfold produced; by rewrite Hjs').
  assert (forall i, (i < Z.to_nat n)%nat -> i ∈ order) as Hin
    by (intros i Hi; rewrite Horder, elem_of_seq; lia).
  destruct (bucket_keys n (produced mapfn js) ks Hn) as [Hb1 Hb2].
  { intros i Hi. destruct (Hks i (Hin i Hi)) as (?&?&_). done. }
  exists fs1, (fun i => line_of reducefn (produced mapfn js) <$> ks i), fsS,
    (line_of reducefn (produced mapfn js') <$> sks).
  split_and!; [done| |done|done|].
  - intros i Hi. by destruct (Hks i (Hin i Hi)) as (_&_&?).
  - rewrite (list_fmap_ext _ (line_of reducefn (produced mapfn js)) sks);
      [|intros; by apply line_of_Permutation].
    rewrite <- fmap_bind_list.
    apply fmap_Permutation, list.NoDup_Permutation; [done..|].
    intros k. by rewrite Hb2, Hsks, HK.
Qed.

(** [writeFile] is atomic.  However its system calls end, the file it writes has its old
    or its new content, the new one exactly when the call succeeds, and no other file that
    existed changes. *)
Theorem writeFile_atomic `{TempFile} o content filename fs :
  temp_name fs <> filename ->
  let '(fs', ok) := writeFile o content filename fs in
  fs' !! filename = (if (ok : bool) then Some content else fs !! filename)
  /\ forall name, name <> filename -> is_Some (fs !! name) -> fs' !! name = fs !! name.
Proof.
  intros Hne. pose proof (temp_fresh fs) as Hfresh. unfold writeFile.
  destruct o; simpl; (split; [|intros name Hn [s Hs];
    assert (temp_name fs <> name) by congruence]);
    rewrite ?lookup_insert_eq, ?lookup_insert_ne, ?lookup_delete_ne, ?lookup_insert_ne by congruence; done.
Qed.

(** A reduce task that is executed again loses its output.  The first execution deletes
    the task's input files, so the second one finds none, and replaces the output file by
    an empty one. *)
Theorem reduce_rerun_empties_output `{Json} `{SortByKey} `{TempFile} reducefn visit n i fs :
  (forall m, visit m ≡ₚ map_to_list m) ->
  execReduce reducefn visit WriteOk (reduce_task n i)
    (execReduce reducefn visit WriteOk (reduce_task n i) fs) !! out_file i = Some ""%string.
Proof.
  intros Hvisit. set (fs1 := execReduce reducefn visit WriteOk (reduce_task n i) fs).
  assert (Glob (bucket_pattern i) fs1 = []) as Hg.
  { destruct (Glob (bucket_pattern i) fs1) as [|name l] eqn:E; [done|]. exfalso.
    assert (name ∈ Glob (bucket_pattern i) fs1) as Hin by (rewrite E; set_solver +).
    apply elem_of_Glob in Hin as [[s Hs] Hm]. revert Hs. unfold fs1, execReduce. simpl.
    rewrite readReduceInputFiles_spec by (intros nm Hnm; by apply elem_of_Glob in Hnm as [? _]).
    rewrite delete_insert_id by apply temp_fresh. intros Hs.
    assert (name <> out_file i) as Hno.
    { intros ->. apply bucket_pattern_match in Hm as (x&_&Hx). by eapply out_file_not_bucket. }
    destruct (decide (name ∈ Glob (bucket_pattern i) fs)) as [Hd|Hd].
    - by rewrite deleteIntermediateFiles_deleted in Hs.
    - rewrite deleteIntermediateFiles_lookup, lookup_insert_ne in Hs by done.
      apply Hd, elem_of_Glob. split; [by exists s|done]. }
  unfold execReduce at 1. simpl. rewrite Hg. simpl.
  rewrite delete_insert_id by apply temp_fresh. unfold out_file. rewrite lookup_insert_eq.
  replace (visit (groupValuesByKey [])) with ([] : list (string * list string)); [done|].
  symmetry. apply Permutation_nil_r. rewrite Hvisit.
  change (groupValuesByKey []) with (∅ : gmap string (list string)). by rewrite map_to_list_empty.
Qed.

(** *** Concrete instances *)

(** A codec by the bits of the number of the list. *)
#[export] Instance KeyValue_countable : Countable KeyValue.
Proof.
  refine (inj_countable' (fun kv => (Key kv, Value kv)) (fun '(k, v) => mkKV k v) _). by intros [].
Defined.

Lemma bits_round_trip (l : list KeyValue) :
  Forall (fun _ => True) l ->
  exists s, Some (bits_of (encode l)) = Some s /\ decode (of_bits s) = Some l.
Proof. intros _. eexists. split; [done|]. by rewrite of_bits_of, decode_encode. Qed.

#[local] Instance bits_Json : Json := {
  Marshal l := Some (bits_of (encode l));
  Unmarshal s := decode (of_bits s);
  json_ok _ := True;
  json_round_trip := bits_round_trip;
}.

Lemma str_le_trans s t u : str_le s t -> str_le t u -> str_le s u.
Proof.
  unfold str_le, str_lt. revert t u. induction s as [|a s IH]; intros t u; [by destruct u|].
  destruct t as [|b t]; [done|]. destruct u as [|c u]; [done|]. simpl.
  unfold Ascii.compare. intros H1 H2. specialize (IH t u).
  destruct (N.compare_spec (N_of_ascii b) (N_of_ascii a)) as [E1|E1|E1]; [|done|];
  destruct (N.compare_spec (N_of_ascii c) (N_of_ascii b)) as [E2|E2|E2]; try done;
  destruct (N.compare_spec (N_of_ascii c) (N_of_ascii a)) as [E3|E3|E3]; try lia; try done; auto.
Qed.

Lemma str_le_total s t : str_le s t \/ str_le t s.
Proof.
  unfold str_le, str_lt. rewrite (String.compare_antisym s t).
  destruct (String.compare t s); simpl; auto.
Qed.

Definition kv_le (a b : KeyValue) : Prop := str_le (Key a) (Key b).

#[local] Instance kv_le_dec : RelDecision kv_le.
Proof. intros a b. unfold kv_le. apply _. Defined.

#[local] Instance kv_le_trans : Transitive kv_le.
Proof. intros a b c. apply str_le_trans. Qed.

#[local] Instance kv_le_total : Total kv_le.
Proof. intros a b. apply str_le_total. Qed.

Lemma merge_sort_sorted l : sorted (merge_sort kv_le l).
Proof. apply (StronglySorted_merge_sort kv_le). Qed.

#[local] Instance merge_SortByKey : SortByKey := {
  Sort := merge_sort kv_le;
  Sort_perm := merge_sort_Permutation kv_le;
  Sort_sorted := merge_sort_sorted;
}.

Lemma fresh_name_fresh (fs : files) : fs !! fresh (dom fs) = None.
Proof. apply not_elem_of_dom, is_fresh. Qed.

#[local] Instance fresh_TempFile : TempFile := {
  temp_name fs := fresh (dom fs);
  temp_fresh := fresh_name_fresh;
}.

(** One pair per file, and Reduce counts the values. *)
Definition count_mapfn (f c : string) : list KeyValue := [mkKV c "1"; mkKV f "1"].
Definition count_reducefn (k : string) (vs : list string) : string := Itoa (Z.of_nat (length vs)).

Definition demo_fs : files := <["a.txt" := "x"]> (<["b.txt" := "x"]> ∅)%string.
Definition demo_jobs : list (string * string * string) := [("1", "a.txt", "x"); ("2", "b.txt", "x")]%string.

Lemma demo_no_buckets i name :
  star_match (bucket_pattern i) name = true -> demo_fs !! name = None.
Proof.
  intros (x&_&->)%bucket_pattern_match. unfold demo_fs, bucket_file.
  by rewrite !lookup_insert_ne by discriminate.
Qed.

Lemma distributed_matches_sequential_witness :
  exists fs1 lines fsS slines,
    run_maps count_mapfn [map_task 2 "1" "a.txt"; map_task 2 "2" "b.txt"] demo_fs = Ret fs1
    /\ mrsequential count_mapfn count_reducefn ["b.txt"; "a.txt"]%string demo_fs = Ret (Some fsS)
    /\ fsS !! out_file 0 = Some (concat_strings slines)
    /\ ([0; 1]%nat ≫= lines) ≡ₚ slines.
Proof.
  destruct (distributed_matches_sequential count_mapfn count_reducefn map_to_list 2 demo_jobs
              (reverse demo_jobs) [1; 0]%nat demo_fs) as (fs1&lines&fsS&slines&H1&_&H2&H3&H4).
  - intros m. reflexivity.
  - intros k vs vs' Hvs. unfold count_reducefn. by rewrite Hvs.
  - lia.
  - apply (bool_decide_unpack _). vm_compute. exact I.
  - repeat constructor.
  - intros i name _. apply demo_no_buckets.
  - apply reverse_Permutation.
  - simpl. apply Permutation_swap.
  - exists fs1, lines, fsS, slines. repeat apply conj; [exact H1|exact H2|exact H3|exact H4].
Defined.

Lemma writeFile_atomic_witness :
  (writeFile (WriteFails "par") "partial" "a.txt" demo_fs).1 !! "a.txt"%string = Some "x"%string.
Proof.
  assert (temp_name demo_fs <> "a.txt"%string) as Hne by (vm_compute; discriminate).
  exact (proj1 (writeFile_atomic (WriteFails "par") "partial" "a.txt" demo_fs Hne)).
Defined.

Lemma reduce_rerun_empties_output_witness :
  execReduce count_reducefn map_to_list WriteOk (reduce_task 2 0)
    (execReduce count_reducefn map_to_list WriteOk (reduce_task 2 0) demo_fs) !! out_file 0
  = Some ""%string.
Proof. apply (reduce_rerun_empties_output count_reducefn map_to_list 2 0 demo_fs). intros m. reflexivity. Defined.
