(* ===== verification/MRApps.v ===== *)
(** * MapReduce applications

    The Map and Reduce functions of [src/map_reduce/mrapps]: word count, the indexer, and
    the applications that test crashes and early exits.  [unicode.IsLetter] on non-ASCII
    runes is a table of the standard library and a parameter here; the decoding of UTF-8
    and the splitting into fields are modelled. *)

From S2P Require Import Prelude Coordinator MRWorker.
Local Open Scope Z_scope.

(** ** Runes *)

Definition byte_of (c : ascii) : Z := Z.of_N (N_of_ascii c).

Definition in_range (lo hi : Z) (c : ascii) : bool := (lo <=? byte_of c) && (byte_of c <=? hi).

Definition cont (c : ascii) : bool := in_range 128 191 c.

(** The range of the second byte after a first byte of a sequence of three or four. *)
Definition second_ok (b0 : Z) (c : ascii) : bool :=
  if b0 =? 224 then in_range 160 191 c
  else if b0 =? 237 then in_range 128 159 c
  else if b0 =? 240 then in_range 144 191 c
  else if b0 =? 244 then in_range 128 143 c
  else cont c.

Definition rune_error : Z := 65533.

(** [utf8.DecodeRuneInString]: the first rune and how many bytes it takes. *)
Definition DecodeRune (s : string) : Z * nat :=
  match s with
  | EmptyString => (rune_error, 0%nat)
  | String c0 s1 =>
      let b0 := byte_of c0 in
      if b0 <? 128 then (b0, 1%nat)
      else if (194 <=? b0) && (b0 <=? 223) then
        match s1 with
        | String c1 _ =>
            if cont c1 then (Z.lor (Z.shiftl (Z.land b0 31) 6) (Z.land (byte_of c1) 63), 2%nat)
            else (rune_error, 1%nat)
        | _ => (rune_error, 1%nat)
        end
      else if (224 <=? b0) && (b0 <=? 239) then
        match s1 with
        | String c1 (String c2 _) =>
            if second_ok b0 c1 && cont c2
            then (Z.lor (Z.shiftl (Z.land b0 15) 12)
                    (Z.lor (Z.shiftl (Z.land (byte_of c1) 63) 6) (Z.land (byte_of c2) 63)), 3%nat)
            else (rune_error, 1%nat)
        | _ => (rune_error, 1%nat)
        end
      else if (240 <=? b0) && (b0 <=? 244) then
        match s1 with
        | String c1 (String c2 (String c3 _)) =>
            if second_ok b0 c1 && cont c2 && cont c3
            then (Z.lor (Z.shiftl (Z.land b0 7) 18)
                    (Z.lor (Z.shiftl (Z.land (byte_of c1) 63) 12)
                       (Z.lor (Z.shiftl (Z.land (byte_of c2) 63) 6) (Z.land (byte_of c3) 63))), 4%nat)
            else (rune_error, 1%nat)
        | _ => (rune_error, 1%nat)
        end
      else (rune_error, 1%nat)
  end.

Fixpoint take_bytes (n : nat) (s : string) : string :=
  match n, s with
  | S n', String c s' => String c (take_bytes n' s')
  | _, _ => ""
  end.

Fixpoint drop_bytes (n : nat) (s : string) : string :=
  match n, s with
  | S n', String _ s' => drop_bytes n' s'
  | _, _ => s
  end.

(** [range] over a string: its runes, each with the bytes it takes.  Every turn consumes
    a byte, so the length of the string is enough fuel. *)
Fixpoint runes (fuel : nat) (s : string) : list (Z * string) :=
  match fuel, s with
  | S fuel', String _ _ =>
      let '(r, n) := DecodeRune s in (r, take_bytes n s) :: runes fuel' (drop_bytes n s)
  | _, _ => []
  end.

(** [strings.FieldsFunc]: [cur] is the field being read, if any. *)
Fixpoint fields (f : Z -> bool) (cur : option string) (l : list (Z * string)) : list string :=
  match l with
  | [] => match cur with Some w => [w] | None => [] end
  | (r, b) :: rest =>
      if f r then match cur with Some w => w :: fields f None rest | None => fields f None rest end
      else fields f (Some (match cur with Some w => w +:+ b | None => b end)) rest
  end.

Definition FieldsFunc (s : string) (f : Z -> bool) : list string :=
  fields f None (runes (String.length s) s).

(** [sort.Strings] *)
Definition sort_Strings (l : list string) : list string := merge_sort str_le l.

(** [strings.Join] *)
Fixpoint Join (l : list string) (sep : string) : string :=
  match l with
  | [] => ""
  | [s] => s
  | s :: rest => s +:+ sep +:+ Join rest sep
  end.

Section apps.
  Context (IsLetter : Z -> bool).

(** ** wc.go *)

Definition wc_Map (filename contents : string) : list KeyValue :=
  let ff := fun r => negb (IsLetter r) in
  let words := FieldsFunc contents ff in
  foldl (fun kva w => kva ++ [mkKV w "1"]) [] words.

Definition wc_Reduce (key : string) (values : list string) : string :=
  Itoa (Z.of_nat (length values)).

(** ** indexer.go *)

(** [visit] is the order in which [range] visits the set of words. *)
Definition indexer_Map (visit : gmap string bool -> list string) (document value : string)
    : list KeyValue :=
  let words := FieldsFunc value (fun x => negb (IsLetter x)) in
  let m := foldl (fun m w => <[w := true]> m) ∅ words in
  foldl (fun res w => res ++ [mkKV w document]) [] (visit m).

Definition indexer_Reduce (key : string) (values : list string) : string :=
  let values := sort_Strings values in
  Itoa (Z.of_nat (length values)) +:+ " " +:+ Join values ",".

(** ** crash.go, nocrash.go *)

(** [None] is the exit of the process; [rr] is the random number below 1000. *)
Definition maybeCrash (rr : Z) : option unit := if decide (rr < 330) then None else Some tt.

Definition nocrash_maybeCrash (rr : Z) : option unit :=
  if false && bool_decide (rr < 500) then None else Some tt.

Definition nocrash_Map (rr : Z) (filename contents : string) : option (list KeyValue) :=
  _ ← nocrash_maybeCrash rr;
  Some ([] ++ [mkKV "a" filename] ++ [mkKV "b" (Itoa (Z.of_nat (String.length filename)))]
        ++ [mkKV "c" (Itoa (Z.of_nat (String.length contents)))] ++ [mkKV "d" "xyzzy"]).

Definition nocrash_Reduce (rr : Z) (key : string) (values : list string) : option string :=
  _ ← nocrash_maybeCrash rr;
  Some (Join (sort_Strings values) " ").

Definition crash_Map (rr : Z) (filename contents : string) : option (list KeyValue) :=
  _ ← maybeCrash rr;
  Some ([] ++ [mkKV "a" filename] ++ [mkKV "b" (Itoa (Z.of_nat (String.length filename)))]
        ++ [mkKV "c" (Itoa (Z.of_nat (String.length contents)))] ++ [mkKV "d" "xyzzy"]).

Definition crash_Reduce (rr : Z) (key : string) (values : list string) : option string :=
  _ ← maybeCrash rr;
  Some (Join (sort_Strings values) " ").

(** ** early_exit.go (the sleep in Reduce is not observable) *)

Definition early_exit_Map (filename contents : string) : list KeyValue := [] ++ [mkKV filename "1"].

Definition early_exit_Reduce (key : string) (values : list string) : string :=
  Itoa (Z.of_nat (length values)).

End apps.

(** ** Lemmas *)

(** A Reduce function whose result does not depend on the order of the values. *)
Class OrderFree (reducefn : string -> list string -> string) : Prop :=
  order_free k vs vs' : vs ≡ₚ vs' -> reducefn k vs = reducefn k vs'.

#[export] Instance str_le_Transitive : Transitive str_le.
Proof. intros s t u. apply str_le_trans. Qed.

#[export] Instance str_le_Total : Total str_le.
Proof. intros s t. apply str_le_total. Qed.

#[export] Instance str_le_AntiSymm : AntiSymm (=) str_le.
Proof. intros s t. apply str_le_antisym. Qed.

(** [sort.Strings] depends only on the multiset. *)
Lemma sort_Strings_Permutation l l' : l ≡ₚ l' -> sort_Strings l = sort_Strings l'.
Proof.
  intros Hl. apply (StronglySorted_unique str_le); [apply (StronglySorted_merge_sort str_le)..|].
  unfold sort_Strings. by rewrite !merge_sort_Permutation.
Qed.

#[export] Instance wc_OrderFree : OrderFree wc_Reduce.
Proof. intros k vs vs' H. unfold wc_Reduce. by rewrite H. Qed.

#[export] Instance indexer_OrderFree : OrderFree indexer_Reduce.
Proof. intros k vs vs' H. unfold indexer_Reduce. by rewrite (sort_Strings_Permutation vs vs' H). Qed.

Lemma foldl_snoc_map {A B} (f : A -> B) l : forall acc,
  foldl (fun acc x => acc ++ [f x]) acc l = acc ++ (f <$> l).
Proof.
  induction l as [|x l IH]; intros acc; simpl; [by rewrite app_nil_r|].
  rewrite IH. by rewrite <- app_assoc.
Qed.

Lemma wc_Map_words IsLetter f c :
  wc_Map IsLetter f c = (fun w => mkKV w "1") <$> FieldsFunc c (fun r => negb (IsLetter r)).
Proof. unfold wc_Map. by rewrite foldl_snoc_map. Qed.

(** The number of values of a word is the number of its occurrences. *)
Lemma values_words ws w :
  Z.of_nat (length (values w ((fun w => mkKV w "1") <$> ws))) = occ w ws.
Proof.
  induction ws as [|x ws IH]; [done|]. rewrite fmap_cons, values_cons, occ_cons, length_app, Nat2Z.inj_add, IH.
  simpl. destruct (decide (x = w)), (decide (w = x)); simpl; congruence || lia.
Qed.

(** *** Strings as bytes *)

Lemma take_drop_bytes n s : take_bytes n s +:+ drop_bytes n s = s.
Proof.
  revert s. induction n as [|n IH]; intros [|c s]; try done. simpl.
  by rewrite string_cons_app, IH.
Qed.

Lemma drop_bytes_length n s : String.length (drop_bytes n s) = (String.length s - n)%nat.
Proof. revert s. induction n as [|n IH]; intros [|c s]; simpl; auto. Qed.

Lemma DecodeRune_width c s : (1 <= (DecodeRune (String c s)).2)%nat.
Proof. unfold DecodeRune. repeat case_match; simpl; lia. Qed.

Lemma runes_cover fuel : forall s, (String.length s <= fuel)%nat ->
  concat_strings (runes fuel s).*2 = s.
Proof.
  induction fuel as [|fuel IH]; intros [|c s] Hlen; simpl in Hlen; [done|lia|done|].
  cbn [runes]. pose proof (DecodeRune_width c s) as Hw.
  destruct (DecodeRune (String c s)) as [r n]. simpl in Hw. rewrite fmap_cons, concat_strings_cons.
  cbn [snd]. rewrite IH; [apply take_drop_bytes|]. rewrite drop_bytes_length. simpl. lia.
Qed.

Lemma fields_concat f l : forall cur,
  concat_strings (fields f cur l)
  = default ""%string cur +:+ concat_strings (filter (fun rb => f rb.1 = false) l).*2.
Proof.
  induction l as [|[r b] l IH]; intros cur; simpl.
  - destruct cur as [w|]; [|done]. by rewrite concat_strings_cons.
  - rewrite filter_cons. simpl. destruct (f r) eqn:Ef.
    + rewrite decide_False by done. destruct cur as [w|]; [|apply IH].
      by rewrite concat_strings_cons, IH.
    + rewrite decide_True by done. rewrite IH. simpl. rewrite concat_strings_cons. simpl.
      destruct cur as [w|]; [|done]. simpl. by rewrite string_app_assoc.
Qed.

Lemma fields_nonempty f l : Forall (fun rb => rb.2 <> ""%string) l -> forall cur,
  (forall w, cur = Some w -> w <> ""%string) -> Forall (fun w => w <> ""%string) (fields f cur l).
Proof.
  induction 1 as [|[r b] l Hb _ IH]; intros cur Hcur; simpl.
  - destruct cur; repeat constructor. by apply Hcur.
  - destruct (f r).
    + destruct cur as [w|]; [constructor; [by apply Hcur|]|]; by apply IH.
    + apply IH. intros w [= <-]. destruct cur as [w'|]; [|done].
      specialize (Hcur w' eq_refl). destruct w'; [done|]. by rewrite string_cons_app.
Qed.

Lemma runes_nonempty fuel : forall s, Forall (fun rb => rb.2 <> ""%string) (runes fuel s).
Proof.
  induction fuel as [|fuel IH]; intros [|c s]; try constructor. cbn [runes].
  pose proof (DecodeRune_width c s) as Hw. destruct (DecodeRune (String c s)) as [r n].
  constructor; [|apply IH]. simpl in *. by destruct n; [lia|].
Qed.

(** ** Properties *)

(** Word count counts words.  The sequential run over any files prints exactly one line
    for every distinct word of their contents, with the number of its occurrences in all
    files together. *)
Theorem wc_counts_words `{SortByKey} IsLetter (js : list (string * string * string)) fs :
  Forall (fun '(_, f, c) => fs !! f = Some c) js ->
  let words := js ≫= (fun '(_, _, c) => FieldsFunc c (fun r => negb (IsLetter r))) in
  exists fsS ks,
    mrsequential (wc_Map IsLetter) wc_Reduce ((fun '(_, f, _) => f) <$> js) fs = Ret (Some fsS)
    /\ fsS !! out_file 0 = Some (concat_strings ((fun w => format_line w (Itoa (occ w words))) <$> ks))
    /\ NoDup ks /\ forall w, w ∈ ks <-> w ∈ words.
Proof.
  intros Hjs words.
  assert (produced (wc_Map IsLetter) js = (fun w => mkKV w "1") <$> words) as EK.
  { unfold produced, words. rewrite fmap_bind_list. clear. induction js as [|[[x f] c] js IH]; [done|].
    rewrite !bind_cons, IH, wc_Map_words. done. }
  destruct (mrsequential_spec (wc_Map IsLetter) wc_Reduce js fs wc_OrderFree Hjs)
    as (fsS&ks&E&Hout&Hnd&Hks).
  exists fsS, ks. split_and!; [done| |done|].
  - rewrite Hout. do 2 f_equal. apply list_fmap_ext. intros i w _. unfold line_of, wc_Reduce.
    by rewrite EK, values_words.
  - intros w. rewrite Hks, EK, <- list_fmap_compose. by rewrite list_fmap_id.
Qed.

(** splitting into fields loses no letter: a string is the concatenation of its runes,
    the fields are non-empty, and together they are the runes that are no separators, in
    order. *)
Theorem FieldsFunc_keeps_letters s f :
  concat_strings (runes (String.length s) s).*2 = s
  /\ Forall (fun w => w <> ""%string) (FieldsFunc s f)
  /\ concat_strings (FieldsFunc s f)
     = concat_strings (filter (fun rb => f rb.1 = false) (runes (String.length s) s)).*2.
Proof.
  split_and!.
  - by apply runes_cover.
  - apply fields_nonempty; [apply runes_nonempty|done].
  - unfold FieldsFunc. by rewrite fields_concat.
Qed.

(** *** Concrete run *)

Definition ascii_letter (r : Z) : bool :=
  ((65 <=? r) && (r <=? 90)) || ((97 <=? r) && (r <=? 122)).

Definition wc_fs : files := <["f" := "a tale, a b"]> ∅%string.

Lemma wc_counts_words_witness :
  exists fsS (ks : list string),
    @mrsequential (wc_Map ascii_letter) wc_Reduce merge_SortByKey ["f"%string] wc_fs = Ret (Some fsS)
    /\ "tale"%string ∈ ks.
Proof.
  destruct (@wc_counts_words merge_SortByKey ascii_letter [("1", "f", "a tale, a b")]%string wc_fs)
    as (fsS&ks&E&_&_&H).
  - constructor; [vm_compute; reflexivity|constructor].
  - exists fsS, ks. split; [exact E|]. apply H. apply list_elem_of_In. vm_compute. tauto.
Defined.

Example wc_output :
  match @mrsequential (wc_Map ascii_letter) wc_Reduce merge_SortByKey ["f"%string] wc_fs with
  | Ret (Some fsS) => fsS !! out_file 0
  | _ => None
  end = Some ("a 2" +:+ String "010" "b 1" +:+ String "010" "tale 1" +:+ String "010" "")%string.
Proof. vm_compute. reflexivity. Qed.
