(* ===== verification/Labrpc.v ===== *)
(** * The simulated network

    [src/src/labrpc/labrpc.go]: client ends, the network between them and the servers, and
    the dispatch of a request to a method.  A server object has an identity (the network
    compares pointers), so servers live in a heap and the network keeps addresses.

    [processReq] starts a goroutine for the handler and waits for it while other goroutines
    change the network and the servers.  The model splits it at its critical sections: the
    network it reads first, the ones its timer sees, and the one it reads last are
    arguments, and so is the moment at which the handler runs: it can be before the wait
    ends or later, when the caller has been told that there is no reply.  Random numbers
    are arguments.
    The encoding (labgob, over [encoding/gob]) enters as a class of codecs, and as the
    decoders and encoders of a method's argument and reply types. *)

From S2P Require Import Prelude.
Local Open Scope Z_scope.

Definition SHORTDELAY : Z := 27.
Definition LONGDELAY : Z := 7000.
Definition MAXDELAY : Z := LONGDELAY + 100.

Abbreviation bytes := string.

Record reqMsg := mkReq { req_endname : string; req_svcMeth : string; req_args : bytes }.
Record replyMsg := mkReply { rep_ok : bool; rep_reply : bytes }.

(** [replyMsg{false, nil}] *)
Definition no_reply : replyMsg := mkReply false "".

(** [Marshall] and [Unmarshall] encode and decode a type with labgob; [None] is the fatal
    error of a decoding that fails. *)
Class Codec (A : Type) := {
  Marshall : A -> bytes;
  Unmarshall : bytes -> option A;
  codec_round_trip a : Unmarshall (Marshall a) = Some a;
}.

(** ** Servers and services *)

Section labrpc.
  Context {App : Type}.  (* the state behind the receivers of the methods *)

(** A method as [reflect] shows it, with the codecs of its types. *)
Record Method := mkMethod {
  PkgPath : string;
  NumIn : Z;
  In2_is_Ptr : bool;
  NumOut : Z;
  Args : Type;
  Reply : Type;
  decode_args : bytes -> option Args;
  zero_reply : Reply;
  Func : App -> Args -> Reply -> go (App * Reply);
  encode_reply : Reply -> bytes;
}.

Record Service := mkService { svc_name : string; methods : gmap string Method }.

(** The loop over the methods of the receiver's type keeps those that look like handlers. *)
Definition MakeService (name : string) (ms : list (string * Method)) : Service :=
  mkService name
    (foldl (fun acc '(mname, m) =>
              if decide (PkgPath m <> ""%string \/ NumIn m <> 3 \/ In2_is_Ptr m = false \/ NumOut m <> 0)
              then acc else <[mname := m]> acc) ∅ ms).

(** [Service.dispatch]: [Unmarshall] ends the process when the argument does not decode. *)
Definition service_dispatch (svc : Service) (methname : string) (req : reqMsg) (app : App)
    : go (App * replyMsg) :=
  match methods svc !! methname with
  | Some method =>
      match decode_args method (req_args req) with
      | None => Crash Fatal
      | Some args =>
          '(app', replyv) ← Func method app args (zero_reply method);
          Ret (app', mkReply true (encode_reply method replyv))
      end
  | None => Crash Fatal
  end.

Record Server := mkServer {
  services : gmap string Service;
  srv_count : Z;
  dispatchf : option (string -> bytes -> bytes * bool);
}.

Definition MakeServer : Server := mkServer ∅ 0 None.

Definition SetDispatch (f : string -> bytes -> bytes * bool) (rs : Server) : Server :=
  mkServer (services rs) (srv_count rs) (Some f).

Definition AddService (svc : Service) (rs : Server) : Server :=
  mkServer (<[svc_name svc := svc]> (services rs)) (srv_count rs) (dispatchf rs).

(** [strings.LastIndex] for one byte: -1 if it does not occur. *)
Fixpoint last_index (sep : ascii) (s : string) (i : Z) (found : Z) : Z :=
  match s with
  | EmptyString => found
  | String c s' => last_index sep s' (i + 1) (if decide (c = sep) then i else found)
  end.

Definition LastIndex (s : string) (sep : ascii) : Z := last_index sep s 0 (-1).

(** [Server.dispatch]; slicing at -1 panics. *)
Definition server_dispatch (rs : Server) (req : reqMsg) (app : App) : go (Server * App * replyMsg) :=
  let rs := mkServer (services rs) (i64 (srv_count rs + 1)) (dispatchf rs) in
  let dot := LastIndex (req_svcMeth req) "." in
  if decide (dot < 0) then Crash Panic else
  let serviceName := substring 0 (Z.to_nat dot) (req_svcMeth req) in
  let methodName := substring (Z.to_nat (dot + 1)) (String.length (req_svcMeth req)) (req_svcMeth req) in
  match dispatchf rs with
  | Some f => let '(rep, ok) := f (req_svcMeth req) (req_args req) in Ret (rs, app, mkReply ok rep)
  | None =>
      match services rs !! serviceName with
      | Some service =>
          '(app', r) ← service_dispatch service methodName req app;
          Ret (rs, app', r)
      | None => Crash Fatal
      end
  end.

Definition Dispatch (rs : Server) (svcMeth clnt : string) (args : bytes) (app : App)
    : go (Server * App * (bytes * bool)) :=
  '(rs', app', rep) ← server_dispatch rs (mkReq clnt svcMeth args) app;
  Ret (rs', app', (rep_reply rep, rep_ok rep)).

Definition server_GetCount (rs : Server) : Z := srv_count rs.

(** ** The network *)

Abbreviation ptr := nat.

(** [callf] replaces the network when it is set. *)
Record ClientEnd := mkEnd {
  endname : string;
  callf : option (string -> string -> bytes -> bytes * bool);
}.

Definition SetCall (f : string -> string -> bytes -> bytes * bool) (e : ClientEnd) : ClientEnd :=
  mkEnd (endname e) (Some f).

(** A nil connection or server is an entry with [None]; a missing entry reads the same. *)
Record Network := mkNet {
  reliable : bool;
  longDelays : bool;
  longReordering : bool;
  ends : gmap string ClientEnd;
  enabled : gmap string bool;
  servers : gmap string (option ptr);
  connections : gmap string (option string);
  done : bool;
  count : Z;
  nbytes : Z;
}.

Definition MakeNetwork : Network := mkNet true false false ∅ ∅ ∅ ∅ false 0 0.

(** The goroutine of the network: count the request before it is processed. *)
Definition take_request (req : reqMsg) (rn : Network) : Network :=
  mkNet (reliable rn) (longDelays rn) (longReordering rn) (ends rn) (enabled rn) (servers rn)
    (connections rn) (done rn) (i32 (count rn + 1))
    (i64 (nbytes rn + Z.of_nat (String.length (req_args req)))).

Definition add_bytes (n : Z) (rn : Network) : Network :=
  mkNet (reliable rn) (longDelays rn) (longReordering rn) (ends rn) (enabled rn) (servers rn)
    (connections rn) (done rn) (count rn) (i64 (nbytes rn + n)).

Definition Cleanup (rn : Network) : go Network :=
  if done rn then Crash Panic
  else Ret (mkNet (reliable rn) (longDelays rn) (longReordering rn) (ends rn) (enabled rn)
              (servers rn) (connections rn) true (count rn) (nbytes rn)).

Definition Reliable (yes : bool) (rn : Network) : Network :=
  mkNet yes (longDelays rn) (longReordering rn) (ends rn) (enabled rn) (servers rn)
    (connections rn) (done rn) (count rn) (nbytes rn).

Definition IsReliable (rn : Network) : bool := reliable rn.

Definition LongReordering (yes : bool) (rn : Network) : Network :=
  mkNet (reliable rn) (longDelays rn) yes (ends rn) (enabled rn) (servers rn)
    (connections rn) (done rn) (count rn) (nbytes rn).

Definition LongDelays (yes : bool) (rn : Network) : Network :=
  mkNet (reliable rn) yes (longReordering rn) (ends rn) (enabled rn) (servers rn)
    (connections rn) (done rn) (count rn) (nbytes rn).

Definition IsLongDelays (rn : Network) : bool := longDelays rn.

Definition set_tables (e : gmap string ClientEnd) (en : gmap string bool)
    (sv : gmap string (option ptr)) (cn : gmap string (option string)) (rn : Network) : Network :=
  mkNet (reliable rn) (longDelays rn) (longReordering rn) e en sv cn (done rn) (count rn) (nbytes rn).

Definition MakeEnd (name : string) (rn : Network) : go (Network * ClientEnd) :=
  match ends rn !! name with
  | Some _ => Crash Fatal
  | None =>
      let e := mkEnd name None in
      Ret (set_tables (<[name := e]> (ends rn)) (<[name := false]> (enabled rn)) (servers rn)
             (<[name := None]> (connections rn)) rn, e)
  end.

Definition LookupEnd (name : string) (rn : Network) : go ClientEnd :=
  match ends rn !! name with Some e => Ret e | None => Crash Fatal end.

Definition DeleteEnd (name : string) (rn : Network) : go Network :=
  match ends rn !! name with
  | None => Crash Fatal
  | Some _ => Ret (set_tables (delete name (ends rn)) (delete name (enabled rn)) (servers rn)
                     (delete name (connections rn)) rn)
  end.

Definition AddServer (servername : string) (rs : ptr) (rn : Network) : Network :=
  set_tables (ends rn) (enabled rn) (<[servername := Some rs]> (servers rn)) (connections rn) rn.

Definition DeleteServer (servername : string) (rn : Network) : Network :=
  set_tables (ends rn) (enabled rn) (<[servername := None]> (servers rn)) (connections rn) rn.

Definition Connect (name servername : string) (rn : Network) : Network :=
  set_tables (ends rn) (enabled rn) (servers rn) (<[name := Some servername]> (connections rn)) rn.

Definition Enable (name : string) (on : bool) (rn : Network) : Network :=
  set_tables (ends rn) (<[name := on]> (enabled rn)) (servers rn) (connections rn) rn.

Definition lookup_server (servername : string) (rn : Network) : option ptr :=
  match servers rn !! servername with Some p => p | None => None end.

(** [rn.servers[servername].GetCount()]: a nil server panics. *)
Definition GetCount (heap : gmap ptr Server) (servername : string) (rn : Network) : go Z :=
  match lookup_server servername rn with
  | None => Crash Panic
  | Some p => match heap !! p with Some rs => Ret (server_GetCount rs) | None => Crash Panic end
  end.

Definition GetTotalCount (rn : Network) : Z := count rn.
Definition GetTotalBytes (rn : Network) : Z := nbytes rn.

(** enabled, servername, server, reliable, longreordering *)
Definition readEndnameInfo (name : string) (rn : Network)
    : bool * option string * option ptr * bool * bool :=
  let en := default false (enabled rn !! name) in
  let servername := match connections rn !! name with Some sn => sn | None => None end in
  let server := match servername with Some sn => lookup_server sn rn | None => None end in
  (en, servername, server, reliable rn, longReordering rn).

Definition isServerDead (name servername : string) (server : ptr) (rn : Network) : bool :=
  if decide (default false (enabled rn !! name) = false \/ lookup_server servername rn <> Some server)
  then true else false.

(** What happens while a request is waited for: its handler goroutine runs, the loop
    receives the reply of the handler, the timer fires and sees the network as it is then,
    other goroutines of the servers run. *)
Inductive wake :=
  | Handler
  | Replied
  | Timer (rn : Network)
  | Others (f : gmap ptr Server -> App -> go (gmap ptr Server * App)).

(** The handler goroutine on the server object the request was addressed to. *)
Definition run_handler (req : reqMsg) (server : ptr) (heap : gmap ptr Server) (app : App)
    : go (gmap ptr Server * App * replyMsg) :=
  match heap !! server with
  | None => Crash Panic
  | Some rs => '(rs', app', reply) ← server_dispatch rs req app; Ret (<[server := rs']> heap, app', reply)
  end.

(** The loop: the servers, the handler's reply if it has run, and [replyOK] once the loop
    has ended; [None] while it waits.  There is nothing to receive before the handler ran. *)
Fixpoint wait_loop (req : reqMsg) (servername : string) (server : ptr) (ws : list wake)
    (heap : gmap ptr Server) (app : App) (ran : option replyMsg)
    : go (gmap ptr Server * App * option replyMsg * option bool) :=
  match ws with
  | [] => Ret (heap, app, ran, None)
  | Handler :: rest =>
      match ran with
      | Some _ => wait_loop req servername server rest heap app ran
      | None =>
          '(heap', app', reply) ← run_handler req server heap app;
          wait_loop req servername server rest heap' app' (Some reply)
      end
  | Replied :: rest =>
      match ran with
      | Some _ => Ret (heap, app, ran, Some true)
      | None => wait_loop req servername server rest heap app ran
      end
  | Timer rn :: rest =>
      if isServerDead (req_endname req) servername server rn then Ret (heap, app, ran, Some false)
      else wait_loop req servername server rest heap app ran
  | Others f :: rest =>
      '(heap', app') ← f heap app;
      wait_loop req servername server rest heap' app' ran
  end.

(** The random numbers of one request. *)
Record dice := mkDice { drop_req : Z; drop_rep : Z; reorder : Z; delay1 : Z; delay2 : Z }.

(** How a request ends: the reply sent on its channel, after how many milliseconds of a
    timer, and the network with its statistics. *)
Record outcome := mkOutcome { out_reply : replyMsg; out_delay : Z; out_net : Network }.

(** The first part of [processReq]: whether to execute, and on which server. *)
Inductive decision :=
  | Unreachable
  | DropRequest
  | Execute (servername : string) (server : ptr) (rel longre : bool).

Definition processReq_start (d : dice) (req : reqMsg) (rn : Network) : decision :=
  match readEndnameInfo (req_endname req) rn with
  | (true, Some servername, Some server, rel, longre) =>
      if (negb rel && bool_decide (drop_req d `mod` 1000 < 100))%bool then DropRequest
      else Execute servername server rel longre
  | _ => Unreachable
  end.

(** The last part, after the wait, on the network as it is then. *)
Definition processReq_finish (d : dice) (req : reqMsg) (servername : string) (server : ptr)
    (rel longre replyOK : bool) (reply : replyMsg) (rn : Network) : outcome :=
  let serverDead := isServerDead (req_endname req) servername server rn in
  if (negb replyOK || serverDead)%bool then mkOutcome no_reply 0 rn
  else if (negb rel && bool_decide (drop_rep d `mod` 1000 < 100))%bool then mkOutcome no_reply 0 rn
  else if (longre && bool_decide (reorder d `mod` 900 < 600))%bool
       then mkOutcome reply (200 + delay1 d `mod` (1 + delay2 d `mod` 2000))
              (add_bytes (Z.of_nat (String.length (rep_reply reply))) rn)
  else mkOutcome reply 0 (add_bytes (Z.of_nat (String.length (rep_reply reply))) rn).

(** What became of the handler: there was none, it ran, or its goroutine has yet to run, on
    the server object of that address. *)
Inductive handler_fate := NotStarted | Ran | StillToRun (req : reqMsg) (server : ptr).

Definition fate_of (req : reqMsg) (server : ptr) (ran : option replyMsg) : handler_fate :=
  match ran with Some _ => Ran | None => StillToRun req server end.

(** A goroutine that outlives its request: its reply is drained. *)
Definition run_late (req : reqMsg) (server : ptr) (heap : gmap ptr Server) (app : App)
    : go (gmap ptr Server * App) :=
  '(heap', app', _) ← run_handler req server heap app; Ret (heap', app').

(** One request: the network at its start, what happens during the wait, the network at its
    end.  The outcome is [None] for a request whose wait has not ended. *)
Definition processReq (d : dice) (req : reqMsg) (rn0 : Network) (ws : list wake) (rn1 : Network)
    (heap : gmap ptr Server) (app : App)
    : go (gmap ptr Server * App * option outcome * handler_fate) :=
  match processReq_start d req rn0 with
  | Unreachable =>
      let ms := if IsLongDelays rn0 then delay1 d `mod` LONGDELAY else delay1 d `mod` 100 in
      Ret (heap, app, Some (mkOutcome no_reply ms rn0), NotStarted)
  | DropRequest => Ret (heap, app, Some (mkOutcome no_reply 0 rn0), NotStarted)
  | Execute servername server rel longre =>
      match wait_loop req servername server ws heap app None with
      | Crash c => Crash c
      | Ret (heap', app', ran, replyOK) =>
          Ret (heap', app',
               (fun ok => processReq_finish d req servername server rel longre ok (default no_reply ran) rn1) <$> replyOK,
               fate_of req server ran)
      end
  end.

(** ** Calls *)

(** [ClientEnd.Call] through the network: [args] are encoded already; the result is the
    reply to decode, or [None] for false, once there is one; then what became of the
    handler.  A cleaned-up network takes no request. *)
Definition Call (d : dice) (e : ClientEnd) (svcMeth : string) (args : bytes)
    (rn0 : Network) (ws : list wake) (rn1 : Network -> Network) (heap : gmap ptr Server) (app : App)
    : go (gmap ptr Server * App * Network * option (option bytes) * handler_fate) :=
  match callf e with
  | Some f => let '(rep, ok) := f (endname e) svcMeth args in
              Ret (heap, app, rn0, Some (if (ok : bool) then Some rep else None), NotStarted)
  | None =>
      if done rn0 then Ret (heap, app, rn0, Some None, NotStarted) else
      let req := mkReq (endname e) svcMeth args in
      let rn := take_request req rn0 in
      r ← processReq d req rn ws (rn1 rn) heap app;
      let '(heap', app', o, hf) := r in
      Ret (heap', app', from_option out_net rn o,
           (fun o => if rep_ok (out_reply o) then Some (rep_reply (out_reply o)) else None) <$> o, hf)
  end.

(** [ClientEnd.Forward] never uses [callf]. *)
Definition Forward (d : dice) (e : ClientEnd) (svcMeth : string) (args : bytes)
    (rn0 : Network) (ws : list wake) (rn1 : Network -> Network) (heap : gmap ptr Server) (app : App)
    : go (gmap ptr Server * App * Network * option (bytes * bool) * handler_fate) :=
  if done rn0 then Ret (heap, app, rn0, Some (""%string, false), NotStarted) else
  let req := mkReq (endname e) svcMeth args in
  let rn := take_request req rn0 in
  r ← processReq d req rn ws (rn1 rn) heap app;
  let '(heap', app', o, hf) := r in
  Ret (heap', app', from_option out_net rn o, (fun o => (rep_reply (out_reply o), rep_ok (out_reply o))) <$> o, hf).

End labrpc.
Arguments Method : clear implicits.
Arguments Service : clear implicits.
Arguments Server : clear implicits.
Arguments wake : clear implicits.
Arguments Handler {App}.
Arguments Replied {App}.
Arguments Timer {App} rn.
Arguments Others {App} f.

(** A concrete codec, for examples. *)
Lemma bits_codec_law {A} `{Countable A} (a : A) : decode (of_bits (bits_of (encode a))) = Some a.
Proof. by rewrite of_bits_of, decode_encode. Qed.

Definition bits_codec {A} `{Countable A} : Codec A := {|
  Marshall a := bits_of (encode a);
  Unmarshall s := decode (of_bits s);
  codec_round_trip := bits_codec_law;
|}.

(** ** Lemmas *)

Section facts.
  Context {App : Type}.
  Implicit Types (heap : gmap nat (Server App)) (app : App).

(** When the first part decides to execute. *)
Lemma processReq_start_Execute d req rn sn p rel longre :
  processReq_start d req rn = Execute sn p rel longre ->
  default false (enabled rn !! req_endname req) = true
  /\ connections rn !! req_endname req = Some (Some sn) /\ lookup_server sn rn = Some p
  /\ rel = reliable rn.
Proof.
  unfold processReq_start, readEndnameInfo. intros H.
  destruct (default false (enabled rn !! req_endname req)); [|done].
  destruct (connections rn !! req_endname req) as [[sn'|]|] eqn:Ec; [|done..].
  destruct (lookup_server sn' rn) as [p'|] eqn:El; [|done].
  destruct (_ && _)%bool; [done|]. by simplify_eq.
Qed.

Lemma isServerDead_false name sn p rn :
  isServerDead name sn p rn = false <->
  default false (enabled rn !! name) = true /\ lookup_server sn rn = Some p.
Proof.
  unfold isServerDead. case_decide as H; split; try done.
  - intros [He Hl]. destruct H as [H|H]; congruence.
  - intros _. destruct (default false (enabled rn !! name)) eqn:E; [|tauto].
    split; [done|]. destruct (decide (lookup_server sn rn = Some p)); tauto.
Qed.

(** The reply sent is the handler's or none; it is the handler's only if the server is
    still there. *)
Lemma processReq_finish_reply d req sn p rel longre replyOK reply rn :
  out_reply (processReq_finish d req sn p rel longre replyOK reply rn) = no_reply
  \/ out_reply (processReq_finish d req sn p rel longre replyOK reply rn) = reply
     /\ replyOK = true /\ isServerDead (req_endname req) sn p rn = false.
Proof.
  unfold processReq_finish. destruct replyOK; [|by left]. simpl.
  destruct (isServerDead _ _ _ rn); [by left|]. simpl. destruct (_ && _)%bool; [by left|].
  right. by destruct (_ && _)%bool.
Qed.

Lemma processReq_finish_delay d req sn p rel longre replyOK reply rn :
  0 <= out_delay (processReq_finish d req sn p rel longre replyOK reply rn) < MAXDELAY.
Proof.
  unfold processReq_finish, MAXDELAY, LONGDELAY. pose proof (Z.mod_pos_bound (delay2 d) 2000).
  pose proof (Z.mod_pos_bound (delay1 d) (1 + delay2 d `mod` 2000)). repeat case_match; simpl; lia.
Qed.

(** Whoever gets [replyOK] has received the reply of a handler that ran. *)
Lemma wait_loop_ok req sn p ws : forall heap app ran heap' app' ran',
  wait_loop req sn p ws heap app ran = Ret (heap', app', ran', Some true) -> is_Some ran'.
Proof.
  induction ws as [|[| |rn|f] ws IH]; intros heap app ran heap' app' ran'; simpl; [done|..].
  - destruct ran as [r|]; [by apply IH|]. destruct (run_handler req p heap app) as [[[h1 a1] r]|]; [|done].
    simpl. by apply IH.
  - destruct ran; [intros; by simplify_eq|by apply IH].
  - destruct (isServerDead _ _ _ rn); [done|by apply IH].
  - destruct (f heap app) as [[h1 a1]|]; [|done]. simpl. by apply IH.
Qed.

(** ** Properties *)

(** A positive answer means that the handler ran, on the server object the request was
    addressed to, which is still registered; a request that is not started changes nothing;
    and a goroutine that is left over belongs to a request that got no reply. *)
Theorem positive_answer_ran d req rn0 ws rn1 heap app heap' app' o hf :
  processReq d req rn0 ws rn1 heap app = Ret (heap', app', Some o, hf) ->
  match hf with
  | NotStarted => heap' = heap /\ app' = app /\ out_reply o = no_reply
  | Ran => out_reply o = no_reply \/ exists sn p,
      connections rn0 !! req_endname req = Some (Some sn) /\ lookup_server sn rn0 = Some p
      /\ lookup_server sn rn1 = Some p
  | StillToRun req' p => req' = req /\ out_reply o = no_reply /\ exists sn,
      connections rn0 !! req_endname req = Some (Some sn) /\ lookup_server sn rn0 = Some p
  end.
Proof.
  unfold processReq. destruct (processReq_start d req rn0) as [| |sn p rel longre] eqn:Es.
  1,2: intros H; by simplify_eq.
  apply processReq_start_Execute in Es as (_&Hc&Hl&_).
  destruct (wait_loop req sn p ws heap app None) as [[[[h1 a1] ran] [ok|]]|] eqn:Ew; [|done..].
  simpl. intros H. simplify_eq.
  destruct (processReq_finish_reply d req sn p rel longre ok (default no_reply ran) rn1) as [En|(E&->&Hd)].
  - destruct ran; simpl; [by left|]. split_and!; [done..|by exists sn].
  - apply wait_loop_ok in Ew as [r ->]. simpl. right. exists sn, p. split_and!; [done..|].
    by apply isServerDead_false in Hd as [_ ?].
Qed.

(** A server that has been deleted or replaced while its handler ran does not answer:
    the reply is withheld, whatever the handler returned. *)
Theorem deleted_server_never_answers d req rn0 ws rn1 heap app heap' app' o hf sn :
  connections rn0 !! req_endname req = Some (Some sn) ->
  lookup_server sn rn1 <> lookup_server sn rn0 ->
  processReq d req rn0 ws rn1 heap app = Ret (heap', app', Some o, hf) ->
  out_reply o = no_reply.
Proof.
  intros Hc Hne. unfold processReq.
  destruct (processReq_start d req rn0) as [| |sn' p rel longre] eqn:Es.
  1,2: intros H; by simplify_eq.
  apply processReq_start_Execute in Es as (_&Hc'&Hl&_). simplify_eq.
  destruct (wait_loop req sn p ws heap app None) as [[[[h1 a1] ran] [ok|]]|]; [|done..]. simpl. intros H. simplify_eq.
  destruct (processReq_finish_reply d req sn p rel longre ok (default no_reply ran) rn1) as [?|(_&_&Hd)]; [done|].
  apply isServerDead_false in Hd as [_ Hd]. congruence.
Qed.

(** A reliable network delivers.  If the end is enabled and connected to a registered
    server, and stays so until the handler has returned, the caller gets the handler's
    reply, whatever the random numbers, however often the timer fires before and after the
    handler runs, within the maximal delay. *)
Theorem reliable_network_delivers d req rn0 k k' rn1 heap app sn p rs rs' app' reply :
  reliable rn0 = true -> enabled rn0 !! req_endname req = Some true ->
  connections rn0 !! req_endname req = Some (Some sn) -> lookup_server sn rn0 = Some p ->
  enabled rn1 !! req_endname req = Some true -> lookup_server sn rn1 = Some p ->
  heap !! p = Some rs -> server_dispatch rs req app = Ret (rs', app', reply) ->
  exists o, processReq d req rn0 (replicate k (Timer rn1) ++ [Handler] ++ replicate k' (Timer rn1) ++ [Replied]) rn1 heap app
            = Ret (<[p := rs']> heap, app', Some o, Ran)
    /\ out_reply o = reply /\ 0 <= out_delay o < MAXDELAY.
Proof.
  intros Hr He0 Hc Hl0 He1 Hl1 Hh Hd.
  assert (processReq_start d req rn0 = Execute sn p true (longReordering rn0)) as Es.
  { unfold processReq_start, readEndnameInfo. by rewrite He0, Hc, Hl0, Hr. }
  assert (isServerDead (req_endname req) sn p rn1 = false) as Hdead
    by (apply isServerDead_false; by rewrite He1).
  assert (forall j ws h (a : App) ran, wait_loop req sn p (replicate j (Timer rn1) ++ ws) h a ran = wait_loop req sn p ws h a ran) as Hw
    by (intros j ws h a ran; induction j as [|j IH]; simpl; [done|]; by rewrite Hdead).
  eexists. unfold processReq. rewrite Es, Hw. simpl. unfold run_handler. rewrite Hh, Hd. simpl. rewrite Hw. simpl.
  split; [done|]. split; [|apply processReq_finish_delay].
  unfold processReq_finish. rewrite Hdead. simpl. by destruct (_ && _)%bool.
Qed.

End facts.

(** *** A concrete network: a counter behind one server *)

Definition add_method : Method Z := {|
  PkgPath := ""; NumIn := 3; In2_is_Ptr := true; NumOut := 0;
  Args := string; Reply := string; decode_args := Some; zero_reply := ""%string;
  Func app a _ := Ret (app + 1, a); encode_reply r := r |}.

Definition hidden_method : Method Z := {|
  PkgPath := "labrpc"; NumIn := 3; In2_is_Ptr := true; NumOut := 0;
  Args := string; Reply := string; decode_args := Some; zero_reply := ""%string;
  Func app a _ := Ret (app, a); encode_reply r := r |}.

Definition demo_server : Server Z :=
  AddService (MakeService "Ctr" [("Add", add_method); ("hidden", hidden_method)]%string) MakeServer.

Definition demo_net : Network :=
  match MakeEnd "e" (AddServer "s" 0 MakeNetwork) with
  | Ret (rn, _) => Enable "e" true (Connect "e" "s" rn)
  | Crash _ => MakeNetwork
  end.

Definition demo_req : reqMsg := mkReq "e" "Ctr.Add" "x".
Definition demo_dice : dice := mkDice 50 50 50 50 50.
Definition demo_heap : gmap nat (Server Z) := {[ 0%nat := demo_server ]}.
Definition demo_server' : Server Z := mkServer (services demo_server) 1 None.

(** The server is deleted while its handler has yet to run: the caller learns nothing, and
    the handler runs all the same. *)
Lemma positive_answer_ran_witness :
  exists o, processReq demo_dice demo_req demo_net [Timer (DeleteServer "s" demo_net)] (DeleteServer "s" demo_net) demo_heap 4
            = Ret (demo_heap, 4, Some o, StillToRun demo_req 0)
    /\ out_reply o = no_reply
    /\ run_late demo_req 0 demo_heap 4 = Ret (<[0%nat := demo_server']> demo_heap, 5).
Proof.
  exists (mkOutcome no_reply 0 (DeleteServer "s" demo_net)).
  assert (processReq demo_dice demo_req demo_net [Timer (DeleteServer "s" demo_net)] (DeleteServer "s" demo_net) demo_heap 4
    = Ret (demo_heap, 4, Some (mkOutcome no_reply 0 (DeleteServer "s" demo_net)), StillToRun demo_req 0))
    as E by (vm_compute; reflexivity).
  split; [exact E|]. split; [|vm_compute; reflexivity].
  exact (proj1 (proj2 (positive_answer_ran _ _ _ _ _ _ _ _ _ _ _ E))).
Defined.

Lemma deleted_server_never_answers_witness :
  exists o, processReq demo_dice demo_req demo_net [Handler; Replied] (DeleteServer "s" demo_net) demo_heap 4
            = Ret (<[0%nat := demo_server']> demo_heap, 5, Some o, Ran)
    /\ out_reply o = no_reply.
Proof.
  exists (mkOutcome no_reply 0 (DeleteServer "s" demo_net)).
  assert (processReq demo_dice demo_req demo_net [Handler; Replied] (DeleteServer "s" demo_net) demo_heap 4
    = Ret (<[0%nat := demo_server']> demo_heap, 5, Some (mkOutcome no_reply 0 (DeleteServer "s" demo_net)), Ran))
    as E by (vm_compute; reflexivity).
  split; [exact E|].
  refine (deleted_server_never_answers demo_dice demo_req demo_net [Handler; Replied] (DeleteServer "s" demo_net)
           demo_heap 4 _ _ _ _ "s" _ _ E); [vm_compute; reflexivity|vm_compute; discriminate].
Defined.

Lemma reliable_network_delivers_witness :
  exists o, processReq demo_dice demo_req demo_net [Timer demo_net; Handler; Replied] demo_net demo_heap 4
            = Ret (<[0%nat := demo_server']> demo_heap, 5, Some o, Ran)
    /\ out_reply o = mkReply true "x" /\ 0 <= out_delay o < MAXDELAY.
Proof.
  apply (reliable_network_delivers demo_dice demo_req demo_net 1 0 demo_net demo_heap 4 "s" 0
           demo_server demo_server' 5 (mkReply true "x")); vm_compute; reflexivity.
Defined.
