(* ===== verification/KVNet.v ===== *)
(** * The key/value server behind the network

    Composes [KVServer.v] with [Labrpc.v]: the service that [StartKVServer]
    ([src/src/kvsrv1/server.go]) offers, called through a client end, behaves like one
    attempt of the clerk in [KVClerk.v], and the retry loops of [client.go] run over the
    network are the clerk's [Put] and [Get].  This is what justifies the clerk's model of the
    network: a fate per attempt, and requests of others in between.  A handler that runs
    after its request was given up is one of these requests. *)

From S2P Require Import Prelude Rpc KVServer KVClerk Labrpc.
Local Open Scope Z_scope.

Section kvnet.
  Context `{Codec GetArgs} `{Codec GetReply} `{Codec PutArgs} `{Codec PutReply}.

Definition Get_method : Method KVServer := {|
  PkgPath := ""; NumIn := 3; In2_is_Ptr := true; NumOut := 0;
  Args := GetArgs; Reply := GetReply; decode_args := Unmarshall; zero_reply := GetReply0;
  Func kv args reply := Ret (kv, KVServer.Get kv args reply); encode_reply := Marshall |}.

Definition Put_method : Method KVServer := {|
  PkgPath := ""; NumIn := 3; In2_is_Ptr := true; NumOut := 0;
  Args := PutArgs; Reply := PutReply; decode_args := Unmarshall; zero_reply := PutReply0;
  Func kv args reply := Ret (KVServer.Put kv args reply); encode_reply := Marshall |}.

Definition kv_service : Service KVServer :=
  MakeService "KVServer" [("Get", Get_method); ("Put", Put_method)]%string.

(** [StartKVServer] returns the service; the tester registers it. *)
Definition StartKVServer : Server KVServer := AddService kv_service MakeServer.

(** Every server object of the heap offers this service and nothing replaces dispatch. *)
Definition serves_kv (heap : gmap nat (Server KVServer)) : Prop :=
  forall p rs, heap !! p = Some rs -> services rs = services StartKVServer /\ dispatchf rs = None.

Lemma Put_dispatch rs clnt a kv :
  services rs = services StartKVServer -> dispatchf rs = None ->
  exists rs', server_dispatch rs (mkReq clnt "KVServer.Put" (Marshall a)) kv
    = Ret (rs', (KVServer.Put kv a PutReply0).1,
           mkReply true (Marshall (KVServer.Put kv a PutReply0).2))
    /\ services rs' = services rs /\ dispatchf rs' = dispatchf rs.
Proof.
  intros Hs Hd. eexists. unfold server_dispatch. simpl. rewrite Hd, Hs.
  simpl. rewrite lookup_insert_eq. unfold service_dispatch.
  change (methods kv_service !! "Put"%string) with (Some Put_method). simpl.
  rewrite codec_round_trip. destruct (KVServer.Put kv a PutReply0). done.
Qed.

Lemma Get_dispatch rs clnt a kv :
  services rs = services StartKVServer -> dispatchf rs = None ->
  exists rs', server_dispatch rs (mkReq clnt "KVServer.Get" (Marshall a)) kv
    = Ret (rs', kv, mkReply true (Marshall (KVServer.Get kv a GetReply0)))
    /\ services rs' = services rs /\ dispatchf rs' = dispatchf rs.
Proof.
  intros Hs Hd. eexists. unfold server_dispatch. simpl. rewrite Hd, Hs.
  simpl. rewrite lookup_insert_eq. unfold service_dispatch.
  change (methods kv_service !! "Get"%string) with (Some Get_method). simpl.
  rewrite codec_round_trip. done.
Qed.

(** *** What happens around a request *)

(** [f] lets the server handle the requests [os]; the server objects with addresses [D] stay. *)
Definition acts_as (D : gset nat) (os : list op)
    (f : gmap nat (Server KVServer) -> KVServer -> go (gmap nat (Server KVServer) * KVServer)) : Prop :=
  forall heap kv, serves_kv heap -> dom heap = D ->
    exists heap', f heap kv = Ret (heap', run kv os) /\ serves_kv heap' /\ dom heap' = D.

(** The requests that others make during a wait. *)
Inductive does_ops (D : gset nat) : list (wake KVServer) -> list op -> Prop :=
  | ops_nil : does_ops D [] []
  | ops_handler ws os : does_ops D ws os -> does_ops D (Handler :: ws) os
  | ops_replied ws os : does_ops D ws os -> does_ops D (Replied :: ws) os
  | ops_timer rn ws os : does_ops D ws os -> does_ops D (Timer rn :: ws) os
  | ops_others f o ws os : acts_as D o f -> does_ops D ws os -> does_ops D (Others f :: ws) (o ++ os).

(** Every server the network knows is an object of the heap. *)
Definition registered (D : gset nat) (rn : Network) : Prop :=
  forall sn p, lookup_server sn rn = Some p -> p ∈ D.

(** *** The clerk's loops over the network *)

(** One call: the random numbers, the network at its beginning, what happens during it, and
    the network at its end. *)
Record net_attempt := mkNA {
  na_dice : dice;
  na_net : Network;
  na_wakes : list (wake KVServer);
  na_later : Network -> Network;
}.

(** [Clerk.put] through the end [e]; [None] while it retries or waits. *)
Fixpoint net_put (e : ClientEnd) (sched : list net_attempt) (args : PutArgs) (retry : list bool)
    (heap : gmap nat (Server KVServer)) (kv : KVServer)
    : go (gmap nat (Server KVServer) * KVServer * option Err) :=
  match sched with
  | [] => Ret (heap, kv, None)
  | na :: rest =>
      match Labrpc.Call (na_dice na) e "KVServer.Put" (Marshall args) (na_net na) (na_wakes na) (na_later na) heap kv with
      | Crash c => Crash c
      | Ret (heap', kv', _, None, _) => Ret (heap', kv', None)
      | Ret (heap', kv', _, Some None, _) => net_put e rest args [true] heap' kv'
      | Ret (heap', kv', _, Some (Some b), _) =>
          match Unmarshall b with
          | None => Crash Fatal
          | Some reply =>
              if (match retry with [] => false | x :: _ => x end) && bool_decide (put_Err reply = ErrVersion)
              then Ret (heap', kv', Some ErrMaybe) else Ret (heap', kv', Some (put_Err reply))
          end
      end
  end.

(** [Clerk.Get]. *)
Fixpoint net_get (e : ClientEnd) (sched : list net_attempt) (key : string)
    (heap : gmap nat (Server KVServer)) (kv : KVServer)
    : go (gmap nat (Server KVServer) * KVServer * option (string * Tversion * Err)) :=
  match sched with
  | [] => Ret (heap, kv, None)
  | na :: rest =>
      match Labrpc.Call (na_dice na) e "KVServer.Get" (Marshall (mkGetArgs key)) (na_net na) (na_wakes na) (na_later na) heap kv with
      | Crash c => Crash c
      | Ret (heap', kv', _, None, _) => Ret (heap', kv', None)
      | Ret (heap', kv', _, Some None, _) => net_get e rest key heap' kv'
      | Ret (heap', kv', _, Some (Some b), _) =>
          match Unmarshall b with
          | None => Crash Fatal
          | Some reply => Ret (heap', kv', Some (get_Value reply, get_Version reply, get_Err reply))
          end
      end
  end.

(** ** One call *)

(** [r] is what one attempt of the clerk can be, for some fate of the request: others' requests [o]
    precede it, [o'] follow it.  A request whose handler has yet to run counts as lost; when
    the handler runs, it acts as one more request [hop] of somebody. *)
Definition is_attempt {R} `{Codec R} (hop : op) (handler : KVServer -> KVServer * R) (D : gset nat)
    (os : list op) (kv : KVServer)
    (r : go (gmap nat (Server KVServer) * KVServer * Network * option (option bytes) * handler_fate)) : Prop :=
  match r with
  | Ret (heap', kv', _, rep, hf) =>
      serves_kv heap' /\ dom heap' = D /\ exists o o' how kv1,
        KVClerk.Call handler (mkAttempt o how) kv
        = (kv1, match rep with Some (Some b) => Unmarshall b | _ => None end)
        /\ kv' = run kv1 o' /\ o ++ o' `prefix_of` os
        /\ (forall b, rep = Some (Some b) -> is_Some (Unmarshall b))
        /\ (forall req p, hf = StillToRun req p -> how = ReqLost /\ acts_as D [hop] (run_late req p))
  | Crash _ => False
  end.

Section call.
  Context {R : Type} `{Codec R} (handler : KVServer -> KVServer * R) (hop : op).
  Context (svcMeth : string) (args : bytes).
  Context (Hop : forall kv, (exec kv hop).1 = (handler kv).1).
  Context (Hdispatch : forall rs clnt kv,
    services rs = services StartKVServer -> dispatchf rs = None ->
    exists rs', server_dispatch rs (mkReq clnt svcMeth args) kv
      = Ret (rs', (handler kv).1, mkReply true (Marshall (handler kv).2))
      /\ services rs' = services rs /\ dispatchf rs' = dispatchf rs).

(** The handler goroutine, whenever it runs. *)
Lemma run_handler_kv clnt p heap kv :
  serves_kv heap -> p ∈ dom heap ->
  exists heap', run_handler (mkReq clnt svcMeth args) p heap kv
    = Ret (heap', (handler kv).1, mkReply true (Marshall (handler kv).2))
    /\ serves_kv heap' /\ dom heap' = dom heap.
Proof.
  intros Hk [rs Eh]%elem_of_dom. destruct (Hk p rs Eh) as [Hs Hd].
  destruct (Hdispatch rs clnt kv Hs Hd) as (rs'&E&Hs'&Hd').
  exists (<[p := rs']> heap). unfold run_handler. rewrite Eh, E. split; [done|]. split.
  - intros p' rs'' Hp. destruct (decide (p' = p)) as [->|Hne].
    + rewrite lookup_insert_eq in Hp. simplify_eq. split; congruence.
    + rewrite lookup_insert_ne in Hp by done. by eapply Hk.
  - rewrite dom_insert_L. apply elem_of_dom_2 in Eh. set_solver.
Qed.

Lemma late_acts D clnt p : p ∈ D -> acts_as D [hop] (run_late (mkReq clnt svcMeth args) p).
Proof.
  intros Hp heap kv Hk <-. destruct (run_handler_kv clnt p heap kv Hk Hp) as (heap'&E&?&?).
  exists heap'. unfold run_late. rewrite E. simpl. by rewrite Hop.
Qed.

(** The wait, once the handler has run. *)
Lemma wait_ran D req sn p ws os : does_ops D ws os -> forall heap kv x, serves_kv heap -> dom heap = D ->
  exists heap' o ok, wait_loop req sn p ws heap kv (Some x) = Ret (heap', run kv o, Some x, ok)
    /\ serves_kv heap' /\ dom heap' = D /\ o `prefix_of` os.
Proof.
  induction 1 as [|ws os _ IH|ws os _ IH|rn ws os _ IH|f o ws os Hf _ IH]; intros heap kv x Hk HD; simpl.
  - by exists heap, [], None.
  - by apply IH.
  - exists heap, [], (Some true). split_and!; [done..|]. apply prefix_nil.
  - destruct (isServerDead _ _ _ rn); [|by apply IH]. exists heap, [], (Some false). split_and!; [done..|]. apply prefix_nil.
  - destruct (Hf heap kv Hk HD) as (h1&->&Hk1&HD1). simpl.
    destruct (IH h1 (run kv o) x Hk1 HD1) as (heap'&o'&ok&->&?&?&?). exists heap', (o ++ o'), ok.
    rewrite run_app. split_and!; [done..|]. by apply prefix_app.
Qed.

(** The whole wait. *)
Lemma wait_fresh D clnt sn p ws os : p ∈ D -> does_ops D ws os -> forall heap kv, serves_kv heap -> dom heap = D ->
  exists heap' kv' ran ok, wait_loop (mkReq clnt svcMeth args) sn p ws heap kv None = Ret (heap', kv', ran, ok)
    /\ serves_kv heap' /\ dom heap' = D /\ exists o o', o ++ o' `prefix_of` os /\
       match ran with
       | None => kv' = run (run kv o) o' /\ ok <> Some true
       | Some x => kv' = run (handler (run kv o)).1 o' /\ x = mkReply true (Marshall (handler (run kv o)).2)
       end.
Proof.
  intros Hp. induction 1 as [|ws os Hws IH|ws os _ IH|rn ws os _ IH|f o ws os Hf _ IH]; intros heap kv Hk HD; simpl.
  - exists heap, kv, None, None. split_and!; [done..|]. by exists [], [].
  - destruct (run_handler_kv clnt p heap kv Hk) as (h1&->&Hk1&HD1); [by rewrite HD|]. simpl.
    destruct (wait_ran D (mkReq clnt svcMeth args) sn p ws os Hws h1 (handler kv).1
                (mkReply true (Marshall (handler kv).2)) Hk1) as (heap'&o'&ok&->&?&?&?); [congruence|].
    eexists _, _, _, _. split_and!; [done..|]. by exists [], o'.
  - by apply IH.
  - destruct (isServerDead _ _ _ rn); [|by apply IH]. exists heap, kv, None, (Some false).
    split_and!; [done..|]. exists [], []. split; [apply prefix_nil|done].
  - destruct (Hf heap kv Hk HD) as (h1&->&Hk1&HD1). simpl.
    destruct (IH h1 (run kv o) Hk1 HD1) as (heap'&kv'&ran&ok&->&?&?&o1&o2&Hpre&Hran).
    exists heap', kv', ran, ok. split_and!; [done..|]. exists (o ++ o1), o2.
    rewrite <-app_assoc, run_app. split; [by apply prefix_app|done].
Qed.

Lemma net_call_fate D d e rn0 ws rn1 heap kv os :
  callf e = None -> serves_kv heap -> dom heap = D -> registered D rn0 -> does_ops D ws os ->
  is_attempt hop handler D os kv (Labrpc.Call d e svcMeth args rn0 ws rn1 heap kv).
Proof.
  intros He Hk HD Hreg Hws. unfold Labrpc.Call, is_attempt. rewrite He.
  assert (forall hf, (forall req p, hf <> StillToRun req p) ->
    serves_kv heap /\ dom heap = D /\ exists o o' how kv1,
      KVClerk.Call handler (mkAttempt o how) kv = (kv1, None) /\ kv = run kv1 o' /\ o ++ o' `prefix_of` os
      /\ (forall b, Some (@None bytes) = Some (Some b) -> is_Some (Unmarshall b : option R))
      /\ (forall req p, hf = StillToRun req p -> how = ReqLost /\ acts_as D [hop] (run_late req p))) as Hlost.
  { intros hf Hhf. split_and!; [done..|]. exists [], [], ReqLost, kv. split_and!; [done..|apply prefix_nil|done|].
    intros req p E. by apply Hhf in E. }
  destruct (done rn0); [by apply Hlost|].
  set (req := mkReq (endname e) svcMeth args). set (rn := take_request req rn0).
  unfold processReq. destruct (processReq_start d req rn) as [| |sn p rel longre] eqn:Es.
  1,2: simpl; by apply Hlost.
  apply processReq_start_Execute in Es as (_&_&Hl&_). assert (p ∈ D) as Hp by (by apply (Hreg sn)).
  destruct (wait_fresh D (endname e) sn p ws os Hp Hws heap kv Hk HD)
    as (heap'&kv'&ran&ok&E&Hk'&HD'&o&o'&Hpre&Hran). fold req in E. rewrite E. simpl. split_and!; [done..|].
  destruct ran as [x|]; simpl.
  - destruct Hran as [-> ->]. destruct ok as [ok|]; simpl.
    + destruct (processReq_finish_reply d req sn p rel longre ok
                (mkReply true (Marshall (handler (run kv o)).2)) (rn1 rn)) as [->|(->&_&_)]; simpl.
      * by exists o, o', ReplyLost, (handler (run kv o)).1.
      * exists o, o', Delivered, (handler (run kv o)).1. unfold KVClerk.Call. simpl. rewrite codec_round_trip.
        split_and!; [done..| |done]. intros b [= <-]. rewrite codec_round_trip. by eexists.
    + by exists o, o', ReplyLost, (handler (run kv o)).1.
  - destruct Hran as [-> Hok].
    exists o, o', ReqLost, (run kv o).
    assert (forall b, (fun o0 => if rep_ok (out_reply o0) then Some (rep_reply (out_reply o0)) else None) <$>
      ((fun ok => processReq_finish d req sn p rel longre ok no_reply (rn1 rn)) <$> ok) <> Some (Some b)) as Hno.
    { intros b. destruct ok as [[]|]; simpl; [done|done|done]. }
    split_and!; [|done|done|by intros b E'%Hno|].
    + unfold KVClerk.Call. simpl. f_equal. destruct (_ <$> _) as [[b|]|]; [by destruct (Hno b)|done..].
    + intros req' p' [= <- <-]. split; [done|]. by apply late_acts.
Qed.

End call.

Lemma net_Put_fate D d e a rn0 ws rn1 heap kv os :
  callf e = None -> serves_kv heap -> dom heap = D -> registered D rn0 -> does_ops D ws os ->
  is_attempt (OpPut a) (fun s => KVServer.Put s a PutReply0) D os kv
    (Labrpc.Call d e "KVServer.Put" (Marshall a) rn0 ws rn1 heap kv).
Proof.
  apply (net_call_fate (fun s => KVServer.Put s a PutReply0)); [|intros; by apply Put_dispatch].
  intros s. simpl. by destruct (KVServer.Put s a PutReply0).
Qed.

Lemma net_Get_fate D d e b rn0 ws rn1 heap kv os :
  callf e = None -> serves_kv heap -> dom heap = D -> registered D rn0 -> does_ops D ws os ->
  is_attempt (OpGet b) (fun s => (s, KVServer.Get s b GetReply0)) D os kv
    (Labrpc.Call d e "KVServer.Get" (Marshall b) rn0 ws rn1 heap kv).
Proof.
  by apply (net_call_fate (fun s => (s, KVServer.Get s b GetReply0))); [|intros; apply Get_dispatch].
Qed.

(** ** The loops *)

(** Others' requests before an attempt join those of its schedule. *)
Definition precede (o : list op) (sched : list attempt) : list attempt :=
  match sched with
  | [] => []
  | at_ :: rest => mkAttempt (o ++ before at_) (how at_) :: rest
  end.

Lemma Call_precede {R} (h : KVServer -> KVServer * R) o at_ kv :
  KVClerk.Call h (mkAttempt (o ++ before at_) (how at_)) kv = KVClerk.Call h at_ (run kv o).
Proof. unfold KVClerk.Call. simpl. by rewrite run_app. Qed.

Lemma put_precede o sched k v n retry kv :
  sched <> [] -> put (precede o sched) k v n retry kv = put sched k v n retry (run kv o).
Proof. destruct sched as [|at_ rest]; [done|]. intros _. simpl. by rewrite Call_precede. Qed.

Lemma Get_precede o sched k kv :
  sched <> [] -> KVClerk.Get (precede o sched) k kv = KVClerk.Get sched k (run kv o).
Proof. destruct sched as [|at_ rest]; [done|]. intros _. simpl. by rewrite Call_precede. Qed.

Lemma env_precede o sched : sched <> [] -> env (precede o sched) = o ++ env sched.
Proof. destruct sched as [|[b h] rest]; [done|]. intros _. unfold env. simpl. by rewrite app_assoc. Qed.

(** What a schedule of network calls is made of. *)
Definition calls_ok (D : gset nat) (sched : list net_attempt) (oss : list (list op)) : Prop :=
  Forall2 (fun na os => registered D (na_net na) /\ does_ops D (na_wakes na) os) sched oss.

(** [r], the end of a loop of [n] calls amid the requests [oss], is the end of the clerk's
    loop on a schedule: the requests around the clerk's attempts are those of [oss], in
    their order, and [tail] comes after the loop. *)
Definition simulates {A} (D : gset nat) (oss : list (list op)) (n : nat)
    (clerk : list attempt -> KVServer * option A)
    (r : go (gmap nat (Server KVServer) * KVServer * option A)) : Prop :=
  match r with
  | Ret (heap', kv', res) =>
      serves_kv heap' /\ dom heap' = D /\ exists csched tail kv1,
        clerk csched = (kv1, res) /\ kv' = run kv1 tail
        /\ env csched ++ tail `sublist_of` concat oss /\ (length csched <= n)%nat
  | Crash _ => False
  end.

Lemma lost_not_delivered {R} (h : KVServer -> KVServer * R) at_ kv kv' :
  KVClerk.Call h at_ kv = (kv', None) -> how at_ <> Delivered.
Proof. intros [[-> _]|[-> _]]%Call_lost; done. Qed.

(** The requests of one call are among those of the loop. *)
Lemma call_sublist (o o' os : list op) oss (rest : list op) :
  o ++ o' `prefix_of` os -> rest `sublist_of` concat oss -> o ++ o' ++ rest `sublist_of` concat (os :: oss).
Proof.
  intros [l ->] Hr. simpl. rewrite (app_assoc o o'). apply sublist_app; [|done]. by apply sublist_inserts_r.
Qed.

(** A loop that ends with its first call. *)
Lemma simulates_one {A} D oss n os o o' how heap' kv1 (clerk : list attempt -> KVServer * option A) res :
  serves_kv heap' -> dom heap' = D -> clerk [mkAttempt o how] = (kv1, res) -> o ++ o' `prefix_of` os ->
  simulates D (os :: oss) (S n) clerk (Ret (heap', run kv1 o', res)).
Proof.
  intros Hk HD Ec Hpre. split_and!; [done..|]. exists [mkAttempt o how], o', kv1.
  split_and!; [done..| |simpl; lia]. replace (env [mkAttempt o how]) with o.
  - rewrite <-(app_nil_r o'). apply call_sublist; [done|apply sublist_nil_l].
  - unfold env. simpl. destruct how; simpl; by rewrite app_nil_r.
Qed.

(** A loop whose first call is lost. *)
Lemma simulates_lost {A} D oss n os o o' how kv1 (clerk clerk' : list attempt -> KVServer * option A) r :
  how <> Delivered -> o ++ o' `prefix_of` os ->
  clerk [mkAttempt o how] = (kv1, None) -> clerk' [] = (run kv1 o', None) ->
  (forall cs, cs <> [] -> clerk (mkAttempt o how :: precede o' cs) = clerk' cs) ->
  simulates D oss n clerk' r -> simulates D (os :: oss) (S n) clerk r.
Proof.
  intros Hnd Hpre E1 E0 Ecs. destruct r as [[[heap' kv'] res]|]; [|done].
  intros (?&?&cs&tail&kv2&Ec&->&Hsub&Hlen). split_and!; [done..|].
  destruct (decide (cs = [])) as [->|Hne].
  - rewrite E0 in Ec. injection Ec as <- <-. exists [mkAttempt o how], (o' ++ tail), kv1.
    rewrite run_app, env_lost by done. split_and!; [done..| |simpl; lia].
    unfold env in *. simpl in *. rewrite app_nil_r. by apply (call_sublist o o' os oss).
  - exists (mkAttempt o how :: precede o' cs), tail, kv2.
    rewrite Ecs, env_lost, env_precede by done. split_and!; [done..| |].
    + simpl before. rewrite <-!app_assoc. by apply (call_sublist o o' os oss).
    + destruct cs; [done|]. simpl in *. lia.
Qed.

Lemma net_put_sim D e a sched oss : callf e = None -> calls_ok D sched oss -> forall retry heap kv,
  serves_kv heap -> dom heap = D ->
  simulates D oss (length sched) (fun cs => put cs (put_Key a) (put_Value a) (put_Version a) retry kv)
    (net_put e sched a retry heap kv).
Proof.
  intros He. induction 1 as [|na os sched oss [Hreg Hws] _ IH]; intros retry heap kv Hk HD; simpl.
  { split_and!; [done..|]. by exists [], [], kv. }
  pose proof (net_Put_fate D (na_dice na) e a (na_net na) (na_wakes na) (na_later na) heap kv os He Hk HD Hreg Hws) as Hat.
  unfold is_attempt in Hat.
  destruct (Labrpc.Call _ _ _ _ _ _ _ heap kv) as [[[[[heap' kv'] rn'] rep] hf]|]; [|done].
  destruct Hat as (Hk'&HD'&o&o'&how&kv1&Ec&->&Hpre&Hsome&_).
  assert (mkPutArgs (put_Key a) (put_Value a) (put_Version a) = a) as Ea by (by destruct a).
  destruct rep as [[b|]|].
  - destruct (Hsome b eq_refl) as [reply Eb]. rewrite Eb in *.
    destruct (_ && _) eqn:Er; eapply simulates_one; try done; simpl; by rewrite Ea, Ec, Er.
  - eapply simulates_lost; [by eapply lost_not_delivered|done| | |intros cs Hne|by apply IH]; simpl.
    + by rewrite Ea, Ec.
    + done.
    + by rewrite Ea, Ec, put_precede.
  - eapply simulates_one; try done. simpl. by rewrite Ea, Ec.
Qed.

Lemma net_get_sim D e key sched oss : callf e = None -> calls_ok D sched oss -> forall heap kv,
  serves_kv heap -> dom heap = D ->
  simulates D oss (length sched) (fun cs => KVClerk.Get cs key kv) (net_get e sched key heap kv).
Proof.
  intros He. induction 1 as [|na os sched oss [Hreg Hws] _ IH]; intros heap kv Hk HD; simpl.
  { split_and!; [done..|]. by exists [], [], kv. }
  pose proof (net_Get_fate D (na_dice na) e (mkGetArgs key) (na_net na) (na_wakes na) (na_later na) heap kv os He Hk HD Hreg Hws) as Hat.
  unfold is_attempt in Hat.
  destruct (Labrpc.Call _ _ _ _ _ _ _ heap kv) as [[[[[heap' kv'] rn'] rep] hf]|]; [|done].
  destruct Hat as (Hk'&HD'&o&o'&how&kv1&Ec&->&Hpre&Hsome&_). destruct rep as [[b|]|].
  - destruct (Hsome b eq_refl) as [reply Eb]. rewrite Eb in *. eapply simulates_one; try done. simpl. by rewrite Ec.
  - eapply simulates_lost; [by eapply lost_not_delivered|done| | |intros cs Hne|by apply IH]; simpl.
    + by rewrite Ec.
    + done.
    + by rewrite Ec, Get_precede.
  - eapply simulates_one; try done. simpl. by rewrite Ec.
Qed.

(** ** Properties *)

(** C9: the clerk's loops over the simulated network are the clerk's loops on a schedule of
    fates.  One call through an end of the network, whatever the network does (losses,
    deletions and replacements of servers, delays), is an attempt that is lost, executed
    without an answer, or executed and answered with its own reply; a handler that has yet
    to run when the call returns belongs to a lost attempt, and when it runs later it acts
    as one more request of that kind.  And [Put] and [Get] retried over the network end as
    [KVClerk.Put] and [KVClerk.Get] do on a schedule in which the requests between the
    attempts are those that others (late handlers among them) made in the meantime.  All
    server objects serve one [KVServer]. *)
Theorem network_implements_attempts D e a key sched oss heap kv :
  callf e = None -> serves_kv heap -> dom heap = D -> calls_ok D sched oss ->
  (forall d rn0 ws rn1 os, registered D rn0 -> does_ops D ws os ->
     is_attempt (OpPut a) (fun s => KVServer.Put s a PutReply0) D os kv
       (Labrpc.Call d e "KVServer.Put" (Marshall a) rn0 ws rn1 heap kv)
     /\ is_attempt (OpGet (mkGetArgs key)) (fun s => (s, KVServer.Get s (mkGetArgs key) GetReply0)) D os kv
          (Labrpc.Call d e "KVServer.Get" (Marshall (mkGetArgs key)) rn0 ws rn1 heap kv))
  /\ simulates D oss (length sched) (fun cs => Put cs (put_Key a) (put_Value a) (put_Version a) kv)
       (net_put e sched a [] heap kv)
  /\ simulates D oss (length sched) (fun cs => Get cs key kv) (net_get e sched key heap kv).
Proof.
  intros He Hk HD Hs. split; [|split].
  - intros d rn0 ws rn1 os Hreg Hws. split; [by apply net_Put_fate|by apply net_Get_fate].
  - by apply (net_put_sim D e a sched oss He Hs []).
  - by apply net_get_sim.
Qed.

End kvnet.

(** *** A concrete codec and call *)

#[local] Instance GetArgs_countable : Countable GetArgs.
Proof. refine (inj_countable' get_Key mkGetArgs _). by intros []. Defined.

#[local] Instance GetArgs_codec : Codec GetArgs := bits_codec.

#[local] Instance GetReply_eq_dec : EqDecision GetReply.
Proof. solve_decision. Defined.

#[local] Instance GetReply_countable : Countable GetReply.
Proof. refine (inj_countable' (fun r => (get_Value r, get_Version r, get_Err r)) (fun '(v, n, e) => mkGetReply v n e) _). by intros []. Defined.

#[local] Instance GetReply_codec : Codec GetReply := bits_codec.

#[local] Instance PutArgs_countable : Countable PutArgs.
Proof. refine (inj_countable' (fun r => (put_Key r, put_Value r, put_Version r)) (fun '(k, v, n) => mkPutArgs k v n) _). by intros []. Defined.

#[local] Instance PutArgs_codec : Codec PutArgs := bits_codec.

#[local] Instance PutReply_eq_dec : EqDecision PutReply.
Proof. solve_decision. Defined.

#[local] Instance PutReply_countable : Countable PutReply.
Proof. refine (inj_countable' put_Err mkPutReply _). by intros []. Defined.

#[local] Instance PutReply_codec : Codec PutReply := bits_codec.

Definition kv_heap : gmap nat (Server KVServer) := {[ 0%nat := StartKVServer ]}.

Lemma kv_heap_serves : serves_kv kv_heap.
Proof. intros p rs H. unfold kv_heap in H. apply lookup_singleton_Some in H as [<- <-]. done. Qed.

(** A put that is executed and answered. *)
Example kv_put_delivered :
  match Labrpc.Call demo_dice (mkEnd "e" None) "KVServer.Put" (Marshall (mkPutArgs "k" "v" 0))
          demo_net [Handler; Replied] (fun rn => rn) kv_heap MakeKVServer with
  | Ret (_, kv', _, Some (Some rep), Ran) =>
      store kv' = {[ "k"%string := mkVV "v" 1 ]} /\ Unmarshall rep = Some (mkPutReply OK)
  | _ => False
  end.
Proof. vm_compute. split; reflexivity. Qed.

(** The first call is cut off before its handler runs; the handler runs during the second,
    which is then refused: the clerk answers ErrMaybe. *)
Definition late_sched : list net_attempt :=
  [mkNA demo_dice demo_net [Timer (Enable "e" false demo_net)] (Enable "e" false);
   mkNA demo_dice demo_net [Others (run_late (mkReq "e" "KVServer.Put" (Marshall (mkPutArgs "k" "v" 0))) 0);
                            Handler; Replied] (fun rn => rn)].

Lemma late_sched_ok :
  calls_ok {[ 0%nat ]} late_sched [[]; [OpPut (mkPutArgs "k" "v" 0)]].
Proof.
  assert (registered {[ 0%nat ]} demo_net) as Hreg.
  { intros sn p H. apply elem_of_singleton. change (match ({[ "s"%string := Some 0%nat ]} : gmap string (option nat)) !! sn with Some p => p | None => None end = Some p) in H.
    destruct (decide (sn = "s"%string)) as [->|Hne]; [by injection H|]. by rewrite lookup_singleton_ne in H. }
  constructor; [|constructor; [|constructor]]; (split; [done|]).
  - apply ops_timer, ops_nil.
  - apply (ops_others _ _ [OpPut (mkPutArgs "k" "v" 0)] _ []); [|apply ops_handler, ops_replied, ops_nil].
    apply (late_acts (fun s => KVServer.Put s (mkPutArgs "k" "v" 0) PutReply0)); [|intros; by apply Put_dispatch|set_solver].
    intros s. simpl. by destruct (KVServer.Put s _ _).
Qed.

Lemma network_implements_attempts_witness :
  match net_put (mkEnd "e" None) late_sched (mkPutArgs "k" "v" 0) [] kv_heap MakeKVServer with
  | Ret (_, kv, res) => store kv = {[ "k"%string := mkVV "v" 1 ]} /\ res = Some ErrMaybe
  | Crash _ => False
  end
  /\ simulates {[ 0%nat ]} [[]; [OpPut (mkPutArgs "k" "v" 0)]] 2 (fun cs => Put cs "k" "v" 0 MakeKVServer)
       (net_put (mkEnd "e" None) late_sched (mkPutArgs "k" "v" 0) [] kv_heap MakeKVServer).
Proof.
  split; [vm_compute; split; reflexivity|].
  exact (proj1 (proj2 (network_implements_attempts {[ 0%nat ]} (mkEnd "e" None) (mkPutArgs "k" "v" 0) "k" late_sched
    [[]; [OpPut (mkPutArgs "k" "v" 0)]] kv_heap MakeKVServer eq_refl kv_heap_serves (dom_singleton_L _ _) late_sched_ok))).
Defined.
