(* ===== verification/RaftNet.v ===== *)
(** * Raft over the simulated network

    Composes [RaftCluster.v] with [Labrpc.v]: [sendRequestVote] and [sendAppendEntries] of
    [src/src/raft1/raft.go] call the client ends of [rf.peers]; the network finds the server object behind
    the end, starts a goroutine for its handler and waits for it.  Unlike in [RaftCluster], where a
    request meets its fate in one step, the parts of a call are steps of their own: other goroutines
    run between them, a handler may run after its caller has given up and asked again, and the tester
    may change the network at any time. *)

From S2P Require Import Prelude Labrpc Raft RaftCluster.
Local Open Scope Z_scope.

(** ** The service *)

(** What the handlers can see: the clock, the servers, and (a ghost) the votes cast. *)
Record rapp := mkApp { a_now : Z; a_servers : list Raft; a_votes : list vote }.

Section raftnet.
  Context `{Codec RequestVoteArgs} `{Codec RequestVoteReply} `{Codec AppendEntriesArgs} `{Codec AppendEntriesReply}.
  Context (ename : nat -> nat -> string).  (* the name of the end [peers[p]] of server [s] *)
  Context (n : nat).                       (* the number of servers *)

Definition RequestVote_method (i : nat) : Method rapp := {|
  PkgPath := ""; NumIn := 3; In2_is_Ptr := true; NumOut := 0;
  Args := RequestVoteArgs; Reply := RequestVoteReply; decode_args := Unmarshall; zero_reply := RVReply0;
  Func app args reply :=
    rf ← index (a_servers app) i;
    let '(rf', reply) := RequestVote args reply (a_now app) rf in
    Ret (mkApp (a_now app) (<[i := rf']> (a_servers app))
           (a_votes app ++ if rvr_VoteGranted reply then [(i, rv_Term args, rv_CandidateId args)] else []), reply);
  encode_reply := Marshall |}.

Definition AppendEntries_method (i : nat) : Method rapp := {|
  PkgPath := ""; NumIn := 3; In2_is_Ptr := true; NumOut := 0;
  Args := AppendEntriesArgs; Reply := AppendEntriesReply; decode_args := Unmarshall; zero_reply := AEReply0;
  Func app args reply :=
    rf ← index (a_servers app) i;
    '(rf', reply) ← AppendEntries args reply (a_now app) rf;
    Ret (mkApp (a_now app) (<[i := rf']> (a_servers app)) (a_votes app), reply);
  encode_reply := Marshall |}.

(** An exported method that is no handler. *)
Definition other_method (ins outs : Z) : Method rapp := {|
  PkgPath := ""; NumIn := ins; In2_is_Ptr := false; NumOut := outs;
  Args := unit; Reply := unit; decode_args := fun _ => Some (); zero_reply := ();
  Func app _ _ := Ret (app, ()); encode_reply _ := ""%string |}.

(** The exported methods of [*Raft]. *)
Definition raft_service (i : nat) : Service rapp :=
  MakeService "Raft"
    [("AppendEntries", AppendEntries_method i); ("GetState", other_method 1 2); ("PersistBytes", other_method 1 1);
     ("RequestVote", RequestVote_method i); ("Snapshot", other_method 3 0); ("Start", other_method 2 3)]%string.

Definition raft_server (i : nat) : Server rapp := AddService (raft_service i) MakeServer.

(** ** Calls in flight *)

(** Who makes a call. *)
Inductive caller :=
  | CVote (s ctx p : nat) (args : RequestVoteArgs)     (* requestVoteFromServer *)
  | CBeat (s p : nat) (args : AppendEntriesArgs).      (* sendHeartbeat *)

(** What the calls in [sendRequestVote] and [sendAppendEntries] of server [s] send to [peers[p]]. *)
Definition sendRequestVote (s p : nat) (args : RequestVoteArgs) : reqMsg := mkReq (ename s p) "Raft.RequestVote" (Marshall args).
Definition sendAppendEntries (s p : nat) (args : AppendEntriesArgs) : reqMsg := mkReq (ename s p) "Raft.AppendEntries" (Marshall args).

Definition request (k : caller) : reqMsg :=
  match k with
  | CVote s _ p args => sendRequestVote s p args
  | CBeat s p args => sendAppendEntries s p args
  end.

(** What [processReq] has read about a request it executes. *)
Record flight := mkFlight { f_req : reqMsg; f_name : string; f_server : nat; f_reliable : bool; f_reordering : bool }.

Inductive nproc :=
  | NProc (p : proc)                                        (* a goroutine of a server *)
  | NWait (k : caller) (f : flight) (r : option replyMsg)   (* in Call; whether the handler has replied *)
  | NLate (f : flight).                                     (* a handler that nobody waits for *)

Record nsys := mkN { n_app : rapp; n_heap : gmap nat (Server rapp); n_net : Network; n_procs : list nproc }.

(** The call a goroutine is about to make, unless its context is done. *)
Definition calls (p : proc) (srvs : list Raft) : option caller :=
  match p with
  | PVoteLoop s ctx p args =>
      rf ← srvs !! s; if decide (ctx ∈ cancelled rf) then None else Some (CVote s ctx p args)
  | PBeatCall s p args => Some (CBeat s p args)
  | _ => None
  end.

(** [Call] returns, with the bytes of a reply or false. *)
Definition returns (k : caller) (rep : option bytes) : go (list nproc) :=
  match k, rep with
  | CVote s ctx p args, None => Ret [NProc (PVoteLoop s ctx p args)]
  | CVote s _ _ _, Some b => match Unmarshall b with Some reply => Ret [NProc (PVoteReply s reply)] | None => Crash Fatal end
  | CBeat _ _ _, None => Ret []
  | CBeat s _ _, Some b => match Unmarshall b with Some reply => Ret [NProc (PBeatReply s reply)] | None => Crash Fatal end
  end.

(** [Call], up to the point where the network waits for the handler. *)
Definition send (d : dice) (k : caller) (rn : Network) : go (Network * list nproc) :=
  if done rn then ps ← returns k None; Ret (rn, ps)
  else
    let rn := take_request (request k) rn in
    match processReq_start d (request k) rn with
    | Execute sn q rel longre => Ret (rn, [NWait k (mkFlight (request k) sn q rel longre) None])
    | _ => ps ← returns k None; Ret (rn, ps)
    end.

(** The goroutine of the handler, at time [t]. *)
Definition handle (t : Z) (f : flight) (s : nsys) : go (gmap nat (Server rapp) * rapp * replyMsg) :=
  match n_heap s !! f_server f with
  | None => Crash Panic
  | Some rs =>
      '(rs', app, r) ← server_dispatch rs (f_req f) (mkApp t (a_servers (n_app s)) (a_votes (n_app s)));
      Ret (<[f_server f := rs']> (n_heap s), app, r)
  end.

(** ** Steps *)

Inductive event :=
  | ELocal (ch : choice)    (* a goroutine of a server that makes no call *)
  | ESend (d : dice)
  | EHandle (t : Z)
  | EReply (d : dice)       (* the network sees the handler's reply *)
  | ETimer                  (* it finds the server gone *)
  | ETester (rn : Network). (* the tester changes the network *)

(** All servers of a network are objects that exist. *)
Definition net_ok (rn : Network) : Prop :=
  map_Forall (fun _ q => match q with Some q => bool_decide (q < n)%nat | None => true end = true) (Labrpc.servers rn).

(** The processes [ps] in place of number [i]. *)
Definition replace (i : nat) (ps : list nproc) (s : nsys) : list nproc := take i (n_procs s) ++ ps ++ drop (S i) (n_procs s).

Definition nstep (i : nat) (e : event) (s : nsys) : option (go nsys) :=
  match e, n_procs s !! i with
  | ETester rn, _ => if decide (net_ok rn) then Some (Ret (mkN (n_app s) (n_heap s) rn (n_procs s))) else None
  | ELocal ch, Some (NProc p) =>
      match calls p (a_servers (n_app s)) with
      | Some _ => None
      | None =>
          r ← step_proc p ch (a_servers (n_app s));
          Some ('(srvs, ps, vs) ← r;
                Ret (mkN (mkApp (now ch) srvs (a_votes (n_app s) ++ vs)) (n_heap s) (n_net s) (replace i (NProc <$> ps) s)))
      end
  | ESend d, Some (NProc p) =>
      k ← calls p (a_servers (n_app s));
      Some ('(rn, ps) ← send d k (n_net s); Ret (mkN (n_app s) (n_heap s) rn (replace i ps s)))
  | EHandle t, Some (NWait k f None) =>
      Some ('(heap, app, r) ← handle t f s; Ret (mkN app heap (n_net s) (replace i [NWait k f (Some r)] s)))
  | EHandle t, Some (NLate f) =>
      Some ('(heap, app, _) ← handle t f s; Ret (mkN app heap (n_net s) (replace i [] s)))
  | EReply d, Some (NWait k f (Some r)) =>
      let o := processReq_finish d (f_req f) (f_name f) (f_server f) (f_reliable f) (f_reordering f) true r (n_net s) in
      Some (ps ← returns k (if rep_ok (out_reply o) then Some (rep_reply (out_reply o)) else None);
            Ret (mkN (n_app s) (n_heap s) (out_net o) (replace i ps s)))
  | ETimer, Some (NWait k f r) =>
      if isServerDead (req_endname (f_req f)) (f_name f) (f_server f) (n_net s) then
        Some (ps ← returns k None;
              Ret (mkN (n_app s) (n_heap s) (n_net s)
                     (replace i (ps ++ match r with None => [NLate f] | Some _ => [] end) s)))
      else None
  | _, _ => None
  end.

Definition n_init (now0 : Z) (rn : Network) : nsys :=
  mkN (mkApp now0 (servers (init n now0)) []) (list_to_map ((fun i => (i, raft_server i)) <$> seq 0 n)) rn
    (NProc <$> procs (init n now0)).

Definition nmove (s s' : nsys) : Prop := exists i e, nstep i e s = Some (Ret s').

(** A run along a list of events. *)
Fixpoint nrun (evs : list (nat * event)) (s : nsys) : option (go nsys) :=
  match evs with
  | [] => Some (Ret s)
  | (i, e) :: evs' => match nstep i e s with Some (Ret s') => nrun evs' s' | r => r end
  end.

Lemma nrun_nsteps evs s s' : nrun evs s = Some (Ret s') -> nsteps nmove (length evs) s s'.
Proof.
  revert s. induction evs as [|[i e] evs IH]; intros s; simpl; [intros [= ->]; constructor|].
  destruct (nstep i e s) as [[s1|]|] eqn:E; try done. intros Hr. econstructor; [by exists i, e|by apply IH].
Qed.

(** ** The invariant *)

(** Where a caller is when [Call] has failed. *)
Definition calling (k : caller) : proc :=
  match k with CVote s ctx p args => PVoteLoop s ctx p args | CBeat s p args => PBeatCall s p args end.

(** A reply to [k] is the encoding of a reply whose term is below the bound. *)
Definition reply_ok (b : Z) (k : caller) (r : replyMsg) : Prop :=
  match k with
  | CVote _ _ _ _ => exists y : RequestVoteReply, rep_reply r = Marshall y /\ rvr_Term y <= b
  | CBeat _ _ _ => exists y : AppendEntriesReply, rep_reply r = Marshall y /\ aer_Term y <= b
  end.

Definition flight_ok (k : caller) (f : flight) : Prop := f_req f = request k /\ (f_server f < n)%nat.

Definition nproc_ok (b : Z) (p : nproc) : Prop :=
  match p with
  | NProc p => proc_ok b p
  | NWait k f r => proc_ok b (calling k) /\ flight_ok k f /\ match r with Some r => reply_ok b k r | None => True end
  | NLate f => exists k, proc_ok b (calling k) /\ flight_ok k f
  end.

(** Every object of the heap is the server of its address, with the service of [*Raft]. *)
Definition heap_ok (heap : gmap nat (Server rapp)) : Prop :=
  forall q, (q < n)%nat -> exists rs, heap !! q = Some rs /\ services rs = services (raft_server q) /\ dispatchf rs = None.

Record ninv (b : Z) (s : nsys) : Prop := {
  ni_cluster : cinv b (mkCluster (a_servers (n_app s)) [] (a_votes (n_app s)));
  ni_length : length (a_servers (n_app s)) = n;
  ni_procs : Forall (nproc_ok b) (n_procs s);
  ni_heap : heap_ok (n_heap s);
  ni_net : net_ok (n_net s);
}.

Lemma reply_ok_later b k r : reply_ok b k r -> reply_ok (b + 1) k r.
Proof. destruct k; intros (y&?&?); exists y; (split; [done|lia]). Qed.

Lemma nproc_ok_later b p : nproc_ok b p -> nproc_ok (b + 1) p.
Proof.
  destruct p as [p|k f r|f]; simpl.
  - apply proc_ok_later.
  - intros (?&?&?). split_and!; [by apply proc_ok_later|done|]. destruct r; [by apply reply_ok_later|done].
  - intros (k&?&?). exists k. by split; [apply proc_ok_later|].
Qed.

Lemma cinv_later b srvs h : cinv b (mkCluster srvs [] h) -> cinv (b + 1) (mkCluster srvs [] h).
Proof.
  intros Hc. rewrite <-(app_nil_r h). eapply (cinv_shape b srvs srvs [] [] []); [done| |constructor].
  split; [constructor|by left].
Qed.

Lemma replace_ok b i ps s :
  Forall (nproc_ok b) (n_procs s) -> Forall (nproc_ok (b + 1)) ps -> Forall (nproc_ok (b + 1)) (replace i ps s).
Proof.
  intros Hs Hps. assert (Forall (nproc_ok (b + 1)) (n_procs s)) by eauto using Forall_impl, nproc_ok_later.
  apply Forall_app_2; [by apply Forall_take|]. apply Forall_app_2; [done|by apply Forall_drop].
Qed.

(** A step that leaves the servers and the objects alone. *)
Lemma ninv_same b s rn i ps :
  ninv b s -> net_ok rn -> Forall (nproc_ok (b + 1)) ps ->
  ninv (b + 1) (mkN (n_app s) (n_heap s) rn (replace i ps s)).
Proof. intros [Hc Hl Hp Hh Hn] Hrn Hps. split; [by apply cinv_later|done|by apply replace_ok|done..]. Qed.

Lemma net_ok_lookup rn sn q : net_ok rn -> lookup_server sn rn = Some q -> (q < n)%nat.
Proof.
  intros Hn Hq. unfold lookup_server in Hq. destruct (Labrpc.servers rn !! sn) as [q'|] eqn:E; [|done]. subst q'.
  specialize (Hn _ _ E). simpl in Hn. by apply bool_decide_eq_true in Hn.
Qed.

Lemma net_ok_finish d req sn q rel longre ok r rn :
  net_ok rn -> net_ok (out_net (processReq_finish d req sn q rel longre ok r rn)).
Proof. intros Hn. unfold processReq_finish. by repeat case_match. Qed.

(** *** Calls *)

Lemma calls_calling p srvs k : calls p srvs = Some k -> calling k = p.
Proof.
  destruct p; simpl; try done; [|by intros [= <-]]. destruct (srvs !! s); [|done]. simpl. case_decide; [done|].
  by intros [= <-].
Qed.

(** A call returns to the loop, or with a reply within the bounds. *)
Lemma returns_ok b k r :
  proc_ok b (calling k) -> match r with Some r => reply_ok b k r | None => True end ->
  exists ps, returns k (rep_reply <$> r) = Ret ps /\ Forall (nproc_ok b) ps.
Proof.
  intros Hk Hr. destruct k, r as [r|]; simpl in *.
  - destruct Hr as (y&->&?). rewrite codec_round_trip. eexists. split; [done|]. by apply list.Forall_singleton.
  - eexists. split; [done|]. by apply list.Forall_singleton.
  - destruct Hr as (y&->&?). rewrite codec_round_trip. eexists. split; [done|]. by apply list.Forall_singleton.
  - eexists. split; [done|]. constructor.
Qed.

Lemma send_ok b d k rn :
  proc_ok b (calling k) -> net_ok rn ->
  exists rn' ps, send d k rn = Ret (rn', ps) /\ net_ok rn' /\ Forall (nproc_ok b) ps.
Proof.
  intros Hk Hn. destruct (returns_ok b k None Hk I) as (ps&E&Hps). simpl in E.
  unfold send. destruct (done rn); [rewrite E; by eexists _, _|].
  destruct (processReq_start _ _ _) as [| |sn q rel longre] eqn:Es; [rewrite E; by eexists _, _..|].
  eexists _, _. split; [done|]. split; [done|]. apply list.Forall_singleton. split_and!; [done|split; [done|]|done].
  apply processReq_start_Execute in Es as (_&_&Hq&_). by eapply net_ok_lookup.
Qed.

(** *** Handlers *)

(** The server after a request. *)
Definition counted (rs : Server rapp) : Server rapp := mkServer (services rs) (i64 (srv_count rs + 1)) (dispatchf rs).

Lemma vote_dispatch q rs clnt args app :
  services rs = services (raft_server q) -> dispatchf rs = None ->
  server_dispatch rs (mkReq clnt "Raft.RequestVote" (Marshall args)) app
  = (rf ← index (a_servers app) q;
     let '(rf', reply) := RequestVote args RVReply0 (a_now app) rf in
     Ret (counted rs, mkApp (a_now app) (<[q := rf']> (a_servers app))
            (a_votes app ++ if rvr_VoteGranted reply then [(q, rv_Term args, rv_CandidateId args)] else []),
          mkReply true (Marshall reply))).
Proof.
  intros Hs Hd. unfold server_dispatch. simpl. rewrite Hd, Hs. simpl. rewrite lookup_insert_eq. unfold service_dispatch.
  change (methods (raft_service q) !! "RequestVote"%string) with (Some (RequestVote_method q)). simpl.
  rewrite codec_round_trip. unfold index. destruct (a_servers app !! q) as [rf|]; [|done]. simpl.
  destruct (RequestVote _ _ _ rf). simpl. unfold counted. by rewrite Hs, Hd.
Qed.

Lemma beat_dispatch q rs clnt args app :
  services rs = services (raft_server q) -> dispatchf rs = None ->
  server_dispatch rs (mkReq clnt "Raft.AppendEntries" (Marshall args)) app
  = (rf ← index (a_servers app) q;
     '(rf', reply) ← AppendEntries args AEReply0 (a_now app) rf;
     Ret (counted rs, mkApp (a_now app) (<[q := rf']> (a_servers app)) (a_votes app), mkReply true (Marshall reply))).
Proof.
  intros Hs Hd. unfold server_dispatch. simpl. rewrite Hd, Hs. simpl. rewrite lookup_insert_eq. unfold service_dispatch.
  change (methods (raft_service q) !! "AppendEntries"%string) with (Some (AppendEntries_method q)). simpl.
  rewrite codec_round_trip. unfold index. destruct (a_servers app !! q) as [rf|]; [|done]. simpl.
  destruct (AppendEntries _ _ _ rf) as [[]|]; [|done]. simpl. unfold counted. by rewrite Hs, Hd.
Qed.

Lemma heap_ok_counted heap q rs :
  heap_ok heap -> heap !! q = Some rs -> heap_ok (<[q := counted rs]> heap).
Proof.
  intros Hh Hq q' Hlt. destruct (Hh q' Hlt) as (rs'&E&Hs&Hd). destruct (decide (q' = q)) as [->|Hne].
  - simplify_eq. exists (counted rs). by rewrite lookup_insert_eq.
  - exists rs'. by rewrite lookup_insert_ne.
Qed.

(** A handler finds its service and method, whenever it runs. *)
Lemma handle_ok b t k f s :
  ninv b s -> proc_ok b (calling k) -> flight_ok k f ->
  match handle t f s with
  | Ret (heap, app, r) =>
      cinv (b + 1) (mkCluster (a_servers app) [] (a_votes app)) /\ length (a_servers app) = n /\ heap_ok heap
      /\ reply_ok (b + 1) k r
  | Crash c => c = Panic
  end.
Proof.
  intros [Hc Hl Hp Hh Hn] Hk [Hreq Hq]. unfold handle. destruct (Hh _ Hq) as (rs&E&Hs&Hd). rewrite E, Hreq.
  destruct (lookup_lt_is_Some_2 (a_servers (n_app s)) (f_server f)) as [rf Hrf]; [by rewrite Hl|].
  pose proof Hc as (Hsrv&_). simpl in Hsrv. destruct k as [c ctx p args|c p args]; simpl.
  - unfold sendRequestVote. rewrite (vote_dispatch (f_server f)) by done. unfold index. simpl. rewrite Hrf. simpl.
    destruct (RequestVote args RVReply0 t rf) as [rf' y] eqn:Er. simpl in Hk.
    destruct (RequestVote_shape _ _ _ _ _ _ _ _ Hsrv Hrf Er) as [Hr Hsh]; [lia..|].
    split; [|split; [simpl; by rewrite length_insert|split; [by apply heap_ok_counted|]]].
    + eapply cinv_shape; [done|by apply Hsh|constructor].
    + exists y. split; [done|lia].
  - unfold sendAppendEntries. rewrite (beat_dispatch (f_server f)) by done. unfold index. simpl. rewrite Hrf. simpl.
    destruct (AppendEntries args AEReply0 t rf) as [[rf' y]|x] eqn:Er; simpl.
    + destruct (AppendEntries_shape _ _ _ _ _ _ _ _ Hsrv Hrf Er) as [Hr Hsh].
      split; [|split; [simpl; by rewrite length_insert|split; [by apply heap_ok_counted|]]].
      * rewrite <-(app_nil_r (a_votes _)). eapply cinv_shape; [done|by apply Hsh|constructor].
      * exists y. split; [done|lia].
    + unfold AppendEntries in Er. case_decide; [done|]. simpl in Er.
      destruct (makeFollower (currentTerm rf) rf) as [|x'] eqn:Ef; simplify_eq/=. by apply makeFollower_crash in Ef as [-> _].
Qed.

(** *** Steps *)

(** No goroutine of a server ends the process but by a panic. *)
Lemma step_proc_crash p ch srvs c : step_proc p ch srvs = Some (Crash c) -> c = Panic.
Proof.
  assert (forall t rf x, makeFollower t rf = Crash x -> x = Panic) as Hf by (intros; by edestruct makeFollower_crash).
  unfold step_proc. destruct (srvs !! owner p) as [rf|]; [|done]. destruct p; try done; simpl.
  - unfold makeCandidate, call_cancel. destruct (role rf), (abortHeartbeat rf); simpl; try done.
    by intros [= <-].
  - unfold requestVoteFromServer. case_decide; [done|]. destruct (net ch), (srvs !! p) as [rfp|]; try done;
      by destruct (RequestVote _ _ _ rfp).
  - unfold handleRequestVote. case_decide.
    + destruct (makeFollower _ rf) eqn:E; simpl; [done|]. intros [= <-]. by eapply Hf.
    + rewrite !makeLeader_eq. by repeat case_match.
  - by case_decide.
  - unfold sendHeartbeat, AppendEntries. destruct (net ch), (srvs !! p) as [rfp|]; try done; case_decide; try done; simpl;
      (destruct (makeFollower _ rfp) eqn:E; simpl; [done|]; intros [= <-]; by eapply Hf).
  - unfold handleAppendEntries. case_decide; [|done]. destruct (makeFollower _ rf) eqn:E; simpl; [done|].
    intros [= <-]. by eapply Hf.
Qed.

Definition result_ok (b : Z) (r : go nsys) : Prop :=
  match r with Ret s' => ninv (b + 1) s' | Crash c => c = Panic end.

Lemma ninv_local b s i p ch r :
  ninv b s -> b + 1 < 2 ^ 63 -> n_procs s !! i = Some (NProc p) -> step_proc p ch (a_servers (n_app s)) = Some r ->
  result_ok b ('(srvs, ps, vs) ← r;
               Ret (mkN (mkApp (now ch) srvs (a_votes (n_app s) ++ vs)) (n_heap s) (n_net s) (replace i (NProc <$> ps) s))).
Proof.
  intros [Hc Hl Hp Hh Hn] Hb Hi Hr. destruct r as [[[srvs ps] vs]|c]; simpl; [|by eapply step_proc_crash].
  assert (nproc_ok b (NProc p)) as Hok by (eapply Forall_lookup_1; done).
  pose proof Hc as (Hsrv&_). pose proof (step_proc_shape _ _ _ _ _ _ _ Hsrv Hok Hb Hr) as Hsh. split; simpl.
  - eapply cinv_shape; [done..|constructor].
  - destruct Hsh as [_ [[-> _]|(?&?&?&?&_&->&_)]]; [done|]. by rewrite length_insert.
  - apply replace_ok; [done|]. apply Forall_fmap. apply Hsh.
  - done.
  - done.
Qed.

Lemma ninv_nstep b s i e r : ninv b s -> b + 1 < 2 ^ 63 -> nstep i e s = Some r -> result_ok b r.
Proof.
  intros Hs Hb. pose proof Hs as [Hc Hl Hp Hh Hn].
  destruct e as [ch|d|t|d| |rn]; simpl.
  6: { case_decide; [|done]. intros [= <-]. split; [by apply cinv_later|done| |done..]. eauto using Forall_impl, nproc_ok_later. }
  all: destruct (n_procs s !! i) as [[p|k f r0|f]|] eqn:Ei; try done; pose proof (Forall_lookup_1 _ _ _ _ Hp Ei) as Hok.
  - destruct (calls p _); [done|]. destruct (step_proc p ch _) as [r0|] eqn:E; [|done]. intros [= <-]. by eapply ninv_local.
  - destruct (calls p _) as [k|] eqn:Ek; [|done]. intros [= <-]. apply calls_calling in Ek. subst p.
    destruct (send_ok _ d k _ (proc_ok_later _ _ Hok) Hn) as (rn&ps&->&?&?). by apply ninv_same.
  - destruct r0; [done|]. intros [= <-]. destruct Hok as (Hk&Hf&_). pose proof (handle_ok _ t _ _ _ Hs Hk Hf) as Hr.
    destruct (handle t f s) as [[[heap app] r]|]; [|done]. destruct Hr as (?&?&?&?). split; [done..| |done|done].
    apply replace_ok; [done|]. apply list.Forall_singleton. split_and!; [by apply proc_ok_later|done..].
  - intros [= <-]. destruct Hok as (k&Hk&Hf). pose proof (handle_ok _ t _ _ _ Hs Hk Hf) as Hr.
    destruct (handle t f s) as [[[heap app] r]|]; [|done]. destruct Hr as (?&?&?&?). split; [done..| |done|done].
    by apply replace_ok.
  - destruct r0 as [r0|]; [|done]. intros [= <-]. destruct Hok as (Hk&Hf&Hr).
    set (o := processReq_finish _ _ _ _ _ _ _ _ _).
    destruct (returns_ok _ k (if rep_ok (out_reply o) then Some (out_reply o) else None) (proc_ok_later _ _ Hk)) as (ps&E&Hps).
    { destruct (processReq_finish_reply d (f_req f) (f_name f) (f_server f) (f_reliable f) (f_reordering f) true r0 (n_net s))
        as [Eo|[Eo _]]; fold o in Eo; rewrite Eo; [done|]. destruct (rep_ok r0); [by apply reply_ok_later|done]. }
    replace (if rep_ok (out_reply o) then Some (rep_reply (out_reply o)) else None)
      with (rep_reply <$> (if rep_ok (out_reply o) then Some (out_reply o) else None)) by by destruct (rep_ok _).
    rewrite E. apply ninv_same; [done| |done]. by apply net_ok_finish.
  - destruct (isServerDead _ _ _ _); [|done]. intros [= <-]. destruct Hok as (Hk&Hf&Hr).
    destruct (returns_ok _ k None (proc_ok_later _ _ Hk) I) as (ps&E&Hps). simpl in E. rewrite E. apply ninv_same; [done..|].
    apply Forall_app_2; [done|]. destruct r0; [constructor|]. apply list.Forall_singleton. exists k. by split; [apply proc_ok_later|].
Qed.
Lemma n_init_heap now0 rn : heap_ok (n_heap (n_init now0 rn)).
Proof.
  intros q Hq. exists (raft_server q). split; [|done]. apply elem_of_list_to_map_1'.
  - by intros y (i&[= -> ->]&_)%list_elem_of_fmap.
  - apply list_elem_of_fmap. exists q. split; [done|]. apply elem_of_seq. lia.
Qed.

Lemma ninv_init now0 rn : net_ok rn -> ninv 0 (n_init now0 rn).
Proof.
  intros Hn. destruct (cinv_init n now0) as (Hsrv&Hps&Hrest). split; simpl.
  - split; [done|]. split; [constructor|done].
  - by rewrite length_fmap, length_seq.
  - apply Forall_fmap. done.
  - apply (n_init_heap now0 rn).
  - done.
Qed.

Lemma ninv_nmoves k : forall b s s',
  ninv b s -> b + Z.of_nat k < 2 ^ 63 -> nsteps nmove k s s' -> ninv (b + Z.of_nat k) s'.
Proof.
  induction k as [|k IH]; intros b s s' Hi Hb Hs; inversion Hs as [|? ? s1 ? (i&e&Hm) Hs']; subst; [by rewrite Z.add_0_r|].
  replace (b + Z.of_nat (S k)) with (b + 1 + Z.of_nat k) by lia. apply (IH _ s1); [|lia|done].
  exact (ninv_nstep _ _ _ _ _ Hi ltac:(lia) Hm).
Qed.

(** ** Runs of the cluster on the network *)

(** Every end reaches its server, and messages may be lost. *)
Record wired (sname : nat -> string) (rn : Network) : Prop := {
  w_done : done rn = false;
  w_reliable : reliable rn = false;
  w_enabled : forall c p, (c < n)%nat -> (p < n)%nat -> enabled rn !! ename c p = Some true;
  w_connected : forall c p, (c < n)%nat -> (p < n)%nat -> connections rn !! ename c p = Some (Some (sname p));
  w_server : forall p, (p < n)%nat -> lookup_server (sname p) rn = Some p;
}.

(** The network carries the state of the cluster, with no call in flight. *)
Record carries (sname : nat -> string) (c : cluster) (s : nsys) : Prop := {
  cy_servers : a_servers (n_app s) = servers c;
  cy_votes : a_votes (n_app s) = history c;
  cy_procs : n_procs s = NProc <$> procs c;
  cy_length : length (servers c) = n;
  cy_heap : heap_ok (n_heap s);
  cy_wired : wired sname (n_net s);
}.

(** The random numbers that lose the request, or the reply, or neither. *)
Definition dice_of (f : fate) : dice :=
  mkDice (if decide (f = ReqLost) then 0 else 500) (if decide (f = ReplyLost) then 0 else 500) 700 0 0.

Lemma wired_take sname req rn : wired sname rn -> wired sname (take_request req rn).
Proof. by intros [? ? ? ? ?]. Qed.

Lemma send_lost sname k rn :
  wired sname rn ->
  send (dice_of ReqLost) k rn = (ps ← returns k None; Ret (take_request (request k) rn, ps)).
Proof.
  intros Hw. unfold send. rewrite (w_done _ _ Hw).
  unfold processReq_start, readEndnameInfo. simpl. rewrite (w_reliable _ _ Hw). simpl.
  by repeat case_match; simplify_eq.
Qed.

Definition source (k : caller) : nat := match k with CVote c _ _ _ => c | CBeat c _ _ => c end.
Definition target (k : caller) : nat := match k with CVote _ _ p _ => p | CBeat _ p _ => p end.
Definition between (k : caller) : Prop := (source k < n)%nat /\ (target k < n)%nat.

Lemma send_executed sname f k rn :
  wired sname rn -> between k -> f <> ReqLost ->
  send (dice_of f) k rn
  = Ret (take_request (request k) rn,
         [NWait k (mkFlight (request k) (sname (target k)) (target k) false (longReordering rn)) None]).
Proof.
  intros Hw [Hc Hp] Hf. unfold send. rewrite (w_done _ _ Hw). unfold processReq_start, readEndnameInfo.
  replace (req_endname (request k)) with (ename (source k) (target k)) by by destruct k.
  simpl. rewrite (w_enabled _ _ Hw), (w_connected _ _ Hw) by done. simpl. unfold lookup_server. simpl.
  fold (lookup_server (sname (target k)) rn). rewrite (w_server _ _ Hw) by done. rewrite (w_reliable _ _ Hw).
  unfold dice_of. simpl. by rewrite decide_False.
Qed.

Lemma finish_wired sname f k r rn :
  wired sname rn -> between k -> f <> ReqLost -> rep_ok r = true ->
  exists rn', wired sname rn' /\ forall longre,
    let o := processReq_finish (dice_of f) (request k) (sname (target k)) (target k) false longre true r rn in
    out_net o = rn' /\ (if rep_ok (out_reply o) then Some (rep_reply (out_reply o)) else None)
                       = if decide (f = Delivered) then Some (rep_reply r) else None.
Proof.
  intros Hw [Hc Hp] Hf Hr. exists (if decide (f = Delivered) then add_bytes (Z.of_nat (String.length (rep_reply r))) rn else rn).
  split; [case_decide; [by destruct Hw|done]|]. intros longre.
  assert (isServerDead (req_endname (request k)) (sname (target k)) (target k) rn = false) as Hd.
  { apply isServerDead_false. replace (req_endname (request k)) with (ename (source k) (target k)) by by destruct k.
    rewrite (w_enabled _ _ Hw) by done. split; [done|by apply Hw]. }
  unfold processReq_finish. rewrite Hd. destruct f; [done|by rewrite decide_False|]. simpl.
  rewrite andb_false_r. simpl. by rewrite Hr.
Qed.

Lemma replace_lookup i x s p : n_procs s !! i = Some p -> replace i [x] s !! i = Some x.
Proof.
  intros Hi%lookup_lt_Some. unfold replace. rewrite lookup_app_r by (rewrite length_take; lia).
  rewrite length_take, Nat.min_l by lia. by rewrite Nat.sub_diag.
Qed.

Lemma replace_replace i x ps s app heap rn p :
  n_procs s !! i = Some p -> replace i ps (mkN app heap rn (replace i [x] s)) = replace i ps s.
Proof.
  intros Hi%lookup_lt_Some. unfold replace. simpl. rewrite take_app_le by (rewrite length_take; lia).
  rewrite take_take, Nat.min_id. rewrite drop_app_ge by (rewrite length_take; lia). rewrite length_take, Nat.min_l by lia.
  by replace (S i - i)%nat with 1%nat by lia.
Qed.

(** A whole exchange: the request is sent, the handler runs, and the reply comes back or is lost. *)
Lemma exchange sname s i k f t rs app r ps :
  wired sname (n_net s) -> n_procs s !! i = Some (NProc (calling k)) -> calls (calling k) (a_servers (n_app s)) = Some k ->
  between k -> f <> ReqLost -> n_heap s !! target k = Some rs ->
  server_dispatch rs (request k) (mkApp t (a_servers (n_app s)) (a_votes (n_app s))) = Ret (counted rs, app, r) ->
  rep_ok r = true -> returns k (if decide (f = Delivered) then Some (rep_reply r) else None) = Ret ps ->
  exists rn, wired sname rn /\ rtc nmove s (mkN app (<[target k := counted rs]> (n_heap s)) rn (replace i ps s)).
Proof.
  intros Hw Hi Hk Hp Hf Hrs Hd Hr Hps.
  destruct (finish_wired sname f k r _ (wired_take _ (request k) _ Hw) Hp Hf Hr) as (rn&Hw'&Hfin). exists rn. split; [done|].
  eapply rtc_l; [exists i, (ESend (dice_of f)); simpl; rewrite Hi, Hk; simpl; by rewrite (send_executed sname)|].
  eapply rtc_l.
  { exists i, (EHandle t). simpl. rewrite (replace_lookup _ _ _ _ Hi). unfold handle. simpl. rewrite Hrs, Hd. simpl.
    by rewrite (replace_replace _ _ _ _ _ _ _ _ Hi). }
  eapply rtc_l; [|apply rtc_refl].
  exists i, (EReply (dice_of f)). simpl. rewrite (replace_lookup _ _ _ _ Hi). simpl.
  destruct (Hfin (longReordering (n_net s))) as [-> ->]. rewrite Hps. simpl.
  by rewrite (replace_replace _ _ _ _ _ _ _ _ Hi).
Qed.

Lemma replace_fmap i ps s l :
  n_procs s = NProc <$> l -> replace i (NProc <$> ps) s = NProc <$> (take i l ++ ps ++ drop (S i) l).
Proof. intros E. unfold replace. by rewrite E, !fmap_app, fmap_take, fmap_drop. Qed.

Lemma carries_intro sname c s srvs ps vs i t heap rn :
  carries sname c s -> length srvs = n -> heap_ok heap -> wired sname rn ->
  carries sname (mkCluster srvs (take i (procs c) ++ ps ++ drop (S i) (procs c)) (history c ++ vs))
    (mkN (mkApp t srvs (a_votes (n_app s) ++ vs)) heap rn (replace i (NProc <$> ps) s)).
Proof.
  intros [Hs Hv Hp Hl Hh Hw] Hlen Hheap Hrn. split; simpl; [done|by rewrite Hv|by apply replace_fmap|done..].
Qed.

Lemma step_proc_length p ch srvs srvs' ps vs :
  step_proc p ch srvs = Some (Ret (srvs', ps, vs)) -> length srvs' = length srvs.
Proof.
  assert (forall i (rf : Raft), length (<[i := rf]> srvs) = length srvs) as Hl by (intros; apply length_insert).
  unfold step_proc. destruct (srvs !! owner p) as [rf|]; [|done]. destruct p; simpl; intros Hs; simplify_eq/=; auto.
  - destruct (makeCandidate _ rf); by simplify_eq/=.
  - unfold requestVoteFromServer in Hs. case_decide; [by simplify_eq|].
    destruct (net ch), (srvs !! p) as [rfp|]; simplify_eq; try done; destruct (RequestVote _ _ _ rfp); by simplify_eq.
  - destruct (handleRequestVote _ rf) as [[]|]; by simplify_eq/=.
  - case_decide; by simplify_eq.
  - unfold sendHeartbeat in Hs. destruct (net ch), (srvs !! p) as [rfp|]; simplify_eq; try done;
      destruct (AppendEntries _ _ _ rfp) as [[]|]; by simplify_eq/=.
  - destruct (handleAppendEntries _ rf); by simplify_eq/=.
Qed.

Section one_call.
  Context (sname : nat -> string) (c : cluster) (s : nsys) (i : nat) (k : caller).
  Context (Hcy : carries sname c s) (Hi : procs c !! i = Some (calling k)) (Hk : calls (calling k) (servers c) = Some k).

Lemma carries_lookup p : procs c !! i = Some p -> n_procs s !! i = Some (NProc p).
Proof. intros Hp. by rewrite (cy_procs _ _ _ Hcy), list_lookup_fmap, Hp. Qed.

Lemma carries_lost ps :
  returns k None = Ret (NProc <$> ps) ->
  exists s', rtc nmove s s'
    /\ carries sname (mkCluster (servers c) (take i (procs c) ++ ps ++ drop (S i) (procs c)) (history c ++ [])) s'.
Proof using All.
  intros Hr. pose proof Hcy as [Hsv Hv Hpr Hl Hh Hw].
  exists (mkN (n_app s) (n_heap s) (take_request (request k) (n_net s)) (replace i (NProc <$> ps) s)). split.
  - eapply rtc_l; [|apply rtc_refl]. exists i, (ESend (dice_of ReqLost)). simpl. rewrite (carries_lookup _ Hi), Hsv. simpl.
    rewrite Hk. simpl. by rewrite (send_lost sname), Hr.
  - rewrite app_nil_r. split; simpl; [done..|by apply replace_fmap|done|done|by apply wired_take].
Qed.

Lemma carries_executed f t srvs ps vs r :
  f <> ReqLost -> (source k < length (servers c))%nat -> (target k < length (servers c))%nat -> length srvs = length (servers c) ->
  (forall rs, services rs = services (raft_server (target k)) -> dispatchf rs = None ->
     server_dispatch rs (request k) (mkApp t (servers c) (a_votes (n_app s)))
     = Ret (counted rs, mkApp t srvs (a_votes (n_app s) ++ vs), mkReply true r)) ->
  returns k (if decide (f = Delivered) then Some r else None) = Ret (NProc <$> ps) ->
  exists s', rtc nmove s s'
    /\ carries sname (mkCluster srvs (take i (procs c) ++ ps ++ drop (S i) (procs c)) (history c ++ vs)) s'.
Proof using All.
  intros Hf Hc Ht Hlen Hd Hr. pose proof Hcy as [Hsv Hv Hpr Hl Hh Hw]. rewrite Hl in Hc, Ht.
  destruct (Hh _ Ht) as (rs&Hrs&Hs1&Hs2). rewrite <-Hsv in Hd. pose proof Hk as Hk'. rewrite <-Hsv in Hk'.
  destruct (exchange sname s i k f t rs _ _ _ Hw (carries_lookup _ Hi) Hk' (conj Hc Ht) Hf Hrs (Hd _ Hs1 Hs2) eq_refl Hr) as (rn&Hrn&Hrun).
  eexists. split; [exact Hrun|]. apply carries_intro; [done|congruence|by apply heap_ok_counted|done].
Qed.

End one_call.

(** One step of the cluster is one or three steps over the network. *)
Lemma carries_step sname c c' s :
  carries sname c s -> cstep c c' -> exists s', rtc nmove s s' /\ carries sname c' s'.
Proof.
  intros Hcy (i&ch&Hs). pose proof Hcy as [Hsv _ _ Hl Hh Hw]. unfold step in Hs.
  destruct (procs c !! i) as [p|] eqn:Ei; [|done].
  destruct (step_proc p ch (servers c)) as [[[[srvs ps] vs]|]|] eqn:E; simplify_eq.
  pose proof (step_proc_length _ _ _ _ _ _ E) as Hlen.
  destruct (calls p (servers c)) as [k|] eqn:Ek.
  2: { eexists. split; [|by eapply (carries_intro _ _ _ _ _ _ _ (now ch)); [done|congruence|done..]].
       eapply rtc_l; [|apply rtc_refl]. exists i, (ELocal ch). simpl.
       rewrite (carries_lookup sname c s i Hcy _ Ei), Hsv, Ek, E. done. }
  pose proof (calls_calling _ _ _ Ek) as <-.
  destruct k as [c0 ctx p args|c0 p args]; unfold step_proc in E; simpl in E.
  - destruct (servers c !! c0) as [rf|] eqn:Erf; [|done].
    unfold requestVoteFromServer in E. case_decide as Hx; [by simpl in Ek; rewrite Erf in Ek; simpl in Ek; rewrite decide_True in Ek|].
    destruct (net ch) eqn:En; [simplify_eq; by eapply carries_lost|..];
      (destruct (servers c !! p) as [rfp|] eqn:Ep; [|done]; destruct (RequestVote args RVReply0 (now ch) rfp) as [rfp' y] eqn:Ey;
       simplify_eq; eapply (carries_executed _ _ _ _ _ Hcy Ei Ek (net ch) (now ch) _ _ _ (Marshall y)); rewrite ?En; [done|by eapply lookup_lt_Some..|done
       |intros rs Hs1 Hs2; simpl; unfold sendRequestVote; rewrite (vote_dispatch p) by done; unfold index; simpl; rewrite Ep; simpl; by rewrite Ey|];
       simpl; by rewrite ?codec_round_trip).
  - destruct (servers c !! c0) as [rf|] eqn:Erf; [|done]. unfold sendHeartbeat in E.
    destruct (net ch) eqn:En; [simplify_eq; by eapply carries_lost|..];
      (destruct (servers c !! p) as [rfp|] eqn:Ep; [|done];
       destruct (AppendEntries args AEReply0 (now ch) rfp) as [[rfp' y]|] eqn:Ey; simpl in E; simplify_eq;
       eapply (carries_executed _ _ _ _ (CBeat c0 p args) Hcy Ei eq_refl (net ch) (now ch) _ _ _ (Marshall y)); rewrite ?En; [done|by eapply lookup_lt_Some..|done
       |intros rs Hs1 Hs2; simpl; unfold sendAppendEntries; rewrite (beat_dispatch p) by done; unfold index; simpl; rewrite Ep; simpl;
       rewrite Ey; simpl; by rewrite app_nil_r|];
       simpl; by rewrite ?codec_round_trip).
Qed.

Lemma cluster_carried sname now0 rn k c :
  wired sname rn -> nsteps cstep k (init n now0) c -> exists s, rtc nmove (n_init now0 rn) s /\ carries sname c s.
Proof.
  intros Hw Hs. assert (carries sname (init n now0) (n_init now0 rn)) as Hi.
  { split; simpl; [done..| |apply (n_init_heap now0 rn)|done]. by rewrite length_fmap, length_seq. }
  revert Hi. generalize (n_init now0 rn). induction Hs as [c|k c c1 c' Hc _ IH]; intros s Hi; [by exists s; split; [apply rtc_refl|]|].
  destruct (carries_step _ _ _ _ Hi Hc) as (s1&Hr&Hi1). destruct (IH s1 Hi1) as (s'&Hr'&Hc'). exists s'.
  split; [by etrans|done].
Qed.

(** ** Properties *)

(** C11: votes over the simulated network.  In every run of fewer than [2^62] steps of [n] raft servers
    over the network, whatever the tester does to it and however handlers and replies are delayed past
    their callers' next requests: no server votes for two candidates in one term; at most one candidate of
    a term is voted for by a majority; and every request finds its handler and every message
    decodes: no step ends a process with a fatal error. *)
Theorem network_votes_safe now0 rn k s :
  net_ok rn -> Z.of_nat k < 2 ^ 62 -> nsteps nmove k (n_init now0 rn) s ->
  (forall v t c1 c2, (v, t, c1) ∈ a_votes (n_app s) -> (v, t, c2) ∈ a_votes (n_app s) -> c1 = c2)
  /\ (forall t c1 c2, (n < 2 * size (voters (a_votes (n_app s)) t c1))%nat ->
                     (n < 2 * size (voters (a_votes (n_app s)) t c2))%nat -> c1 = c2)
  /\ (forall i e, nstep i e s <> Some (Crash Fatal)).
Proof.
  intros Hn Hk Hs. pose proof (ninv_nmoves k _ _ _ (ninv_init now0 rn Hn) ltac:(lia) Hs) as Hi.
  pose proof (ni_cluster _ _ Hi) as Hc. split_and!.
  - apply Hc.
  - intros t c1 c2 H1' H2'. rewrite <-(ni_length _ _ Hi) in H1', H2'. by eapply (cinv_majority _ _ t c1 c2 Hc).
  - intros i e E. by pose proof (ninv_nstep _ _ _ _ _ Hi ltac:(lia) E).
Qed.

(** C22: the runs of [RaftCluster] are runs over the network.  Whatever a cluster whose requests meet a fate each can reach,
    servers over an unreliable network that connects them can reach as well, with the
    same state of every server and the same votes. *)
Theorem cluster_runs_on_network sname now0 rn k c :
  wired sname rn -> nsteps cstep k (init n now0) c ->
  exists s, rtc nmove (n_init now0 rn) s /\ a_servers (n_app s) = servers c /\ a_votes (n_app s) = history c
    /\ n_procs s = NProc <$> procs c.
Proof.
  intros Hw Hs. destruct (cluster_carried _ _ _ _ _ Hw Hs) as (s&?&[]). eauto.
Qed.
End raftnet.

(** *** A concrete codec and network *)

#[local] Instance RVArgs_eq_dec : EqDecision RequestVoteArgs.
Proof. solve_decision. Defined.

#[local] Instance RVArgs_countable : Countable RequestVoteArgs.
Proof. refine (inj_countable' (fun r => (rv_Term r, rv_CandidateId r)) (fun '(t, c) => mkRVArgs t c) _). by intros []. Defined.

#[local] Instance RVArgs_codec : Codec RequestVoteArgs := bits_codec.

#[local] Instance RVReply_eq_dec : EqDecision RequestVoteReply.
Proof. solve_decision. Defined.

#[local] Instance RVReply_countable : Countable RequestVoteReply.
Proof. refine (inj_countable' (fun r => (rvr_Term r, rvr_VoteGranted r)) (fun '(t, c) => mkRVReply t c) _). by intros []. Defined.

#[local] Instance RVReply_codec : Codec RequestVoteReply := bits_codec.

#[local] Instance AEArgs_eq_dec : EqDecision AppendEntriesArgs.
Proof. solve_decision. Defined.

#[local] Instance AEArgs_countable : Countable AppendEntriesArgs.
Proof. refine (inj_countable' (fun r => (ae_Term r, ae_LeaderId r)) (fun '(t, c) => mkAEArgs t c) _). by intros []. Defined.

#[local] Instance AEArgs_codec : Codec AppendEntriesArgs := bits_codec.

#[local] Instance AEReply_eq_dec : EqDecision AppendEntriesReply.
Proof. solve_decision. Defined.

#[local] Instance AEReply_countable : Countable AppendEntriesReply.
Proof. refine (inj_countable' (fun r => (aer_Term r, aer_Success r)) (fun '(t, c) => mkAEReply t c) _). by intros []. Defined.

#[local] Instance AEReply_codec : Codec AppendEntriesReply := bits_codec.

Definition demo_ename (s p : nat) : string := Itoa (Z.of_nat s) +:+ ">" +:+ Itoa (Z.of_nat p).
Definition demo_sname (p : nat) : string := Itoa (Z.of_nat p).

(** Three servers, all connected, over an unreliable network. *)
Definition net3 : Network :=
  let rn := foldr (fun p => AddServer (demo_sname p) p) (Reliable false MakeNetwork) (seq 0 3) in
  foldr (fun '(s, p) rn => Enable (demo_ename s p) true (Connect (demo_ename s p) (demo_sname p) rn)) rn
    (s ← seq 0 3; p ← seq 0 3; [(s, p)]).

Lemma net3_ok : net_ok 3 net3.
Proof. apply (bool_decide_unpack _). vm_compute. exact I. Qed.

Lemma net3_wired : wired demo_ename 3 demo_sname net3.
Proof.
  split; [done|done|..].
  - intros [|[|[|c]]] [|[|[|p]]] Hc Hp; try lia; vm_compute; reflexivity.
  - intros [|[|[|c]]] [|[|[|p]]] Hc Hp; try lia; vm_compute; reflexivity.
  - intros [|[|[|p]]] Hp; try lia; vm_compute; reflexivity.
Qed.

(** The two leaders of one term in [RaftCluster] are reached over this network. *)
Theorem two_leaders_over_network :
  exists s rf0 rf2, rtc (nmove demo_ename 3) (n_init 3 0 net3) s
    /\ a_servers (n_app s) !! 0%nat = Some rf0 /\ GetState rf0 = (2, true)
    /\ a_servers (n_app s) !! 2%nat = Some rf2 /\ GetState rf2 = (2, true).
Proof.
  destruct (cluster_carried demo_ename 3 demo_sname 0 net3 15 witness_cluster net3_wired witness_steps) as (s&Hr&[Hs _ _ _ _ _]).
  exists s, (nth_server witness_cluster 0), (nth_server witness_cluster 2). rewrite Hs. split; [done|].
  repeat apply conj; vm_compute; reflexivity.
Qed.

(** Server 0 asks server 1 for its vote; server 1 is taken off the network while the handler has not run, and server 0 is
    told that its request failed; then the handler runs. *)
Definition late_vote : list (nat * event) :=
  [(0%nat, ELocal (at_ 5000)); (0%nat, ELocal (at_ 5000)); (0%nat, ELocal (at_ 5000)); (1%nat, ELocal (at_ 5000));
   (1%nat, ESend (dice_of Delivered)); (0%nat, ETester (DeleteServer (demo_sname 1) net3)); (1%nat, ETimer); (2%nat, EHandle 5100)].

Definition after_late_vote : nsys :=
  match nrun demo_ename 3 late_vote (n_init 3 0 net3) with Some (Ret s) => s | _ => n_init 3 0 net3 end.

Lemma network_votes_safe_witness :
  a_votes (n_app after_late_vote) = [(0%nat, 1, 0); (1%nat, 1, 0)]
  /\ forall c2, (1%nat, 1, c2) ∈ a_votes (n_app after_late_vote) -> 0 = c2.
Proof.
  split; [vm_compute; reflexivity|]. intros c2.
  refine (proj1 (network_votes_safe demo_ename 3 0 net3 8 after_late_vote net3_ok eq_refl _) 1%nat 1 0 c2 _).
  - apply (nrun_nsteps _ _ late_vote). vm_compute. reflexivity.
  - apply (bool_decide_unpack _). vm_compute. exact I.
Defined.

Lemma cluster_runs_on_network_witness :
  exists s, rtc (nmove demo_ename 3) (n_init 3 0 net3) s /\ a_servers (n_app s) = servers witness_cluster.
Proof.
  destruct (cluster_runs_on_network demo_ename 3 demo_sname 0 net3 15 witness_cluster net3_wired witness_steps) as (s&Hr&Hs&_).
  exists s. split; [exact Hr|exact Hs].
Defined.
