(* ===== verification/KvTest.v ===== *)
(** * The key/value test harness

    [src/src/kvtest1/kvtest.go]: the client loops the labs' tests run against a clerk and
    the checks they apply afterwards.  A client is a program of clerk calls; the harness
    runs any number of them in any interleaving over any service that satisfies
    [IKVClerk].  The theorems say that the checks accept every run of a correct service:
    a failing test is never the fault of the harness.  The recording of operations for
    the linearizability checker is in [OpLog], the channels between the test and its clients
    in [KvRun]. *)

From S2P Require Import Prelude Rpc KVServer KVClerk.
Local Open Scope Z_scope.

(** [encoding/json] on the values the tests store: marshalling succeeds and
    unmarshalling is its inverse. *)
Class Json (V : Type) := {
  Marshal : V -> option string;
  Unmarshal : string -> option V;
  Marshal_total v : is_Some (Marshal v);
  Unmarshal_Marshal v b : Marshal v = Some b -> Unmarshal b = Some v
}.

(** ** Programs of clerk calls *)

(** [KFuel] is the end of the fuel of a loop. *)
Inductive kprog (R : Type) :=
  | KGet (key : string) (k : string * Tversion * Err -> kprog R)
  | KPut (a : PutArgs) (k : Err -> kprog R)
  | KRet (r : R)
  | KCrash (c : crash)
  | KFuel.
Arguments KGet {R} key k.
Arguments KPut {R} a k.
Arguments KRet {R} r.
Arguments KCrash {R} c.
Arguments KFuel {R}.

Fixpoint kbind {A B} (p : kprog A) (f : A -> kprog B) : kprog B :=
  match p with
  | KGet key k => KGet key (fun r => kbind (k r) f)
  | KPut a k => KPut a (fun e => kbind (k e) f)
  | KRet r => f r
  | KCrash c => KCrash c
  | KFuel => KFuel
  end.

Definition lift {A} (m : go A) : kprog A :=
  match m with Ret a => KRet a | Crash c => KCrash c end.

Notation "'let*' x ':=' p 'in' q" := (kbind p (fun x => q))
  (at level 10, x pattern, p at level 100, q at level 200).

Record ClntRes := mkClntRes { Nok : Z; Nmaybe : Z }.
Record EntryV := mkEntryV { Id : Z; V : Tversion }.
(** [entry] and [EntryN] of the source have the same fields, hence the same JSON text. *)
Record EntryN := mkEntryN { n_Id : Z; N : Z }.

(** The value and the version; the test fails on an error or on text that is not JSON. *)
Definition GetJson {V} `{Json V} (key : string) : kprog (V * Tversion) :=
  KGet key (fun '(val, ver, err) =>
    if decide (err = OK) then
      match Unmarshal val with
      | Some v => KRet (v, ver)
      | None => KCrash Fatal
      end
    else KCrash Fatal).

Definition PutJson {V} `{Json V} (key : string) (v : V) (ver : Tversion) : kprog Err :=
  match Marshal v with
  | None => KCrash Fatal
  | Some b => KPut (mkPutArgs key b ver) KRet
  end.

(** [fuel] bounds the number of Puts. *)
Fixpoint PutAtLeastOnce (fuel : nat) (key value : string) (ver : Tversion) : kprog Tversion :=
  match fuel with
  | O => KFuel
  | S fuel' =>
      KPut (mkPutArgs key value ver) (fun err =>
        if decide (err = OK) then KRet (u64 (ver + 1))
        else if decide (err = ErrMaybe \/ err = ErrVersion)
        then PutAtLeastOnce fuel' key value (u64 (ver + 1))
        else if decide (ver <> 0) then KCrash Fatal
        else PutAtLeastOnce fuel' key value ver)
  end.

(** The version argument of the caller is only counted up, never sent. *)
Fixpoint PutAtLeastOnceJson {V} `{Json V} (fuel : nat) (key : string) (value : V)
    (ver : Tversion) : kprog Tversion :=
  match fuel with
  | O => KFuel
  | S fuel' =>
      let* err := PutJson key value 0 in
      if decide (err <> ErrMaybe) then KRet ver
      else PutAtLeastOnceJson fuel' key value (u64 (ver + 1))
  end.

Definition CheckGet (key value : string) (version : Tversion) : kprog unit :=
  KGet key (fun '(val, ver, err) =>
    if decide (err <> OK) then KCrash Fatal
    else if decide (val <> value \/ ver <> version) then KCrash Fatal
    else KRet ()).

(** What [OnePut] does with the answer [err] of its Put and the entry it then reads. *)
Definition one_put_check (me : Z) (ver : Tversion) (err : Err) (e : EntryV) (ver0 : Tversion) : bool :=
  bool_decide (err = OK) && bool_decide (ver0 = u64 (ver + 1))
  && (bool_decide (Id e <> me) && bool_decide (V e <> ver)).

(** [fuel] bounds the turns of the loop. *)
Fixpoint OnePut `{Json EntryV} (fuel : nat) (me : Z) (key : string) (ver : Tversion) :
    kprog (Tversion * bool) :=
  match fuel with
  | O => KFuel
  | S fuel' =>
      let* err := PutJson key (mkEntryV me ver) ver in
      if decide (err = OK \/ err = ErrVersion \/ err = ErrMaybe) then
        let* (e, ver0) := GetJson key in
        if one_put_check me ver err e ver0 then KCrash Fatal
        else if decide (err = OK \/ err = ErrMaybe) then KRet (ver0, bool_decide (err = OK))
        else OnePut fuel' me key ver0
      else KCrash Fatal
  end.

(** The state of the loop of [OneClientPut] between two turns: the counters and [verm]. *)
Definition put_state : Type := ClntRes * gmap string Tversion.

Definition OneClientPut_init (ka : list string) : put_state :=
  (mkClntRes 0 0, list_to_map ((fun k => (k, 0)) <$> ka)).

(** The key of this turn; [r] is the random number. *)
Definition pick_key (randomkeys : bool) (ka : list string) (r : nat) : go string :=
  k ← index ka 0; if randomkeys then index ka (r mod length ka)%nat else Ret k.

(** Counting the outcome of a turn. *)
Definition count_put (res : ClntRes) (ok : bool) : ClntRes :=
  if ok then mkClntRes (i64 (Nok res + 1)) (Nmaybe res)
  else mkClntRes (Nok res) (i64 (Nmaybe res + 1)).

(** One turn of [OneClientPut]. *)
Definition OneClientPut `{Json EntryV} (randomkeys : bool) (ka : list string)
    (cli : Z) (fuel r : nat) (st : put_state) : kprog put_state :=
  let* k := lift (pick_key randomkeys ka r) in
  let* (ver, ok) := OnePut fuel cli k (default 0 (st.2 !! k)) in
  KRet (count_put st.1 ok, <[k := ver]> st.2).

Definition add_res (res r : ClntRes) : ClntRes :=
  mkClntRes (i64 (Nok res + Nok r)) (i64 (Nmaybe res + Nmaybe r)).

Definition CheckPutConcurrent `{Json EntryV} (key : string) (rs : list ClntRes) (res : ClntRes)
    (reliable : bool) : kprog ClntRes :=
  let* (_, ver0) := GetJson (V:=EntryV) key in
  let res := foldl add_res res rs in
  if reliable then
    if decide (ver0 <> u64 (Nok res)) then KCrash Fatal else KRet res
  else if decide (ver0 > u64 (Nok res + Nmaybe res)) then KCrash Fatal else KRet res.

Definition MakeKeys (n : nat) : list string :=
  (fun i => "k" +:+ Itoa (Z.of_nat i)) <$> seq 0 n.

Fixpoint put_all (kvs : list (string * string)) (rest : kprog unit) : kprog unit :=
  match kvs with
  | [] => rest
  | (k, v) :: kvs' => KPut (mkPutArgs k v 0) (fun _ => put_all kvs' rest)
  end.

Fixpoint check_all (kvs : list (string * string)) : kprog unit :=
  match kvs with
  | [] => KRet ()
  | (k, v) :: kvs' => let* _ := CheckGet k v 1 in check_all kvs'
  end.

(** [va] are the random values; one per key. *)
Definition SpreadPutsSize (n : nat) (va : list string) : kprog unit :=
  let kvs := zip (MakeKeys n) va in put_all kvs (check_all kvs).

(** The state of the loop of [OneClientAppend]: [i] and the counters. *)
Record app_state := mkApp { app_i : Z; app_nok : Z; app_nmay : Z }.

Definition OneClientAppend_init : app_state := mkApp 0 0 0.
Definition OneClientAppend_res (st : app_state) : ClntRes := mkClntRes (app_nok st) (app_nmay st).

(** One turn of [OneClientAppend]: retry until the Put is accepted or may have been. *)
Fixpoint OneClientAppend `{Json (list EntryN)} (me : Z) (fuel : nat) (st : app_state) : kprog app_state :=
  match fuel with
  | O => KFuel
  | S fuel' =>
      let* (es, ver) := GetJson "k" in
      let es := es ++ [mkEntryN me (app_i st)] in
      let* err := PutJson "k" es ver in
      if decide (err = OK)
      then KRet (mkApp (i64 (app_i st + 1)) (i64 (app_nok st + 1)) (app_nmay st))
      else if decide (err = ErrMaybe)
      then KRet (mkApp (i64 (app_i st + 1)) (app_nok st) (i64 (app_nmay st + 1)))
      else OneClientAppend me fuel' st
  end.

(** [CheckAppends]: the maps [expect] and [skipped]; a missing key reads as 0. *)
Definition scan_entry (m : gmap Z Z * gmap Z Z) (e : EntryN) : go (gmap Z Z * gmap Z Z) :=
  let '(expect, skipped) := m in
  let x := default 0 (expect !! n_Id e) in
  if decide (x > N e) then Crash Fatal
  else if decide (x = N e) then Ret (<[n_Id e := i64 (x + 1)]> expect, skipped)
  else Ret (<[n_Id e := i64 (N e + 1)]> expect,
            <[n_Id e := i64 (default 0 (skipped !! n_Id e) + i64 (N e - x))]> skipped).

Fixpoint scan_entries (m : gmap Z Z * gmap Z Z) (es : list EntryN) : go (gmap Z Z * gmap Z Z) :=
  match es with
  | [] => Ret m
  | e :: es' => m' ← scan_entry m e; scan_entries m' es'
  end.

(** The test of one client's totals; a client that is not one of the spawned ones is an
    index out of range. *)
Definition check_client (skipped : gmap Z Z) (rs : list ClntRes) (c n : Z) : go unit :=
  if decide (c < 0) then Crash Panic
  else
    r ← index rs (Z.to_nat c);
    if decide (default 0 (skipped !! c) > Nmaybe r) then Crash Fatal
    else if decide (n > i64 (Nok r + Nmaybe r)) then Crash Fatal
    else Ret ().

(** The loop over the map [expect]; [order] is the order of the iteration. *)
Fixpoint check_clients (skipped : gmap Z Z) (rs : list ClntRes) (order : list (Z * Z)) : go unit :=
  match order with
  | [] => Ret ()
  | (c, n) :: order' => _ ← check_client skipped rs c n; check_clients skipped rs order'
  end.

Definition zeroes (nclnt : nat) : gmap Z Z :=
  list_to_map ((fun i => (Z.of_nat i, 0)) <$> seq 0 nclnt).

Definition CheckAppends (order : gmap Z Z -> list (Z * Z)) (es : list EntryN) (nclnt : nat)
    (rs : list ClntRes) (ver : Tversion) : go unit :=
  '(expect, skipped) ← scan_entries (zeroes nclnt, zeroes nclnt) es;
  if decide (Z.of_nat (length es) + 1 <> i64 ver) then Crash Fatal
  else check_clients skipped rs (order expect).

(** What a program does with the answer to its first call, a Get. *)
Definition resume {R} (p : kprog R) (r : string * Tversion * Err) : kprog R :=
  match p with KGet _ k => k r | _ => p end.

(** ** One program alone *)

Section alone.
Context {S : Type} `{IKVClerk S} (mine : string -> Prop).

(** A run to the end of a program, with the answers to its Puts; other clients may Put
    to keys that are not [mine] at any time. *)
Inductive krun {R} : S -> kprog R -> list Err -> S -> kprog R -> Prop :=
  | krun_ret s r : krun s (KRet r) [] s (KRet r)
  | krun_crash s c : krun s (KCrash c) [] s (KCrash c)
  | krun_fuel s : krun s KFuel [] s KFuel
  | krun_get s key k res tr s' out :
      ck_get s key res -> krun s (k res) tr s' out -> krun s (KGet key k) tr s' out
  | krun_put s a k e s1 tr s' out :
      ck_put s a e s1 -> krun s1 (k e) tr s' out -> krun s (KPut a k) (e :: tr) s' out
  | krun_env s p a e s1 tr s' out :
      ~ mine (put_Key a) -> ck_put s a e s1 -> krun s1 p tr s' out -> krun s p tr s' out.

(** The part of the service that belongs to this program. *)
Definition same_mine (s s' : S) : Prop := forall k, mine k -> entry s' k = entry s k.

Lemma ck_put_not_mine s a e s' : ~ mine (put_Key a) -> ck_put s a e s' -> same_mine s s'.
Proof. intros Hm Hp%ck_put_law k Hk. destruct Hp as [(_&_&_&Ho)|(_&->&_)]; naive_solver. Qed.

Lemma krun_inv_get {R} s key (k : _ -> kprog R) tr s' out :
  krun s (KGet key k) tr s' out ->
  exists s1 res, same_mine s s1 /\ ck_get s1 key res /\ krun s1 (k res) tr s' out.
Proof.
  remember (KGet key k) as p eqn:Hp. induction 1 as [| | |s ? ? res|s ? ? ? ? ? ? ?|s p a e s1 tr s' out Hm Hc Hr IH];
    simplify_eq.
  - by exists s, res.
  - destruct (IH eq_refl) as (s2&res&Hs&?&?). exists s2, res. split; [|done].
    intros k' Hk. rewrite (Hs k' Hk). by apply (ck_put_not_mine _ _ _ _ Hm Hc).
Qed.

Lemma krun_inv_put {R} s a (k : _ -> kprog R) tr s' out :
  krun s (KPut a k) tr s' out ->
  exists s1 e s2 tr', same_mine s s1 /\ ck_put s1 a e s2 /\ tr = e :: tr' /\ krun s2 (k e) tr' s' out.
Proof.
  remember (KPut a k) as p eqn:Hp. induction 1 as [| | |s ? ? res|s ? ? e s1 tr|s p b e s1 tr s' out Hm Hc Hr IH];
    simplify_eq.
  - by exists s, e, s1, tr.
  - destruct (IH eq_refl) as (s2&e'&s3&tr'&Hs&?&?&?). exists s2, e', s3, tr'. split; [|done].
    intros k' Hk. rewrite (Hs k' Hk). by apply (ck_put_not_mine _ _ _ _ Hm Hc).
Qed.

Lemma krun_inv_ret {R} s (r : R) tr s' out :
  krun s (KRet r) tr s' out -> out = KRet r /\ tr = [] /\ same_mine s s'.
Proof.
  remember (KRet r) as p eqn:Hp. induction 1 as [| | |s ? ? res|s ? ? e s1 tr|s p b e s1 tr s' out Hm Hc Hr IH];
    simplify_eq; [done|]. destruct (IH eq_refl) as (->&->&Hs). repeat split.
  intros k' Hk. rewrite (Hs k' Hk). by apply (ck_put_not_mine _ _ _ _ Hm Hc).
Qed.

Lemma krun_inv_fuel {R} s tr s' (out : kprog R) :
  krun s KFuel tr s' out -> out = KFuel /\ same_mine s s'.
Proof.
  remember KFuel as p eqn:Hp. induction 1 as [| | |s ? ? res|s ? ? e s1 tr|s p b e s1 tr s' out Hm Hc Hr IH];
    simplify_eq; [done|]. destruct (IH eq_refl) as (->&Hs). split; [done|].
  intros k' Hk. rewrite (Hs k' Hk). by apply (ck_put_not_mine _ _ _ _ Hm Hc).
Qed.

Definition sver (s : S) (k : string) : Z := from_option version 0 (entry s k).

Lemma sver_same s s' k : mine k -> same_mine s s' -> sver s' k = sver s k.
Proof. intros Hk Hs. unfold sver. by rewrite Hs. Qed.

(** A Put as a client sees it, away from the wrap-around of versions. *)
Lemma ck_put_cases s k v n e s' :
  0 <= n -> n + 1 < 2 ^ 64 -> ck_put s (mkPutArgs k v n) e s' ->
  (sver s k = n /\ (e = OK \/ e = ErrMaybe) /\ entry s' k = Some (mkVV v (n + 1))
   /\ forall k', k' <> k -> entry s' k' = entry s k')
  \/ (sver s k <> n /\ s' = s
      /\ (e = ErrMaybe \/ (e = ErrVersion /\ is_Some (entry s k)) \/ (e = ErrNoKey /\ entry s k = None))).
Proof.
  clear mine. intros H0 Hn Hp%ck_put_law. simpl in Hp. fold (sver s k) in Hp.
  destruct Hp as [(Hv&He&Hs&Ho)|(Hv&->&He)].
  - left. rewrite u64_small in Hs by lia. done.
  - right. split; [done|]. split; [done|]. destruct (entry s k); naive_solver.
Qed.

(** Answers of ErrMaybe in a trace. *)
Definition maybes (tr : list Err) : Z := occ ErrMaybe tr.

Lemma put_at_least_once_run key value fuel : mine key -> forall ver s tr s' out,
  0 <= ver <= sver s key -> (Z.of_nat fuel + sver s key + 1 < 2 ^ 64)%Z ->
  sver s key - ver + maybes tr < Z.of_nat fuel ->
  krun s (PutAtLeastOnce fuel key value ver) tr s' out ->
  exists ver', out = KRet ver' /\ ver < ver' /\ entry s' key = Some (mkVV value ver').
Proof.
  intros Hm. induction fuel as [|fuel IH]; intros ver s tr s' out Hv Hb Hf Hr;
    pose proof (occ_nonneg ErrMaybe tr) as H0; fold (maybes tr) in H0; [lia|].
  cbn [PutAtLeastOnce] in Hr.
  apply krun_inv_put in Hr as (s1&e&s2&tr'&Hs1&Hp&->&Hr).
  rewrite <-(sver_same s s1 key Hm Hs1) in *.
  apply ck_put_cases in Hp as [(Hk&He&Hent&_)|(Hk&->&He)]; [| |lia|lia].
  - assert (sver s2 key = ver + 1) as Hs2 by (unfold sver; by rewrite Hent).
    rewrite u64_small in Hr by lia. destruct He as [->| ->].
    + rewrite decide_True in Hr by done. apply krun_inv_ret in Hr as (->&_&Hs).
      exists (ver + 1). rewrite (Hs key Hm), Hent. split; [done|]. split; [lia|done].
    + rewrite decide_False, decide_True in Hr by naive_solver.
      unfold maybes in Hf. rewrite occ_cons in Hf. rewrite decide_True in Hf by done.
      apply IH in Hr; [|lia|lia|unfold maybes; rewrite Hs2; lia].
      destruct Hr as (ver'&?&?&?). exists ver'. repeat split; [done|lia|done].
  - assert (e = ErrMaybe \/ e = ErrVersion) as He'.
    { destruct He as [->|[[-> _]|[-> Hn]]]; [by left|by right|].
      unfold sver in Hk, Hv. rewrite Hn in Hk, Hv. simpl in *. lia. }
    rewrite decide_False in Hr by (destruct He'; subst; done). rewrite decide_True in Hr by done.
    rewrite u64_small in Hr by lia.
    unfold maybes in Hf. rewrite occ_cons in Hf.
    apply IH in Hr; [|lia|lia|unfold maybes; destruct (decide _); lia].
    destruct Hr as (ver'&?&?&?). exists ver'. repeat split; [done|lia|done].
Qed.

(** The keys that [put_all] has written, each at version 1. *)
Definition holds (s : S) (kvs : list (string * string)) : Prop :=
  forall k v, (k, v) ∈ kvs -> entry s k = Some (mkVV v 1).

Lemma holds_same s s' kvs :
  (forall k v, (k, v) ∈ kvs -> mine k) -> same_mine s s' -> holds s kvs -> holds s' kvs.
Proof. intros Hm Hs Hh k v Hk. rewrite (Hs k) by eauto. by apply Hh. Qed.

Lemma check_all_run kvs : forall s tr s' out,
  (forall k v, (k, v) ∈ kvs -> mine k) -> holds s kvs ->
  krun s (check_all kvs) tr s' out -> out = KRet ().
Proof.
  induction kvs as [|[k v] kvs IH]; intros s tr s' out Hm Hh Hr; simpl in Hr.
  { by apply krun_inv_ret in Hr as (->&_). }
  apply krun_inv_get in Hr as (s1&[[val n] e]&Hs&Hg%ck_get_law&Hr).
  apply (holds_same _ _ _ Hm Hs) in Hh.
  rewrite (Hh k v) in Hg by (by left). destruct Hg as (->&->&->). simpl in Hr.
  rewrite decide_False in Hr by naive_solver. simpl in Hr.
  eapply IH; [..|exact Hr]; [|]; intros ???; [eapply Hm|apply Hh]; by right.
Qed.

Lemma put_all_run kvs : forall s done tr s' out,
  (forall k v, (k, v) ∈ done ++ kvs -> mine k) -> NoDup (kvs.*1) ->
  (forall k, k ∈ kvs.*1 -> k ∉ done.*1) ->
  holds s done -> (forall k, k ∈ kvs.*1 -> entry s k = None) ->
  krun s (put_all kvs (check_all (done ++ kvs))) tr s' out -> out = KRet ().
Proof.
  induction kvs as [|[k v] kvs IH]; intros s done tr s' out Hm Hnd Hdis Hh Hn Hr; simpl in Hr.
  { rewrite app_nil_r in *. by eapply check_all_run. }
  apply list.NoDup_cons in Hnd as [Hk Hnd].
  apply krun_inv_put in Hr as (s1&e&s2&tr'&Hs&Hp&->&Hr).
  assert (mine k) as Hmk by (apply (Hm k v), elem_of_app; right; by left).
  assert (forall k', mine k' -> k' <> k -> entry s2 k' = entry s k') as Ho.
  { intros k' Hk' Hne. rewrite <-(Hs k' Hk').
    apply ck_put_cases in Hp as [(_&_&_&->)|(_&->&_)]; [done|done|done|lia|lia]. }
  assert (entry s2 k = Some (mkVV v 1)) as Hent.
  { apply ck_put_cases in Hp as [(_&_&->&_)|(Hv&_)]; [done| |lia|lia].
    unfold sver in Hv. rewrite (Hs k Hmk), Hn in Hv by (by left). done. }
  replace (done ++ (k, v) :: kvs) with ((done ++ [(k, v)]) ++ kvs) in * by (by rewrite <-app_assoc).
  eapply (IH s2 (done ++ [(k, v)])); [done|done| | | |exact Hr].
  - intros k' Hk'. rewrite fmap_app, elem_of_app. simpl. rewrite list_elem_of_singleton.
    intros [Hd| ->]; [|done]. by apply (Hdis k'); [right|].
  - intros k' v' Hin%elem_of_app. destruct Hin as [Hin|[= -> ->]%list_elem_of_singleton]; [|done].
    rewrite Ho; [by apply Hh|apply (Hm k' v'); by rewrite !elem_of_app; left; left|].
    intros ->. apply (Hdis k); [by left|]. apply list_elem_of_fmap. by exists (k, v').
  - intros k' Hk'. rewrite Ho; [by apply Hn; right| |by intros ->].
    apply list_elem_of_fmap in Hk' as ([k1 v1]&->&Hin). apply (Hm k1 v1), elem_of_app. by right.
Qed.
End alone.

Lemma MakeKeys_length n : length (MakeKeys n) = n.
Proof. unfold MakeKeys. by rewrite length_fmap, length_seq. Qed.

Lemma MakeKeys_NoDup n : NoDup (MakeKeys n).
Proof.
  apply NoDup_fmap_2; [|apply NoDup_seq]. intros i j [= Hij]. apply Itoa_inj in Hij. lia.
Qed.

(** ** Concurrent clients

    [SpawnClientsAndWait] starts [nclnt] copies of a client loop; each turn of the loop
    first looks at the [done] channel. *)

(** Before the select, inside a turn, or returned. *)
Inductive cstat (St : Type) :=
  | AtSelect (st : St)
  | Running (p : kprog St)
  | Finished (r : ClntRes).
Arguments AtSelect {St} st.
Arguments Running {St} p.
Arguments Finished {St} r.

Definition spawn {St} (nclnt : nat) (st0 : St) : list (cstat St) := replicate nclnt (AtSelect st0).

(** The results, once every client has returned. *)
Definition collect {St} (cs : list (cstat St)) : option (list ClntRes) :=
  mapM (fun c => match c with Finished r => Some r | _ => None end) cs.

Section harness.
Context {S : Type} `{IKVClerk S} {St : Type}.
(** One turn of client [c], with fuel for its inner loop and a random number; what a
    client returns. *)
Context (turn : Z -> nat -> nat -> St -> kprog St) (res : St -> ClntRes) (reliable : bool).

Abbreviation tconf := (S * list (cstat St))%type.

(** On a reliable network no Put is answered ErrMaybe. *)
Inductive tstep : tconf -> tconf -> Prop :=
  | t_turn s cs c st fuel r : cs !! c = Some (AtSelect st) ->
      tstep (s, cs) (s, <[c := Running (turn (Z.of_nat c) fuel r st)]> cs)
  | t_done s cs c st : cs !! c = Some (AtSelect st) ->
      tstep (s, cs) (s, <[c := Finished (res st)]> cs)
  | t_get s cs c key k r : cs !! c = Some (Running (KGet key k)) -> ck_get s key r ->
      tstep (s, cs) (s, <[c := Running (k r)]> cs)
  | t_put s cs c a k e s' : cs !! c = Some (Running (KPut a k)) -> ck_put s a e s' ->
      (reliable = true -> e <> ErrMaybe) ->
      tstep (s, cs) (s', <[c := Running (k e)]> cs)
  | t_loop s cs c st : cs !! c = Some (Running (KRet st)) ->
      tstep (s, cs) (s, <[c := AtSelect st]> cs).

(** An invariant indexed by the number of steps, kept by every step below the bound. *)
Lemma nsteps_inv (I : nat -> tconf -> Prop) (B : nat) :
  (forall n cf cf', (n < B)%nat -> I n cf -> tstep cf cf' -> I (Datatypes.S n) cf') ->
  forall n m cf cf', (m + n <= B)%nat -> I m cf -> nsteps tstep n cf cf' -> I (m + n)%nat cf'.
Proof.
  intros Hstep n m cf cf' Hb HI Hs. revert m Hb HI.
  induction Hs as [cf|n cf cf1 cf' Hs1 Hs IH]; intros m Hb HI; [by rewrite Nat.add_0_r|].
  rewrite Nat.add_succ_r, <-Nat.add_succ_l. apply IH; [lia|]. eapply Hstep; [lia|done|done].
Qed.
End harness.

(** The sum of a measure over the clients. *)
Definition total {A} (f : A -> Z) (l : list A) : Z := foldr (fun x z => f x + z) 0 l.

Lemma total_cons {A} (f : A -> Z) x l : total f (x :: l) = f x + total f l.
Proof. done. Qed.

Lemma total_insert {A} (f : A -> Z) l i x y :
  l !! i = Some x -> total f (<[i := y]> l) = total f l - f x + f y.
Proof.
  revert i. induction l as [|a l IH]; intros [|i]; simpl; intros [=]; subst; [unfold total; simpl; lia|].
  unfold total in *. simpl. rewrite IH by done. lia.
Qed.

Lemma elem_of_insert_inv {A} (l : list A) i x y : x ∈ <[i := y]> l -> x = y \/ x ∈ l.
Proof.
  rewrite list_elem_of_lookup. intros [j Hj]. apply list_lookup_insert_Some in Hj as [(_&->&_)|[_ Hj]];
    [by left|right; by eapply list_elem_of_lookup_2].
Qed.

Lemma total_nonneg {A} (f : A -> Z) l : (forall x, x ∈ l -> 0 <= f x) -> 0 <= total f l.
Proof.
  unfold total. induction l as [|a l IH]; intros Hf; simpl; [done|].
  pose proof (Hf a ltac:(by left)). assert (0 <= foldr (fun x z => f x + z) 0 l); [|lia].
  apply IH. intros. apply Hf. by right.
Qed.

Lemma total_elem {A} (f : A -> Z) l x : (forall x, x ∈ l -> 0 <= f x) -> x ∈ l -> f x <= total f l.
Proof.
  unfold total. induction l as [|a l IH]; intros Hf; [by intros ?%elem_of_nil|].
  intros [->|Hx]%elem_of_cons; simpl.
  - assert (0 <= total f l); [|unfold total in *; lia]. apply total_nonneg. intros. apply Hf. by right.
  - pose proof (Hf a ltac:(by left)). etrans; [apply IH; [|done]|lia]. intros. apply Hf. by right.
Qed.

Lemma total_replicate {A} (f : A -> Z) n x : f x = 0 -> total f (replicate n x) = 0.
Proof. intros Hx. unfold total. induction n as [|n IH]; simpl; lia. Qed.

(** *** The put test *)

Section put_test.
Context {S : Type} `{IKVClerk S} `{Json EntryV} (key : string) (ka : list string) (reliable : bool).

Let turn (c : Z) (fuel r : nat) (st : put_state) : kprog put_state :=
  OneClientPut false (key :: ka) c fuel r st.

(** What follows [OnePut] in a turn. *)
Definition after_one_put (st : put_state) (x : Tversion * bool) : kprog put_state :=
  let '(v, ok) := x in KRet (count_put st.1 ok, <[key := v]> st.2).

(** What follows the Put of [OnePut], with the rest of the turn. *)
Definition after_put (me : Z) (fuel : nat) (v : Tversion) (err : Err) : kprog (Tversion * bool) :=
  let* (e, ver0) := GetJson key in
  if one_put_check me v err e ver0 then KCrash Fatal
  else if decide (err = OK \/ err = ErrMaybe) then KRet (ver0, bool_decide (err = OK))
  else OnePut fuel me key ver0.

(** Where a client is: the control points of [OneClientPut] and [OnePut]. *)
Inductive ppoint :=
  | PSel (st : put_state)
  | PPut (st : put_state) (fuel : nat) (v : Tversion)
  | PGot (st : put_state) (fuel : nat) (v : Tversion) (err : Err)
  | PBack (st : put_state)
  | PFin (r : ClntRes).

Definition pconc (c : nat) (p : ppoint) : cstat put_state :=
  match p with
  | PSel st => AtSelect st
  | PPut st fuel v => Running (kbind (OnePut fuel (Z.of_nat c) key v) (after_one_put st))
  | PGot st fuel v err => Running (kbind (after_put (Z.of_nat c) fuel v err) (after_one_put st))
  | PBack st => Running (KRet st)
  | PFin r => Finished r
  end.

(** The Puts of a client that were accepted, and those that may have been. *)
Definition counts (p : ppoint) : ClntRes :=
  match p with
  | PSel st | PBack st | PPut st _ _ => st.1
  | PGot st _ _ err =>
      mkClntRes (Nok st.1 + if decide (err = OK) then 1 else 0)
        (Nmaybe st.1 + if decide (err = ErrMaybe) then 1 else 0)
  | PFin r => r
  end.
Definition oks (p : ppoint) : Z := Nok (counts p).
Definition mays (p : ppoint) : Z := Nmaybe (counts p).

Definition res_ok (r : ClntRes) : Prop := 0 <= Nok r /\ 0 <= Nmaybe r.
Definition known (s : S) (v : Z) : Prop := 0 <= v <= sver s key.

Definition point_ok (s : S) (p : ppoint) : Prop :=
  match p with
  | PSel st | PBack st => res_ok st.1 /\ exists v, st.2 !! key = Some v /\ known s v
  | PPut st fuel v => res_ok st.1 /\ known s v
  | PGot st fuel v err => res_ok st.1 /\ known s v /\ is_Some (entry s key)
      /\ (err = OK \/ err = ErrVersion \/ err = ErrMaybe)
  | PFin r => res_ok r
  end.

(** The value stored at version [n] was marshalled from an entry that names [n - 1]. *)
Definition value_ok (s : S) : Prop :=
  forall vv, entry s key = Some vv ->
    exists i, Marshal (mkEntryV i (version vv - 1)) = Some (value vv).

Record pinv (n : nat) (s : S) (cs : list (cstat put_state)) (ps : list ppoint) : Prop := {
  pinv_conc c : cs !! c = pconc c <$> ps !! c;
  pinv_ok p : p ∈ ps -> point_ok s p;
  pinv_value : value_ok s;
  pinv_low : total oks ps <= sver s key;
  pinv_high : sver s key <= total oks ps + total mays ps;
  pinv_steps : total oks ps + total mays ps <= Z.of_nat n;
  pinv_none : entry s key = None -> total mays ps = 0;
  pinv_reliable : reliable = true -> total mays ps = 0
}.

Lemma oks_nonneg s p : point_ok s p -> 0 <= oks p.
Proof. unfold oks. destruct p; simpl; unfold res_ok; try case_decide; naive_solver lia. Qed.

Lemma mays_nonneg s p : point_ok s p -> 0 <= mays p.
Proof. unfold mays. destruct p; simpl; unfold res_ok; try case_decide; naive_solver lia. Qed.

(** Another client's Put only raises the version. *)
Lemma point_ok_mono s s' p :
  sver s key <= sver s' key -> (is_Some (entry s key) -> is_Some (entry s' key)) ->
  point_ok s p -> point_ok s' p.
Proof. intros Hle He. destruct p; simpl; unfold known; naive_solver lia. Qed.

(** One client moves from [p] to [p'] while the service goes from [s] to [s']. *)
Lemma pinv_update n s s' cs ps c p p' :
  pinv n s cs ps -> ps !! c = Some p -> point_ok s' p' -> value_ok s' ->
  (is_Some (entry s key) -> is_Some (entry s' key)) ->
  oks p' - oks p <= sver s' key - sver s key <= oks p' - oks p + (mays p' - mays p) ->
  0 <= oks p' - oks p -> 0 <= mays p' - mays p ->
  oks p' - oks p + (mays p' - mays p) <= 1 ->
  (entry s' key = None \/ reliable = true -> mays p' = mays p) ->
  pinv (Datatypes.S n) s' (<[c := pconc c p']> cs) (<[c := p']> ps).
Proof.
  intros [Hc Hok Hval Hlo Hhi Hst Hno Hre] Hp Hok' Hval' Hsome Hd Ho Hm H1 Hn.
  split; rewrite ?(total_insert _ _ _ _ _ Hp); try lia; [| |done| |].
  - intros d. destruct (decide (c = d)) as [<-|Hne].
    + rewrite !list_lookup_insert_eq; [done|by eapply lookup_lt_Some|].
      assert (is_Some (cs !! c)) as [x Hx] by (rewrite Hc, Hp; by eexists).
      by eapply lookup_lt_Some.
    + rewrite !list_lookup_insert_ne by done. apply Hc.
  - intros q Hq. apply elem_of_insert_inv in Hq as [->|Hq]; [done|].
    apply (point_ok_mono s); [lia|done|by apply Hok].
  - intros He. rewrite Hn by (by left). rewrite Hno; [lia|].
    destruct (entry s key); [|done]. by destruct Hsome as [? ?]; [|congruence].
  - intros He. rewrite Hn by (by right). rewrite Hre by done. lia.
Qed.

(** Reading the key once it exists. *)
Lemma GetJson_found s vv r i v :
  entry s key = Some vv -> Marshal (mkEntryV i v) = Some (value vv) -> ck_get s key r ->
  resume (GetJson (V:=EntryV) key) r = KRet (mkEntryV i v, version vv).
Proof.
  intros He Hm Hg. destruct r as [[val n] e]. apply ck_get_law in Hg. rewrite He in Hg.
  destruct Hg as (->&->&->). simpl. by rewrite (Unmarshal_Marshal _ _ Hm).
Qed.

Lemma pinv_lookup n s cs ps c x :
  pinv n s cs ps -> cs !! c = Some x -> exists p, ps !! c = Some p /\ x = pconc c p /\ point_ok s p.
Proof.
  intros Hi Hx. rewrite (pinv_conc _ _ _ _ Hi) in Hx. destruct (ps !! c) as [p|] eqn:Hp; [|done].
  exists p. injection Hx as <-. split; [done|]. split; [done|].
  by apply (pinv_ok _ _ _ _ Hi), list_elem_of_lookup_2 with c.
Qed.

(** The counters stay small. *)
Lemma pinv_counts n s cs ps c p :
  pinv n s cs ps -> ps !! c = Some p -> 0 <= oks p <= Z.of_nat n /\ 0 <= mays p <= Z.of_nat n.
Proof.
  intros Hi Hp%list_elem_of_lookup_2.
  assert (forall q, q ∈ ps -> 0 <= oks q) as Ho by (intros q Hq; eapply oks_nonneg, Hi, Hq).
  assert (forall q, q ∈ ps -> 0 <= mays q) as Hm by (intros q Hq; eapply mays_nonneg, Hi, Hq).
  pose proof (total_elem oks _ _ Ho Hp). pose proof (total_elem mays _ _ Hm Hp).
  pose proof (total_nonneg oks _ Ho). pose proof (total_nonneg mays _ Hm).
  pose proof (pinv_steps _ _ _ _ Hi). pose proof (Ho _ Hp). pose proof (Hm _ Hp). lia.
Qed.

(** A Put of the test. *)
Lemma pinv_put n s s' cs ps c st fuel v b e :
  pinv n s cs ps -> ps !! c = Some (PPut st (Datatypes.S fuel) v) -> (Z.of_nat n + 1 < 2 ^ 63)%Z ->
  Marshal (mkEntryV (Z.of_nat c) v) = Some b -> ck_put s (mkPutArgs key b v) e s' ->
  (reliable = true -> e <> ErrMaybe) ->
  point_ok s' (PGot st fuel v e)
  /\ pinv (Datatypes.S n) s' (<[c := pconc c (PGot st fuel v e)]> cs) (<[c := PGot st fuel v e]> ps).
Proof.
  intros Hi Hp Hn Hb Hput Hrel.
  pose proof (pinv_ok _ _ _ _ Hi _ (list_elem_of_lookup_2 _ _ _ Hp)) as [Hres Hkn].
  pose proof (pinv_high _ _ _ _ Hi). pose proof (pinv_steps _ _ _ _ Hi). unfold known in Hkn.
  apply ck_put_cases in Hput as [(Hv&He&Hent&_)|(Hv&->&He)]; [| |lia|lia].
  - assert (sver s' key = v + 1) as Hv' by (unfold sver; by rewrite Hent).
    assert (point_ok s' (PGot st fuel v e)) as Hok.
    { simpl. rewrite Hent. split; [done|]. split; [unfold known; lia|]. naive_solver. }
    split; [done|]. eapply pinv_update; [done|done|done| |by rewrite Hent|..].
    + intros vv Hvv. rewrite Hent in Hvv. injection Hvv as <-. exists (Z.of_nat c). simpl.
      by replace (v + 1 - 1) with v by lia.
    + unfold oks, mays. simpl. destruct He as [->| ->]; simpl; lia.
    + unfold oks. simpl. case_decide; lia.
    + unfold mays. simpl. case_decide; lia.
    + unfold oks, mays. simpl. destruct He as [->| ->]; simpl; lia.
    + rewrite Hent. intros [?|Hr]; [done|]. unfold mays. simpl.
      rewrite decide_False by auto. lia.
  - assert (is_Some (entry s key)) as Hex.
    { destruct (entry s key) eqn:E; [by eexists|]. unfold sver in Hkn, Hv. rewrite E in Hkn, Hv.
      simpl in *. lia. }
    assert (e = ErrMaybe \/ e = ErrVersion) as He'.
    { destruct He as [->|[[-> _]|[-> Hno]]]; [by left|by right|]. rewrite Hno in Hex. by destruct Hex. }
    assert (point_ok s (PGot st fuel v e)) as Hok.
    { split; [done|]. split; [done|]. split; [done|]. destruct He' as [->| ->]; auto. }
    split; [done|]. eapply pinv_update; [done|done|done|apply Hi|done|..].
    + unfold oks, mays. simpl. destruct He' as [->| ->]; simpl; lia.
    + unfold oks. simpl. case_decide; lia.
    + unfold mays. simpl. case_decide; lia.
    + unfold oks, mays. simpl. destruct He' as [->| ->]; simpl; lia.
    + intros [Hno|Hr]; [rewrite Hno in Hex; by destruct Hex|]. unfold mays. simpl.
      rewrite decide_False by auto. lia.
Qed.

(** The Get of the test, and what the client does with the answer. *)
Lemma pinv_get n s cs ps c st fuel v err r :
  pinv n s cs ps -> ps !! c = Some (PGot st fuel v err) -> (Z.of_nat n + 1 < 2 ^ 63)%Z ->
  ck_get s key r ->
  exists p', kbind (resume (after_put (Z.of_nat c) fuel v err) r) (after_one_put st)
             = (match pconc c p' with Running q => q | _ => KFuel end)
    /\ (exists q, pconc c p' = Running q)
    /\ pinv (Datatypes.S n) s (<[c := pconc c p']> cs) (<[c := p']> ps).
Proof.
  intros Hi Hp Hn Hg.
  pose proof (pinv_ok _ _ _ _ Hi _ (list_elem_of_lookup_2 _ _ _ Hp)) as (Hres&Hkn&[vv Hvv]&He).
  pose proof (pinv_high _ _ _ _ Hi) as Hhi. pose proof (pinv_steps _ _ _ _ Hi).
  destruct (pinv_value _ _ _ _ Hi vv Hvv) as [i Hmar].
  pose proof (GetJson_found s vv r i _ Hvv Hmar Hg) as Hget.
  destruct (pinv_counts _ _ _ _ _ _ Hi Hp) as [Hco Hcm]. unfold oks, mays in Hco, Hcm. simpl in Hco, Hcm.
  unfold known in Hkn. assert (sver s key = version vv) as Hsv by (unfold sver; by rewrite Hvv).
  assert (one_put_check (Z.of_nat c) v err (mkEntryV i (version vv - 1)) (version vv) = false) as Hchk.
  { unfold one_put_check. simpl. rewrite (u64_small (v + 1)) by lia.
    destruct (bool_decide (version vv = v + 1)) eqn:E; [|by rewrite andb_false_r].
    apply bool_decide_eq_true in E. rewrite (bool_decide_eq_false_2 (version vv - 1 <> v)) by (intros Hx; lia).
    by rewrite !andb_false_r. }
  assert (forall p', counts p' = counts (PGot st fuel v err) -> point_ok s p' ->
            pinv (Datatypes.S n) s (<[c := pconc c p']> cs) (<[c := p']> ps)) as Hmove.
  { intros p' Hcnt Hok. eapply pinv_update; [done|done|done|apply Hi|done|unfold oks, mays; rewrite Hcnt; lia..|].
    intros _. unfold mays. by rewrite Hcnt. }
  assert (resume (after_put (Z.of_nat c) fuel v err) r
          = if decide (err = OK \/ err = ErrMaybe) then KRet (version vv, bool_decide (err = OK))
            else OnePut fuel (Z.of_nat c) key (version vv)) as Hcont.
  { unfold after_put. cbn [resume GetJson kbind] in Hget |- *. rewrite Hget. cbn [kbind]. by rewrite Hchk. }
  rewrite Hcont. clear Hcont Hget. destruct (decide (err = OK \/ err = ErrMaybe)) as [Herr|Herr]; cbn [kbind].
  - exists (PBack (count_put st.1 (bool_decide (err = OK)), <[key := version vv]> st.2)).
    split; [done|]. split; [by eexists|]. apply Hmove.
    + destruct st as [[no nm] vm]. simpl in *. destruct Herr as [->| ->]; simpl in *.
      * rewrite i64_small by lia. by rewrite Z.add_0_r.
      * rewrite i64_small by lia. by rewrite Z.add_0_r.
    + simpl. split.
      * destruct st as [[no nm] vm]. unfold res_ok in *. simpl in *.
        destruct Herr as [->| ->]; simpl in *; rewrite i64_small by lia; lia.
      * exists (version vv). rewrite lookup_insert_eq. split; [done|]. unfold known. lia.
  - exists (PPut st fuel (version vv)). split; [done|]. split; [by eexists|]. apply Hmove.
    + destruct st as [[no nm] vm]. simpl. rewrite !decide_False by naive_solver. by rewrite !Z.add_0_r.
    + simpl. split; [done|]. unfold known. lia.
Qed.

(** The first call of a turn of [OnePut]. *)
Lemma pconc_put c st fuel v :
  exists b, Marshal (mkEntryV (Z.of_nat c) v) = Some b
    /\ pconc c (PPut st (Datatypes.S fuel) v)
       = Running (KPut (mkPutArgs key b v) (fun e =>
           kbind (if decide (e = OK \/ e = ErrVersion \/ e = ErrMaybe)
                  then after_put (Z.of_nat c) fuel v e else KCrash Fatal) (after_one_put st))).
Proof.
  destruct (Marshal_total (mkEntryV (Z.of_nat c) v)) as [b Hb]. exists b. split; [done|].
  cbn [pconc OnePut]. unfold PutJson. by rewrite Hb.
Qed.

Lemma pinv_step n s cs ps cf' :
  pinv n s cs ps -> (Z.of_nat n + 1 < 2 ^ 63)%Z -> tstep turn fst reliable (s, cs) cf' ->
  exists ps', pinv (Datatypes.S n) cf'.1 cf'.2 ps'.
Proof.
  intros Hi Hn Hs. inversion Hs as [s0 cs0 c st fuel r Hc|s0 cs0 c st Hc|s0 cs0 c k' k r Hc Hg
    |s0 cs0 c a k e s' Hc Hp Hr|s0 cs0 c st Hc]; subst; simpl;
    destruct (pinv_lookup _ _ _ _ _ _ Hi Hc) as (p&Hps&Hx&Hok).
  - destruct p; try done. injection Hx as ->. destruct Hok as [Hres (v&Hv&Hkn)].
    exists (<[c := PPut st0 fuel v]> ps). replace (Running (turn _ _ _ _)) with (pconc c (PPut st0 fuel v)).
    + eapply pinv_update; [done|done|done|apply Hi|done|unfold oks, mays; simpl; lia..|done].
    + unfold turn, OneClientPut. simpl. by rewrite Hv.
  - destruct p; try done. injection Hx as ->. destruct Hok as [Hres _].
    exists (<[c := PFin st0.1]> ps). change (Finished st0.1) with (pconc c (PFin st0.1)).
    eapply pinv_update; [done|done|done|apply Hi|done|unfold oks, mays; simpl; lia..|done].
  - destruct p as [|st [|fuel] v|st fuel v err| |]; try done.
    + destruct (pconc_put c st fuel v) as (b&_&He). by rewrite He in Hx.
    + injection Hx as -> ->. destruct (pinv_get _ _ _ _ _ _ _ _ _ _ Hi Hps Hn Hg) as (p'&He&[q Hq]&Hi').
      exists (<[c := p']> ps). simpl in He. rewrite He. by rewrite Hq in Hi' |- *.
  - destruct p as [|st [|fuel] v|st fuel v err| |]; try done.
    destruct (pconc_put c st fuel v) as (b&Hb&He). rewrite He in Hx. injection Hx as -> ->.
    destruct (pinv_put _ _ _ _ _ _ _ _ _ _ _ Hi Hps Hn Hb Hp Hr) as [(_&_&_&Herr) Hi'].
    rewrite decide_True by done. by exists (<[c := PGot st fuel v e]> ps).
  - destruct p as [|st1 [|fuel] v|st1 fuel v err|st1|]; try done.
    + destruct (pconc_put c st1 fuel v) as (b&_&He). by rewrite He in Hx.
    + injection Hx as ->. exists (<[c := PSel st1]> ps). change (AtSelect st1) with (pconc c (PSel st1)).
      eapply pinv_update; [done|done|done|apply Hi|done|unfold oks, mays; simpl; lia..|done].
Qed.

Lemma pinv_init s nclnt :
  entry s key = None -> pinv 0 s (spawn nclnt (OneClientPut_init (key :: ka)))
    (replicate nclnt (PSel (OneClientPut_init (key :: ka)))).
Proof.
  intros He. assert (sver s key = 0) as Hv by (unfold sver; by rewrite He).
  split; try (rewrite !total_replicate by done; simpl; lia); [| |]; unfold spawn.
  - intros c. destruct (decide (c < nclnt)%nat) as [Hc|Hc].
    + by rewrite !lookup_replicate_2.
    + by rewrite !lookup_ge_None_2 by (rewrite length_replicate; lia).
  - intros p [-> _]%elem_of_replicate. split; [done|]. exists 0. unfold known. rewrite Hv.
    simpl. rewrite lookup_insert_eq. split; [done|lia].
  - intros vv Hvv. congruence.
Qed.

(** The sums of [CheckPutConcurrent]. *)
Lemma foldl_add_res rs res :
  (forall r, r ∈ rs -> res_ok r) -> res_ok res ->
  Nok res + total Nok rs < 2 ^ 63 -> Nmaybe res + total Nmaybe rs < 2 ^ 63 ->
  foldl add_res res rs = mkClntRes (Nok res + total Nok rs) (Nmaybe res + total Nmaybe rs).
Proof.
  revert res. induction rs as [|r rs IH]; intros res Hrs [Ho Hm] Hlo Hlm; simpl.
  { unfold total. simpl. destruct res; simpl. by rewrite !Z.add_0_r. }
  destruct (Hrs r ltac:(by left)) as [Hro Hrm].
  assert (forall r, r ∈ rs -> res_ok r) as Hrs' by (intros; apply Hrs; by right).
  assert (0 <= total Nok rs) by (apply total_nonneg; intros ? ?%Hrs'; unfold res_ok in *; lia).
  assert (0 <= total Nmaybe rs) by (apply total_nonneg; intros ? ?%Hrs'; unfold res_ok in *; lia).
  rewrite !total_cons in *.
  assert (add_res res r = mkClntRes (Nok res + Nok r) (Nmaybe res + Nmaybe r)) as ->
    by (unfold add_res; rewrite !i64_small by lia; done).
  rewrite IH; [|done|split; simpl; lia|simpl; lia..]. simpl.
  f_equal; lia.
Qed.

(** When every client has returned, the points carry the results. *)
Lemma collect_points n s cs ps rs :
  pinv n s cs ps -> collect cs = Some rs -> ps = PFin <$> rs.
Proof.
  intros Hi Hc. apply list_eq. intros c. rewrite list_lookup_fmap.
  apply mapM_Some in Hc. pose proof (pinv_conc _ _ _ _ Hi c) as Hx.
  destruct (rs !! c) as [r|] eqn:Hr; simpl.
  - destruct (Forall2_lookup_r _ _ _ _ _ Hc Hr) as (x&Hcx&Hf). rewrite Hcx in Hx.
    destruct x; simplify_eq. by destruct (ps !! c) as [[]|]; simplify_eq/=.
  - destruct (ps !! c) as [p|]; [|done]. simpl in Hx.
    destruct (Forall2_lookup_l _ _ _ _ _ Hc Hx) as (?&?&?). congruence.
Qed.

Lemma total_PFin rs : total oks (PFin <$> rs) = total Nok rs /\ total mays (PFin <$> rs) = total Nmaybe rs.
Proof.
  induction rs as [|r rs [IH1 IH2]]; [done|]. rewrite fmap_cons, !total_cons, IH1, IH2. done.
Qed.

(** No turn fails the test. *)
Lemma pinv_no_crash n s cs ps c x : pinv n s cs ps -> cs !! c <> Some (Running (KCrash x)).
Proof.
  intros Hi Hc. destruct (pinv_lookup _ _ _ _ _ _ Hi Hc) as (p&_&Hx&_).
  destruct p as [|st [|fuel] v|st fuel v err| |]; try done.
  destruct (pconc_put c st fuel v) as (b&_&He). by rewrite He in Hx.
Qed.

Lemma pinv_check n s cs ps rs r :
  pinv n s cs ps -> (Z.of_nat n < 2 ^ 62)%Z -> collect cs = Some rs ->
  is_Some (entry s key) -> ck_get s key r ->
  resume (CheckPutConcurrent key rs (mkClntRes 0 0) reliable) r
  = KRet (mkClntRes (total Nok rs) (total Nmaybe rs)).
Proof.
  intros Hi Hn Hc [vv Hvv] Hg. pose proof (collect_points _ _ _ _ _ Hi Hc) as ->.
  destruct (pinv_value _ _ _ _ Hi vv Hvv) as [i Hmar].
  pose proof (GetJson_found s vv r i _ Hvv Hmar Hg) as Hget.
  unfold CheckPutConcurrent. cbn [resume GetJson kbind] in Hget |- *. rewrite Hget. cbn [kbind].
  destruct Hi as [_ Hok _ Hlo Hhi Hst _ Hre]. destruct (total_PFin rs) as [Eo Em]. rewrite Eo, Em in *.
  assert (forall r, r ∈ rs -> res_ok r) as Hrs.
  { intros q Hq. apply (Hok (PFin q)), list_elem_of_fmap. by exists q. }
  assert (0 <= total Nok rs) by (apply total_nonneg; intros ? ?%Hrs; unfold res_ok in *; lia).
  assert (0 <= total Nmaybe rs) by (apply total_nonneg; intros ? ?%Hrs; unfold res_ok in *; lia).
  assert (sver s key = version vv) as Hsv by (unfold sver; by rewrite Hvv).
  rewrite foldl_add_res; [|done|done|simpl; lia..]. cbn [Nok Nmaybe].
  destruct reliable.
  - specialize (Hre eq_refl). rewrite decide_False; [done|]. rewrite u64_small by lia. lia.
  - rewrite decide_False; [done|]. rewrite u64_small by lia. lia.
Qed.

End put_test.


(** *** The append test *)

Lemma scan_entries_snoc m es e :
  scan_entries m (es ++ [e]) = (m' ← scan_entries m es; scan_entry m' e).
Proof.
  revert m. induction es as [|x es IH]; intros m; cbn [app scan_entries].
  - run_go. by destruct (scan_entry m e).
  - destruct (scan_entry m x) as [m'|c]; run_go; [apply IH|done].
Qed.

Lemma zeroes_lookup n c : (c < n)%nat -> zeroes n !! Z.of_nat c = Some 0.
Proof.
  intros Hc. apply elem_of_list_to_map_1.
  - rewrite <-list_fmap_compose. apply NoDup_fmap_2; [|apply NoDup_seq]. intros i j Hij. simpl in Hij. lia.
  - apply list_elem_of_fmap. exists c. split; [done|]. apply elem_of_seq. lia.
Qed.

Lemma zeroes_dom n c : is_Some (zeroes n !! c) -> 0 <= c < Z.of_nat n.
Proof.
  intros [x Hx]. apply elem_of_list_to_map_2 in Hx.
  apply list_elem_of_fmap in Hx as (i&[= -> _]&Hi%elem_of_seq). lia.
Qed.

Section append_test.
Context {S : Type} `{IKVClerk S} `{Json (list EntryN)} (nclnt : nat) (reliable : bool).

Let turn (c : Z) (fuel r : nat) (st : app_state) : kprog app_state := OneClientAppend c fuel st.

(** What follows the Put of a turn. *)
Definition after_append (c : Z) (fuel : nat) (st : app_state) (err : Err) : kprog app_state :=
  if decide (err = OK)
  then KRet (mkApp (i64 (app_i st + 1)) (i64 (app_nok st + 1)) (app_nmay st))
  else if decide (err = ErrMaybe)
  then KRet (mkApp (i64 (app_i st + 1)) (app_nok st) (i64 (app_nmay st + 1)))
  else OneClientAppend c fuel st.

(** The control points of [OneClientAppend]; [AWrite] holds what the Get returned. *)
Inductive apoint :=
  | ASel (st : app_state)
  | ARead (st : app_state) (fuel : nat)
  | AWrite (st : app_state) (fuel : nat) (es : list EntryN)
  | ABack (st : app_state)
  | AFin (st : app_state).

Definition aconc (c : nat) (p : apoint) : cstat app_state :=
  match p with
  | ASel st => AtSelect st
  | ARead st fuel => Running (OneClientAppend (Z.of_nat c) fuel st)
  | AWrite st fuel es => Running (kbind
      (PutJson "k" (es ++ [mkEntryN (Z.of_nat c) (app_i st)]) (Z.of_nat (length es) + 1))
      (after_append (Z.of_nat c) fuel st))
  | ABack st => Running (KRet st)
  | AFin st => Finished (OneClientAppend_res st)
  end.

Definition apoint_state (p : apoint) : app_state :=
  match p with ASel st | ARead st _ | AWrite st _ _ | ABack st | AFin st => st end.

(** The appends of client [c] in the value. *)
Definition appends (c : Z) (es : list EntryN) : Z := occ c (n_Id <$> es).

(** A client has tried [app_i] appends; every one answered OK is in the value. *)
Definition astate_ok (n : nat) (es : list EntryN) (c : Z) (st : app_state) : Prop :=
  0 <= app_nok st <= appends c es /\ 0 <= app_nmay st
  /\ app_i st = app_nok st + app_nmay st /\ app_i st <= Z.of_nat n.

(** The maps of [CheckAppends] about client [c]. *)
Definition tally (m : gmap Z Z * gmap Z Z) (es : list EntryN) (c i : Z) : Prop :=
  exists E K, m.1 !! c = Some E /\ m.2 !! c = Some K /\ E = appends c es + K /\ 0 <= K /\ E <= i.

Definition awrite_ok (es : list EntryN) (p : apoint) : Prop :=
  match p with AWrite _ _ es' => es' `prefix_of` es | _ => True end.

Record ainv (n : nat) (s : S) (cs : list (cstat app_state)) (ps : list apoint)
    (es : list EntryN) (m : gmap Z Z * gmap Z Z) : Prop := {
  ainv_conc c : cs !! c = aconc c <$> ps !! c;
  ainv_length : length ps = nclnt;
  ainv_entry : exists b, Marshal es = Some b /\ entry s "k" = Some (mkVV b (Z.of_nat (length es) + 1));
  ainv_scan : scan_entries (zeroes nclnt, zeroes nclnt) es = Ret m;
  ainv_dom c : is_Some (m.1 !! c) -> 0 <= c < Z.of_nat nclnt;
  ainv_steps : Z.of_nat (length es) <= Z.of_nat n;
  ainv_client c p : ps !! c = Some p ->
    awrite_ok es p /\ astate_ok n es (Z.of_nat c) (apoint_state p)
    /\ tally m es (Z.of_nat c) (app_i (apoint_state p))
}.

Lemma aconc_lookups n s cs ps es m c p p' :
  ainv n s cs ps es m -> ps !! c = Some p ->
  forall d, <[c := aconc c p']> cs !! d = aconc d <$> <[c := p']> ps !! d.
Proof.
  intros Hi Hp d. destruct (decide (c = d)) as [<-|Hne].
  - rewrite !list_lookup_insert_eq; [done|by eapply lookup_lt_Some|].
    assert (is_Some (cs !! c)) as [x Hx] by (rewrite (ainv_conc _ _ _ _ _ _ Hi), Hp; by eexists).
    by eapply lookup_lt_Some.
  - rewrite !list_lookup_insert_ne by done. apply Hi.
Qed.

(** A client moves and the service does not. *)
Lemma ainv_move n s cs ps es m c p p' :
  ainv n s cs ps es m -> ps !! c = Some p -> awrite_ok es p' ->
  astate_ok (Datatypes.S n) es (Z.of_nat c) (apoint_state p') ->
  app_i (apoint_state p) <= app_i (apoint_state p') ->
  ainv (Datatypes.S n) s (<[c := aconc c p']> cs) (<[c := p']> ps) es m.
Proof.
  intros Hi Hp Hw Hst Hle. split; try apply Hi.
  - by eapply aconc_lookups.
  - rewrite length_insert. apply Hi.
  - pose proof (ainv_steps _ _ _ _ _ _ Hi). lia.
  - intros d q Hq. apply list_lookup_insert_Some in Hq as [(->&->&_)|[Hne Hq]].
    + destruct (ainv_client _ _ _ _ _ _ Hi _ _ Hp) as (_&_&(E&K&?&?&?&?&?)).
      split; [done|]. split; [done|]. exists E, K. repeat split; try done. lia.
    + destruct (ainv_client _ _ _ _ _ _ Hi _ _ Hq) as (?&(?&?&?&?)&?).
      split; [done|]. split; [|done]. unfold astate_ok. lia.
Qed.

Lemma appends_snoc c es e :
  appends c (es ++ [e]) = appends c es + (if decide (c = n_Id e) then 1 else 0).
Proof. unfold appends. rewrite fmap_app, occ_app. simpl. rewrite occ_cons, occ_nil. lia. Qed.

(** One more entry, as [CheckAppends] sees it. *)
Lemma scan_entry_append m es c i :
  tally m es c i -> 0 <= i < 2 ^ 62 -> exists m', scan_entry m (mkEntryN c i) = Ret m'
    /\ tally m' (es ++ [mkEntryN c i]) c (i + 1)
    /\ (forall d, d <> c -> m'.1 !! d = m.1 !! d /\ m'.2 !! d = m.2 !! d).
Proof.
  destruct m as [ex sk]. intros (E&K&HE&HK&HEK&HK0&Hle) Hi. simpl in HE, HK.
  pose proof (occ_nonneg c (n_Id <$> es)) as Hocc. fold (appends c es) in Hocc.
  unfold scan_entry. simpl. rewrite HE, HK. simpl. rewrite decide_False by lia.
  case_decide as Heq; eexists; (split; [reflexivity|]); (split; [|intros d Hd; simpl; by rewrite ?lookup_insert_ne by done]).
  - exists (i + 1), K. simpl. rewrite lookup_insert_eq, Heq, i64_small by lia.
    rewrite appends_snoc, decide_True by done. repeat split; try done; lia.
  - exists (i + 1), (K + (i - E)). simpl. rewrite !lookup_insert_eq.
    rewrite (i64_small (i + 1)), (i64_small (i - E)), (i64_small (K + (i - E))) by lia.
    rewrite appends_snoc, decide_True by done. repeat split; try done; lia.
Qed.

(** A client's append takes effect. *)
Lemma ainv_append n s s' cs ps es m c st fuel p' b :
  ainv n s cs ps es m -> ps !! c = Some (AWrite st fuel es) -> (Z.of_nat n + 1 < 2 ^ 62)%Z ->
  let es' := es ++ [mkEntryN (Z.of_nat c) (app_i st)] in
  Marshal es' = Some b -> entry s' "k" = Some (mkVV b (Z.of_nat (length es) + 1 + 1)) ->
  awrite_ok es' p' -> astate_ok (Datatypes.S n) es' (Z.of_nat c) (apoint_state p') ->
  app_i (apoint_state p') = app_i st + 1 ->
  exists m', ainv (Datatypes.S n) s' (<[c := aconc c p']> cs) (<[c := p']> ps) es' m'.
Proof.
  intros Hi Hp Hn es' Hb He Hw Hst Hinc.
  destruct (ainv_client _ _ _ _ _ _ Hi _ _ Hp) as (_&(?&?&?&?)&Htal). simpl in *.
  destruct (scan_entry_append _ _ _ _ Htal ltac:(lia)) as (m'&Hm'&Htal'&Hoth).
  exists m'. split.
  - by eapply aconc_lookups.
  - rewrite length_insert. apply Hi.
  - exists b. split; [done|]. rewrite He. unfold es'. rewrite length_app. simpl. do 2 f_equal. lia.
  - unfold es'. rewrite scan_entries_snoc, (ainv_scan _ _ _ _ _ _ Hi). done.
  - intros d Hd. destruct (decide (d = Z.of_nat c)) as [->|Hne].
    + apply lookup_lt_Some in Hp. rewrite (ainv_length _ _ _ _ _ _ Hi) in Hp. lia.
    + apply (ainv_dom _ _ _ _ _ _ Hi). by rewrite <-(proj1 (Hoth d Hne)).
  - unfold es'. rewrite length_app. simpl. pose proof (ainv_steps _ _ _ _ _ _ Hi). lia.
  - intros d q Hq. apply list_lookup_insert_Some in Hq as [(->&->&_)|[Hne Hq]].
    + split; [done|]. split; [done|]. by rewrite Hinc.
    + destruct (ainv_client _ _ _ _ _ _ Hi _ _ Hq) as (Hwq&(?&?&?&?)&(E&K&?&?&?&?&?)).
      assert (appends (Z.of_nat d) es' = appends (Z.of_nat d) es) as Happ.
      { unfold es'. rewrite appends_snoc. simpl. rewrite decide_False by lia. lia. }
      destruct (Hoth (Z.of_nat d) ltac:(lia)) as [Hd1 Hd2]. split; [|split].
      * destruct q; try done. simpl in *. by apply prefix_app_r.
      * unfold astate_ok. rewrite Happ. lia.
      * exists E, K. rewrite Hd1, Hd2, Happ. done.
Qed.

(** Where a client is after the answer to its Put. *)
Definition next_append (st : app_state) (fuel : nat) (err : Err) : apoint :=
  if decide (err = OK)
  then ABack (mkApp (i64 (app_i st + 1)) (i64 (app_nok st + 1)) (app_nmay st))
  else if decide (err = ErrMaybe)
  then ABack (mkApp (i64 (app_i st + 1)) (app_nok st) (i64 (app_nmay st + 1)))
  else ARead st fuel.

Lemma aconc_next c st fuel err :
  aconc c (next_append st fuel err) = Running (after_append (Z.of_nat c) fuel st err).
Proof. unfold next_append, after_append. by repeat case_decide. Qed.

Lemma ainv_put n s s' cs ps es m c st fuel es0 b e :
  ainv n s cs ps es m -> ps !! c = Some (AWrite st fuel es0) -> (Z.of_nat n + 1 < 2 ^ 62)%Z ->
  Marshal (es0 ++ [mkEntryN (Z.of_nat c) (app_i st)]) = Some b ->
  ck_put s (mkPutArgs "k" b (Z.of_nat (length es0) + 1)) e s' ->
  exists es' m', ainv (Datatypes.S n) s' (<[c := aconc c (next_append st fuel e)]> cs)
    (<[c := next_append st fuel e]> ps) es' m'.
Proof.
  intros Hi Hp Hn Hb Hput.
  destruct (ainv_client _ _ _ _ _ _ Hi _ _ Hp) as (Hpre&(?&?&?&?)&_). simpl in *.
  destruct (ainv_entry _ _ _ _ _ _ Hi) as (b0&_&Hent).
  pose proof (ainv_steps _ _ _ _ _ _ Hi). pose proof (prefix_length _ _ Hpre).
  apply ck_put_cases in Hput as [(Hv&He&Hent'&_)|(Hv&->&He)]; [| |lia|lia];
    unfold sver in Hv; rewrite Hent in Hv; simpl in Hv.
  - assert (es0 = es) as ->.
    { destruct Hpre as [[|x t] ->]; [by rewrite app_nil_r|]. rewrite length_app in Hv. simpl in Hv. lia. }
    exists (es ++ [mkEntryN (Z.of_nat c) (app_i st)]).
    destruct He as [->| ->]; (eapply ainv_append; [done|done|done|done|done|done| |]);
      simpl; rewrite ?i64_small by lia; try lia; unfold astate_ok; simpl;
      rewrite appends_snoc, decide_True by done; lia.
  - exists es, m. destruct He as [->|[[-> _]|[-> Hno]]]; [| |congruence];
      (eapply ainv_move; [done|done|done| |]);
      simpl; rewrite ?i64_small by lia; unfold astate_ok; simpl; lia.
Qed.

Lemma GetJson_appends s es b r :
  entry s "k" = Some (mkVV b (Z.of_nat (length es) + 1)) -> Marshal es = Some b -> ck_get s "k" r ->
  resume (GetJson (V:=list EntryN) "k") r
  = KRet (es, Z.of_nat (length es) + 1).
Proof.
  intros He Hm Hg. destruct r as [[val n] e]. apply ck_get_law in Hg. rewrite He in Hg.
  destruct Hg as (->&->&->). simpl. by rewrite (Unmarshal_Marshal _ _ Hm).
Qed.

(** The first call of a turn, and its continuation on an answer of the service. *)
Lemma aconc_read n s cs ps es m c st fuel r :
  ainv n s cs ps es m -> ck_get s "k" r ->
  exists k, aconc c (ARead st (Datatypes.S fuel)) = Running (KGet "k" k)
    /\ Running (k r) = aconc c (AWrite st fuel es).
Proof.
  intros Hi Hg. destruct (ainv_entry _ _ _ _ _ _ Hi) as (b&Hb&He).
  pose proof (GetJson_appends _ _ _ _ He Hb Hg) as Hget.
  eexists. split; [cbn [aconc OneClientAppend GetJson kbind]; reflexivity|].
  cbn [resume GetJson] in Hget. cbv beta. rewrite Hget. done.
Qed.

Lemma aconc_write c st fuel es :
  exists b, Marshal (es ++ [mkEntryN (Z.of_nat c) (app_i st)]) = Some b
    /\ aconc c (AWrite st fuel es)
       = Running (KPut (mkPutArgs "k" b (Z.of_nat (length es) + 1)) (after_append (Z.of_nat c) fuel st)).
Proof.
  destruct (Marshal_total (es ++ [mkEntryN (Z.of_nat c) (app_i st)])) as [b Hb].
  exists b. split; [done|]. cbn [aconc]. unfold PutJson. by rewrite Hb.
Qed.

Lemma ainv_lookup n s cs ps es m c x :
  ainv n s cs ps es m -> cs !! c = Some x -> exists p, ps !! c = Some p /\ x = aconc c p.
Proof.
  intros Hi Hx. rewrite (ainv_conc _ _ _ _ _ _ Hi) in Hx. destruct (ps !! c) as [p|]; [|done].
  exists p. injection Hx as <-. done.
Qed.

Lemma astate_ok_S n es c st : astate_ok n es c st -> astate_ok (Datatypes.S n) es c st.
Proof. unfold astate_ok. lia. Qed.

Lemma ainv_step n s cs ps es m cf' :
  ainv n s cs ps es m -> (Z.of_nat n + 1 < 2 ^ 62)%Z ->
  tstep turn OneClientAppend_res reliable (s, cs) cf' ->
  exists ps' es' m', ainv (Datatypes.S n) cf'.1 cf'.2 ps' es' m'.
Proof.
  intros Hi Hn Hs.
  assert (forall c p p', ps !! c = Some p -> awrite_ok es p' -> apoint_state p' = apoint_state p ->
    exists ps' es' m', ainv (Datatypes.S n) s (<[c := aconc c p']> cs) ps' es' m') as Hmove.
  { intros c p p' Hp Hw Heq. exists (<[c := p']> ps), es, m. eapply ainv_move; [done|done|done| |].
    - rewrite Heq. apply astate_ok_S, (ainv_client _ _ _ _ _ _ Hi _ _ Hp).
    - by rewrite Heq. }
  inversion Hs as [s0 cs0 c st fuel r Hc|s0 cs0 c st Hc|s0 cs0 c k' k r Hc Hg
    |s0 cs0 c a k e s' Hc Hp Hr|s0 cs0 c st Hc]; subst; simpl;
    destruct (ainv_lookup _ _ _ _ _ _ _ _ Hi Hc) as (p&Hps&Hx).
  - destruct p; try done. injection Hx as ->. by apply (Hmove c _ (ARead st0 fuel) Hps).
  - destruct p; try done. injection Hx as ->. by apply (Hmove c _ (AFin st0) Hps).
  - destruct p as [|st [|fuel]|st fuel es0| |]; try done.
    + assert (k' = "k"%string) as ->.
      { cbn [aconc OneClientAppend GetJson kbind] in Hx. injection Hx as -> _. done. }
      destruct (aconc_read _ _ _ _ _ _ c st fuel _ Hi Hg) as (k0&He&Hk). rewrite He in Hx.
      injection Hx as ->. rewrite Hk. apply (Hmove c _ (AWrite st fuel es) Hps); [by exists []; rewrite app_nil_r|done].
    + destruct (aconc_write c st fuel es0) as (b&_&He). by rewrite He in Hx.
  - destruct p as [|st [|fuel]|st fuel es0| |]; try done.
    destruct (aconc_write c st fuel es0) as (b&Hb&He). rewrite He in Hx. injection Hx as -> ->.
    destruct (ainv_put _ _ _ _ _ _ _ _ _ _ _ _ _ Hi Hps Hn Hb Hp) as (es'&m'&Hi').
    rewrite aconc_next in Hi'. by exists (<[c := next_append st fuel e]> ps), es', m'.
  - destruct p as [|st1 [|fuel]|st1 fuel es0|st1|]; try done.
    + destruct (aconc_write c st1 fuel es0) as (b&_&He). by rewrite He in Hx.
    + injection Hx as ->. by apply (Hmove c _ (ASel st1) Hps).
Qed.

Lemma ainv_init s b :
  Marshal (@nil EntryN) = Some b -> entry s "k" = Some (mkVV b 1) ->
  ainv 0 s (spawn nclnt OneClientAppend_init) (replicate nclnt (ASel OneClientAppend_init))
    [] (zeroes nclnt, zeroes nclnt).
Proof.
  intros Hb He. split.
  - intros c. unfold spawn. destruct (decide (c < nclnt)%nat) as [Hc|Hc].
    + by rewrite !lookup_replicate_2.
    + by rewrite !lookup_ge_None_2 by (rewrite length_replicate; lia).
  - apply length_replicate.
  - by exists b.
  - done.
  - intros c. apply zeroes_dom.
  - done.
  - intros c p [-> Hc]%lookup_replicate. split; [done|]. split; [unfold astate_ok, appends; cbn; rewrite occ_nil; lia|].
    exists 0, 0. simpl. rewrite zeroes_lookup by done. done.
Qed.

Lemma ainv_no_crash n s cs ps es m c x : ainv n s cs ps es m -> cs !! c <> Some (Running (KCrash x)).
Proof.
  intros Hi Hc. destruct (ainv_lookup _ _ _ _ _ _ _ _ Hi Hc) as (p&_&Hx).
  destruct p as [|st [|fuel]|st fuel es0| |]; try done.
  destruct (aconc_write c st fuel es0) as (b&_&He). by rewrite He in Hx.
Qed.

Lemma check_clients_ok sk rs order :
  (forall c x, (c, x) ∈ order -> check_client sk rs c x = Ret ()) -> check_clients sk rs order = Ret ().
Proof.
  induction order as [|[c x] order IH]; intros Ho; [done|]. cbn [check_clients].
  rewrite Ho by (by left). run_go. apply IH. intros. apply Ho. by right.
Qed.

Lemma ainv_check n s cs ps es m rs order :
  ainv n s cs ps es m -> (Z.of_nat n + 1 < 2 ^ 62)%Z -> collect cs = Some rs ->
  (forall m c x, (c, x) ∈ order m -> m !! c = Some x) ->
  CheckAppends order es nclnt rs (Z.of_nat (length es) + 1) = Ret ().
Proof.
  intros Hi Hn Hc Hord. unfold CheckAppends. rewrite (ainv_scan _ _ _ _ _ _ Hi). run_go.
  destruct m as [ex sk]. pose proof (ainv_steps _ _ _ _ _ _ Hi).
  rewrite i64_small by lia. rewrite decide_False by lia.
  apply check_clients_ok. intros c x Hx%Hord.
  pose proof (ainv_dom _ _ _ _ _ _ Hi c ltac:(by eexists)) as Hdom.
  destruct (ps !! Z.to_nat c) as [p|] eqn:Hp.
  2: { apply lookup_ge_None in Hp. rewrite (ainv_length _ _ _ _ _ _ Hi) in Hp. lia. }
  pose proof (ainv_conc _ _ _ _ _ _ Hi (Z.to_nat c)) as Hcs. rewrite Hp in Hcs. simpl in Hcs.
  apply mapM_Some in Hc. destruct (Forall2_lookup_l _ _ _ _ _ Hc Hcs) as (r&Hr&Hf).
  destruct p; try done. simpl in Hf. injection Hf as <-.
  destruct (ainv_client _ _ _ _ _ _ Hi _ _ Hp) as (_&(?&?&?&?)&(E&K&HE&HK&?&?&?)). simpl in *.
  rewrite Z2Nat.id in * by lia. rewrite Hx in HE. injection HE as ->.
  unfold check_client. rewrite decide_False by lia. unfold index. rewrite Hr. run_go.
  rewrite HK. simpl. rewrite i64_small by lia. by rewrite !decide_False by lia.
Qed.
End append_test.

(** ** Properties *)

(** C10: the put test accepts every run of a correct service.  Any number of clients of
    [OneClientPut] Put to one key in any interleaving, over any clerk that satisfies the
    interface: no client ever fails the test (no wrong error, value or JSON text), and
    once all have returned and one of them has finished a Put, [CheckPutConcurrent]
    passes, on a reliable network (no ErrMaybe) with the exact count. *)
Theorem put_test_passes {S} `{IKVClerk S} `{Json EntryV} key ka reliable nclnt n s s' cs :
  entry s key = None -> (Z.of_nat n < 2 ^ 62)%Z ->
  nsteps (tstep (OneClientPut false (key :: ka)) fst reliable) n
    (s, spawn nclnt (OneClientPut_init (key :: ka))) (s', cs) ->
  (forall c x, cs !! c <> Some (Running (KCrash x)))
  /\ forall rs r, collect cs = Some rs -> (exists q, q ∈ rs /\ 0 < Nok q + Nmaybe q) ->
     ck_get s' key r ->
     resume (CheckPutConcurrent key rs (mkClntRes 0 0) reliable) r
     = KRet (mkClntRes (total Nok rs) (total Nmaybe rs)).
Proof.
  intros He Hn Hs.
  assert (exists ps, pinv key reliable n s' cs ps) as [ps Hi].
  { apply (nsteps_inv _ _ _ (fun n cf => exists ps, pinv key reliable n cf.1 cf.2 ps) n) with (m := 0%nat) in Hs;
      [exact Hs| |lia|eexists; by apply pinv_init].
    intros m [s1 cs1] cf' Hm [ps Hi] Hst. eapply pinv_step; [done|lia|done]. }
  split; [intros c x; by eapply pinv_no_crash|].
  intros rs r Hc (q&Hq&Hpos) Hg. eapply pinv_check; [done|done|done| |done].
  destruct (entry s' key) eqn:E; [by eexists|]. exfalso.
  pose proof (collect_points _ _ _ _ _ _ _ Hi Hc) as ->. destruct (total_PFin rs) as [Eo Em].
  pose proof (pinv_low _ _ _ _ _ _ Hi) as Hlo. pose proof (pinv_none _ _ _ _ _ _ Hi E) as Hno.
  unfold sver in Hlo. rewrite E in Hlo. simpl in Hlo. rewrite Eo in Hlo. rewrite Em in Hno.
  assert (forall r, r ∈ rs -> res_ok r) as Hrs.
  { intros x Hx. apply (pinv_ok _ _ _ _ _ _ Hi (PFin x)), list_elem_of_fmap. by exists x. }
  pose proof (total_elem Nok rs q (fun x Hx => proj1 (Hrs x Hx)) Hq).
  pose proof (total_elem Nmaybe rs q (fun x Hx => proj2 (Hrs x Hx)) Hq). lia.
Qed.

#[local] Instance EntryV_eq_dec : EqDecision EntryV.
Proof. solve_decision. Defined.
#[local] Instance EntryV_countable : Countable EntryV.
Proof. refine (inj_countable' (fun e => (Id e, V e)) (fun p => mkEntryV p.1 p.2) _). by intros []. Defined.
#[local] Instance EntryN_eq_dec : EqDecision EntryN.
Proof. solve_decision. Defined.
#[local] Instance EntryN_countable : Countable EntryN.
Proof. refine (inj_countable' (fun e => (n_Id e, N e)) (fun p => mkEntryN p.1 p.2) _). by intros []. Defined.

(** A concrete text format. *)
#[local] Program Instance bits_text {A} `{Countable A} : Json A := {|
  Marshal v := Some (bits_of (encode v));
  Unmarshal b := decode (of_bits b);
|}.
Next Obligation. intros. by eexists. Qed.
Next Obligation. intros A ? ? v b [= <-]. by rewrite of_bits_of, decode_encode. Qed.

(** One client, one turn on a reliable network. *)
Definition witness_text : string := bits_of (encode (mkEntryV 0 0)).
Definition witness_server : KVServer := mkKV {["k" := mkVV witness_text 1]}.

Lemma put_test_passes_witness :
  resume (CheckPutConcurrent "k" [mkClntRes 1 0] (mkClntRes 0 0) true) (witness_text, 1, OK) = KRet (mkClntRes 1 0).
Proof.
  assert (nsteps (tstep (OneClientPut false ["k"]) fst true) 5
    (MakeKVServer, spawn 1 (OneClientPut_init ["k"])) (witness_server, [Finished (mkClntRes 1 0)])) as Hs.
  { eapply nsteps_l; [apply (t_turn _ _ _ _ _ 0 (OneClientPut_init ["k"]) 1 0); reflexivity|].
    eapply nsteps_l.
    { eapply (t_put _ _ _ _ _ 0 (mkPutArgs "k" witness_text 0) _ OK witness_server); [reflexivity| |done].
      left. split; [reflexivity|]. split; [vm_compute; reflexivity|]. by left. }
    eapply nsteps_l.
    { eapply (t_get _ _ _ _ _ 0 "k" _ (witness_text, 1, OK)); [reflexivity|reflexivity]. }
    eapply nsteps_l.
    { apply (t_loop _ _ _ _ _ 0 (mkClntRes 1 0, {["k" := 1]})). vm_compute. reflexivity. }
    eapply nsteps_l; [eapply (t_done _ _ _ _ _ 0); reflexivity|]. apply nsteps_O. }
  refine (proj2 (put_test_passes "k" [] true 1 5 MakeKVServer witness_server _ _ _ Hs)
            [mkClntRes 1 0] (witness_text, 1, OK) _ _ _).
  - reflexivity.
  - reflexivity.
  - reflexivity.
  - exists (mkClntRes 1 0). split; [by left|done].
  - reflexivity.
Defined.

(** C24: the append test accepts every run of a correct service.  Clients of
    [OneClientAppend] read the list under "k", append their next entry and Put it back
    at the version they read, moving on after an ErrMaybe; in any interleaving no client
    fails the test, and once all have returned, the list a Get returns passes
    [CheckAppends] with the version, in whatever order the maps are iterated: no
    accepted append is lost, repeated or reordered. *)
Theorem append_test_passes {S} `{IKVClerk S} `{Json (list EntryN)} reliable nclnt n s s' cs b order :
  Marshal (@nil EntryN) = Some b -> entry s "k" = Some (mkVV b 1) -> (Z.of_nat n + 1 < 2 ^ 62)%Z ->
  (forall m c x, (c, x) ∈ order m -> m !! c = Some x) ->
  nsteps (tstep (fun c fuel _ st => OneClientAppend c fuel st) OneClientAppend_res reliable) n
    (s, spawn nclnt OneClientAppend_init) (s', cs) ->
  (forall c x, cs !! c <> Some (Running (KCrash x)))
  /\ forall rs r, collect cs = Some rs -> ck_get s' "k" r ->
     exists es ver, resume (GetJson "k") r = KRet (es, ver)
       /\ CheckAppends order es nclnt rs ver = Ret ().
Proof.
  intros Hb He Hn Hord Hs.
  assert (exists ps es m, ainv nclnt n s' cs ps es m) as (ps&es&m&Hi).
  { apply (nsteps_inv _ _ _ (fun n cf => exists ps es m, ainv nclnt n cf.1 cf.2 ps es m) n)
      with (m := 0%nat) in Hs; [exact Hs| |lia|do 3 eexists; by eapply ainv_init].
    intros k [s1 cs1] cf' Hm (ps&es&m&Hi) Hst. eapply ainv_step; [done|lia|done]. }
  split; [intros c x; by eapply ainv_no_crash|]. intros rs r Hc Hg.
  destruct (ainv_entry _ _ _ _ _ _ _ Hi) as (b'&Hb'&He').
  exists es, (Z.of_nat (length es) + 1). split; [by eapply GetJson_appends|]. by eapply ainv_check.
Qed.

Definition text_nil : string := bits_of (encode (@nil EntryN)).
Definition text_one : string := bits_of (encode [mkEntryN 0 0]).

Lemma append_test_passes_witness :
  exists es ver, resume (GetJson "k") (text_one, 2, OK) = KRet (es, ver)
    /\ CheckAppends map_to_list es 1 [mkClntRes 0 1] ver = Ret ().
Proof.
  pose (s0 := mkKV {["k" := mkVV text_nil 1]}). pose (s1 := mkKV {["k" := mkVV text_one 2]}).
  assert (nsteps (tstep (fun c fuel _ st => OneClientAppend c fuel st) OneClientAppend_res false) 5
    (s0, spawn 1 OneClientAppend_init) (s1, [Finished (mkClntRes 0 1)])) as Hs.
  { eapply nsteps_l; [apply (t_turn _ _ _ _ _ 0 OneClientAppend_init 1 0); reflexivity|].
    eapply nsteps_l.
    { eapply (t_get _ _ _ _ _ 0 "k" _ (text_nil, 1, OK)); [reflexivity|reflexivity]. }
    eapply nsteps_l.
    { eapply (t_put _ _ _ _ _ 0 (mkPutArgs "k" text_one 1) _ ErrMaybe s1); [vm_compute; reflexivity| |done].
      left. split; [reflexivity|]. split; [vm_compute; reflexivity|]. by right. }
    eapply nsteps_l.
    { apply (t_loop _ _ _ _ _ 0 (mkApp 1 0 1)). vm_compute. reflexivity. }
    eapply nsteps_l; [eapply (t_done _ _ _ _ _ 0); reflexivity|]. apply nsteps_O. }
  refine (proj2 (append_test_passes false 1 5 s0 s1 _ text_nil map_to_list _ _ _ _ Hs)
            [mkClntRes 0 1] (text_one, 2, OK) _ _).
  - reflexivity.
  - reflexivity.
  - reflexivity.
  - intros m c x. apply elem_of_map_to_list.
  - reflexivity.
  - reflexivity.
Defined.

(** [PutAtLeastOnce] does what its name says.  Called with a version that is not ahead
    of the key's, while other clients stay off the key, it returns after at most one Put
    per version it is behind and one per ErrMaybe, never fails the test, and leaves its
    value at the version it returns. *)
Theorem put_at_least_once_succeeds {S} `{IKVClerk S} (mine : string -> Prop) key value fuel ver s tr s' out :
  mine key -> 0 <= ver <= sver s key -> (Z.of_nat fuel + sver s key + 1 < 2 ^ 64)%Z ->
  sver s key - ver + maybes tr < Z.of_nat fuel ->
  krun mine s (PutAtLeastOnce fuel key value ver) tr s' out ->
  exists ver', out = KRet ver' /\ ver < ver' /\ entry s' key = Some (mkVV value ver').
Proof. intros. by eapply put_at_least_once_run. Qed.

Lemma put_at_least_once_succeeds_witness :
  exists ver', KRet 2 = KRet ver' /\ 0 < ver'
    /\ entry (mkKV {["k"%string := mkVV "v" 2]}) "k" = Some (mkVV "v" ver').
Proof.
  pose (s1 := mkKV {["k"%string := mkVV "v" 1]}). pose (s2 := mkKV {["k"%string := mkVV "v" 2]}).
  refine (put_at_least_once_succeeds (eq "k"%string) "k" "v" 3 0 MakeKVServer [ErrMaybe; OK] s2 _ eq_refl _ _ _ _).
  - vm_compute. split; discriminate.
  - vm_compute. reflexivity.
  - vm_compute. reflexivity.
  - eapply (krun_put _ _ _ _ ErrMaybe s1).
    { left. split; [reflexivity|]. split; [vm_compute; reflexivity|]. by right. }
    eapply (krun_put _ _ _ _ OK s2).
    { left. split; [reflexivity|]. split; [vm_compute; reflexivity|]. by left. }
    apply krun_ret.
Defined.

(** [PutAtLeastOnceJson] ignores the version it is given: it always sends version 0.
    On a key that exists it stores nothing and returns all the same. *)
Theorem put_at_least_once_json_stores_nothing {S} `{IKVClerk S} {V} `{Json V} (mine : string -> Prop) key
    (value : V) fuel ver s tr s' out :
  mine key -> 0 < sver s key -> krun mine s (PutAtLeastOnceJson fuel key value ver) tr s' out ->
  entry s' key = entry s key /\ (maybes tr < Z.of_nat fuel -> exists ver', out = KRet ver').
Proof.
  intros Hm. revert ver s tr. induction fuel as [|fuel IH]; intros ver s tr Hv Hr.
  - pose proof (occ_nonneg ErrMaybe tr). unfold maybes. split; [|lia].
    by apply krun_inv_fuel in Hr as [_ Hs%(fun Hs => Hs key Hm)].
  - cbn [PutAtLeastOnceJson] in Hr. unfold PutJson in Hr.
    destruct (Marshal_total value) as [b Hb]. rewrite Hb in Hr. cbn [kbind] in Hr.
    apply krun_inv_put in Hr as (s1&e&s2&tr'&Hs1&Hp&->&Hr).
    apply ck_put_cases in Hp as [(Hk&_)|(_&->&He)]; [rewrite (sver_same mine s) in Hk by done; lia| |lia|lia].
    rewrite <-(Hs1 key Hm). unfold maybes. rewrite occ_cons. fold (maybes tr').
    destruct (decide (e <> ErrMaybe)) as [Hne|Heq].
    + apply krun_inv_ret in Hr as (->&_&Hs). split; [by apply Hs|]. by eexists.
    + apply IH in Hr; [|by rewrite (sver_same mine s)]. destruct Hr as [Hent Hret].
      split; [done|]. intros Hf. apply Hret. destruct (decide (ErrMaybe = e)); [lia|].
      by destruct Heq.
Qed.

Lemma put_at_least_once_json_stores_nothing_witness :
  entry witness_server "k" = entry witness_server "k"
  /\ (maybes [ErrVersion] < Z.of_nat 1 -> exists ver', KRet 5 = KRet ver').
Proof.
  refine (put_at_least_once_json_stores_nothing (eq "k"%string) "k" (mkEntryV 7 7) 1 5 witness_server
            [ErrVersion] witness_server _ eq_refl _ _).
  - vm_compute. reflexivity.
  - eapply (krun_put _ _ _ _ ErrVersion witness_server); [|apply krun_ret].
    right. split; [vm_compute; discriminate|]. split; [reflexivity|]. by left.
Defined.

(** The tests' spread of Puts works: the keys are distinct, so on a service without
    them every value is stored at version 1 whatever the Puts are answered, and every
    [CheckGet] passes while other clients stay off these keys. *)
Theorem spread_puts_pass {S} `{IKVClerk S} n va s tr s' out :
  length va = n -> (forall k, k ∈ MakeKeys n -> entry s k = None) ->
  krun (fun k => k ∈ MakeKeys n) s (SpreadPutsSize n va) tr s' out -> out = KRet ().
Proof.
  intros Hlen Hnone Hr. unfold SpreadPutsSize in Hr.
  assert ((zip (MakeKeys n) va).*1 = MakeKeys n) as Hk.
  { apply fst_zip. rewrite MakeKeys_length. lia. }
  eapply (put_all_run _ _ s [] tr s' out); [| | | | |exact Hr].
  - intros k v Hin. rewrite <-Hk. apply list_elem_of_fmap. by exists (k, v).
  - rewrite Hk. apply MakeKeys_NoDup.
  - intros k _ Hin. by apply elem_of_nil in Hin.
  - intros k v Hin. by apply elem_of_nil in Hin.
  - intros k. rewrite Hk. apply Hnone.
Qed.

Lemma spread_puts_pass_witness : (KRet () : kprog unit) = KRet ().
Proof.
  pose (s1 := mkKV {["k0"%string := mkVV "v" 1]}).
  refine (spread_puts_pass 1 ["v"%string] MakeKVServer [ErrMaybe] s1 _ eq_refl _ _).
  - reflexivity.
  - eapply (krun_put _ _ (mkPutArgs "k0" "v" 0) _ ErrMaybe s1).
    { left. split; [reflexivity|]. split; [vm_compute; reflexivity|]. by right. }
    eapply (krun_get _ _ "k0" _ ("v"%string, 1, OK)); [reflexivity|]. apply krun_ret.
Defined.
