(* ===== verification/RaftTest.v ===== *)
(** * The server around a Raft peer, and the tester's checks of it

    [src/src/tester1/persister.go], [src/src/raft1/server.go] and
    [src/src/raft1/test.go]: the persister, the server that reads a peer's apply channel,
    and the tester that collects what every server has applied and checks that they agree.

    The server talks to the tester through the interface [Itester], a class here; the
    tester of [test.go] is its instance.  Error messages are constructors with the data
    the code formats into text.  Commands are values of an arbitrary type; [None] is nil. *)

From S2P Require Import Prelude.
Local Open Scope Z_scope.

(** ** Persister *)

(** [None] is a nil slice. *)
Record Persister := mkPersister { raftstate : option string; snapshot : option string }.

Definition MakePersister : Persister := mkPersister None None.

(** A copy of a nil slice is empty, not nil. *)
Definition clone (orig : option string) : option string := Some (default ""%string orig).

Definition Checkpoint (ps : Persister) : Persister :=
  mkPersister (clone (raftstate ps)) (clone (snapshot ps)).

Definition ReadRaftState (ps : Persister) : option string := clone (raftstate ps).

Definition RaftStateSize (ps : Persister) : Z :=
  Z.of_nat (String.length (default ""%string (raftstate ps))).

Definition Save (rs sn : option string) (ps : Persister) : Persister := mkPersister (clone rs) (clone sn).

Definition ReadSnapshot (ps : Persister) : option string := clone (snapshot ps).

Definition SnapshotSize (ps : Persister) : Z :=
  Z.of_nat (String.length (default ""%string (snapshot ps))).

(** ** Messages *)

Section raft_test.
  Context {V : Type} `{EqDecision V}.

Abbreviation cmd := (option V).

Record ApplyMsg := mkApplyMsg {
  CommandValid : bool;
  Command : cmd;
  CommandIndex : Z;
  SnapshotValid : bool;
  Snapshot : option string;
  SnapshotIndex : Z;
}.

(** The error strings; [None] is the empty one. *)
Inductive apply_err :=
  | CommitMismatch (index : Z) (i : nat) (v : cmd) (j : nat) (old : cmd)
  | OutOfOrder (srv : nat) (index : Z)
  | OutOfOrderExpected (srv : nat) (expected got : Z)
  | NilSnapshot
  | DecodeFailed
  | SnapshotMismatch (srv : nat)
  | ErrRPC.

#[export] Instance apply_err_eq_dec : EqDecision apply_err.
Proof. solve_decision. Defined.

(** The interface from a server to the tester. *)
Class Itester (T : Type) := {
  it_CheckLogs : nat -> ApplyMsg -> T -> go (T * (option apply_err * bool));
  it_IngestLog : nat -> gmap Z cmd -> T -> go T;
  it_ApplyErr : nat -> apply_err -> T -> go T;
}.

(** The encoding of a snapshot by [labgob]: the last index, then the commands. *)
Class SnapCodec := {
  encode_snap : Z -> list cmd -> string;
  decode_snap : string -> option (Z * list cmd);
  snap_round_trip i l : decode_snap (encode_snap i l) = Some (i, l);
}.

(** ** The server *)

Definition SnapShotInterval : Z := 10.

Record rfsrv := mkRfsrv {
  rf_me : nat;
  lastApplied : Z;
  rf_log : gmap Z cmd;
}.

Section server.
  Context {T : Type} `{Itester T} `{SnapCodec}.

(** One message of [applier]'s channel. *)
Definition applier (m : ApplyMsg) (rs : rfsrv) (ts : T) : go T :=
  if negb (CommandValid m) then Ret ts
  else
    '(ts, (err_msg, prevok)) ← it_CheckLogs (rf_me rs) m ts;
    let err_msg := if decide (CommandIndex m > 1 /\ prevok = false)
                   then Some (OutOfOrder (rf_me rs) (CommandIndex m)) else err_msg in
    match err_msg with
    | Some e => it_ApplyErr (rf_me rs) e ts
    | None => Ret ts
    end.

(** [xlog[j]] becomes [log[j]] *)
Definition log_of (xlog : list cmd) : gmap Z cmd :=
  list_to_map (imap (fun j v => (Z.of_nat j, v)) xlog).

Definition ingestSnap (sn : option string) (index : Z) (rs : rfsrv) : rfsrv * option apply_err :=
  match sn with
  | None => (rs, Some NilSnapshot)
  | Some b =>
      match decode_snap b with
      | None => (rs, Some DecodeFailed)
      | Some (lastIncludedIndex, xlog) =>
          if decide (index <> -1 /\ index <> lastIncludedIndex)
          then (rs, Some (SnapshotMismatch (rf_me rs)))
          else (mkRfsrv (rf_me rs) lastIncludedIndex (log_of xlog), None)
      end
  end.

(** The commands a snapshot at [index] holds: a missing entry reads as nil. *)
Definition xlog_upto (index : Z) (log : gmap Z cmd) : list cmd :=
  (fun j => default None (log !! Z.of_nat j)) <$> seq 0 (Z.to_nat (index + 1)).

(** One message of [applierSnap]'s channel; the last component is the snapshot handed to
    Raft, if one is made. *)
Definition applierSnap (m : ApplyMsg) (rs : rfsrv) (ts : T)
    : go (rfsrv * T * option (Z * string)) :=
  '(rs, ts, sn, err_msg) ←
    (if SnapshotValid m then
       let '(rs, err_msg) := ingestSnap (Snapshot m) (SnapshotIndex m) rs in
       ts ← it_IngestLog (rf_me rs) (rf_log rs) ts;
       Ret (rs, ts, None, err_msg)
     else if CommandValid m then
       '(ts, err_msg) ←
         (if decide (CommandIndex m <> i64 (lastApplied rs + 1))
          then Ret (ts, Some (OutOfOrderExpected (rf_me rs) (i64 (lastApplied rs + 1)) (CommandIndex m)))
          else
            '(ts, (err_msg, prevok)) ← it_CheckLogs (rf_me rs) m ts;
            Ret (ts, if decide (err_msg <> Some ErrRPC /\ CommandIndex m > 1 /\ prevok = false)
                     then Some (OutOfOrder (rf_me rs) (CommandIndex m)) else err_msg));
       let rs := mkRfsrv (rf_me rs) (CommandIndex m) (<[CommandIndex m := Command m]> (rf_log rs)) in
       Ret (rs, ts,
            if decide (Z.rem (i64 (CommandIndex m + 1)) SnapShotInterval = 0)
            then Some (CommandIndex m, encode_snap (CommandIndex m) (xlog_upto (CommandIndex m) (rf_log rs)))
            else None,
            err_msg)
     else Ret (rs, ts, None, None));
  match err_msg with
  | Some e => ts ← it_ApplyErr (rf_me rs) e ts; Ret (rs, ts, sn)
  | None => Ret (rs, ts, sn)
  end.

(** [newRfsrv] with snapshots: an initial snapshot is ingested before the channel is read. *)
Definition newRfsrv (srv : nat) (ps : Persister) (snap : bool) (ts : T) : go (rfsrv * T) :=
  let sn := ReadSnapshot ps in
  let s := mkRfsrv srv 0 ∅ in
  if (snap && match sn with Some b => bool_decide (0 < String.length b)%nat | None => false end)%bool then
    let '(s, err) := ingestSnap sn (-1) s in
    match err with
    | Some e => ts ← it_ApplyErr srv e ts; Crash Fatal
    | None => ts ← it_IngestLog (rf_me s) (rf_log s) ts; Ret (s, ts)
    end
  else Ret (s, ts).

End server.

(** ** The tester *)

Record raftServer := mkRaftServer { applyErr : option apply_err; logs : gmap Z cmd }.

Definition newRaftServer : raftServer := mkRaftServer None ∅.

Definition entry (rs : raftServer) (i : Z) : option cmd := logs rs !! i.

Record Test := mkTest { srvs : list raftServer; maxIndex : Z }.

Definition set_srv (i : nat) (rs : raftServer) (ts : Test) : Test :=
  mkTest (<[i := rs]> (srvs ts)) (maxIndex ts).

(** The loop of [CheckLogs] over the servers, from number [j]: the last mismatch wins. *)
Fixpoint find_mismatch (i : nat) (m : ApplyMsg) (j : nat) (l : list raftServer)
    (err_msg : option apply_err) : option apply_err :=
  match l with
  | [] => err_msg
  | rs :: rest =>
      find_mismatch i m (S j) rest
        (match entry rs (CommandIndex m) with
         | Some old => if decide (old <> Command m)
                       then Some (CommitMismatch (CommandIndex m) i (Command m) j old) else err_msg
         | None => err_msg
         end)
  end.

Definition CheckLogs (i : nat) (m : ApplyMsg) (ts : Test) : go (Test * (option apply_err * bool)) :=
  me ← index (srvs ts) i;
  let err_msg := find_mismatch i m 0 (srvs ts) None in
  let prevok := match entry me (i64 (CommandIndex m - 1)) with Some _ => true | None => false end in
  let me := mkRaftServer (applyErr me) (<[CommandIndex m := Command m]> (logs me)) in
  Ret (mkTest (<[i := me]> (srvs ts))
         (if decide (CommandIndex m > maxIndex ts) then CommandIndex m else maxIndex ts),
       (err_msg, prevok)).

Definition IngestLog (i : nat) (xlog : gmap Z cmd) (ts : Test) : go Test :=
  me ← index (srvs ts) i;
  Ret (set_srv i (mkRaftServer (applyErr me) (foldl (fun m '(k, v) => <[k := v]> m) ∅ (map_to_list xlog))) ts).

Definition ApplyErr (i : nat) (err : apply_err) (ts : Test) : go Test :=
  me ← index (srvs ts) i;
  Ret (set_srv i (mkRaftServer (Some err) (logs me)) ts).

#[export] Instance Test_Itester : Itester Test := {
  it_CheckLogs := CheckLogs;
  it_IngestLog := IngestLog;
  it_ApplyErr := ApplyErr;
}.

(** How many servers have committed [index], and what. *)
Fixpoint n_committed (index : Z) (l : list raftServer) (count : Z) (c : cmd) : go (Z * cmd) :=
  match l with
  | [] => Ret (count, c)
  | rs :: rest =>
      match applyErr rs with
      | Some _ => Crash Fatal
      | None =>
          match entry rs index with
          | Some cmd1 =>
              if decide (count > 0 /\ c <> cmd1) then Crash Fatal
              else n_committed index rest (count + 1) cmd1
          | None => n_committed index rest count c
          end
      end
  end.

Definition nCommitted (index : Z) (ts : Test) : go (Z * cmd) := n_committed index (srvs ts) 0 None.

Definition checkNoAgreement (index : Z) (ts : Test) : go unit :=
  '(n, _) ← nCommitted index ts;
  if decide (n > 0) then Crash Fatal else Ret tt.

(** ** Leaders and terms *)

(** What the tester sees of a server: whether it is connected, and its [GetState]. *)
Record view := mkView { connected : bool; v_term : Z; v_leader : bool }.

(** [leaders[term] = append(leaders[term], i)], from server number [i]. *)
Fixpoint collect_leaders (i : nat) (vs : list view) (leaders : gmap Z (list nat)) : gmap Z (list nat) :=
  match vs with
  | [] => leaders
  | v :: rest =>
      collect_leaders (S i) rest
        (if (connected v && v_leader v)%bool
         then <[v_term v := default [] (leaders !! v_term v) ++ [i]]> leaders
         else leaders)
  end.

(** The loop over the map of leaders: [None] when a term has several. *)
Definition scan_leaders (order : list (Z * list nat)) : option Z :=
  foldl (fun acc '(term, ls) =>
           last ← acc;
           if decide (1 < length ls)%nat then None
           else Some (if decide (term > last) then term else last)) (Some (-1)) order.

(** One iteration of [checkOneLeader]. *)
Definition check_leaders (vs : list view) : go (option nat) :=
  let leaders := collect_leaders 0 vs ∅ in
  match scan_leaders (map_to_list leaders) with
  | None => Crash Fatal
  | Some lastTermWithLeader =>
      if decide (leaders = ∅) then Ret None
      else l ← index (default [] (leaders !! lastTermWithLeader)) 0; Ret (Some l)
  end.

(** [checkOneLeader] on the views of its iterations, at most ten. *)
Fixpoint checkOneLeader (iters : list (list view)) : go nat :=
  match iters with
  | [] => Crash Fatal
  | vs :: rest =>
      r ← check_leaders vs;
      match r with Some l => Ret l | None => checkOneLeader rest end
  end.

Fixpoint check_terms (vs : list view) (term : Z) : go Z :=
  match vs with
  | [] => Ret term
  | v :: rest =>
      if connected v then
        if decide (term = -1) then check_terms rest (v_term v)
        else if decide (term <> v_term v) then Crash Fatal
        else check_terms rest term
      else check_terms rest term
  end.

Definition checkTerms (vs : list view) : go Z := check_terms vs (-1).

Fixpoint checkNoLeader (vs : list view) : go unit :=
  match vs with
  | [] => Ret tt
  | v :: rest => if (connected v && v_leader v)%bool then Crash Fatal else checkNoLeader rest
  end.

(** ** Agreement *)

(** The inner loop of [one]: try every server once, from the one after [starts].  [start s]
    is the index if server [s] is connected, running and claims to lead. *)
Fixpoint try_servers (k n : nat) (start : nat -> option Z) (starts : nat) : nat * Z :=
  match k with
  | O => (starts, -1)
  | S k' =>
      let starts := ((starts + 1) mod n)%nat in
      match start starts with
      | Some index1 => (starts, index1)
      | None => try_servers k' n start starts
      end
  end.

(** The two seconds of polling: the tester's state at each poll. *)
Fixpoint poll (index expected : Z) (c : cmd) (polls : list Test) : go bool :=
  match polls with
  | [] => Ret false
  | ts :: rest =>
      '(nd, cmd1) ← nCommitted index ts;
      if decide (nd > 0 /\ nd >= expected /\ cmd1 = c) then Ret true
      else poll index expected c rest
  end.

(** One turn of the outer loop: the servers' answers to [Start], and the polls after. *)
Record round := mkRound { r_start : nat -> option Z; r_polls : list Test }.

(** [one]: [rounds] are the turns that fit into ten seconds; [finished] is whether the test
    was over when they ended. *)
Fixpoint one (c : cmd) (expectedServers : Z) (retry : bool) (n : nat) (rounds : list round)
    (finished : bool) (starts : nat) : go Z :=
  match rounds with
  | [] => if finished then Ret (-1) else Crash Fatal
  | r :: rest =>
      let '(starts, index) := try_servers n n (r_start r) starts in
      if decide (index <> -1) then
        ok ← poll index expectedServers c (r_polls r);
        if (ok : bool) then Ret index
        else if retry then one c expectedServers retry n rest finished starts
        else Crash Fatal
      else one c expectedServers retry n rest finished starts
  end.

End raft_test.
Arguments ApplyMsg : clear implicits.
Arguments apply_err : clear implicits.
Arguments raftServer : clear implicits.
Arguments Test : clear implicits.
Arguments rfsrv : clear implicits.
Arguments SnapCodec : clear implicits.
Arguments round : clear implicits.

(** ** Lemmas *)

Section facts.
  Context {V : Type} `{EqDecision V}.
  Implicit Types (ts : Test V) (m : ApplyMsg V) (rs : raftServer V).

(** Which entries of which server are vouched for. *)
Abbreviation vouched := (nat -> gset Z).

(** No two vouched entries of one index differ. *)
Definition agree (tr : vouched) (l : list (raftServer V)) : Prop :=
  forall i j a b k v w, l !! i = Some a -> l !! j = Some b -> k ∈ tr i -> k ∈ tr j ->
    entry a k = Some v -> entry b k = Some w -> v = w.

(** No two servers have different commands at one index. *)
Definition consistent (l : list (raftServer V)) : Prop :=
  forall a b k v w, a ∈ l -> b ∈ l -> entry a k = Some v -> entry b k = Some w -> v = w.

(** No server of [l] has another command at the index of [m]. *)
Definition fits (m : ApplyMsg V) (l : list (raftServer V)) : Prop :=
  forall rs old, rs ∈ l -> entry rs (CommandIndex m) = Some old -> old = Command m.

Lemma find_mismatch_None i m l : forall j err,
  find_mismatch i m j l err = None <-> err = None /\ fits m l.
Proof.
  induction l as [|rs l IH]; intros j err; simpl.
  - split; [|by intros [? _]]. intros ->. split; [done|]. by intros rs old ?%elem_of_nil.
  - rewrite IH. unfold fits. destruct (entry rs (CommandIndex m)) as [old|] eqn:Eo.
    + case_decide as Hd.
      * split; [by intros [? _]|]. intros [_ H]. exfalso. apply Hd, (H rs); [set_solver +|done].
      * set_solver.
    + set_solver.
Qed.

(** [CheckLogs] reports nothing exactly when the command fits. *)
Lemma CheckLogs_spec i m ts :
  (i < length (srvs ts))%nat ->
  exists rs prevok err, srvs ts !! i = Some rs /\
    CheckLogs i m ts =
      Ret (mkTest (<[i := mkRaftServer (applyErr rs) (<[CommandIndex m := Command m]> (logs rs))]> (srvs ts))
             (Z.max (CommandIndex m) (maxIndex ts)), (err, prevok))
    /\ (err = None <-> fits m (srvs ts)).
Proof.
  intros Hi. destruct (lookup_lt_is_Some_2 _ _ Hi) as [rs Hrs]. unfold CheckLogs, index. rewrite Hrs. simpl.
  eexists rs, _, _. split; [done|]. split; [do 3 f_equal; case_decide; lia|].
  rewrite find_mismatch_None. tauto.
Qed.

(** The calls that change the tester's copies of the logs: a server applied a command, or
    took over the log of a snapshot. *)
Inductive log_call := LCheck (i : nat) (m : ApplyMsg V) | LIngest (i : nat) (xlog : gmap Z (option V)).

(** Another server than [i] has another command than [v] at [k]. *)
Definition contradicted (i : nat) (k : Z) (v : option V) (l : list (raftServer V)) : bool :=
  existsb (fun '(j, b) => negb (bool_decide (j = i)) && match entry b k with
                          | Some w => negb (bool_decide (w = v))
                          | None => false end) (imap pair l).

Lemma not_contradicted i k v l j b w :
  contradicted i k v l = false -> j <> i -> l !! j = Some b -> entry b k = Some w -> w = v.
Proof.
  intros Hn Hne Hj Hb. destruct (decide (w = v)) as [|Hw]; [done|]. exfalso.
  apply not_true_iff_false in Hn. apply Hn, existsb_exists. exists (j, b). split.
  - apply list_elem_of_In, elem_of_lookup_imap. by exists j, b.
  - rewrite Hb, !bool_decide_eq_false_2 by done. done.
Qed.

(** What is vouched for after a call.  [CheckLogs] compares the entry with all logs;
    [IngestLog] compares nothing: an entry of the new log is vouched for if no other log
    contradicted it then. *)
Definition vouch (c : log_call) (l : list (raftServer V)) (tr : vouched) : vouched :=
  match c with
  | LCheck i m => fun x => if decide (x = i) then {[ CommandIndex m ]} ∪ tr x else tr x
  | LIngest i xlog => fun x =>
      if decide (x = i) then filter (fun k => contradicted i k (default None (xlog !! k)) l = false) (dom xlog) else tr x
  end.

(** Any sequence of [CheckLogs] and [IngestLog] calls: the final state and what is vouched
    for, unless a call reports an error. *)
Fixpoint check_all (calls : list log_call) (ts : Test V) (tr : vouched) : go (option (Test V * vouched)) :=
  match calls with
  | [] => Ret (Some (ts, tr))
  | c :: rest =>
      let tr' := vouch c (srvs ts) tr in
      match c with
      | LCheck i m =>
          '(ts', (err, _)) ← CheckLogs i m ts;
          match err with Some _ => Ret None | None => check_all rest ts' tr' end
      | LIngest i xlog => ts' ← IngestLog i xlog ts; check_all rest ts' tr'
      end
  end.

Lemma agree_check tr l i rs m :
  agree tr l -> fits m l -> l !! i = Some rs ->
  agree (vouch (LCheck i m) l tr)
    (<[i := mkRaftServer (applyErr rs) (<[CommandIndex m := Command m]> (logs rs))]> l).
Proof.
  intros Hc Hf Hi. set (rs' := mkRaftServer _ _).
  assert (forall x a k v, <[i := rs']> l !! x = Some a -> k ∈ vouch (LCheck i m) l tr x -> entry a k = Some v ->
            exists b, l !! x = Some b /\ (k = CommandIndex m /\ v = Command m \/ entry b k = Some v /\ k <> CommandIndex m /\ k ∈ tr x
                                         \/ entry b k = Some v /\ k = CommandIndex m)) as Hback.
  { intros x a k v Hx Hk Ha. simpl in Hk. destruct (decide (x = i)) as [->|Hne].
    - rewrite list_lookup_insert_eq in Hx by (by eapply lookup_lt_Some). simplify_eq.
      exists rs. split; [done|]. unfold entry in Ha. simpl in Ha.
      apply lookup_insert_Some in Ha as [[<- <-]|[Hkm Ha]]; [by left|]. right. left. split_and!; [done..|set_solver].
    - rewrite list_lookup_insert_ne in Hx by done. exists a. split; [done|]. destruct (decide (k = CommandIndex m)); auto. }
  assert (forall x b w, l !! x = Some b -> entry b (CommandIndex m) = Some w -> w = Command m) as Hfit.
  { intros x b w Hx. apply (Hf b w). by eapply list_elem_of_lookup_2. }
  intros x y a b k v w Hx Hy Htx Hty Hv Hw.
  destruct (Hback x a k v Hx Htx Hv) as (a'&Ha'&Hv'), (Hback y b k w Hy Hty Hw) as (b'&Hb'&Hw').
  destruct (decide (k = CommandIndex m)) as [->|Hne].
  - transitivity (Command m).
    + destruct Hv' as [[_ ?]|[(_&?&_)|[? _]]]; [done..|by apply (Hfit x a')].
    + symmetry. destruct Hw' as [[_ ?]|[(_&?&_)|[? _]]]; [done..|by apply (Hfit y b')].
  - destruct Hv' as [[? _]|[(?&_&?)|[_ ?]]]; [done| |done]. destruct Hw' as [[? _]|[(?&_&?)|[_ ?]]]; [done| |done].
    by eapply (Hc x y a' b').
Qed.

Lemma ingested_log (xlog : gmap Z (option V)) :
  foldl (fun acc '(k, v) => <[k := v]> acc) ∅ (map_to_list xlog) = xlog.
Proof.
  rewrite <-(list_to_map_to_list xlog) at 2.
  assert (forall (l : list (Z * option V)) (acc : gmap Z (option V)), NoDup l.*1 -> (forall k, k ∈ l.*1 -> acc !! k = None) ->
    foldl (fun acc '(k, v) => <[k := v]> acc) acc l = list_to_map l ∪ acc) as H.
  { induction l as [|[k v] l IH]; intros acc Hnd Hm; simpl; [by rewrite map_empty_union|].
    apply list.NoDup_cons in Hnd as [Hk Hnd]. rewrite IH; [|done|].
    - rewrite <-insert_union_l, <-insert_union_r; [done|]. by apply not_elem_of_list_to_map_1.
    - intros k' Hk'. rewrite lookup_insert_ne; [apply Hm; set_solver|]. by intros ->. }
  rewrite H; [by rewrite map_union_empty|apply NoDup_fst_map_to_list|]. intros. apply lookup_empty.
Qed.

Lemma agree_ingest tr l i rs xlog :
  agree tr l -> l !! i = Some rs ->
  agree (vouch (LIngest i xlog) l tr) (<[i := mkRaftServer (applyErr rs) xlog]> l).
Proof.
  intros Hc Hi x y a b k v w Hx Hy Htx Hty Hv Hw. simpl in *.
  assert (i < length l)%nat as Hlt by (by eapply lookup_lt_Some).
  destruct (decide (x = i)) as [->|Hxi], (decide (y = i)) as [->|Hyi].
  - congruence.
  - rewrite list_lookup_insert_eq in Hx by done. rewrite list_lookup_insert_ne in Hy by done. injection Hx as <-.
    change (xlog !! k = Some v) in Hv. apply elem_of_filter in Htx as [Hn _].
    rewrite (not_contradicted _ _ _ _ y b w Hn Hyi Hy Hw). by rewrite Hv.
  - rewrite list_lookup_insert_eq in Hy by done. rewrite list_lookup_insert_ne in Hx by done. injection Hy as <-.
    change (xlog !! k = Some w) in Hw. apply elem_of_filter in Hty as [Hn _].
    rewrite (not_contradicted _ _ _ _ x a v Hn Hxi Hx Hv). by rewrite Hw.
  - rewrite list_lookup_insert_ne in Hx, Hy by done. by eapply (Hc x y a b).
Qed.

Lemma check_all_agree calls : forall ts tr ts' tr',
  check_all calls ts tr = Ret (Some (ts', tr')) -> agree tr (srvs ts) ->
  Forall (fun rs => applyErr rs = None) (srvs ts) ->
  agree tr' (srvs ts') /\ Forall (fun rs => applyErr rs = None) (srvs ts')
  /\ length (srvs ts') = length (srvs ts).
Proof.
  induction calls as [|[i m|i xlog] calls IH]; intros ts tr ts' tr' H Hc He; simpl in H; [by simplify_eq| |].
  - destruct (decide (i < length (srvs ts))%nat) as [Hi|Hi].
    2: { unfold CheckLogs, index in H. by rewrite lookup_ge_None_2 in H by lia. }
    destruct (CheckLogs_spec i m ts Hi) as (rs&prevok&err&Hrs&E&Hfit). rewrite E in H. simpl in H.
    destruct err as [e|]; [done|]. destruct (IH _ _ _ _ H) as (?&?&Hlen); simpl.
    + apply agree_check; [done|by apply Hfit|done].
    + apply Forall_insert; [done|]. simpl. by apply (Forall_lookup_1 _ _ _ _ He Hrs).
    + split_and!; [done..|]. by rewrite Hlen; simpl; rewrite length_insert.
  - unfold IngestLog, index in H. destruct (srvs ts !! i) as [rs|] eqn:Hrs; [|done]. simpl in H.
    rewrite ingested_log in H. destruct (IH _ _ _ _ H) as (?&?&Hlen); simpl.
    + by apply agree_ingest.
    + apply Forall_insert; [done|]. simpl. by apply (Forall_lookup_1 _ _ _ _ He Hrs).
    + split_and!; [done..|]. by rewrite Hlen; simpl; rewrite length_insert.
Qed.

(** The number of servers with an entry at [index]. *)
Definition have (index : Z) (l : list (raftServer V)) : Z :=
  Z.of_nat (length (filter (fun rs => is_Some (entry rs index)) l)).

Lemma n_committed_spec index l : forall count c,
  Forall (fun rs => applyErr rs = None) l -> 0 <= count ->
  (forall rs v, rs ∈ l -> entry rs index = Some v -> 0 < count -> v = c) ->
  (forall a b v w, a ∈ l -> b ∈ l -> entry a index = Some v -> entry b index = Some w -> v = w) ->
  exists c', n_committed index l count c = Ret (count + have index l, c')
    /\ (forall rs v, rs ∈ l -> entry rs index = Some v -> v = c') /\ (0 < count -> c' = c).
Proof.
  induction l as [|rs l IH]; intros count c He Hcnt Hv Hc; simpl.
  - exists c. unfold have. simpl. rewrite Z.add_0_r. split_and!; [done| |done]. by intros ? ? ?%elem_of_nil.
  - apply list.Forall_cons in He as [He Hes]. rewrite He.
    assert (forall a b v w, a ∈ l -> b ∈ l -> entry a index = Some v -> entry b index = Some w -> v = w) as Hcl.
    { intros a b v w Ha Hb. apply Hc; set_solver + Ha Hb. }
    unfold have in *. rewrite filter_cons. destruct (entry rs index) as [v|] eqn:Ev.
    + rewrite (decide_True (P := is_Some (Some v))) by eauto.
      assert (0 < count -> v = c) as Hvc by (intros; apply (Hv rs); [set_solver +|done..]).
      rewrite decide_False by (intros [? Hne]; apply Hne; symmetry; apply Hvc; lia).
      assert (forall rs' v', rs' ∈ l -> entry rs' index = Some v' -> v' = v) as Hsame.
      { intros rs' v' Hin Hv'. apply (Hc rs' rs); [set_solver + Hin|set_solver +|done..]. }
      destruct (IH (count + 1) v Hes ltac:(lia)) as (c'&E&Hc'&Hcc); [by intros; eapply Hsame|done|].
      specialize (Hcc ltac:(lia)). subst c'.
      exists v. rewrite E. split_and!; [f_equal; f_equal; simpl; lia| |done].
      intros rs' v' [->|Hin]%elem_of_cons Hv'; [congruence|by eapply Hc'].
    + rewrite (decide_False (P := is_Some None)) by (by intros []).
      destruct (IH count c Hes Hcnt) as (c'&E&Hc'&Hcc); [intros rs0 v0 Hin0 H0 ?; apply (Hv rs0); [set_solver + Hin0|done..]|done|].
      exists c'. rewrite E. split_and!; [done| |done].
      intros rs' v' [->|Hin]%elem_of_cons Hv'; [congruence|by eapply Hc'].
Qed.

(** ** Leaders *)

Definition leads (vs : list view) (i : nat) (t : Z) : Prop :=
  exists v, vs !! i = Some v /\ connected v = true /\ v_leader v = true /\ v_term v = t.

Lemma collect_leaders_spec vs : forall i0 (m : gmap Z (list nat)) t i,
  i ∈ default [] (collect_leaders i0 vs m !! t) <->
  i ∈ default [] (m !! t) \/ exists k, i = (i0 + k)%nat /\ leads vs k t.
Proof.
  induction vs as [|v vs IH]; intros i0 m t i; simpl.
  - split; [tauto|]. intros [?|(k&_&v&Hv&_)]; [done|by rewrite lookup_nil in Hv].
  - rewrite IH. destruct (connected v && v_leader v)%bool eqn:E.
    + apply andb_true_iff in E as [Ec El]. destruct (decide (v_term v = t)) as [<-|Hne].
      * rewrite lookup_insert_eq. simpl. rewrite elem_of_app, list_elem_of_singleton. split.
        -- intros [[Hin|Hi]|(k&->&v'&?)]; [tauto|subst i; right; exists O; split; [lia|by exists v]|].
           right. exists (S k). split; [lia|by exists v'].
        -- intros [?|([|k]&->&v'&Hv'&?)]; [tauto|left; right; lia|].
           right. exists k. split; [lia|by exists v'].
      * rewrite lookup_insert_ne by done. split.
        -- intros [?|(k&->&v'&?)]; [tauto|]. right. exists (S k). split; [lia|by exists v'].
        -- intros [?|([|k]&->&v'&Hv'&?&?&?)]; [tauto|simplify_eq/=; done|].
           right. exists k. split; [lia|by exists v'].
    + split.
      * intros [?|(k&->&v'&?)]; [tauto|]. right. exists (S k). split; [lia|by exists v'].
      * intros [?|([|k]&->&v'&Hv'&Hc&Hl&?)]; [tauto|simplify_eq/=; by rewrite Hc, Hl in E|].
        right. exists k. split; [lia|by exists v'].
Qed.

(** Nobody is listed twice, and no listed term has an empty list. *)
Lemma collect_leaders_wf vs : forall i0 (m : gmap Z (list nat)),
  map_Forall (fun _ ls => NoDup ls /\ ls <> [] /\ Forall (fun i => (i < i0)%nat) ls) m ->
  map_Forall (fun _ ls => NoDup ls /\ ls <> []) (collect_leaders i0 vs m).
Proof.
  induction vs as [|v vs IH]; intros i0 m Hm; simpl.
  - intros t ls Hls. by destruct (Hm t ls Hls) as (?&?&_).
  - assert (map_Forall (fun _ ls => NoDup ls /\ ls <> [] /\ Forall (fun i => (i < S i0)%nat) ls) m) as Hm'.
    { intros t ls Hls. destruct (Hm t ls Hls) as (?&?&Hf). split_and!; [done..|].
      eapply Forall_impl; [|exact Hf]. simpl. lia. }
    destruct (connected v && v_leader v)%bool; apply IH; [|done].
    apply map_Forall_insert_2; [|done].
    destruct (m !! v_term v) as [ls|] eqn:E; simpl; [|by repeat constructor; try apply not_elem_of_nil].
    destruct (Hm _ _ E) as (Hnd&_&Hf). split_and!.
    + apply list.NoDup_app. split_and!; [done| |apply NoDup_singleton].
      intros i Hi ->%list_elem_of_singleton. rewrite list.Forall_forall in Hf. specialize (Hf _ Hi). lia.
    + by destruct ls.
    + apply Forall_app. split; [by destruct (Hm' _ _ E) as (_&_&?)|]. by repeat constructor.
Qed.

Lemma scan_leaders_spec order : forall acc,
  match foldl (fun acc '(term, ls) =>
           last ← acc;
           if decide (1 < length ls)%nat then None
           else Some (if decide (term > last) then term else last)) (Some acc) order with
  | Some last => (forall t (ls : list nat), (t, ls) ∈ order -> (length ls <= 1)%nat /\ t <= last)
                 /\ acc <= last /\ (last = acc \/ exists ls, (last, ls) ∈ order)
  | None => exists t ls, (t, ls) ∈ order /\ (1 < length ls)%nat
  end.
Proof.
  induction order as [|[t ls] order IH]; intros acc; simpl.
  - split_and!; [by intros ? ? ?%elem_of_nil|lia|by left].
  - case_decide as Hl.
    + match goal with |- context [foldl ?f None order] =>
        assert (foldl f None order = None) as -> by (clear; induction order as [|[??]]; simpl; done) end.
      exists t, ls. split; [set_solver +|done].
    + specialize (IH (if decide (t > acc) then t else acc)).
      destruct (foldl _ _ order) as [last|].
      * destruct IH as (H1&H2&H3). split_and!.
        -- intros t' ls' [[= -> ->]|Hin]%elem_of_cons; [|by apply H1]. split; [lia|].
           case_decide; lia.
        -- case_decide; lia.
        -- destruct H3 as [->|[ls' Hin]]; [|right; exists ls'; set_solver + Hin].
           case_decide; [right; exists ls; set_solver +|by left].
      * destruct IH as (t'&ls'&Hin&?). exists t', ls'. set_solver.
Qed.

(** ** Snapshots *)

Lemma log_of_lookup (xlog : list (option V)) j :
  log_of xlog !! j = if decide (0 <= j) then xlog !! Z.to_nat j else None.
Proof.
  unfold log_of. apply option_eq. intros v.
  assert (NoDup (imap (fun j v => (Z.of_nat j, v)) xlog).*1) as Hnd.
  { rewrite fmap_imap. apply NoDup_alt. intros i k x. rewrite !list_lookup_imap.
    intros (a&Ha&->)%fmap_Some (b&Hb&Hx)%fmap_Some. simpl in Hx. lia. }
  rewrite <- elem_of_list_to_map by done. rewrite list_elem_of_lookup. setoid_rewrite list_lookup_imap.
  split.
  - intros (i&(a&Ha&[= -> ->])%fmap_Some). rewrite decide_True by lia. by rewrite Nat2Z.id.
  - case_decide as Hj; [|done]. intros Hv. exists (Z.to_nat j). rewrite Hv. simpl. by rewrite Z2Nat.id.
Qed.

Lemma xlog_upto_lookup index (log : gmap Z (option V)) j :
  0 <= j <= index -> xlog_upto index log !! Z.to_nat j = Some (default None (log !! j)).
Proof.
  intros Hj. unfold xlog_upto. rewrite list_lookup_fmap, lookup_seq_lt by lia. simpl.
  by rewrite Z2Nat.id by lia.
Qed.

Lemma xlog_upto_length index (log : gmap Z (option V)) :
  length (xlog_upto index log) = Z.to_nat (index + 1).
Proof. unfold xlog_upto. by rewrite length_fmap, length_seq. Qed.

(** ** Properties *)

(** C12: the tester's check of the logs is complete but for snapshots.  After any sequence of
    applied commands and ingested snapshots of any number of servers in which no [CheckLogs]
    call reported an error, two servers disagree at an index only if the entry of one of
    them was taken over by [IngestLog], which compares nothing, while another log
    contradicted it; and where every entry of an index is vouched for, [nCommitted] succeeds: it counts the
    servers that have the entry, and all of them have the command it returns. *)
Theorem unreported_logs_agree n calls ts' tr index :
  check_all calls (mkTest (replicate n newRaftServer) 0) (fun _ => ∅) = Ret (Some (ts', tr)) ->
  length (srvs ts') = n /\ agree tr (srvs ts')
  /\ ((forall i rs v, srvs ts' !! i = Some rs -> entry rs index = Some v -> index ∈ tr i) ->
      exists c, nCommitted index ts' = Ret (have index (srvs ts'), c)
        /\ forall rs v, rs ∈ srvs ts' -> entry rs index = Some v -> v = c).
Proof.
  intros H. destruct (check_all_agree _ _ _ _ _ H) as (Hc&He&Hlen); simpl.
  - intros i j a b k v w _ _ Hk. by apply elem_of_empty in Hk.
  - by apply Forall_replicate.
  - split; [by rewrite Hlen; simpl; rewrite length_replicate|]. split; [done|]. intros Hall.
    destruct (n_committed_spec index (srvs ts') 0 None He) as (c&E&Hv&_); [lia|intros; lia| |].
    + intros a b v w [i Hi]%list_elem_of_lookup [j Hj]%list_elem_of_lookup Ha Hb.
      by apply (Hc i j a b index v w); [..|eapply Hall|eapply Hall| |].
    + exists c. split; [exact E|done].
Qed.

(** A snapshot restores the log.  The snapshot that [applierSnap] hands to Raft at index
    [k], ingested by a server, leaves the commands of all indices up to [k] as they were
    (an index without an entry reads as nil), nothing after, and [lastApplied] at [k]. *)
Theorem snapshot_round_trip `{SnapCodec V} k (log : gmap Z (option V)) (s : rfsrv V) idx :
  0 <= k -> (idx = k \/ idx = -1) ->
  exists s', ingestSnap (Some (encode_snap k (xlog_upto k log))) idx s = (s', None)
    /\ lastApplied s' = k
    /\ (forall j, 0 <= j <= k -> rf_log s' !! j = Some (default None (log !! j)))
    /\ (forall j, j < 0 \/ k < j -> rf_log s' !! j = None).
Proof.
  intros Hk Hidx. unfold ingestSnap. rewrite snap_round_trip, decide_False by lia.
  eexists. split; [done|]. simpl. split_and!; [done|..].
  - intros j Hj. rewrite log_of_lookup, decide_True by lia. by apply xlog_upto_lookup.
  - intros j Hj. rewrite log_of_lookup. case_decide; [|done].
    apply lookup_ge_None. rewrite xlog_upto_length. lia.
Qed.

(** [checkOneLeader] is right about what it sees.  An iteration that returns a server
    found it connected and leading, in a term later than that of every other connected
    leader; an iteration fails exactly when two connected servers lead in one term; and it
    goes on exactly when nobody leads. *)
Theorem check_leaders_correct vs :
  Forall (fun v => 0 <= v_term v) vs ->
  match check_leaders vs with
  | Ret (Some i) => exists t, leads vs i t /\ forall j t', leads vs j t' -> j <> i -> t' < t
  | Ret None => forall j t, ~ leads vs j t
  | Crash c => c = Fatal /\ exists i j t, i <> j /\ leads vs i t /\ leads vs j t
  end.
Proof.
  intros Hpos. unfold check_leaders. set (L := collect_leaders 0 vs ∅).
  assert (forall t i, i ∈ default [] (L !! t) <-> leads vs i t) as HL.
  { intros t i. unfold L. rewrite collect_leaders_spec, lookup_empty. simpl. split.
    - intros [?%elem_of_nil|(k&->&?)]; done.
    - intros ?. right. by exists i. }
  assert (map_Forall (fun _ ls => NoDup ls /\ ls <> []) L) as Hwf
    by (apply collect_leaders_wf, map_Forall_empty).
  pose proof (scan_leaders_spec (map_to_list L) (-1)) as Hscan. unfold scan_leaders in *.
  destruct (foldl _ _ (map_to_list L)) as [last|].
  - destruct Hscan as (H1&_&H3). case_decide as Hemp.
    + intros j t Hj%HL. rewrite Hemp, lookup_empty in Hj. by apply elem_of_nil in Hj.
    + destruct (map_choose L Hemp) as (t0&ls0&H0).
      destruct (Hwf _ _ H0) as [_ Hne0]. destruct ls0 as [|i0 ls0]; [done|].
      assert (leads vs i0 t0) as (v0&Hv0&_&_&<-) by (apply HL; rewrite H0; set_solver +).
      assert (v_term v0 <= last) as Hle by (eapply H1; by apply elem_of_map_to_list).
      pose proof (Forall_lookup_1 _ _ _ _ Hpos Hv0) as Hp0. simpl in Hp0.
      destruct H3 as [->|[ls Hls]]; [lia|]. apply elem_of_map_to_list in Hls as Hls'.
      destruct (Hwf _ _ Hls') as [_ Hne]. destruct (H1 _ _ Hls) as [Hlen _].
      destruct ls as [|i [|]]; [done| |simpl in Hlen; lia].
      unfold index. rewrite Hls'. simpl. exists last. split; [apply HL; rewrite Hls'; set_solver +|].
      intros j t' Hj Hji. apply HL in Hj as Hj'.
      destruct (L !! t') as [ls'|] eqn:E'; [|by apply elem_of_nil in Hj'].
      destruct (H1 t' ls' ltac:(by apply elem_of_map_to_list)) as [_ Hle'].
      destruct (decide (t' = last)) as [->|]; [|lia].
      rewrite Hls' in E'. simplify_eq. simpl in Hj'. set_solver.
  - destruct Hscan as (t&ls&Hin%elem_of_map_to_list&Hlen). split; [done|].
    destruct (Hwf _ _ Hin) as [Hnd _]. destruct ls as [|i [|j ls]]; simpl in Hlen; [lia..|].
    exists i, j, t. apply list.NoDup_cons in Hnd as [Hij _].
    split_and!; [set_solver|apply HL; rewrite Hin; set_solver +..].
Qed.

(** [one] is right about agreement.  If it returns an index other than -1, then at some
    poll during the call at least the expected number of servers, and at least one, had
    committed the submitted command at that index. *)
Theorem one_returns_agreement c expected retry n rounds finished starts i :
  one c expected retry n rounds finished starts = Ret i -> i <> -1 ->
  exists r ts nd, r ∈ rounds /\ ts ∈ r_polls r /\ nCommitted i ts = Ret (nd, c)
                  /\ 0 < nd /\ expected <= nd.
Proof.
  assert (forall index polls, poll index expected c polls = Ret true ->
            exists ts nd, ts ∈ polls /\ nCommitted index ts = Ret (nd, c) /\ 0 < nd /\ expected <= nd) as Hpoll.
  { intros index polls. induction polls as [|ts polls IH]; [done|]. cbn [poll].
    destruct (nCommitted index ts) as [[nd cmd1]|] eqn:E; [|done]. run_go.
    case_decide as Hd.
    - intros _. destruct Hd as (?&?&->). exists ts, nd. split_and!; [set_solver +|done|lia|lia].
    - intros (ts'&nd'&Hin&?)%IH. exists ts', nd'. split; [set_solver + Hin|done]. }
  revert starts. induction rounds as [|r rounds IH]; intros starts H Hi; simpl in H.
  { destruct finished; [|done]. by simplify_eq. }
  destruct (try_servers n n (r_start r) starts) as [starts' index].
  assert (one c expected retry n rounds finished starts' = Ret i ->
    exists r' ts nd, r' ∈ r :: rounds /\ ts ∈ r_polls r' /\ nCommitted i ts = Ret (nd, c)
                     /\ 0 < nd /\ expected <= nd) as Hrest.
  { intros H'. destruct (IH starts' H' Hi) as (r'&ts&nd&Hin&?). exists r', ts, nd. split; [set_solver + Hin|done]. }
  destruct (decide (index <> -1)); [|auto].
  destruct (poll index expected c (r_polls r)) as [[]|] eqn:Ep; simpl in H; [| |done].
  - simplify_eq. destruct (Hpoll _ _ Ep) as (ts&nd&?&?). exists r, ts, nd. split; [set_solver +|done].
  - destruct retry; [auto|done].
Qed.

End facts.

(** *** Concrete runs *)

Definition command (i v : Z) : ApplyMsg Z := mkApplyMsg true (Some v) i false None 0.

(** Three servers; two of them apply the same commands, the third takes over a snapshot. *)
Definition good_calls : list (@log_call Z) :=
  [LCheck 0 (command 1 10); LCheck 1 (command 1 10); LIngest 2 {[ 1 := Some 10 ]}; LCheck 0 (command 2 20)].

Definition good_test : Test Z :=
  match check_all good_calls (mkTest (replicate 3 newRaftServer) 0) (fun _ => ∅) with
  | Ret (Some (ts, _)) => ts
  | _ => mkTest [] 0
  end.

Definition good_vouched : nat -> gset Z :=
  match check_all good_calls (mkTest (replicate 3 newRaftServer) 0) (fun _ => ∅) with
  | Ret (Some (_, tr)) => tr
  | _ => fun _ => ∅
  end.

Lemma unreported_logs_agree_witness :
  exists c, nCommitted 1 good_test = Ret (3, c).
Proof.
  destruct (unreported_logs_agree 3 good_calls good_test good_vouched 1) as (_&_&H).
  - vm_compute. reflexivity.
  - destruct H as (c&E&_); [|exists c; exact E].
    intros [|[|[|i]]] rs v Hi _; [vm_compute; reflexivity..|]. discriminate Hi.
Defined.

(** A third server that applies another command is reported. *)
Example bad_call_reported :
  check_all (good_calls ++ [LCheck 2 (command 1 11)]) (mkTest (replicate 3 newRaftServer) 0) (fun _ => ∅) = Ret None.
Proof. vm_compute. reflexivity. Qed.

(** A third server that takes over a log with another command is not. *)
Lemma bad_snapshot_unreported :
  exists ts tr, check_all (good_calls ++ [LIngest 2 {[ 1 := Some 11 ]}]) (mkTest (replicate 3 newRaftServer) 0) (fun _ => ∅)
    = Ret (Some (ts, tr)) /\ nCommitted 1 ts = Crash Fatal.
Proof. eexists _, _. split; [vm_compute; reflexivity|vm_compute; reflexivity]. Qed.

Lemma bits_snap_law (i : Z) (l : list (option Z)) :
  decode (of_bits (bits_of (encode (i, l)))) = Some (i, l).
Proof. by rewrite of_bits_of, decode_encode. Qed.

#[local] Instance bits_SnapCodec : SnapCodec Z := {
  encode_snap i l := bits_of (encode (i, l));
  decode_snap s := decode (of_bits s);
  snap_round_trip := bits_snap_law;
}.

Lemma snapshot_round_trip_witness :
  exists s', ingestSnap (Some (encode_snap 9 (xlog_upto 9 ({[ 3 := Some 30 ]} : gmap Z (option Z))))) 9
               (mkRfsrv 1 0 ∅) = (s', None) /\ lastApplied s' = 9 /\ rf_log s' !! 3 = Some (Some 30).
Proof.
  destruct (snapshot_round_trip 9 ({[ 3 := Some 30 ]} : gmap Z (option Z)) (mkRfsrv 1 0 ∅) 9)
    as (s'&E&H1&H2&_).
  - lia.
  - left. reflexivity.
  - exists s'. split; [exact E|]. split; [exact H1|]. rewrite H2 by lia. reflexivity.
Defined.

Definition two_views : list view := [mkView true 2 true; mkView true 1 true; mkView false 2 true].

Lemma check_leaders_correct_witness :
  exists t, leads two_views 0 t /\ forall j t', leads two_views j t' -> j <> 0%nat -> t' < t.
Proof.
  exact (check_leaders_correct two_views
           ltac:(repeat constructor; simpl; lia)).
Defined.

Definition one_round : round Z := mkRound (fun s => if decide (s = 0)%nat then Some 1 else None) [good_test].

Lemma one_returns_agreement_witness :
  exists ts nd, nCommitted 1 ts = Ret (nd, Some 10) /\ 2 <= nd.
Proof.
  destruct (one_returns_agreement (Some 10) 2 false 3 [one_round] false 0 1)
    as (r&ts&nd&_&_&E&_&H).
  - vm_compute. reflexivity.
  - lia.
  - exists ts, nd. split; [exact E|exact H].
Defined.
