(* ===== verification/Demux.v ===== *)
(** * Multiplexed calls over a socket

    [src/src/tester1/demux] (callmap.go, transport.go, dmxclnt.go, dmxsrv.go) and the RPC
    layer on top, [src/src/tester1/sockrpc]: many calls share one connection, and a tag
    matches each response with its request.

    The first part is the framing of messages on the byte stream.  The second is the
    client's and the server's goroutines as a step relation on the state they share; the
    two directions of the connection are queues of messages, which the first part
    justifies.  Requests are served concurrently and answered in any order. *)

From S2P Require Import Prelude Labrpc.
Local Open Scope Z_scope.

(** ** Framing *)

Record msg := mkMsg { Tag : Z; Data : bytes; Ok : bool }.

(** [binary.LittleEndian], 32 bits. *)
Definition le_byte (k : Z) (n : Z) : ascii :=
  ascii_of_N (Z.to_N (Z.land (Z.shiftr n (8 * k)) 255)).

Definition put_uint32 (n : Z) : string :=
  String (le_byte 0 n) (String (le_byte 1 n) (String (le_byte 2 n) (String (le_byte 3 n) ""))).

Definition get_uint32 (c0 c1 c2 c3 : ascii) : Z :=
  let b c := Z.of_N (N_of_ascii c) in
  Z.lor (b c0) (Z.lor (Z.shiftl (b c1) 8) (Z.lor (Z.shiftl (b c2) 16) (Z.shiftl (b c3) 24))).

(** [io.ReadFull]: exactly [n] bytes, or an error. *)
Fixpoint read_full (n : nat) (s : string) : option (string * string) :=
  match n, s with
  | O, _ => Some (""%string, s)
  | S n', String c s' => '(a, rest) ← read_full n' s'; Some (String c a, rest)
  | S _, EmptyString => None
  end.

Inductive read_err := EOF | UnexpectedEOF.

Section framing.
  Context `{Codec msg}.

(** The bytes [WriteCall] appends to the stream: the length in 32 bits, then the message. *)
Definition WriteCall (m : msg) : string :=
  let b := Marshall m in put_uint32 (u32 (Z.of_nat (String.length b))) +:+ b.

(** [ReadCall]: the message and the rest of the stream.  A message that does not decode is
    fatal. *)
Definition ReadCall (s : string) : go (read_err + msg * string) :=
  match s with
  | EmptyString => Ret (inl EOF)
  | String c0 (String c1 (String c2 (String c3 rest))) =>
      let nbyte := get_uint32 c0 c1 c2 c3 in
      match read_full (Z.to_nat nbyte) rest with
      | None => Ret (inl (if decide (rest = ""%string) then EOF else UnexpectedEOF))
      | Some (b, rest') =>
          match Unmarshall b with
          | None => Crash Fatal
          | Some m => Ret (inr (m, rest'))
          end
      end
  | _ => Ret (inl UnexpectedEOF)
  end.

(** What a reader that calls [ReadCall] until an error gets; each message takes at least
    four bytes, so the length of the stream is enough fuel. *)
Fixpoint read_all (fuel : nat) (s : string) : go (list msg * read_err) :=
  match fuel with
  | O => Ret ([], EOF)
  | S fuel' =>
      r ← ReadCall s;
      match r with
      | inl e => Ret ([], e)
      | inr (m, rest) => '(ms, e) ← read_all fuel' rest; Ret (m :: ms, e)
      end
  end.

End framing.

(** ** The call map *)

Record callMap := mkCallMap { closed : bool; calls : gmap Z nat }.

Definition newCallMap : callMap := mkCallMap false ∅.

Definition close (cm : callMap) : callMap := mkCallMap true (calls cm).

Definition isClosed (cm : callMap) : bool := closed cm.

(** [None] is the error "conn closed". *)
Definition put (tag : Z) (ch : nat) (cm : callMap) : option callMap :=
  if closed cm then None else Some (mkCallMap (closed cm) (<[tag := ch]> (calls cm))).

Definition remove (tag : Z) (cm : callMap) : callMap * option nat :=
  match calls cm !! tag with
  | Some ch => (mkCallMap (closed cm) (delete tag (calls cm)), Some ch)
  | None => (cm, None)
  end.

Definition outstanding (cm : callMap) : list Z := (map_to_list (calls cm)).*1.

(** ** The client *)

(** The reply a caller receives on its channel; [err] is whether the error is set. *)
Record reply := mkReply { rep : bytes; ok : bool; err : bool }.

Record DemuxClnt := mkClnt { callmap : callMap; nextTag : Z }.

Definition tag (dmx : DemuxClnt) : DemuxClnt * Z :=
  (mkClnt (callmap dmx) (u32 (nextTag dmx + 1)), nextTag dmx).

(** The first tag goes to the message that names the client. *)
Definition NewDemuxClnt : DemuxClnt := (tag (mkClnt newCallMap 0)).1.

(** [DemuxClnt.reply]: hand the reply to the channel of its tag. *)
Definition deliver (t : Z) (r : reply) (dmx : DemuxClnt) : go (DemuxClnt * (nat * reply)) :=
  let '(cm, ch) := remove t (callmap dmx) in
  match ch with
  | Some ch => Ret (mkClnt cm (nextTag dmx), (ch, r))
  | None => Crash Fatal
  end.

Fixpoint deliver_all (ts : list Z) (r : reply) (dmx : DemuxClnt) : go (DemuxClnt * list (nat * reply)) :=
  match ts with
  | [] => Ret (dmx, [])
  | t :: rest =>
      '(dmx, d) ← deliver t r dmx;
      '(dmx, ds) ← deliver_all rest r dmx;
      Ret (dmx, d :: ds)
  end.

(** The end of the reader: no new calls, and an error to every call that waits. *)
Definition reader_fails (dmx : DemuxClnt) : go (DemuxClnt * list (nat * reply)) :=
  let dmx := mkClnt (close (callmap dmx)) (nextTag dmx) in
  deliver_all (outstanding (callmap dmx)) (mkReply "" false true) dmx.

(** The first part of [SendReceive] on the channel [ch]: [None] is the early return. *)
Definition send (ch : nat) (dmx : DemuxClnt) : DemuxClnt * option Z :=
  let '(dmx, t) := tag dmx in
  match put t ch (callmap dmx) with
  | None => (dmx, None)
  | Some cm => (mkClnt cm (nextTag dmx), Some t)
  end.

(** [RPCClnt.RPC] of what [SendReceive] returns. *)
Definition RPC_result (r : reply) : bytes * bool :=
  if err r then (""%string, false) else (rep r, ok r).

(** ** The running connection *)

Section connection.
  (* which answers [ServeRequest] may give to a request *)
  Context (serves : bytes -> bytes * bool -> Prop).

(** [c2s], [s2c]: messages on the way; [working]: requests the server's goroutines serve;
    [reader]: the client's reader runs.  Ghost: [sent], the request of each channel;
    [got], what each channel received. *)
Record conn := mkConn {
  clnt : DemuxClnt;
  c2s : list (Z * bytes);
  working : list (Z * bytes);
  s2c : list (Z * (bytes * bool));
  reader : bool;
  sent : list bytes;
  got : list (nat * reply);
}.

Definition conn_init : conn := mkConn NewDemuxClnt [] [] [] true [] [].

Inductive dstep : conn -> conn -> Prop :=
  (* SendReceive; the write may fail, and the caller waits all the same *)
  | d_send c b written dmx t :
      send (length (sent c)) (clnt c) = (dmx, Some t) ->
      dstep c (mkConn dmx (if written : bool then c2s c ++ [(t, b)] else c2s c) (working c) (s2c c)
                 (reader c) (sent c ++ [b]) (got c))
  | d_send_closed c b dmx :
      send (length (sent c)) (clnt c) = (dmx, None) ->
      dstep c (mkConn dmx (c2s c) (working c) (s2c c) (reader c) (sent c ++ [b])
                 (got c ++ [(length (sent c), mkReply "" false true)]))
  (* DemuxSrv.reader: take the next request and serve it in a goroutine *)
  | d_serve c t b rest :
      c2s c = (t, b) :: rest ->
      dstep c (mkConn (clnt c) rest (working c ++ [(t, b)]) (s2c c) (reader c) (sent c) (got c))
  (* one of these goroutines answers, or fails to *)
  | d_answer c t b l1 l2 r :
      working c = l1 ++ (t, b) :: l2 -> serves b r ->
      dstep c (mkConn (clnt c) (c2s c) (l1 ++ l2) (s2c c ++ [(t, r)]) (reader c) (sent c) (got c))
  | d_answer_lost c t b l1 l2 :
      working c = l1 ++ (t, b) :: l2 ->
      dstep c (mkConn (clnt c) (c2s c) (l1 ++ l2) (s2c c) (reader c) (sent c) (got c))
  (* DemuxClnt.reader: the next response, or an error *)
  | d_receive c t r rest dmx d :
      reader c = true -> s2c c = (t, r) :: rest ->
      deliver t (mkReply r.1 r.2 false) (clnt c) = Ret (dmx, d) ->
      dstep c (mkConn dmx (c2s c) (working c) rest true (sent c) (got c ++ [d]))
  | d_reader_fails c dmx ds :
      reader c = true -> reader_fails (clnt c) = Ret (dmx, ds) ->
      dstep c (mkConn dmx (c2s c) (working c) (s2c c) false (sent c) (got c ++ ds))
  (* DemuxClnt.Close *)
  | d_close c :
      dstep c (mkConn (mkClnt (close (callmap (clnt c))) (nextTag (clnt c))) (c2s c) (working c) (s2c c)
                 (reader c) (sent c) (got c)).

(** The client is about to crash: a response without a request. *)
Definition stray (c : conn) : Prop :=
  reader c = true /\ exists t r rest, s2c c = (t, r) :: rest
                                      /\ deliver t (mkReply r.1 r.2 false) (clnt c) = Crash Fatal.

End connection.

(** ** Lemmas: framing *)

Lemma byte_embed x : 0 <= x < 256 -> Z.of_N (N_of_ascii (ascii_of_N (Z.to_N x))) = x.
Proof. intros Hx. rewrite N_ascii_embedding by lia. lia. Qed.

Lemma land_255_range n : 0 <= Z.land n 255 < 256.
Proof.
  change 255 with (Z.ones 8). rewrite Z.land_ones by lia. apply Z.mod_pos_bound. lia.
Qed.

Lemma get_put_uint32 n :
  0 <= n < 2 ^ 32 ->
  get_uint32 (le_byte 0 n) (le_byte 1 n) (le_byte 2 n) (le_byte 3 n) = n.
Proof.
  intros Hn. unfold get_uint32, le_byte. rewrite !byte_embed by apply land_255_range.
  apply Z.bits_inj'. intros i Hi.
  rewrite !Z.lor_spec, !Z.shiftl_spec, !Z.land_spec by lia. change 255 with (Z.ones 8).
  destruct (decide (i < 32)) as [Hlt|Hge].
  - destruct (decide (i < 8)), (decide (i < 16)), (decide (i < 24)); try lia;
      rewrite ?(Z.testbit_neg_r _ (i - 8)), ?(Z.testbit_neg_r _ (i - 16)), ?(Z.testbit_neg_r _ (i - 24)) by lia;
      rewrite ?Z.testbit_ones_nonneg by lia; rewrite ?Z.shiftr_spec by lia;
      repeat match goal with |- context [?a <? 8] => destruct (Z.ltb_spec a 8); try lia end;
      rewrite ?andb_false_r, ?andb_true_r, ?orb_false_r, ?orb_false_l; simpl; f_equal; lia.
  - rewrite !Z.testbit_ones_nonneg by lia.
    repeat match goal with |- context [?a <? 8] => destruct (Z.ltb_spec a 8); try lia end.
    rewrite !andb_false_r. simpl. symmetry. apply Z.bits_above_log2; [lia|].
    destruct (decide (n = 0)) as [->|]; [simpl; lia|]. apply Z.log2_lt_pow2; [lia|].
    eapply Z.lt_le_trans; [apply Hn|]. apply Z.pow_le_mono_r; lia.
Qed.

Lemma read_full_app b rest : read_full (String.length b) (b +:+ rest) = Some (b, rest).
Proof. induction b as [|c b IH]; [done|]. rewrite string_cons_app. simpl. by rewrite IH. Qed.

(** One message, whatever follows it. *)
Lemma ReadCall_WriteCall `{Codec msg} m rest :
  Z.of_nat (String.length (Marshall m)) < 2 ^ 32 -> ReadCall (WriteCall m +:+ rest) = Ret (inr (m, rest)).
Proof.
  intros Hlen. unfold WriteCall, put_uint32. rewrite u32_small by lia.
  rewrite !string_cons_app, string_nil_app. unfold ReadCall.
  rewrite get_put_uint32 by lia. rewrite Nat2Z.id, read_full_app, codec_round_trip. done.
Qed.

(** ** Lemmas: matching *)

Section matching.
  Context (serves : bytes -> bytes * bool -> Prop).

(** Tag [t] waits on a channel whose request is [b]. *)
Definition awaits (c : conn) (t : Z) (b : bytes) : Prop :=
  exists ch, calls (callmap (clnt c)) !! t = Some ch /\ sent c !! ch = Some b.

(** The tags of all messages on the way and of all requests being served. *)
Definition in_flight (c : conn) : list Z := (c2s c).*1 ++ (working c).*1 ++ (s2c c).*1.

Definition dinv (c : conn) : Prop :=
  nextTag (clnt c) = 1 + Z.of_nat (length (sent c))
  /\ (forall t ch, calls (callmap (clnt c)) !! t = Some ch ->
        t = 1 + Z.of_nat ch /\ (ch < length (sent c))%nat)
  /\ (forall ch r, (ch, r) ∈ got c -> err r = false ->
        exists b, sent c !! ch = Some b /\ serves b (rep r, ok r))
  /\ (reader c = true ->
        NoDup (in_flight c)
        /\ (forall t b, (t, b) ∈ c2s c ++ working c -> awaits c t b)
        /\ (forall t r, (t, r) ∈ s2c c -> exists b, awaits c t b /\ serves b r)).

Lemma dinv_init : dinv conn_init.
Proof.
  split_and!; simpl; try done; try set_solver.
  intros _. split_and!; [constructor|set_solver..].
Qed.

Lemma send_Some ch dmx dmx' t :
  send ch dmx = (dmx', Some t) ->
  t = nextTag dmx /\ nextTag dmx' = u32 (nextTag dmx + 1)
  /\ calls (callmap dmx') = <[nextTag dmx := ch]> (calls (callmap dmx)).
Proof. unfold send, put. simpl. destruct (closed (callmap dmx)); intros H; by simplify_eq/=. Qed.

Lemma send_None ch dmx dmx' :
  send ch dmx = (dmx', None) ->
  nextTag dmx' = u32 (nextTag dmx + 1) /\ calls (callmap dmx') = calls (callmap dmx).
Proof. unfold send, put. simpl. destruct (closed (callmap dmx)); intros H; by simplify_eq/=. Qed.

Lemma deliver_Ret t r dmx dmx' ch r' :
  deliver t r dmx = Ret (dmx', (ch, r')) ->
  r' = r /\ calls (callmap dmx) !! t = Some ch /\ nextTag dmx' = nextTag dmx
  /\ calls (callmap dmx') = delete t (calls (callmap dmx)).
Proof.
  unfold deliver, remove. destruct (calls (callmap dmx) !! t) eqn:E; intros H; by simplify_eq/=.
Qed.

Lemma deliver_all_Ret ts r : forall dmx dmx' ds,
  deliver_all ts r dmx = Ret (dmx', ds) ->
  nextTag dmx' = nextTag dmx /\ calls (callmap dmx') ⊆ calls (callmap dmx)
  /\ Forall (fun d => d.2 = r) ds.
Proof.
  induction ts as [|t ts IH]; intros dmx dmx' ds H; simpl in H; [simplify_eq; done|].
  destruct (deliver t r dmx) as [[dmx1 [ch r1]]|] eqn:E1; [|done]. simpl in H.
  destruct (deliver_all ts r dmx1) as [[dmx2 ds2]|] eqn:E2; [|done]. simpl in H. simplify_eq.
  destruct (deliver_Ret _ _ _ _ _ _ E1) as (->&_&Hn&Hc). destruct (IH _ _ _ E2) as (Hn2&Hc2&Hf).
  split_and!; [congruence| |by constructor]. rewrite Hc2, Hc. apply delete_subseteq.
Qed.

Lemma in_flight_awaited c t :
  dinv c -> reader c = true -> t ∈ in_flight c -> exists b, awaits c t b.
Proof.
  intros (_&_&_&H) Hr Ht. destruct (H Hr) as (_&H1&H2). unfold in_flight in Ht.
  rewrite app_assoc, <- fmap_app, elem_of_app, !list_elem_of_fmap in Ht.
  destruct Ht as [([t' b]&->&Hin)|([t' r]&->&Hin)]; simpl.
  - exists b. by apply H1.
  - destruct (H2 _ _ Hin) as (b&?&_). by exists b.
Qed.

(** A call that waits keeps waiting when other calls are entered or removed. *)
Lemma awaits_mono c c' t b :
  awaits c t b ->
  (forall ch, calls (callmap (clnt c)) !! t = Some ch -> calls (callmap (clnt c')) !! t = Some ch) ->
  sent c `prefix_of` sent c' -> awaits c' t b.
Proof. intros (ch&Hc&Hs) Hcalls Hp. exists ch. split; [auto|]. by eapply prefix_lookup_Some. Qed.

Lemma got_mono (l l' : list bytes) (g : list (nat * reply)) :
  l `prefix_of` l' ->
  (forall (ch : nat) r, (ch, r) ∈ g -> err r = false -> exists b, l !! ch = Some b /\ serves b (rep r, ok r)) ->
  forall ch r, (ch, r) ∈ g -> err r = false -> exists b, l' !! ch = Some b /\ serves b (rep r, ok r).
Proof.
  intros Hp H ch r Hin He. destruct (H ch r Hin He) as (b&Hb&?). exists b. split; [|done].
  by eapply prefix_lookup_Some.
Qed.

Lemma dinv_send c b written dmx t :
  dinv c -> Z.of_nat (length (sent c)) + 2 < 2 ^ 32 -> send (length (sent c)) (clnt c) = (dmx, Some t) ->
  dinv (mkConn dmx (if written : bool then c2s c ++ [(t, b)] else c2s c) (working c) (s2c c)
          (reader c) (sent c ++ [b]) (got c)).
Proof.
  intros Hinv Hb Hs. pose proof Hinv as (Hn&Hc&Hg&Hf).
  destruct (send_Some _ _ _ _ Hs) as (Ht&Hn'&Hc'). rewrite Hn in *. rewrite u32_small in Hn' by lia.
  assert (sent c `prefix_of` sent c ++ [b]) as Hp by (by eexists).
  assert (forall t' ch, calls (callmap (clnt c)) !! t' = Some ch -> t' <> t) as Hfresh.
  { intros t' ch [-> ?]%Hc. lia. }
  split_and!; simpl.
  - rewrite Hn', length_app. simpl. lia.
  - intros t' ch. rewrite Hc', length_app. intros [[<- <-]|[_ Hl]]%lookup_insert_Some; simpl; [lia|].
    apply Hc in Hl. lia.
  - by eapply got_mono.
  - intros Hr. destruct (Hf Hr) as (Hnd&H1&H2). simpl in *.
    set (c' := mkConn _ _ _ _ _ _ _).
    assert (forall t' b', awaits c t' b' -> awaits c' t' b') as Hmono.
    { intros t' b' Ha. eapply awaits_mono; [done| |done]. simpl. intros ch Hch. rewrite Hc'.
      rewrite lookup_insert_ne; [done|]. intros E. apply (Hfresh t' ch Hch). by rewrite Ht. }
    assert (awaits c' t b) as Hnew.
    { exists (length (sent c)). simpl. rewrite Hc', Ht, lookup_insert_eq. split; [done|].
      by rewrite lookup_app_r, Nat.sub_diag by lia. }
    split_and!.
    + unfold in_flight, c'. simpl. destruct written; [|done].
      assert (t ∉ in_flight c) as Hnot.
      { intros Hin. destruct (in_flight_awaited c t Hinv Hr Hin) as (b'&ch&Hch&_). by apply (Hfresh t ch). }
      rewrite fmap_app, <- app_assoc. simpl. rewrite <- Permutation_middle. by constructor.
    + intros t' b' Hin. destruct written; [|by apply Hmono, H1].
      apply elem_of_app in Hin as [[Hin|[= -> ->]%list_elem_of_singleton]%elem_of_app|Hin]; [|done|].
      all: apply Hmono, H1, elem_of_app; auto.
    + intros t' r Hin. destruct (H2 _ _ Hin) as (b'&?&?). exists b'. auto.
Qed.

Lemma dinv_receive c t r rest dmx ch r' :
  dinv c -> reader c = true -> s2c c = (t, r) :: rest ->
  deliver t (mkReply r.1 r.2 false) (clnt c) = Ret (dmx, (ch, r')) ->
  dinv (mkConn dmx (c2s c) (working c) rest true (sent c) (got c ++ [(ch, r')])).
Proof.
  intros (Hn&Hc&Hg&Hf) Hr Es Hd. destruct (Hf Hr) as (Hnd&H1&H2).
  destruct (deliver_Ret _ _ _ _ _ _ Hd) as (->&Hch&Hn'&Hc'). rewrite Es in H2.
  assert (forall t' b, t' <> t -> awaits c t' b ->
            awaits (mkConn dmx (c2s c) (working c) rest true (sent c)
                      (got c ++ [(ch, mkReply r.1 r.2 false)])) t' b) as Hmono.
  { intros t' b Hne Ha. eapply awaits_mono; [done| |done]. simpl. intros ch' Hch'. rewrite Hc'.
    by rewrite lookup_delete_ne. }
  assert (NoDup (t :: (c2s c).*1 ++ (working c).*1 ++ rest.*1)) as Hnd'.
  { unfold in_flight in Hnd. rewrite Es, fmap_cons in Hnd. simpl in Hnd.
    by rewrite app_assoc, <- Permutation_middle, <- app_assoc in Hnd. }
  apply list.NoDup_cons in Hnd' as [Hnot Hnd']. rewrite !not_elem_of_app in Hnot.
  destruct Hnot as (Hn1&Hn2&Hn3). split_and!; simpl.
  - congruence.
  - intros t' ch'. rewrite Hc'. intros [_ ?]%lookup_delete_Some. by apply Hc.
  - intros ch' r' [Hin|[= -> ->]%list_elem_of_singleton]%elem_of_app Her; [by apply Hg|].
    destruct (H2 t r ltac:(set_solver +)) as (b&(ch2&Hch2&Hb)&Hserves). simplify_eq.
    exists b. split; [done|]. simpl. by destruct r.
  - intros _. split_and!; [done|..].
    + intros t' b Hin. apply Hmono; [|by apply H1]. intros ->.
      apply elem_of_app in Hin as [Hin|Hin]; [apply Hn1|apply Hn2]; by apply (list_elem_of_fmap_2 fst _ (t, b)).
    + intros t' r' Hin. destruct (H2 t' r' ltac:(set_solver + Hin)) as (b&Ha&?). exists b. split; [|done].
      apply Hmono; [|done]. intros ->. apply Hn3. by apply (list_elem_of_fmap_2 fst _ (t, r')).
Qed.

Lemma NoDup_perm {A} (l l' : list A) : l ≡ₚ l' -> NoDup l -> NoDup l'.
Proof. by intros ->. Qed.

(** The invariant depends on the messages only through what is in flight. *)
Lemma dinv_move c c' :
  dinv c -> clnt c' = clnt c -> sent c' = sent c -> got c' = got c -> reader c' = reader c ->
  (reader c = true -> NoDup (in_flight c) -> NoDup (in_flight c')) ->
  (forall t b, (t, b) ∈ c2s c' ++ working c' -> (t, b) ∈ c2s c ++ working c) ->
  (forall t r, (t, r) ∈ s2c c' -> (t, r) ∈ s2c c \/
     exists b, (t, b) ∈ c2s c ++ working c /\ serves b r) ->
  dinv c'.
Proof.
  intros (Hn&Hc&Hg&Hf) E1 E2 E3 E4 Hnd Hreq Hrep. unfold dinv, awaits. rewrite E1, E2, E3, E4.
  split_and!; [done..|]. intros Hr. destruct (Hf Hr) as (H0&H1&H2). split_and!.
  - auto.
  - intros t b Hin. by apply H1, Hreq.
  - intros t r Hin. destruct (Hrep t r Hin) as [?|(b&?&?)]; [by apply H2|]. exists b. split; [by apply H1|done].
Qed.

Lemma dinv_step c c' :
  dinv c -> dstep serves c c' -> Z.of_nat (length (sent c')) + 1 < 2 ^ 32 -> dinv c'.
Proof.
  intros Hinv Hstep Hb. destruct Hstep as [c b written dmx t Hs|c b dmx Hs|c t b rest Es
    |c t b l1 l2 r Ew Hsrv|c t b l1 l2 Ew|c t r rest dmx [ch r'] Hr Es Hd|c dmx ds Hr Hd|c]; simpl in Hb.
  - rewrite length_app in Hb. simpl in Hb. apply dinv_send; [done|lia|done].
  - rewrite length_app in Hb. simpl in Hb. pose proof Hinv as (Hn&Hc&Hg&Hf).
    destruct (send_None _ _ _ Hs) as (Hn'&Hc'). rewrite Hn, u32_small in Hn' by lia.
    assert (sent c `prefix_of` sent c ++ [b]) as Hp by (by eexists).
    split_and!; simpl.
    + rewrite Hn', length_app. simpl. lia.
    + intros t ch. rewrite Hc', length_app. intros ?%Hc. lia.
    + intros ch r [Hin|[= -> ->]%list_elem_of_singleton]%elem_of_app He; [|done]. by eapply got_mono.
    + intros Hr. destruct (Hf Hr) as (H0&H1&H2). split_and!; [done|..].
      * intros t b' Hin. eapply (awaits_mono c); [by apply H1| |done]. simpl. by rewrite Hc'.
      * intros t r Hin. destruct (H2 t r Hin) as (b'&?&?). exists b'. split; [|done].
        eapply (awaits_mono c); [done| |done]. simpl. by rewrite Hc'.
  - apply (dinv_move c); try done; unfold in_flight; simpl; rewrite ?Es.
    + intros _. rewrite fmap_cons, fmap_app. simpl. apply NoDup_perm. solve_Permutation.
    + set_solver.
    + auto.
  - apply (dinv_move c); try done; unfold in_flight; simpl; rewrite ?Ew.
    + intros _. rewrite !fmap_app, !fmap_cons. simpl. apply NoDup_perm. solve_Permutation.
    + set_solver.
    + intros t' r' [?|[= -> ->]%list_elem_of_singleton]%elem_of_app; [by left|]. right. exists b. set_solver.
  - apply (dinv_move c); try done; unfold in_flight; simpl; rewrite ?Ew.
    + intros _. rewrite !fmap_app, !fmap_cons. simpl. intros H.
      apply (NoDup_perm _ (t :: (c2s c).*1 ++ (l1.*1 ++ l2.*1) ++ (s2c c).*1)) in H; [|solve_Permutation].
      by apply list.NoDup_cons in H as [_ ?].
    + set_solver.
    + auto.
  - by eapply dinv_receive.
  - pose proof Hinv as (Hn&Hc&Hg&Hf). destruct (deliver_all_Ret _ _ _ _ _ Hd) as (Hn'&Hc'&Hf').
    simpl in *. split_and!; simpl; [congruence| | |done].
    + intros t ch Hch. eapply Hc. by eapply lookup_weaken.
    + intros ch r [Hin|Hin]%elem_of_app He; [by apply Hg|]. rewrite list.Forall_forall in Hf'.
      specialize (Hf' _ Hin). simpl in Hf'. by subst r.
  - pose proof Hinv as (Hn&Hc&Hg&Hf). split_and!; simpl; [done..|]. intros Hr.
    destruct (Hf Hr) as (H0&H1&H2). split_and!; [done|..].
    + intros t b Hin. by apply H1.
    + intros t r Hin. by apply H2.
Qed.

End matching.

Lemma dstep_sent serves c c' : dstep serves c c' -> (length (sent c) <= length (sent c'))%nat.
Proof. destruct 1; simpl; rewrite ?length_app; lia. Qed.

Lemma dinv_steps serves c c' :
  rtc (dstep serves) c c' -> dinv serves c -> Z.of_nat (length (sent c')) + 1 < 2 ^ 32 -> dinv serves c'.
Proof.
  induction 1 as [|c1 c2 c3 H12 H23 IH]; [done|]. intros Hinv Hb. apply IH; [|done].
  eapply dinv_step; [done..|].
  assert (length (sent c2) <= length (sent c3))%nat.
  { clear -H23. induction H23 as [|x y z Hxy _ IH]; [done|]. apply dstep_sent in Hxy. lia. }
  lia.
Qed.

(** ** Properties *)

(** C37: framing loses nothing.  Messages written one after the other to the stream, each
    shorter than 2^32 bytes when encoded, are read back as they are, in order, and then the
    end of the stream. *)
Theorem framing_round_trip `{Codec msg} ms fuel :
  Forall (fun m => Z.of_nat (String.length (Marshall m)) < 2 ^ 32) ms -> (length ms < fuel)%nat ->
  read_all fuel (concat_strings (WriteCall <$> ms)) = Ret (ms, EOF).
Proof.
  intros Hms. revert fuel. induction Hms as [|m ms Hm _ IH]; intros [|fuel] Hf; simpl in Hf; [lia|done|lia|].
  rewrite fmap_cons.
  assert (concat_strings (WriteCall m :: (WriteCall <$> ms))
          = WriteCall m +:+ concat_strings (WriteCall <$> ms)) as ->.
  { unfold concat_strings at 1. simpl. by rewrite concat_strings_acc. }
  cbn [read_all]. rewrite ReadCall_WriteCall by done. run_go.
  rewrite IH by lia. done.
Qed.

(** Responses are matched with their requests.  Calls share one connection, are served
    concurrently and answered in any order, writes and the connection may fail: in every
    run with fewer than 2^32 - 1 calls, an answer without error that a caller receives is
    an answer the server gave to that caller's request, and the client never meets a
    response it has no request for, which would end the process. *)
Theorem responses_match_requests serves c :
  rtc (dstep serves) conn_init c -> Z.of_nat (length (sent c)) + 1 < 2 ^ 32 ->
  (forall ch r, (ch, r) ∈ got c -> err r = false ->
     exists b, sent c !! ch = Some b /\ serves b (RPC_result r))
  /\ ~ stray c.
Proof.
  intros Hs Hb. pose proof (dinv_steps serves _ _ Hs (dinv_init serves) Hb) as (_&_&Hg&Hf). split.
  - intros ch r Hin He. destruct (Hg ch r Hin He) as (b&?&?). exists b. unfold RPC_result. by rewrite He.
  - intros (Hr&t&r&rest&Es&Hd). destruct (Hf Hr) as (_&_&H2).
    destruct (H2 t r ltac:(rewrite Es; set_solver +)) as (b&(ch&Hch&_)&_).
    unfold deliver, remove in Hd. by rewrite Hch in Hd.
Qed.

(** *** Concrete runs *)

Definition msg_bits (m : msg) : positive := encode (Tag m, Data m, Ok m).

Lemma msg_bits_law m :
  ('(t, d, o) ← decode (of_bits (bits_of (msg_bits m))); Some (mkMsg t d o)) = Some m.
Proof. rewrite of_bits_of. unfold msg_bits. rewrite decode_encode. by destruct m. Qed.

#[local] Instance msg_codec : Codec msg := {
  Marshall m := bits_of (msg_bits m);
  Unmarshall s := '(t, d, o) ← decode (of_bits s); Some (mkMsg t d o);
  codec_round_trip := msg_bits_law;
}.

Definition two_msgs : list msg := [mkMsg 1 "x" true; mkMsg 2 "" false].

Lemma framing_round_trip_witness :
  read_all 3 (concat_strings (WriteCall <$> two_msgs)) = Ret (two_msgs, EOF).
Proof.
  apply framing_round_trip.
  - repeat constructor; vm_compute; reflexivity.
  - simpl. lia.
Defined.

(** Two calls whose answers overtake each other; a server that echoes. *)
Definition echo (b : bytes) (r : bytes * bool) : Prop := r = (b, true).

Definition after_sends : conn :=
  mkConn (mkClnt (mkCallMap false (<[2 := 1%nat]> (<[1 := 0%nat]> ∅))) 3)
    [] [(1, "a"%string); (2, "b"%string)] [] true ["a"%string; "b"%string] [].

Lemma sends_reach : rtc (dstep echo) conn_init after_sends.
Proof.
  eapply rtc_l; [apply (d_send echo _ "a" true); vm_compute; reflexivity|].
  eapply rtc_l; [apply (d_send echo _ "b" true); vm_compute; reflexivity|].
  eapply rtc_l; [apply (d_serve echo _ 1 "a" [(2, "b"%string)]); vm_compute; reflexivity|].
  eapply rtc_l; [apply (d_serve echo _ 2 "b" []); vm_compute; reflexivity|].
  apply rtc_refl.
Qed.

Definition overtaken : conn :=
  mkConn (mkClnt (mkCallMap false (delete 2 (<[2 := 1%nat]> (<[1 := 0%nat]> ∅)))) 3)
    [] [(1, "a"%string)] [] true ["a"%string; "b"%string] [(1%nat, mkReply "b" true false)].

Lemma overtaken_reach : rtc (dstep echo) conn_init overtaken.
Proof.
  etrans; [exact sends_reach|].
  eapply rtc_l; [apply (d_answer echo _ 2 "b" [(1, "a"%string)] [] ("b"%string, true)); reflexivity|].
  eapply rtc_l; [apply (d_receive echo _ 2 ("b"%string, true) []); reflexivity|].
  apply rtc_refl.
Qed.

Lemma responses_match_requests_witness :
  exists b, sent overtaken !! 1%nat = Some b /\ echo b ("b"%string, true).
Proof.
  destruct (responses_match_requests echo overtaken overtaken_reach) as [H _].
  - vm_compute. reflexivity.
  - apply (H 1%nat (mkReply "b" true false)); [|reflexivity]. apply list_elem_of_In. left. reflexivity.
Defined.
