(* ===== verification/TesterGroup.v ===== *)
(** * Server groups and clients of the tester

    [src/src/tester1/group.go], [srv.go] and [clnts.go]: the tester's view of a group of
    servers on the simulated network, how it connects, partitions, stops and restarts
    them, and the clients' ends.  Random end names are arguments, and so is what becomes of
    a process that is started; a daemon process is the persister it holds, as long as it
    answers the tester. *)

From S2P Require Import Prelude Labrpc RaftTest.
Local Open Scope Z_scope.

Definition ServerName (gid i : Z) : string := "server-" +:+ Itoa gid +:+ "-" +:+ Itoa i.

(** ** Servers *)

(** The daemon process behind a [DaemonClnt]: it answers the control calls, from the
    persister it holds, or it has ended and the connection with it.  (One that neither ends
    nor answers would block its caller.) *)
Inductive daemon := Answering (p : Persister) | Silent.

(** [dc] is nil when no daemon was started or it was killed. *)
Record TServer := mkTServer {
  saved : option Persister;
  endNames : list string;
  dc : option daemon;
}.

(** One end per peer, connected to its server and still disabled. *)
Fixpoint make_ends (names : list string) (gid : Z) (j : nat) (rn : Network) : go Network :=
  match names with
  | [] => Ret rn
  | name :: rest =>
      '(rn, _) ← MakeEnd name rn;
      make_ends rest gid (S j) (Connect name (ServerName gid (Z.of_nat j)) rn)
  end.

(** [names] are the random strings. *)
Definition makeServer (names : list string) (gid : Z) (rn : Network) : go (TServer * Network) :=
  rn ← make_ends names gid 0 rn;
  Ret (mkTServer None names None, rn).

Definition startServer (names : list string) (gid : Z) (s : TServer) (rn : Network)
    : go (TServer * Network) :=
  '(srv, rn) ← makeServer names gid rn;
  Ret (mkTServer (Some (match saved s with None => MakePersister | Some p => p end))
         (endNames srv) (dc srv), rn).

(** A control call of a [DaemonClnt]: no answer ends the tester. *)
Definition daemon_call {A} (f : Persister -> A) (d : daemon) : go A :=
  match d with Answering p => Ret (f p) | Silent => Crash Fatal end.

(** Keep a checkpoint of the daemon's persister and kill the daemon. *)
Definition shutdownServer (s : TServer) : go TServer :=
  match dc s with
  | Some d => p ← daemon_call Checkpoint d; Ret (mkTServer (Some p) (endNames s) None)
  | None => Ret s
  end.

Definition snapshotSize (s : TServer) : go Z :=
  match dc s with
  | Some d => daemon_call SnapshotSize d
  | None => match saved s with Some p => Ret (SnapshotSize p) | None => Crash Panic end
  end.

Definition raftSize (s : TServer) : go Z :=
  match dc s with
  | Some d => daemon_call RaftStateSize d
  | None => match saved s with Some p => Ret (RaftStateSize p) | None => Crash Panic end
  end.

(** ** Groups *)

Record ServerGrp := mkGrp {
  g_gid : Z;
  g_srvs : list TServer;
  g_connected : list bool;
}.

Definition set_gsrvs (l : list TServer) (sg : ServerGrp) : ServerGrp :=
  mkGrp (g_gid sg) l (g_connected sg).

(** [sg.connected[i] = b] *)
Definition set_connected (i : nat) (b : bool) (sg : ServerGrp) : go ServerGrp :=
  _ ← index (g_connected sg) i;
  Ret (mkGrp (g_gid sg) (g_srvs sg) (<[i := b]> (g_connected sg))).

Definition N (sg : ServerGrp) : nat := length (g_srvs sg).

Definition SrvName (i : nat) (sg : ServerGrp) : go string :=
  _ ← index (g_srvs sg) i; Ret (ServerName (g_gid sg) (Z.of_nat i)).

Fixpoint SrvNamesTo (to : list nat) (sg : ServerGrp) : go (list string) :=
  match to with
  | [] => Ret []
  | i :: rest => n ← SrvName i sg; ns ← SrvNamesTo rest sg; Ret (n :: ns)
  end.

Definition all (sg : ServerGrp) : list nat := seq 0 (length (g_srvs sg)).

Definition IsConnected (i : nat) (sg : ServerGrp) : go bool := index (g_connected sg) i.

Definition GetConnected (sg : ServerGrp) : list bool := g_connected sg.

(** The end of server [i] to server [j]. *)
Definition end_of (sg : ServerGrp) (i j : nat) : go string :=
  s ← index (g_srvs sg) i; index (endNames s) j.

(** [Server.connect]: the outgoing ends of server [i]. *)
Fixpoint connect_out (sg : ServerGrp) (i : nat) (to : list nat) (rn : Network) : go Network :=
  match to with
  | [] => Ret rn
  | j :: rest =>
      c ← IsConnected j sg;
      rn ← (if (c : bool) then e ← end_of sg i j; Ret (Enable e true rn) else Ret rn);
      connect_out sg i rest rn
  end.

(** The loop over the incoming ends. *)
Fixpoint connect_in (sg : ServerGrp) (i : nat) (to : list nat) (rn : Network) : go Network :=
  match to with
  | [] => Ret rn
  | j :: rest =>
      c ← IsConnected j sg;
      rn ← (if (c : bool) then e ← end_of sg j i; Ret (Enable e true rn) else Ret rn);
      connect_in sg i rest rn
  end.

Definition connect (i : nat) (to : list nat) (sg : ServerGrp) (rn : Network) : go (ServerGrp * Network) :=
  sg ← set_connected i true sg;
  rn ← connect_out sg i to rn;
  rn ← connect_in sg i to rn;
  Ret (sg, rn).

(** [Server.disconnect] *)
Fixpoint disconnect_out (sg : ServerGrp) (i : nat) (from : list nat) (rn : Network) : go Network :=
  match from with
  | [] => Ret rn
  | j :: rest => e ← end_of sg i j; disconnect_out sg i rest (Enable e false rn)
  end.

Fixpoint disconnect_in (sg : ServerGrp) (i : nat) (from : list nat) (rn : Network) : go Network :=
  match from with
  | [] => Ret rn
  | j :: rest => e ← end_of sg j i; disconnect_in sg i rest (Enable e false rn)
  end.

Definition disconnect (i : nat) (from : list nat) (sg : ServerGrp) (rn : Network)
    : go (ServerGrp * Network) :=
  sg ← set_connected i false sg;
  rn ← disconnect_out sg i from rn;
  rn ← disconnect_in sg i from rn;
  Ret (sg, rn).

Definition ConnectOne (i : nat) (sg : ServerGrp) (rn : Network) : go (ServerGrp * Network) :=
  connect i (all sg) sg rn.

Fixpoint connect_each (is_ : list nat) (sg : ServerGrp) (rn : Network) : go (ServerGrp * Network) :=
  match is_ with
  | [] => Ret (sg, rn)
  | i :: rest => '(sg, rn) ← ConnectOne i sg rn; connect_each rest sg rn
  end.

Definition ConnectAll (sg : ServerGrp) (rn : Network) : go (ServerGrp * Network) :=
  connect_each (all sg) sg rn.

Definition DisconnectAll (i : nat) (sg : ServerGrp) (rn : Network) : go (ServerGrp * Network) :=
  disconnect i (all sg) sg rn.

Definition ShutdownServer (i : nat) (sg : ServerGrp) (rn : Network) : go (ServerGrp * Network) :=
  '(sg, rn) ← disconnect i (all sg) sg rn;
  let rn := DeleteServer (ServerName (g_gid sg) (Z.of_nat i)) rn in
  s ← index (g_srvs sg) i;
  s ← shutdownServer s;
  Ret (set_gsrvs (<[i := s]> (g_srvs sg)) sg, rn).

Fixpoint Kill (srvs : list nat) (sg : ServerGrp) (rn : Network) : go (ServerGrp * Network) :=
  match srvs with
  | [] => Ret (sg, rn)
  | i :: rest => '(sg, rn) ← ShutdownServer i sg rn; Kill rest sg rn
  end.

Definition Shutdown (sg : ServerGrp) (rn : Network) : go (ServerGrp * Network) := Kill (all sg) sg rn.

(** What becomes of the process [runDaemon] starts: [cmd.Start] fails, or no socket of the
    process can be dialled, or it comes up. *)
Inductive launch := StartFails | Unreachable | Launched.

#[export] Instance launch_eq_dec : EqDecision launch.
Proof. solve_decision. Defined.

(** [StartServer]: new ends, a daemon started with the saved persister, and its address on
    the network.  If the process does not start, the server stays off the network and the
    caller gets the error; if it cannot be dialled, the tester ends. *)
Definition StartServer (i : nat) (names : list string) (l : launch) (labsrv : nat)
    (sg : ServerGrp) (rn : Network) : go (ServerGrp * Network * bool) :=
  s ← index (g_srvs sg) i;
  '(srv, rn) ← startServer names (g_gid sg) s rn;
  let sg := set_gsrvs (<[i := srv]> (g_srvs sg)) sg in
  match l with
  | StartFails => Ret (sg, rn, false)
  | Unreachable => Crash Fatal
  | Launched =>
      let srv := mkTServer (saved srv) (endNames srv) (Answering <$> saved srv) in
      Ret (set_gsrvs (<[i := srv]> (g_srvs sg)) sg,
           AddServer (ServerName (g_gid sg) (Z.of_nat i)) labsrv rn, true)
  end.

(** [p1], [p2] as the loop fills them: the index, the count of servers placed. *)
Fixpoint fill_partition (l : nat) (i j : nat) (k : nat) (p1 p2 : list nat) : go (list nat * list nat) :=
  match k with
  | O => Ret (p1, p2)
  | S k' =>
      if decide (i <> l) then
        if decide (j < length p1)%nat then fill_partition l (S i) (S j) k' (<[j := i]> p1) p2
        else
          _ ← index p2 (j - length p1);
          fill_partition l (S i) (S j) k' p1 (<[(j - length p1)%nat := i]> p2)
      else fill_partition l (S i) j k' p1 p2
  end.

(** Zeroes are what [make] leaves; writing at index -1 panics. *)
Definition MakePartition (l : nat) (sg : ServerGrp) : go (list nat * list nat) :=
  let n := length (g_srvs sg) in
  '(p1, p2) ← fill_partition l 0 0 n (replicate (n / 2 + 1) 0%nat) (replicate (n / 2) 0%nat);
  match p2 with
  | [] => Crash Panic
  | _ => Ret (p1, <[(length p2 - 1)%nat := l]> p2)
  end.

Fixpoint isolate (mine side other : list nat) (sg : ServerGrp) (rn : Network) : go (ServerGrp * Network) :=
  match mine with
  | [] => Ret (sg, rn)
  | i :: rest =>
      '(sg, rn) ← disconnect i other sg rn;
      '(sg, rn) ← connect i side sg rn;
      isolate rest side other sg rn
  end.

Definition Partition (p1 p2 : list nat) (sg : ServerGrp) (rn : Network) : go (ServerGrp * Network) :=
  '(sg, rn) ← isolate p1 p1 p2 sg rn;
  isolate p2 p2 p1 sg rn.

(** ** Clients *)

(** [cl_ends]: server to the name of the end; [cl_srvs]: [None] allows every server. *)
Record Clnt := mkClnt { cl_ends : gmap string string; cl_srvs : option (list string) }.

Definition makeClntTo (srvs : option (list string)) : Clnt := mkClnt ∅ srvs.

Definition allowedL (server : string) (clnt : Clnt) : bool :=
  match cl_srvs clnt with
  | None => true
  | Some l => existsb (fun n => bool_decide (n = server)) l
  end.

(** [name] is the random string of a new end. *)
Definition makeEnd (name server : string) (clnt : Clnt) (rn : Network) : go (Clnt * Network * string) :=
  match cl_ends clnt !! server with
  | Some e => Ret (clnt, rn, e)
  | None =>
      '(rn, _) ← MakeEnd name rn;
      let rn := Connect name server rn in
      let rn := if allowedL server clnt then Enable name true rn else Enable name false rn in
      Ret (mkClnt (<[server := name]> (cl_ends clnt)) (cl_srvs clnt), rn, name)
  end.

(** The loops over [clnt.ends]; the order does not matter, the names differ. *)
Definition enable_ends (b : bool) (es : list (string * string)) (rn : Network) : Network :=
  foldl (fun rn '(_, e) => Enable e b rn) rn es.

Definition clnt_ConnectAll (clnt : Clnt) (rn : Network) : Clnt * Network :=
  (mkClnt (cl_ends clnt) None, enable_ends true (map_to_list (cl_ends clnt)) rn).

Definition ConnectTo (srvs : list string) (clnt : Clnt) (rn : Network) : Clnt * Network :=
  let clnt := mkClnt (cl_ends clnt) (Some srvs) in
  (clnt, enable_ends true
           (filter (fun se => allowedL se.1 clnt = true) (map_to_list (cl_ends clnt))) rn).

Definition Disconnect (srv : string) (clnt : Clnt) (rn : Network) : Network :=
  enable_ends false (filter (fun se => se.1 = srv) (map_to_list (cl_ends clnt))) rn.

Definition clnt_DisconnectAll (clnt : Clnt) (rn : Network) : Clnt * Network :=
  (mkClnt (cl_ends clnt) (Some []), enable_ends false (map_to_list (cl_ends clnt)) rn).

Fixpoint delete_ends (es : list (string * string)) (rn : Network) : go Network :=
  match es with
  | [] => Ret rn
  | (_, e) :: rest => rn ← DeleteEnd e rn; delete_ends rest rn
  end.

Definition clnt_remove (clnt : Clnt) (rn : Network) : go Network :=
  delete_ends (map_to_list (cl_ends clnt)) rn.

(** ** Lemmas: names *)

Lemma ServerName_inj g g' i j : ServerName g (Z.of_nat i) = ServerName g' (Z.of_nat j) -> g = g' /\ i = j.
Proof.
  unfold ServerName. intros E%string_app_inj_l.
  destruct (last_sep_unique "-" (Itoa g) (Itoa g') (Itoa (Z.of_nat i)) (Itoa (Z.of_nat j))) as [Hg Hi];
    [by apply Itoa_no_dash; lia..|exact E|].
  apply Itoa_inj in Hg, Hi. split; [done|lia].
Qed.

(** ** Lemmas: links between servers *)

#[local] Arguments end_of : simpl never.

(** Every server has an end to every server, and all ends have different names. *)
Definition good (sg : ServerGrp) : Prop :=
  length (g_connected sg) = N sg
  /\ (forall i j, (i < N sg)%nat -> (j < N sg)%nat -> exists e, end_of sg i j = Ret e)
  /\ (forall i j i' j' e, end_of sg i j = Ret e -> end_of sg i' j' = Ret e -> i = i' /\ j = j').

(** Whether requests of server [i] reach server [j]. *)
Definition link (sg : ServerGrp) (rn : Network) (i j : nat) : bool :=
  match end_of sg i j with
  | Ret e => default false (enabled rn !! e)
  | Crash _ => false
  end.

Definition is_conn (sg : ServerGrp) (j : nat) : Prop := g_connected sg !! j = Some true.

#[export] Instance is_conn_dec sg j : Decision (is_conn sg j).
Proof. unfold is_conn. apply _. Defined.

Definition in_group (sg : ServerGrp) (l : list nat) : Prop := Forall (fun i => (i < N sg)%nat) l.

(** [Enable] on the ends of a list of pairs. *)
Definition enable_pairs (sg : ServerGrp) (b : bool) (ps : list (nat * nat)) (rn : Network) : Network :=
  foldl (fun rn '(x, y) => match end_of sg x y with Ret e => Enable e b rn | Crash _ => rn end) rn ps.

Lemma enable_pairs_app sg b ps qs rn :
  enable_pairs sg b (ps ++ qs) rn = enable_pairs sg b qs (enable_pairs sg b ps rn).
Proof. unfold enable_pairs. by rewrite foldl_app. Qed.

Lemma link_enable_pairs sg b ps x y : forall rn,
  good sg -> (x < N sg)%nat -> (y < N sg)%nat ->
  link sg (enable_pairs sg b ps rn) x y = if decide ((x, y) ∈ ps) then b else link sg rn x y.
Proof.
  intros rn (_&Hex&Hinj) Hx Hy. revert rn.
  induction ps as [|[i j] ps IH] using rev_ind; intros rn; [done|].
  rewrite enable_pairs_app. simpl. destruct (Hex x y Hx Hy) as [e He].
  destruct (end_of sg i j) as [e'|] eqn:E.
  - unfold link at 1. rewrite He. simpl. destruct (decide (e' = e)) as [->|Hne].
    + destruct (Hinj _ _ _ _ _ E He) as [-> ->]. rewrite lookup_insert_eq. simpl.
      rewrite decide_True; [done|set_solver +].
    + rewrite lookup_insert_ne by done. specialize (IH rn). unfold link at 1 in IH. rewrite He in IH.
      rewrite IH. destruct (decide ((x, y) ∈ ps)) as [Hin|Hin].
      * by rewrite decide_True by set_solver.
      * rewrite decide_False; [done|]. intros [?|[= -> ->]%list_elem_of_singleton]%elem_of_app; [done|].
        congruence.
  - rewrite IH. destruct (decide ((x, y) ∈ ps)) as [Hin|Hin].
    + by rewrite decide_True by set_solver.
    + rewrite decide_False; [done|]. intros [?|[= -> ->]%list_elem_of_singleton]%elem_of_app; [done|].
      congruence.
Qed.

Lemma connect_out_eq sg i to : good sg -> (i < N sg)%nat -> in_group sg to -> forall rn,
  connect_out sg i to rn = Ret (enable_pairs sg true (pair i <$> filter (is_conn sg) to) rn).
Proof.
  intros (Hlen&Hex&_) Hi Hto. induction Hto as [|j to Hj _ IH]; intros rn; [done|]. simpl.
  destruct (lookup_lt_is_Some_2 (g_connected sg) j) as [c Hc]; [lia|].
  unfold IsConnected, index. rewrite Hc. simpl. rewrite filter_cons.
  destruct (Hex i j Hi Hj) as [e He]. destruct c.
  - rewrite decide_True by done. rewrite He. simpl. rewrite IH. unfold enable_pairs. simpl. by rewrite He.
  - rewrite decide_False; [apply IH|]. unfold is_conn. by rewrite Hc.
Qed.

Lemma connect_in_eq sg i to : good sg -> (i < N sg)%nat -> in_group sg to -> forall rn,
  connect_in sg i to rn
  = Ret (enable_pairs sg true ((fun j => (j, i)) <$> filter (is_conn sg) to) rn).
Proof.
  intros (Hlen&Hex&_) Hi Hto. induction Hto as [|j to Hj _ IH]; intros rn; [done|]. simpl.
  destruct (lookup_lt_is_Some_2 (g_connected sg) j) as [c Hc]; [lia|].
  unfold IsConnected, index. rewrite Hc. simpl. rewrite filter_cons.
  destruct (Hex j i Hj Hi) as [e He]. destruct c.
  - rewrite decide_True by done. rewrite He. simpl. rewrite IH. unfold enable_pairs. simpl. by rewrite He.
  - rewrite decide_False; [apply IH|]. unfold is_conn. by rewrite Hc.
Qed.

Lemma disconnect_out_eq sg i from : good sg -> (i < N sg)%nat -> in_group sg from -> forall rn,
  disconnect_out sg i from rn = Ret (enable_pairs sg false (pair i <$> from) rn).
Proof.
  intros (_&Hex&_) Hi Hf. induction Hf as [|j from Hj _ IH]; intros rn; [done|]. simpl.
  destruct (Hex i j Hi Hj) as [e He]. rewrite He. simpl. rewrite IH. done.
Qed.

Lemma disconnect_in_eq sg i from : good sg -> (i < N sg)%nat -> in_group sg from -> forall rn,
  disconnect_in sg i from rn = Ret (enable_pairs sg false ((fun j => (j, i)) <$> from) rn).
Proof.
  intros (_&Hex&_) Hi Hf. induction Hf as [|j from Hj _ IH]; intros rn; [done|]. simpl.
  destruct (Hex j i Hj Hi) as [e He]. rewrite He. simpl. rewrite IH. done.
Qed.

(** The group with the flag of server [i] set. *)
Definition with_conn (i : nat) (b : bool) (sg : ServerGrp) : ServerGrp :=
  mkGrp (g_gid sg) (g_srvs sg) (<[i := b]> (g_connected sg)).

Lemma good_with_conn i b sg : good sg -> good (with_conn i b sg).
Proof. intros (Hlen&H). split; [|exact H]. unfold with_conn. simpl. by rewrite length_insert. Qed.

Lemma set_connected_eq i b sg : good sg -> (i < N sg)%nat -> set_connected i b sg = Ret (with_conn i b sg).
Proof.
  intros (Hlen&_) Hi. unfold set_connected, index.
  destruct (lookup_lt_is_Some_2 (g_connected sg) i) as [c Hc]; [lia|]. by rewrite Hc.
Qed.

(** The ends that [connect] enables and [disconnect] disables. *)
Lemma connect_eq i to sg rn :
  good sg -> (i < N sg)%nat -> in_group sg to ->
  let sg' := with_conn i true sg in
  connect i to sg rn
  = Ret (sg', enable_pairs sg' true
                ((pair i <$> filter (is_conn sg') to) ++ ((fun j => (j, i)) <$> filter (is_conn sg') to)) rn).
Proof.
  intros Hg Hi Hto sg'. unfold connect. rewrite set_connected_eq by done. run_go. fold sg'.
  assert (good sg') as Hg' by (by apply good_with_conn).
  rewrite connect_out_eq by done. run_go. rewrite connect_in_eq by done. run_go. by rewrite enable_pairs_app.
Qed.

Lemma disconnect_eq i from sg rn :
  good sg -> (i < N sg)%nat -> in_group sg from ->
  let sg' := with_conn i false sg in
  disconnect i from sg rn
  = Ret (sg', enable_pairs sg' false ((pair i <$> from) ++ ((fun j => (j, i)) <$> from)) rn).
Proof.
  intros Hg Hi Hf sg'. unfold disconnect. rewrite set_connected_eq by done. run_go. fold sg'.
  assert (good sg') as Hg' by (by apply good_with_conn).
  rewrite disconnect_out_eq by done. run_go. rewrite disconnect_in_eq by done. run_go. by rewrite enable_pairs_app.
Qed.

(** What [connect] and [disconnect] do to the links. *)
Lemma connect_spec i to sg rn :
  good sg -> (i < N sg)%nat -> in_group sg to ->
  exists rn', connect i to sg rn = Ret (with_conn i true sg, rn')
    /\ forall x y, (x < N sg)%nat -> (y < N sg)%nat ->
         link sg rn' x y
         = if decide (x = i /\ y ∈ to /\ is_conn (with_conn i true sg) y
                      \/ y = i /\ x ∈ to /\ is_conn (with_conn i true sg) x)
           then true else link sg rn x y.
Proof.
  intros Hg Hi Hto. rewrite connect_eq by done. eexists. split; [done|].
  intros x y Hx Hy. change (link sg) with (link (with_conn i true sg)).
  rewrite link_enable_pairs by (by try apply good_with_conn).
  apply decide_ext. rewrite elem_of_app, !list_elem_of_fmap. setoid_rewrite list_elem_of_filter. naive_solver.
Qed.

Lemma disconnect_spec i from sg rn :
  good sg -> (i < N sg)%nat -> in_group sg from ->
  exists rn', disconnect i from sg rn = Ret (with_conn i false sg, rn')
    /\ forall x y, (x < N sg)%nat -> (y < N sg)%nat ->
         link sg rn' x y
         = if decide (x = i /\ y ∈ from \/ y = i /\ x ∈ from) then false else link sg rn x y.
Proof.
  intros Hg Hi Hf. rewrite disconnect_eq by done. eexists. split; [done|].
  intros x y Hx Hy. change (link sg) with (link (with_conn i false sg)).
  rewrite link_enable_pairs by (by try apply good_with_conn).
  apply decide_ext. rewrite elem_of_app, !list_elem_of_fmap. naive_solver.
Qed.

(** Enabling and disabling touches no end, server or connection of the network, and no
    other end's flag. *)
Lemma enable_pairs_frame sg b ps : forall rn,
  let rn' := enable_pairs sg b ps rn in
  ends rn' = ends rn /\ servers rn' = servers rn /\ connections rn' = connections rn
  /\ Labrpc.done rn' = Labrpc.done rn
  /\ forall e, (forall x y, end_of sg x y <> Ret e) -> enabled rn' !! e = enabled rn !! e.
Proof.
  induction ps as [|[x y] ps IH]; intros rn; [done|]. unfold enable_pairs. simpl.
  destruct (end_of sg x y) as [e|c] eqn:E; [|apply (IH rn)].
  destruct (IH (Enable e b rn)) as (H1&H2&H3&H4&H5). split_and!; [done..|]. intros e' He'.
  rewrite H5 by done. simpl. apply lookup_insert_ne. intros ->. by eapply He'.
Qed.

Lemma disconnect_frame i from sg rn :
  good sg -> (i < N sg)%nat -> in_group sg from ->
  exists rn', disconnect i from sg rn = Ret (with_conn i false sg, rn')
    /\ ends rn' = ends rn /\ servers rn' = servers rn.
Proof.
  intros Hg Hi Hf. rewrite disconnect_eq by done. eexists. split; [done|].
  by destruct (enable_pairs_frame (with_conn i false sg) false ((pair i <$> from) ++ ((fun j => (j, i)) <$> from)) rn)
    as (?&?&_).
Qed.

(** Fresh distinct names make ends. *)
Lemma make_ends_returns names gid : forall j rn,
  NoDup names -> (forall name, name ∈ names -> ends rn !! name = None) ->
  exists rn', make_ends names gid j rn = Ret rn'.
Proof.
  induction names as [|name names IH]; intros j rn Hnd Hf; simpl; [by eexists|].
  apply list.NoDup_cons in Hnd as [Hn Hnd]. unfold MakeEnd. rewrite Hf by (by left). run_go.
  apply IH; [done|]. intros x Hx. simpl. rewrite lookup_insert_ne by (by intros ->).
  apply Hf. by right.
Qed.

Lemma link_srvs sg sg' rn x y : g_srvs sg = g_srvs sg' -> link sg rn x y = link sg' rn x y.
Proof. intros E. unfold link, end_of. by rewrite E. Qed.

Lemma is_conn_with_conn i b sg j :
  good sg -> (i < N sg)%nat ->
  is_conn (with_conn i b sg) j <-> (if decide (j = i) then b = true else is_conn sg j).
Proof.
  intros (Hlen&_) Hi. unfold is_conn, with_conn. simpl. case_decide as E.
  - subst. rewrite list_lookup_insert_eq by lia. split; [by intros [= ->]|by intros ->].
  - by rewrite list_lookup_insert_ne.
Qed.

(** What the loop of [Partition] over one side has established for the servers [d]. *)
Definition isolated (d other : list nat) (sg : ServerGrp) (rn : Network) : Prop :=
  (forall x, x ∈ d -> is_conn sg x)
  /\ (forall x y, x ∈ d -> y ∈ d -> link sg rn x y = true)
  /\ (forall x y, x ∈ d -> y ∈ other -> link sg rn x y = false /\ link sg rn y x = false).

Lemma isolated_nil other sg rn : isolated [] other sg rn.
Proof. split_and!; [intros x Hx|intros x y Hx..]; by apply elem_of_nil in Hx. Qed.

(** One turn of the loop. *)
Lemma isolate_one i side other sg rn :
  good sg -> (i < N sg)%nat -> in_group sg side -> in_group sg other ->
  i ∈ side -> (forall x, x ∈ side -> x ∉ other) ->
  exists sg' rn', ('(sg, rn) ← disconnect i other sg rn; connect i side sg rn) = Ret (sg', rn')
    /\ good sg' /\ g_srvs sg' = g_srvs sg
    /\ (forall x, x <> i -> is_conn sg' x <-> is_conn sg x)
    /\ (forall x y, x ∈ other -> y ∈ other -> link sg' rn' x y = link sg rn x y)
    /\ (forall d, (forall x, x ∈ d -> x ∈ side) ->
          isolated d other sg rn -> isolated (i :: d) other sg' rn').
Proof.
  intros Hg Hi Hside Hother Hin Hdis.
  destruct (disconnect_spec i other sg rn Hg Hi Hother) as (rn1&E1&H1).
  pose proof (good_with_conn i false sg Hg) as Hg1. set (sg1 := with_conn i false sg) in *.
  destruct (connect_spec i side sg1 rn1 Hg1 Hi Hside) as (rn2&E2&H2).
  set (sg2 := with_conn i true sg1) in *. exists sg2, rn2. rewrite E1. run_go. rewrite E2.
  unfold in_group in Hside, Hother. rewrite list.Forall_forall in Hside, Hother.
  assert (forall x, is_conn sg2 x <-> x = i \/ is_conn sg x) as Hconn.
  { intros x. unfold sg2, sg1. rewrite is_conn_with_conn by (by try apply good_with_conn).
    case_decide as E; [subst; tauto|]. rewrite is_conn_with_conn by done. rewrite decide_False by done. tauto. }
  split_and!.
  - done.
  - by apply good_with_conn.
  - done.
  - intros x Hx. rewrite Hconn. tauto.
  - intros x y Hx Hy. change (link sg2) with (link sg1). rewrite H2 by (by apply Hother).
    rewrite decide_False by (intros [(->&?&_)|(->&?&_)]; by eapply Hdis).
    change (link sg1) with (link sg). rewrite H1 by (by apply Hother).
    rewrite decide_False; [done|]. intros [[-> ?]|[-> ?]]; by eapply Hdis.
  - intros d Hd (Hc&Hl&Hx). split_and!.
    + intros x [->|Hxd]%elem_of_cons; apply Hconn; auto.
    + intros x y Hxd Hyd. change (link sg2) with (link sg1).
      assert (forall z, z ∈ i :: d -> z ∈ side /\ is_conn sg2 z) as Hz.
      { intros z [->|Hzd]%elem_of_cons; (split; [auto|]); apply Hconn; auto. }
      rewrite H2 by (apply Hside, Hz; done). case_decide as E; [done|].
      assert (x ∈ d /\ y ∈ d) as [Hxd' Hyd'].
      { apply elem_of_cons in Hxd, Hyd. destruct (Hz x ltac:(by apply elem_of_cons)), (Hz y ltac:(by apply elem_of_cons)).
        split; [destruct Hxd as [->|]|destruct Hyd as [->|]]; try done; exfalso; apply E; auto. }
      change (link sg1) with (link sg). rewrite H1 by (apply Hside, Hz; done).
      rewrite decide_False; [by apply Hl|]. intros [[_ ?]|[_ ?]]; [apply (Hdis y)|apply (Hdis x)]; auto.
    + intros x y Hxd Hy. change (link sg2) with (link sg1).
      assert (x ∈ side) as Hxs by (apply elem_of_cons in Hxd as [->|]; auto).
      assert (x <> y) as Hne by (intros ->; by eapply Hdis).
      pose proof (Hside x Hxs : (x < N sg1)%nat) as Hxn. pose proof (Hother y Hy : (y < N sg1)%nat) as Hyn.
      rewrite !H2 by done.
      assert (y ∉ side) as Hys by (intros ?; by apply (Hdis y)).
      rewrite !decide_False by naive_solver.
      change (link sg1) with (link sg). rewrite !H1 by done.
      apply elem_of_cons in Hxd as [->|Hxd]; [rewrite !decide_True by auto; done|].
      destruct (Hx x y Hxd Hy) as [-> ->]. by repeat case_decide.
Qed.

Lemma isolate_spec mine side other : forall sg rn d,
  good sg -> in_group sg side -> in_group sg other ->
  (forall x, x ∈ mine -> x ∈ side) -> (forall x, x ∈ d -> x ∈ side) ->
  (forall x, x ∈ side -> x ∉ other) -> isolated d other sg rn ->
  exists sg' rn', isolate mine side other sg rn = Ret (sg', rn')
    /\ good sg' /\ g_srvs sg' = g_srvs sg
    /\ (forall x, x ∈ other -> is_conn sg' x <-> is_conn sg x)
    /\ (forall x y, x ∈ other -> y ∈ other -> link sg' rn' x y = link sg rn x y)
    /\ isolated (reverse mine ++ d) other sg' rn'.
Proof.
  induction mine as [|i mine IH]; intros sg rn d Hg Hs Ho Hm Hd Hdis Hiso; [by exists sg, rn|].
  assert (i ∈ side) as His by (apply Hm; set_solver +).
  assert (i < N sg)%nat as Hi by (unfold in_group in Hs; rewrite list.Forall_forall in Hs; auto).
  destruct (isolate_one i side other sg rn Hg Hi Hs Ho His Hdis) as (sg1&rn1&E1&Hg1&Hsrv1&Hc1&Hl1&Hd1).
  assert (N sg1 = N sg) as HN by (unfold N; by rewrite Hsrv1).
  destruct (IH sg1 rn1 (i :: d)) as (sg2&rn2&E2&Hg2&Hsrv2&Hc2&Hl2&Hd2).
  - done.
  - unfold in_group. by rewrite HN.
  - unfold in_group. by rewrite HN.
  - intros x Hx. apply Hm. set_solver + Hx.
  - intros x [->|Hx]%elem_of_cons; auto.
  - done.
  - by apply Hd1.
  - exists sg2, rn2. split_and!.
    + cbn [isolate]. destruct (disconnect i other sg rn) as [[sg' rn']|]; [|done]. cbn [mbind go_bind] in *.
      by rewrite E1.
    + done.
    + congruence.
    + intros x Hx. rewrite Hc2, Hc1; [done| |done]. intros ->. by eapply Hdis.
    + intros x y Hx Hy. by rewrite Hl2, Hl1.
    + by rewrite reverse_cons, <- app_assoc.
Qed.

(** ** Lemmas: choosing a partition *)

Lemma fill_partition_spec l k : forall i j p1 p2,
  let o := filter (fun x => x <> l) (seq i k) in
  (j + length o <= length p1 + length p2)%nat ->
  exists q1 q2, fill_partition l i j k p1 p2 = Ret (q1, q2)
    /\ length q1 = length p1 /\ length q2 = length p2
    /\ q1 ++ q2 = take j (p1 ++ p2) ++ o ++ drop (j + length o) (p1 ++ p2).
Proof.
  induction k as [|k IH]; intros i j p1 p2 o Hlen; simpl in *.
  - exists p1, p2. rewrite Nat.add_0_r. split_and!; [done..|]. simpl. by rewrite take_drop.
  - revert o Hlen. rewrite filter_cons. case_decide as Hil; simpl.
    + intros Hlen. set (o := filter (fun x => x <> l) (seq (S i) k)) in *.
      assert (forall p : list nat, (j < length p)%nat ->
        take (S j) (<[j := i]> p) ++ o ++ drop (S j + length o) (<[j := i]> p)
        = take j p ++ (i :: o) ++ drop (j + S (length o)) p) as Hshift.
      { intros p Hp. rewrite (take_S_r _ _ i) by (by apply list_lookup_insert_eq).
        rewrite take_insert_ge, drop_insert_lt by lia. rewrite <- app_assoc.
        by replace (j + S (length o))%nat with (S j + length o)%nat by lia. }
      case_decide as Hj.
      * destruct (IH (S i) (S j) (<[j := i]> p1) p2) as (q1&q2&E&H1&H2&H3);
          [cbv zeta; fold o; rewrite length_insert; lia|].
        exists q1, q2. rewrite length_insert in H1. split_and!; [done..|]. rewrite H3, <- insert_app_l by done.
        apply Hshift. rewrite length_app. lia.
      * destruct (lookup_lt_is_Some_2 p2 (j - length p1)) as [x Hx]; [lia|].
        unfold index. rewrite Hx. run_go.
        destruct (IH (S i) (S j) p1 (<[(j - length p1)%nat := i]> p2)) as (q1&q2&E&H1&H2&H3);
          [cbv zeta; fold o; rewrite length_insert; lia|].
        exists q1, q2. rewrite length_insert in H2. split_and!; [done..|]. rewrite H3.
        rewrite <- insert_app_r_alt by lia. apply Hshift. rewrite length_app. lia.
    + intros Hlen. apply IH. done.
Qed.

Lemma filter_ne_seq l n : (l < n)%nat ->
  Permutation (filter (fun x => x <> l) (seq 0 n) ++ [l]) (seq 0 n).
Proof.
  intros Hl. apply list.NoDup_Permutation.
  - apply list.NoDup_app. split_and!; [apply list.NoDup_filter, NoDup_seq| |apply NoDup_singleton].
    intros x [Hne _]%list_elem_of_filter ->%list_elem_of_singleton. done.
  - apply NoDup_seq.
  - intros x. rewrite elem_of_app, list_elem_of_filter, list_elem_of_singleton, elem_of_seq.
    destruct (decide (x = l)); lia.
Qed.

(** ** Properties *)

(** With an odd number of servers [MakePartition] splits the group: every server is on
    exactly one side, the first side is a majority and the given leader is on the other. *)
Theorem make_partition_splits sg l m :
  N sg = (2 * m + 1)%nat -> (1 <= m)%nat -> (l < N sg)%nat ->
  exists p1 p2, MakePartition l sg = Ret (p1, p2)
    /\ (p1 ++ p2) ≡ₚ all sg /\ length p1 = (m + 1)%nat /\ l ∈ p2.
Proof.
  unfold N, all. intros Hn Hm Hl. unfold MakePartition. rewrite Hn in *.
  assert ((2 * m + 1) / 2 = m)%nat as Hdiv
    by (rewrite Nat.mul_comm, Nat.div_add_l by lia; simpl; lia).
  rewrite Hdiv. set (o := filter (fun x => x <> l) (seq 0 (2 * m + 1))).
  pose proof (filter_ne_seq l (2 * m + 1) Hl) as Hperm. fold o in Hperm.
  assert (length o = 2 * m)%nat as Hlo.
  { pose proof (Permutation_length Hperm) as E. rewrite length_app, length_seq in E. simpl in E. lia. }
  destruct (fill_partition_spec l (2 * m + 1) 0 0 (replicate (m + 1) 0%nat) (replicate m 0%nat))
    as (q1&q2&E&H1&H2&H3); [cbv zeta; fold o; rewrite !length_replicate; lia|].
  rewrite E. run_go. fold o in H3. rewrite length_replicate in H1, H2. simpl in H3.
  rewrite <- replicate_add, drop_replicate, Hlo in H3.
  replace (m + 1 + m - 2 * m)%nat with 1%nat in H3 by lia. simpl in H3.
  destruct q2 as [|x q2'] eqn:Eq; [simpl in H2; lia|]. rewrite <- Eq in *. clear Eq.
  exists q1, (<[(length q2 - 1)%nat := l]> q2). split; [done|].
  assert (q1 ++ <[(length q2 - 1)%nat := l]> q2 = o ++ [l]) as Ho.
  { rewrite <- (insert_app_r q1), H2, H3. replace (length q1 + (m - 1))%nat with (length o + 0)%nat by lia.
    by rewrite insert_app_r. }
  split_and!; [by rewrite Ho|done|].
  apply list_elem_of_lookup. exists (length q2 - 1)%nat. apply list_lookup_insert_eq. lia.
Qed.

(** [Partition] separates.  After it, whatever was connected before, requests between
    servers on the same side get through and requests between the sides do not, and every
    server of both sides counts as connected. *)
Lemma Partition_spec sg rn p1 p2 :
  good sg -> in_group sg p1 -> in_group sg p2 -> (forall x, x ∈ p1 -> x ∉ p2) ->
  exists sg' rn', Partition p1 p2 sg rn = Ret (sg', rn') /\ good sg'
    /\ (forall x y, (x ∈ p1 /\ y ∈ p1) \/ (x ∈ p2 /\ y ∈ p2) -> link sg' rn' x y = true)
    /\ (forall x y, x ∈ p1 -> y ∈ p2 -> link sg' rn' x y = false /\ link sg' rn' y x = false)
    /\ (forall x, x ∈ p1 ++ p2 -> is_conn sg' x).
Proof.
  intros Hg H1 H2 Hdis. unfold Partition.
  destruct (isolate_spec p1 p1 p2 sg rn [] Hg H1 H2) as (sg1&rn1&E1&Hg1&Hs1&_&_&Hc1&Hl1&Hx1); try done.
  { intros x Hx. by apply elem_of_nil in Hx. }
  { apply isolated_nil. }
  assert (N sg1 = N sg) as HN by (unfold N; by rewrite Hs1).
  destruct (isolate_spec p2 p2 p1 sg1 rn1 [] Hg1) as (sg2&rn2&E2&Hg2&Hs2&Hk2&Hf2&Hc2&Hl2&Hx2); try done.
  { unfold in_group. by rewrite HN. }
  { unfold in_group. by rewrite HN. }
  { intros x Hx. by apply elem_of_nil in Hx. }
  { intros x Hx Hx'. by apply (Hdis x). }
  { apply isolated_nil. }
  rewrite app_nil_r in *. setoid_rewrite elem_of_reverse in Hc1. setoid_rewrite elem_of_reverse in Hl1.
  setoid_rewrite elem_of_reverse in Hc2. setoid_rewrite elem_of_reverse in Hl2.
  setoid_rewrite elem_of_reverse in Hx2.
  exists sg2, rn2. rewrite E1. run_go. split_and!; [done..| | |].
  - intros x y [[Hx Hy]|[Hx Hy]]; [|by apply Hl2]. rewrite Hf2 by done. by apply Hl1.
  - intros x y Hx Hy. by destruct (Hx2 y x Hy Hx).
  - intros x [Hx|Hx]%elem_of_app; [apply Hk2; [done|]; by apply Hc1|by apply Hc2].
Qed.

(** A server that is shut down and started again gets its persistent state back.
    Given fresh random end names, and daemons that answer, both calls return; in between the
    server is off the network; afterwards it is back under its name, and the new daemon's persister reads
    the same Raft state and the same snapshot as the old one's. *)
Theorem restart_keeps_persistent_state i names ptr sg rn s p :
  good sg -> g_srvs sg !! i = Some s -> dc s = Some (Answering p) ->
  NoDup names -> (forall name, name ∈ names -> ends rn !! name = None) ->
  exists sg1 rn1 sg2 rn2,
    ShutdownServer i sg rn = Ret (sg1, rn1) /\ StartServer i names Launched ptr sg1 rn1 = Ret (sg2, rn2, true)
    /\ lookup_server (ServerName (g_gid sg) (Z.of_nat i)) rn1 = None
    /\ lookup_server (ServerName (g_gid sg) (Z.of_nat i)) rn2 = Some ptr
    /\ exists s2 p2, g_srvs sg2 !! i = Some s2 /\ dc s2 = Some (Answering p2) /\ endNames s2 = names
         /\ ReadRaftState p2 = ReadRaftState p /\ ReadSnapshot p2 = ReadSnapshot p.
Proof.
  intros Hg Hs Hp Hnd Hfresh. pose proof (lookup_lt_Some _ _ _ Hs) as Hi.
  destruct (disconnect_frame i (all sg) sg rn Hg Hi) as (rna&Hd&Hends&_).
  { apply list.Forall_forall. intros j Hj%elem_of_seq. unfold N. lia. }
  unfold ShutdownServer. rewrite Hd. run_go. unfold index at 1. simpl. rewrite Hs. run_go.
  unfold shutdownServer. rewrite Hp. run_go.
  destruct (make_ends_returns names (g_gid sg) 0 (DeleteServer (ServerName (g_gid sg) (Z.of_nat i)) rna) Hnd)
    as [rnb Hmk]; [simpl; by rewrite Hends|].
  eexists _, _, _, _. split; [reflexivity|]. split.
  { unfold StartServer, index. simpl. rewrite list_lookup_insert_eq by done. run_go.
    unfold startServer, makeServer. rewrite Hmk. run_go. reflexivity. }
  split; [unfold lookup_server; simpl; by rewrite lookup_insert_eq|].
  split; [unfold lookup_server; simpl; by rewrite lookup_insert_eq|].
  simpl. rewrite list_lookup_insert_eq by (by rewrite !length_insert).
  eexists _, _. split; [done|]. simpl. done.
Qed.

(** *** Concrete groups *)

(** A group of [n] servers whose ends are named after the pair they connect. *)
Definition demo_grp (n : nat) : ServerGrp :=
  mkGrp 0 ((fun i => mkTServer None ((fun j => Itoa (Z.of_nat (i * n + j))) <$> seq 0 n) None) <$> seq 0 n)
    (replicate n true).

Lemma demo_grp_end n i j e :
  end_of (demo_grp n) i j = Ret e ->
  (i < n)%nat /\ (j < n)%nat /\ e = Itoa (Z.of_nat (i * n + j)).
Proof.
  unfold end_of, index. simpl. rewrite list_lookup_fmap.
  destruct (seq 0 n !! i) as [i'|] eqn:Ei; [|done]. apply lookup_seq in Ei as [-> Hi]. simpl.
  rewrite list_lookup_fmap. destruct (seq 0 n !! j) as [j'|] eqn:Ej; [|done].
  apply lookup_seq in Ej as [-> Hj]. simpl. by intros [= <-].
Qed.

Lemma demo_grp_good n : good (demo_grp n).
Proof.
  split_and!.
  - unfold N. simpl. by rewrite length_replicate, length_fmap, length_seq.
  - unfold N, end_of, index. simpl. rewrite length_fmap, length_seq. intros i j Hi Hj.
    rewrite list_lookup_fmap, lookup_seq_lt by done. simpl.
    rewrite list_lookup_fmap, lookup_seq_lt by done. by eexists.
  - intros i j i' j' e (Hi&Hj&->)%demo_grp_end (Hi'&Hj'&E%Itoa_inj%Nat2Z.inj)%demo_grp_end.
    apply (Nat.div_mod_unique n i i' j j' Hj Hj'). lia.
Qed.

Lemma make_partition_splits_witness :
  exists p1 p2, MakePartition 1 (demo_grp 5) = Ret (p1, p2) /\ 1%nat ∈ p2 /\ length p1 = 3%nat.
Proof.
  destruct (make_partition_splits (demo_grp 5) 1 2) as (p1&p2&E&_&Hl&Hin).
  - reflexivity.
  - lia.
  - vm_compute. lia.
  - exists p1, p2. split; [exact E|]. split; [exact Hin|exact Hl].
Defined.

(** With an even number of servers a slot of the second side keeps its zero. *)
Example make_partition_even : MakePartition 1 (demo_grp 4) = Ret ([0; 2; 3], [0; 1])%nat.
Proof. vm_compute. reflexivity. Qed.

Lemma Partition_demo :
  exists sg' rn', Partition [0; 2; 4]%nat [1; 3]%nat (demo_grp 5) MakeNetwork = Ret (sg', rn')
    /\ link sg' rn' 0 4 = true /\ link sg' rn' 0 3 = false.
Proof.
  destruct (Partition_spec (demo_grp 5) MakeNetwork [0; 2; 4]%nat [1; 3]%nat)
    as (sg'&rn'&E&_&H1&H2&_).
  - apply demo_grp_good.
  - unfold in_group. vm_compute. repeat constructor.
  - unfold in_group. vm_compute. repeat constructor.
  - intros x Hx Hy. set_solver + Hx Hy.
  - exists sg', rn'. split; [exact E|]. split; [apply H1; left; set_solver +|].
    apply (H2 0%nat 3%nat); set_solver +.
Defined.

Definition demo_started : ServerGrp :=
  set_gsrvs (<[0%nat := mkTServer None (endNames (default (mkTServer None [] None) (g_srvs (demo_grp 1) !! 0%nat)))
                          (Some (Answering (mkPersister (Some "term") None)))]> (g_srvs (demo_grp 1))) (demo_grp 1).

Lemma demo_started_end i j : end_of demo_started i j = end_of (demo_grp 1) i j.
Proof. by destruct i. Qed.

Lemma demo_started_good : good demo_started.
Proof.
  destruct (demo_grp_good 1) as (H1&H2&H3). split; [exact H1|].
  split; intros *; rewrite ?demo_started_end; [apply H2|apply H3].
Qed.

Lemma restart_keeps_persistent_state_witness :
  exists sg2 s2 p2, g_srvs sg2 !! 0%nat = Some s2 /\ dc s2 = Some (Answering p2)
                    /\ ReadRaftState p2 = Some "term"%string.
Proof.
  destruct (restart_keeps_persistent_state 0 ["new"%string] 7 demo_started MakeNetwork
    (mkTServer None ["0"%string] (Some (Answering (mkPersister (Some "term"%string) None))))
    (mkPersister (Some "term"%string) None))
    as (sg1&rn1&sg2&rn2&_&_&_&_&s2&p2&H1&H2&_&H3&_).
  - exact demo_started_good.
  - vm_compute. reflexivity.
  - reflexivity.
  - apply NoDup_singleton.
  - intros name _. reflexivity.
  - exists sg2, s2, p2. split; [exact H1|]. split; [exact H2|]. rewrite H3. reflexivity.
Defined.

(** A client's end to a server that [ConnectTo] does not name stays enabled. *)
Example ConnectTo_keeps_other_ends :
  let clnt := mkClnt {[ "s"%string := "e"%string ]} None in
  let rn := Enable "e" true MakeNetwork in
  let '(clnt', rn') := ConnectTo [] clnt rn in
  allowedL "s" clnt' = false /\ enabled rn' !! "e"%string = Some true.
Proof. vm_compute. split; reflexivity. Qed.
