(* ===== verification/Annotation.v ===== *)
(** * Annotations of a test's timeline

    [src/src/tester1/annotation.go]: the list of recorded annotations, the continuous
    annotations still under way, and the tester's view of which servers are cut off or
    down.  Every operation takes the time [t] its clock reads; the locks make each one
    atomic.  Writing the visualization file is left out. *)

From S2P Require Import Prelude.
Local Open Scope Z_scope.
Local Open Scope string_scope.
Local Open Scope list_scope.

(** [porcupine.Annotation]: [End] is 0 for a point in time. *)
Record annot := mkAnnot {
  Tag : string; Start : Z; End : Z; Description : string; Details : string; BackgroundColor : string
}.

Record Continuous := mkCont { start : Z; desp : string; details : string; bgcolor : string }.

Record Annotation := mkAnnotation_ {
  annotations : list annot;
  continuous : gmap string Continuous;
  finalized : bool
}.

Record CheckerBegin := mkCheckerBegin { ts : Z; ck_details : string }.

Record FrameworkInfo := mkFinfo {
  nservers : nat;
  connected : list bool;
  crashed : list bool;
  ckbegin : CheckerBegin
}.

Definition COLOR_INFO := "#FAFAFA".
Definition COLOR_NEUTRAL := "#FFECB3".
Definition COLOR_SUCCESS := "#C8E6C9".
Definition COLOR_FAILURE := "#FFCDD2".
Definition COLOR_FAULT := "#B3E5FC".
Definition COLOR_USER := "#FFF176".

Definition TAG_CHECKER := "$ Checker".
Definition TAG_PARTITION := "$ Failure".
Definition TAG_INFO := "$ Test Info".

Definition mkAnnotation : Annotation := mkAnnotation_ [] ∅ false.

Definition mkFrameworkInfo (nservers : nat) : FrameworkInfo :=
  mkFinfo nservers (replicate nservers true) (replicate nservers false) (mkCheckerBegin 0 "").

(** ** The recorder *)

Definition clear (an : Annotation) : Annotation := mkAnnotation_ [] ∅ false.

Definition record (a : annot) (an : Annotation) : Annotation :=
  mkAnnotation_ (annotations an ++ [a]) (continuous an) (finalized an).

Definition annotatePointColor (t : Z) (tag desp details bgcolor : string) (an : Annotation) : Annotation :=
  record (mkAnnot tag t 0 desp details bgcolor) an.

Definition annotateIntervalColor (t : Z) (tag : string) (start : Z) (desp details bgcolor : string)
    (an : Annotation) : Annotation :=
  record (mkAnnot tag start t desp details bgcolor) an.

(** A continuous annotation made concrete at time [t]. *)
Definition concretize (tag : string) (t : Z) (c : Continuous) : annot :=
  mkAnnot tag (start c) t (desp c) (details c) (bgcolor c).

Definition annotateContinuousColor (t : Z) (tag desp details bgcolor : string) (an : Annotation) : Annotation :=
  match continuous an !! tag with
  | None => mkAnnotation_ (annotations an) (<[tag := mkCont t desp details bgcolor]> (continuous an)) (finalized an)
  | Some cont =>
      mkAnnotation_ (annotations an ++ [concretize tag t cont])
        (<[tag := mkCont t desp details bgcolor]> (continuous an)) (finalized an)
  end.

(** The test of [ok] guards nothing: a missing tag reads as the zero [Continuous]. *)
Definition annotateContinuousEnd (t : Z) (tag : string) (an : Annotation) : Annotation :=
  let cont := default (mkCont 0 "" "" "") (continuous an !! tag) in
  mkAnnotation_ (annotations an ++ [concretize tag t cont]) (delete tag (continuous an)) (finalized an).

(** [order] is the order in which Go iterates over the map. *)
Definition finalize (order : gmap string Continuous -> list (string * Continuous)) (t : Z)
    (an : Annotation) : list annot * Annotation :=
  (annotations an ++ ((fun '(tag, c) => concretize tag t c) <$> order (continuous an)),
   mkAnnotation_ (annotations an) (continuous an) true).

(** The clock is read again, at [t'], after [finalize]. *)
Definition FinalizeAnnotations order (t t' : Z) (end_ : string) (an : Annotation) : list annot * Annotation :=
  let '(l, an) := finalize order t an in
  (l ++ [mkAnnot TAG_INFO t' 0 end_ end_ COLOR_INFO], an).

Definition SetAnnotationFinalized (an : Annotation) : Annotation :=
  mkAnnotation_ (annotations an) (continuous an) true.

Definition isFinalized (an : Annotation) : bool := finalized an.

(** [cleanup] up to the file it writes: the annotations to visualize, if any.  [enabled]
    is the environment variable VIS_ENABLE. *)
Definition cleanup order (t t' : Z) (enabled : string) (failed : bool) (end_ : string) (an : Annotation)
    : option (list annot) * Annotation :=
  if bool_decide (enabled = "never") || (negb failed && negb (bool_decide (enabled = "always"))) || isFinalized an
  then (None, clear an)
  else
    let '(l, an) := finalize order t an in
    match l with
    | [] => (None, an)
    | _ => (Some (l ++ [mkAnnot TAG_INFO t' 0 end_ end_ COLOR_INFO]), an)
    end.

Definition AnnotateInfo (t : Z) (desp details : string) (an : Annotation) : Annotation :=
  annotatePointColor t TAG_INFO desp details COLOR_INFO an.

(** ** The fault state *)

(** The two globals. *)
Record tester_state := mkTester { finfo : FrameworkInfo; annotation : Annotation }.

Definition with_an (f : Annotation -> Annotation) (st : tester_state) : tester_state :=
  mkTester (finfo st) (f (annotation st)).

Definition AnnotateTest (t : Z) (desp : string) (nservers : nat) (st : tester_state) : tester_state :=
  let details := desp +:+ " (" +:+ Itoa (Z.of_nat nservers) +:+ " servers)" in
  mkTester (mkFrameworkInfo nservers) (AnnotateInfo t details details (clear (annotation st))).

Definition AnnotateCheckerBegin (t : Z) (details : string) (st : tester_state) : tester_state :=
  let fi := finfo st in
  mkTester (mkFinfo (nservers fi) (connected fi) (crashed fi) (mkCheckerBegin t details)) (annotation st).

(** The reset at the end is of a local copy. *)
Definition AnnotateCheckerEnd (t : Z) (desp details color : string) (st : tester_state) : tester_state :=
  let ck := ckbegin (finfo st) in
  if decide (ts ck = 0) then with_an (annotatePointColor t TAG_CHECKER desp details color) st
  else
    let d := ck_details ck +:+ ": " +:+ details in
    with_an (annotateIntervalColor t TAG_CHECKER (ts ck) desp d color) st.

(** A slice of ints as [%v] prints it. *)
Fixpoint show_rest (l : list nat) : string :=
  match l with
  | [] => "]"
  | i :: l' => " " +:+ Itoa (Z.of_nat i) +:+ show_rest l'
  end.

Definition show_ints (l : list nat) : string :=
  match l with
  | [] => "[]"
  | i :: l' => "[" +:+ Itoa (Z.of_nat i) +:+ show_rest l'
  end.

(** The loop of [annotateFault]: the servers cut off, the connected ones and the crashed
    ones. *)
Fixpoint classify (crashed : list bool) (id : nat) (conns : list bool) : go (list nat * list nat * list nat) :=
  match conns with
  | [] => Ret ([], [], [])
  | c :: conns' =>
      down ← index crashed id;
      '(alone, conn, crashes) ← classify crashed (S id) conns';
      Ret (if down : bool then (alone, conn, id :: crashes)
           else if c : bool then (alone, id :: conn, crashes)
           else (id :: alone, conn, crashes))
  end.

Definition fault_text (alone conn crashes : list nat) : string :=
  let text := concat_strings ("partition = " :: ((fun i => "[" +:+ Itoa (Z.of_nat i) +:+ "] ") <$> alone)) in
  let text := if decide (conn <> []) then text +:+ show_ints conn else text in
  if decide (crashes <> []) then text +:+ " / crash = " +:+ show_ints crashes else text.

(** All servers connected and running. *)
Definition healthy (fi : FrameworkInfo) : bool :=
  bool_decide (replicate (nservers fi) true = connected fi)
  && bool_decide (replicate (nservers fi) false = crashed fi).

Definition annotateFault (t : Z) (st : tester_state) : go tester_state :=
  let fi := finfo st in
  if healthy fi then Ret (with_an (annotateContinuousEnd t TAG_PARTITION) st)
  else
    '(alone, conn, crashes) ← classify (crashed fi) 0 (connected fi);
    let text := fault_text alone conn crashes in
    Ret (with_an (annotateContinuousColor t TAG_PARTITION text text COLOR_FAULT) st).

(** Go's [copy]: as many elements as both slices have. *)
Definition copy {A} (dst src : list A) : list A := take (length dst) src ++ drop (length src) dst.

Definition set_connected (fi : FrameworkInfo) (l : list bool) : FrameworkInfo :=
  mkFinfo (nservers fi) l (crashed fi) (ckbegin fi).
Definition set_crashed (fi : FrameworkInfo) (l : list bool) : FrameworkInfo :=
  mkFinfo (nservers fi) (connected fi) l (ckbegin fi).

Definition AnnotateConnection (t : Z) (connection : list bool) (st : tester_state) : go tester_state :=
  let fi := finfo st in
  if decide (connected fi = connection) then Ret st
  else annotateFault t (mkTester (set_connected fi (copy (connected fi) connection)) (annotation st)).

Definition AnnotateTwoPartitions (t : Z) (p1 p2 : list nat) (st : tester_state) : tester_state :=
  let text := "partition = " +:+ show_ints p1 +:+ " " +:+ show_ints p2 in
  with_an (annotateContinuousColor t TAG_PARTITION text text COLOR_FAULT) st.

Definition AnnotateClearFailure (t : Z) (st : tester_state) : tester_state :=
  let fi := finfo st in
  let fi := set_crashed fi ((fun _ => false) <$> crashed fi) in
  let fi := set_connected fi ((fun _ => true) <$> connected fi) in
  mkTester fi (annotateContinuousEnd t TAG_PARTITION (annotation st)).

(** The loops of [AnnotateShutdown] ([down = true]) and [AnnotateRestart]: the flags
    written and whether one of them changed. *)
Fixpoint mark (down : bool) (servers : list nat) (crashed : list bool) (changed : bool) : go (list bool * bool) :=
  match servers with
  | [] => Ret (crashed, changed)
  | id :: rest =>
      c ← index crashed id;
      mark down rest (<[id := down]> crashed) (if bool_decide (c <> down) then true else changed)
  end.

Definition AnnotateShutdown (t : Z) (servers : list nat) (st : tester_state) : go tester_state :=
  '(cr, changed) ← mark true servers (crashed (finfo st)) false;
  let st := mkTester (set_crashed (finfo st) cr) (annotation st) in
  if changed : bool then annotateFault t st else Ret st.

Definition AnnotateShutdownAll (t : Z) (st : tester_state) : go tester_state :=
  AnnotateShutdown t (seq 0 (nservers (finfo st))) st.

Definition AnnotateRestart (t : Z) (servers : list nat) (st : tester_state) : go tester_state :=
  '(cr, changed) ← mark false servers (crashed (finfo st)) false;
  let st := mkTester (set_crashed (finfo st) cr) (annotation st) in
  if changed : bool then annotateFault t st else Ret st.

Definition AnnotateRestartAll (t : Z) (st : tester_state) : go tester_state :=
  AnnotateRestart t (seq 0 (nservers (finfo st))) st.

(** ** Sessions *)

(** What the test framework and the tested code may do between two tests; the user's own
    annotations use their own tags. *)
Inductive tcall :=
  | CPoint (tag desp details bgcolor : string)
  | CInterval (tag : string) (start : Z) (desp details bgcolor : string)
  | CContinuous (tag desp details bgcolor : string)
  | CContinuousEnd (tag : string)
  | CCheckerBegin (details : string)
  | CCheckerEnd (desp details color : string)
  | CConnection (connection : list bool)
  | CClearFailure
  | CShutdown (servers : list nat)
  | CShutdownAll
  | CRestart (servers : list nat)
  | CRestartAll.

Definition do_call (t : Z) (c : tcall) (st : tester_state) : go tester_state :=
  match c with
  | CPoint tag desp details bg => Ret (with_an (annotatePointColor t tag desp details bg) st)
  | CInterval tag start desp details bg => Ret (with_an (annotateIntervalColor t tag start desp details bg) st)
  | CContinuous tag desp details bg => Ret (with_an (annotateContinuousColor t tag desp details bg) st)
  | CContinuousEnd tag => Ret (with_an (annotateContinuousEnd t tag) st)
  | CCheckerBegin details => Ret (AnnotateCheckerBegin t details st)
  | CCheckerEnd desp details color => Ret (AnnotateCheckerEnd t desp details color st)
  | CConnection l => AnnotateConnection t l st
  | CClearFailure => Ret (AnnotateClearFailure t st)
  | CShutdown l => AnnotateShutdown t l st
  | CShutdownAll => AnnotateShutdownAll t st
  | CRestart l => AnnotateRestart t l st
  | CRestartAll => AnnotateRestartAll t st
  end.

(** A session: calls with the times at which they happen. *)
Fixpoint do_calls (cs : list (Z * tcall)) (st : tester_state) : go tester_state :=
  match cs with
  | [] => Ret st
  | (t, c) :: cs' => st ← do_call t c st; do_calls cs' st
  end.

(** User annotations keep off the framework's tag, and server numbers are in range. *)
Definition call_ok (n : nat) (c : tcall) : Prop :=
  match c with
  | CContinuous tag _ _ _ | CContinuousEnd tag => tag <> TAG_PARTITION
  | CShutdown l | CRestart l => Forall (fun i => (i < n)%nat) l
  | _ => True
  end.

(** ** The fault state agrees with the annotation under way *)

Definition shown (an : Annotation) : bool := bool_decide (is_Some (continuous an !! TAG_PARTITION)).

Record finfo_ok (n : nat) (fi : FrameworkInfo) : Prop := {
  fi_n : nservers fi = n;
  fi_connected : length (connected fi) = n;
  fi_crashed : length (crashed fi) = n
}.

Definition session_ok (n : nat) (st : tester_state) : Prop :=
  finfo_ok n (finfo st) /\ shown (annotation st) = negb (healthy (finfo st)).

Lemma shown_end t an : shown (annotateContinuousEnd t TAG_PARTITION an) = false.
Proof. apply bool_decide_eq_false_2. simpl. rewrite lookup_delete_eq. by intros [? ?]. Qed.

Lemma shown_color t d1 d2 bg an : shown (annotateContinuousColor t TAG_PARTITION d1 d2 bg an) = true.
Proof.
  apply bool_decide_eq_true_2. unfold annotateContinuousColor.
  case_match; simpl; rewrite lookup_insert_eq; by eexists.
Qed.

Lemma shown_other_color t tag d1 d2 bg an :
  tag <> TAG_PARTITION -> shown (annotateContinuousColor t tag d1 d2 bg an) = shown an.
Proof.
  intros. unfold shown, annotateContinuousColor.
  case_match; simpl; by rewrite lookup_insert_ne by done.
Qed.

Lemma shown_other_end t tag an :
  tag <> TAG_PARTITION -> shown (annotateContinuousEnd t tag an) = shown an.
Proof. intros. unfold shown, annotateContinuousEnd. simpl. by rewrite lookup_delete_ne by done. Qed.

(** The classification is total and puts every server in exactly one class. *)
Lemma classify_spec cr conns : forall id, (id + length conns <= length cr)%nat ->
  exists alone conn crashes, classify cr id conns = Ret (alone, conn, crashes)
    /\ alone ++ conn ++ crashes ≡ₚ seq id (length conns)
    /\ (forall i, i ∈ alone -> cr !! i = Some false /\ conns !! (i - id)%nat = Some false)
    /\ (forall i, i ∈ conn -> cr !! i = Some false /\ conns !! (i - id)%nat = Some true)
    /\ (forall i, i ∈ crashes -> cr !! i = Some true).
Proof.
  induction conns as [|c conns IH]; intros id Hlen; simpl in *.
  { exists [], [], []. split; [done|]. split; [done|]. repeat apply conj; by intros ? ?%elem_of_nil. }
  destruct (IH (S id)) as (alone&conn&crashes&Heq&Hperm&Ha&Hc&Hd); [lia|].
  destruct (cr !! id) as [down|] eqn:Hid; [|apply lookup_ge_None in Hid; lia].
  unfold index. rewrite Hid. run_go. rewrite Heq. run_go.
  assert (forall b i, (S id <= i)%nat -> conns !! (i - S id)%nat = Some b -> (c :: conns) !! (i - id)%nat = Some b)
    as Hsh by (intros b i Hi Hb; by replace (i - id)%nat with (S (i - S id)) by lia).
  assert (forall i, i ∈ alone ++ conn ++ crashes -> (S id <= i)%nat) as Hge.
  { intros i Hi. rewrite Hperm, elem_of_seq in Hi. lia. }
  assert (forall i, i ∈ alone -> cr !! i = Some false /\ (c :: conns) !! (i - id)%nat = Some false) as Ha'.
  { intros i Hi. destruct (Ha i Hi). split; [done|]. apply Hsh; [|done]. apply Hge. set_solver. }
  assert (forall i, i ∈ conn -> cr !! i = Some false /\ (c :: conns) !! (i - id)%nat = Some true) as Hc'.
  { intros i Hi. destruct (Hc i Hi). split; [done|]. apply Hsh; [|done]. apply Hge. set_solver. }
  destruct down; [|destruct c]; (do 3 eexists; split; [reflexivity|]); (split; [|split; [|split]]);
    try done; try (intros i [->|Hi]%elem_of_cons; [by rewrite ?Nat.sub_diag|auto]).
  - rewrite <-Hperm. solve_Permutation.
  - rewrite <-Hperm. solve_Permutation.
  - rewrite <-Hperm. solve_Permutation.
Qed.

Lemma annotateFault_ok n t fi an :
  finfo_ok n fi -> exists an', annotateFault t (mkTester fi an) = Ret (mkTester fi an')
    /\ shown an' = negb (healthy fi).
Proof.
  intros [Hn Hc Hd]. unfold annotateFault. simpl. destruct (healthy fi).
  - eexists. split; [reflexivity|]. apply shown_end.
  - destruct (classify_spec (crashed fi) (connected fi) 0) as (al&co&cr&->&_); [lia|].
    run_go. eexists. split; [reflexivity|]. apply shown_color.
Qed.

Lemma length_copy {A} (d s : list A) : length (copy d s) = length d.
Proof. unfold copy. rewrite length_app, length_take, length_drop. lia. Qed.

Lemma mark_ok down l : forall cr ch, Forall (fun i => (i < length cr)%nat) l ->
  exists cr' ch', mark down l cr ch = Ret (cr', ch') /\ length cr' = length cr
    /\ (ch' = false -> cr' = cr).
Proof.
  induction l as [|i l IH]; intros cr ch Hl; simpl; [by exists cr, ch|].
  apply list.Forall_cons in Hl as [Hi Hl].
  destruct (lookup_lt_is_Some_2 cr i Hi) as [c Hc]. unfold index. rewrite Hc. run_go.
  destruct (IH (<[i := down]> cr) (if bool_decide (c <> down) then true else ch)) as (cr'&ch'&Heq&Hlen&Hch).
  { by rewrite length_insert. }
  exists cr', ch'. split; [done|]. split; [by rewrite Hlen, length_insert|].
  intros ->. rewrite Hch by done. case_bool_decide as Hd; [|].
  - exfalso. revert Heq. clear. generalize (<[i := down]> cr). induction l as [|j l IH]; intros cr0; simpl; [done|].
    destruct (index cr0 j); run_go; [|done]. case_bool_decide; apply IH.
  - apply list_insert_id. rewrite Hc. f_equal. by destruct (decide (c = down)).
Qed.

(** [AnnotateShutdown] and [AnnotateRestart]. *)
Lemma mark_session n t down l st :
  session_ok n st -> Forall (fun i => (i < n)%nat) l ->
  exists st', ('(cr, changed) ← mark down l (crashed (finfo st)) false;
    let st := mkTester (set_crashed (finfo st) cr) (annotation st) in
    if changed : bool then annotateFault t st else Ret st) = Ret st' /\ session_ok n st'.
Proof.
  intros [[Hn Hc Hd] Hs] Hl.
  destruct (mark_ok down l (crashed (finfo st)) false) as (cr&ch&->&Hlen&Hch); [by rewrite Hd|].
  run_go. assert (finfo_ok n (set_crashed (finfo st) cr)) as Hf by (split; simpl; congruence).
  destruct ch.
  - destruct (annotateFault_ok n t _ (annotation st) Hf) as (an'&->&Hsh). eexists. split; [reflexivity|]. done.
  - eexists. split; [reflexivity|]. split; [done|]. simpl. rewrite Hch by done. rewrite Hs. done.
Qed.

Lemma healthy_cleared fi n :
  finfo_ok n fi ->
  healthy (set_connected (set_crashed fi ((fun _ => false) <$> crashed fi)) ((fun _ => true) <$> connected fi)) = true.
Proof.
  intros [Hn Hc Hd]. unfold healthy. simpl. rewrite Hn.
  rewrite !bool_decide_eq_true_2; [done|..]; symmetry.
  - rewrite <-Hd. by apply const_fmap.
  - rewrite <-Hc. by apply const_fmap.
Qed.

Lemma do_call_ok n t c st :
  session_ok n st -> call_ok n c -> exists st', do_call t c st = Ret st' /\ session_ok n st'.
Proof.
  intros Hok Hc. pose proof Hok as [Hf Hs]. pose proof Hf as [Hn Hco Hcr].
  destruct c; simpl in *; try (eexists; split; [reflexivity|]).
  - by split.
  - by split.
  - split; [done|]. simpl. by rewrite shown_other_color.
  - split; [done|]. simpl. by rewrite shown_other_end.
  - done.
  - unfold AnnotateCheckerEnd. case_decide; by split.
  - unfold AnnotateConnection. case_decide; [by eexists|].
    assert (finfo_ok n (set_connected (finfo st) (copy (connected (finfo st)) connection))) as Hf'.
    { split; simpl; [done| |done]. by rewrite length_copy. }
    destruct (annotateFault_ok n t _ (annotation st) Hf') as (an'&->&Hsh).
    eexists. split; [reflexivity|]. done.
  - split; [split; simpl; rewrite ?length_fmap; done|]. unfold AnnotateClearFailure. cbn [annotation finfo].
    rewrite shown_end. exact (eq_sym (f_equal negb (healthy_cleared _ n Hf))).
  - by apply mark_session.
  - apply mark_session; [done|]. rewrite Hn. apply list.Forall_forall. intros i Hi%elem_of_seq. lia.
  - by apply mark_session.
  - apply mark_session; [done|]. rewrite Hn. apply list.Forall_forall. intros i Hi%elem_of_seq. lia.
Qed.

Lemma do_calls_ok n cs : forall st,
  session_ok n st -> Forall (fun tc => call_ok n tc.2) cs ->
  exists st', do_calls cs st = Ret st' /\ session_ok n st'.
Proof.
  induction cs as [|[t c] cs IH]; intros st Hst Hcs; simpl; [by eexists|].
  apply list.Forall_cons in Hcs as [Hc Hcs].
  destruct (do_call_ok n t c st Hst Hc) as (st1&->&Hst1). run_go. by apply IH.
Qed.

Lemma session_init n t d st : session_ok n (AnnotateTest t d n st).
Proof.
  split; [split; simpl; rewrite ?length_replicate; done|]. simpl.
  assert (healthy (mkFrameworkInfo n) = true) as Hh.
  { unfold healthy. simpl. by rewrite !bool_decide_eq_true_2. }
  rewrite Hh. done.
Qed.

(** ** Properties *)



(** The text of a fault annotation names every server exactly once: as cut off, as
    connected, or as crashed whatever its connection. *)
Theorem fault_annotation_names_every_server n t fi an :
  finfo_ok n fi -> healthy fi = false ->
  exists alone conn crashes,
    annotateFault t (mkTester fi an) = Ret (with_an (annotateContinuousColor t TAG_PARTITION
      (fault_text alone conn crashes) (fault_text alone conn crashes) COLOR_FAULT) (mkTester fi an))
    /\ alone ++ conn ++ crashes ≡ₚ seq 0 n
    /\ (forall i, i ∈ crashes <-> crashed fi !! i = Some true)
    /\ (forall i, i ∈ alone <-> crashed fi !! i = Some false /\ connected fi !! i = Some false).
Proof.
  intros [Hn Hc Hd] Hh.
  destruct (classify_spec (crashed fi) (connected fi) 0) as (al&co&cr&Heq&Hperm&Ha&Hco&Hcr); [lia|].
  exists al, co, cr. unfold annotateFault. simpl. rewrite Hh, Heq. split; [done|].
  rewrite Hc in Hperm. split; [done|].
  assert (forall i, (i < n)%nat -> i ∈ al \/ i ∈ co \/ i ∈ cr) as Hall.
  { intros i Hi. assert (i ∈ al ++ co ++ cr) as Hin by (rewrite Hperm, elem_of_seq; lia). set_solver. }
  setoid_rewrite Nat.sub_0_r in Ha. setoid_rewrite Nat.sub_0_r in Hco.
  split; intros i; (split; [by auto|]).
  - intros Hi. destruct (Hall i) as [Hx|[Hx|Hx]]; [rewrite <-Hd; by eapply lookup_lt_Some| | |done].
    + apply Ha in Hx as [? _]. congruence.
    + apply Hco in Hx as [? _]. congruence.
  - intros [Hi Hi']. destruct (Hall i) as [Hx|[Hx|Hx]]; [rewrite <-Hd; by eapply lookup_lt_Some|done| |].
    + apply Hco in Hx as [_ ?]. congruence.
    + apply Hcr in Hx. congruence.
Qed.

Lemma fault_annotation_names_every_server_witness :
  exists alone conn crashes : list nat, alone ++ conn ++ crashes ≡ₚ seq 0 3.
Proof.
  destruct (fault_annotation_names_every_server 3 5
    (mkFinfo 3 [true; false; true] [false; false; true] (mkCheckerBegin 0 "")) mkAnnotation)
    as (al&co&cr&_&Hp&_); [by split|reflexivity|]. exists al, co, cr. exact Hp.
Defined.

(** Ending a continuous annotation that is not under way records a spurious interval
    from time 0 with an empty description; [AnnotateClearFailure] does so on a healthy
    test, although the code means to do nothing. *)
Theorem clear_failure_records_spurious_interval n t t0 d st0 :
  let st := AnnotateTest t0 d n st0 in
  annotations (annotation (AnnotateClearFailure t st))
  = annotations (annotation st) ++ [mkAnnot TAG_PARTITION 0 t "" "" ""].
Proof. reflexivity. Qed.

(** The start of a check is never reset: once [AnnotateCheckerBegin] has run, every
    later end of a check in the same test, matched or not, is drawn as an interval from
    that start. *)
Theorem checker_begin_never_reset t0 t1 t2 d0 d1 x1 c1 d2 x2 c2 st :
  t0 <> 0 ->
  let st1 := AnnotateCheckerEnd t1 d1 x1 c1 (AnnotateCheckerBegin t0 d0 st) in
  annotations (annotation (AnnotateCheckerEnd t2 d2 x2 c2 st1))
  = annotations (annotation st1) ++ [mkAnnot TAG_CHECKER t0 t2 d2 (d0 +:+ ": " +:+ x2) c2].
Proof.
  intros Ht st1.
  assert (ckbegin (finfo st1) = mkCheckerBegin t0 d0) as Hck.
  { unfold st1, AnnotateCheckerEnd. by case_decide. }
  unfold AnnotateCheckerEnd at 1. rewrite Hck. simpl. by rewrite decide_False.
Qed.

Lemma checker_begin_never_reset_witness :
  annotations (annotation (AnnotateCheckerEnd 9 "b" "y" COLOR_SUCCESS
    (AnnotateCheckerEnd 6 "a" "x" COLOR_SUCCESS (AnnotateCheckerBegin 5 "d"
      (mkTester (mkFrameworkInfo 1) mkAnnotation)))))
  = [mkAnnot TAG_CHECKER 5 6 "a" "d: x" COLOR_SUCCESS; mkAnnot TAG_CHECKER 5 9 "b" "d: y" COLOR_SUCCESS].
Proof. exact (checker_begin_never_reset 5 6 9 "d" "a" "x" COLOR_SUCCESS "b" "y" COLOR_SUCCESS _ ltac:(lia)). Defined.
