(* ===== verification/MRJob.v ===== *)
(** * Whole MapReduce jobs

    The loop of a worker ([worker.run], [getTask], [markAsDone] of
    [src/map_reduce/mr/worker.go]) joined with the coordinator of [Coordinator] and the
    task execution of [MRWorker] on a shared directory.  Any number of workers take, run
    and report tasks in any interleaving; workers start and die at any time, also in the
    middle of a task; watchers take away the tasks of silent workers; [MakeCoordinator] sets
    the phase at any time.  [wstep] has all of this.  The theorems are about the runs of
    [prompt_step]: the steps of [wstep] in which pings arrive in time, no worker dies
    between the first deletion of a reduce task and its report, and the phase is set before the last map
    task is reported.  Outside of these runs the output can be lost
    ([MRWorker.reduce_rerun_empties_output]) or the job can hang
    ([Coordinator.late_phase_wedges_job]).  In a run of [prompt_step] no task is held by two
    workers, so that executing a task can be one step: its files are written by atomic
    renames ([MRWorker.writeFile_atomic]) and belong to the task. *)

From S2P Require Import Prelude Coordinator MRWorker.
Local Open Scope Z_scope.

(** ** The worker *)

(** A worker process: about to call [getTask], holding a task, about to report it, or
    gone through [os.Exit]. *)
Inductive wstat :=
  | WIdle
  | WGot (task : GetTaskOut)
  | WRan (task : GetTaskOut)
  | WExit.

(** The switch of [run] on the task's type; after waiting, [run] starts again. *)
Definition after_getTask (task : GetTaskOut) : wstat :=
  if decide (out_Type task = TaskTypeExit) then WExit
  else if decide (out_Type task = TaskTypeWait) then WIdle
  else if decide (out_Type task = TaskTypeMap \/ out_Type task = TaskTypeReduce) then WGot task
  else WRan task.

(** The calls of a worker; the socket delivers them and their replies. *)
Definition getTask (w : string) (now : Z) (j : job) : job * GetTaskOut :=
  (handle (EGetTask w now) j, answer w now j).

Definition markAsDone (w : string) (taskId : string) (j : job) : job := handle (EDone w taskId) j.

Definition pingCoordinator (w : string) (now : Z) (j : job) : job := handle (EPing w now) j.

Section system.
  Context (mapfn : string -> string -> list KeyValue).
  Context (reducefn : string -> list string -> string).
  Context `{Json} `{SortByKey} `{TempFile}.
  Context (visit : gmap string (list string) -> list (string * list string)).

(** The body of the switch. *)
Definition exec_task (task : GetTaskOut) (fs : files) : go files :=
  if decide (out_Type task = TaskTypeMap) then execMap mapfn (fun _ => WriteOk) task fs
  else if decide (out_Type task = TaskTypeReduce) then Ret (execReduce reducefn visit WriteOk task fs)
  else Ret fs.

(** The coordinator, the directory, and the worker processes by id. *)
Record sys := mkSys { s_job : job; s_fs : files; s_ws : gmap string wstat }.

(** Worker status [st] holds the task with id [x]. *)
Definition holds_id (st : wstat) (x : string) : Prop :=
  match st with WGot o | WRan o => out_Id o = x | _ => False end.

Definition held (ws : gmap string wstat) (x : string) : Prop :=
  exists w st, ws !! w = Some st /\ holds_id st x.

(** A reduce task cut short: the output is written, and the first [m] inputs are deleted. *)
Definition execReduce_cut (m : nat) (task : GetTaskOut) (fs : files) : files :=
  let filenames := Glob (out_Input task) fs in
  match readReduceInputFiles filenames fs with
  | None => fs
  | Some kvs =>
      let output := reduceValuesByKey reducefn (visit (groupValuesByKey kvs)) in
      let '(fs', _) := writeFile WriteOk output ("mr-out-" +:+ Itoa (out_Idx task)) fs in
      deleteIntermediateFiles (take m filenames) fs'
  end.

(** The interleavings of the workers' loops, the coordinator's watchers and the rest of
    [MakeCoordinator].  A worker dies before, after or in the middle of any task: some
    buckets of a map task are on disk, or the output of a reduce task, whose inputs are
    partly deleted. *)
Inductive wstep : sys -> sys -> Prop :=
  | w_start j fs ws :
      started j = false -> wstep (mkSys j fs ws) (mkSys (handle EStart j) fs ws)
  | w_spawn j fs ws w :
      ws !! w = None -> wstep (mkSys j fs ws) (mkSys j fs (<[w := WIdle]> ws))
  | w_getTask j fs ws w now :
      ws !! w = Some WIdle ->
      wstep (mkSys j fs ws)
        (mkSys (getTask w now j).1 fs (<[w := after_getTask (getTask w now j).2]> ws))
  | w_exec j fs ws w task fs' :
      ws !! w = Some (WGot task) -> exec_task task fs = Ret fs' ->
      wstep (mkSys j fs ws) (mkSys j fs' (<[w := WRan task]> ws))
  | w_markAsDone j fs ws w task :
      ws !! w = Some (WRan task) ->
      wstep (mkSys j fs ws) (mkSys (markAsDone w (out_Id task) j) fs (<[w := WIdle]> ws))
  | w_ping j fs ws w now :
      is_Some (ws !! w) -> wstep (mkSys j fs ws) (mkSys (pingCoordinator w now j) fs ws)
  | w_die j fs ws w st :
      ws !! w = Some st -> wstep (mkSys j fs ws) (mkSys j fs (delete w ws))
  | w_die_exec j fs ws w task os fs' :
      ws !! w = Some (WGot task) -> out_Type task = TaskTypeMap -> all_or_nothing os ->
      execMap mapfn os task fs = Ret fs' ->
      wstep (mkSys j fs ws) (mkSys j fs' (delete w ws))
  | w_die_reduce j fs ws w task m :
      ws !! w = Some (WGot task) -> out_Type task = TaskTypeReduce ->
      wstep (mkSys j fs ws) (mkSys j (execReduce_cut m task fs) (delete w ws))
  | w_check j fs ws i now :
      wstep (mkSys j fs ws) (mkSys (handle (ECheck i now) j) fs ws).

(** A worker with status [st] that dies leaves no reduce task half way: it had not run one
    that it did not report, and of the one it was at none of the inputs is gone. *)
Definition left_whole (st : wstat) (fs fs' : files) : Prop :=
  match st with
  | WRan o => out_Type o = TaskTypeMap
  | WGot o => out_Type o = TaskTypeReduce ->
      forall name, name <> "mr-out-" +:+ Itoa (out_Idx o) -> fs' !! name = fs !! name
  | _ => True
  end.

(** What the code relies on without enforcing it.
    - [MakeCoordinator] sets the phase, a few instructions after its server starts, before
      the last map task is reported.
    - Workers ping every four seconds and a watcher looks for a silence of more than ten:
      the task of a live worker is not taken away.
    - No worker dies between the first deletion of a reduce task and its report. *)
Record prompt (s s' : sys) : Prop := {
  pr_phase : late (s_job s') = false;
  pr_ping k t t' : tasks (coord (s_job s)) !! k = Some t -> tasks (coord (s_job s')) !! k = Some t' ->
    status t = TaskStatusOnGoing -> status t' = TaskStatusPending -> ~ held (s_ws s) (id t);
  pr_death w st : s_ws s !! w = Some st -> s_ws s' !! w = None -> left_whole st (s_fs s) (s_fs s');
}.

Definition prompt_step (s s' : sys) : Prop := wstep s s' /\ prompt s s'.

Definition sys_init (inputs : list string) (n : Z) (fs : files) : sys :=
  mkSys (job_init inputs n) fs ∅.
End system.

(** ** The tasks of a job *)

Lemma create_map_tasks_lookup inputs : forall m k,
  Z.of_nat (m + length inputs) < 2 ^ 63 ->
  sig <$> (create_map_tasks inputs (mkTaskId (Z.of_nat m))).2 !! k
  = (fun f => (Itoa (Z.of_nat (m + k + 1)), f, TaskTypeMap, 0)) <$> inputs !! k.
Proof.
  induction inputs as [|f inputs IH]; intros m k Hm; [done|]. simpl in *.
  rewrite i64_small by lia. replace (Z.of_nat m + 1) with (Z.of_nat (S m)) by lia.
  specialize (IH (S m)). destruct (create_map_tasks inputs (mkTaskId (Z.of_nat (S m)))) as [t l].
  simpl in *. destruct k as [|k]; simpl.
  - unfold sig. simpl. by replace (m + 0 + 1)%nat with (S m) by lia.
  - rewrite IH by lia. by replace (m + S k + 1)%nat with (S m + k + 1)%nat by lia.
Qed.

Lemma create_reduce_tasks_lookup idxs : forall m k,
  Z.of_nat (m + length idxs) < 2 ^ 63 ->
  sig <$> (create_reduce_tasks idxs (mkTaskId (Z.of_nat m))).2 !! k
  = (fun i => (Itoa (Z.of_nat (m + k + 1)), bucket_pattern i, TaskTypeReduce, Z.of_nat i)) <$> idxs !! k.
Proof.
  induction idxs as [|i idxs IH]; intros m k Hm; [done|]. simpl in *.
  rewrite i64_small by lia. replace (Z.of_nat m + 1) with (Z.of_nat (S m)) by lia.
  specialize (IH (S m)). destruct (create_reduce_tasks idxs (mkTaskId (Z.of_nat (S m)))) as [t l].
  simpl in *. destruct k as [|k]; simpl.
  - unfold sig. simpl. by replace (m + 0 + 1)%nat with (S m) by lia.
  - rewrite IH by lia. by replace (m + S k + 1)%nat with (S m + k + 1)%nat by lia.
Qed.

(** What never changes of the task at position [k]: the first ones are the map tasks of
    the inputs, the others the reduce tasks of the buckets. *)
Definition sig_at (inputs : list string) (n : Z) (k : nat) : option (string * string * string * Z) :=
  match inputs !! k with
  | Some f => Some (Itoa (Z.of_nat (k + 1)), f, TaskTypeMap, 0)
  | None =>
      let i := (k - length inputs)%nat in
      if decide (i < Z.to_nat n)%nat
      then Some (Itoa (Z.of_nat (k + 1)), bucket_pattern i, TaskTypeReduce, Z.of_nat i) else None
  end.

Lemma job_init_sig inputs n k :
  Z.of_nat (length inputs + Z.to_nat n) < 2 ^ 63 ->
  sig <$> tasks (coord (job_init inputs n)) !! k = sig_at inputs n k.
Proof.
  intros Hb. unfold job_init, MakeCoordinator, createTasks, sig_at.
  change taskId with (mkTaskId (Z.of_nat 0)).
  destruct (create_map_tasks_ids inputs 0 ltac:(lia)) as [E1 _].
  pose proof (create_map_tasks_lookup inputs 0 k ltac:(lia)) as Hm.
  pose proof (create_map_tasks_types inputs (mkTaskId (Z.of_nat 0))) as [_ Hl].
  destruct (create_map_tasks inputs _) as [t maps]. simpl in *. injection E1 as ->.
  pose proof (create_reduce_tasks_lookup (seq 0 (Z.to_nat n)) (length inputs) (k - length inputs)) as Hr.
  destruct (create_reduce_tasks _ _) as [t' reduces]. simpl in *.
  destruct (inputs !! k) as [f|] eqn:Ek.
  - rewrite lookup_app_l by (rewrite Hl; by eapply lookup_lt_Some). by rewrite Hm.
  - apply lookup_ge_None in Ek. rewrite lookup_app_r, Hl by lia.
    rewrite length_seq in Hr. rewrite Hr by lia. case_decide as Hi.
    + rewrite lookup_seq_lt by done. simpl. by replace (length inputs + (k - length inputs) + 1)%nat with (k + 1)%nat by lia.
    + by rewrite lookup_seq_ge by lia.
Qed.

(** ** Correctness *)

Section correctness.
  Context (mapfn : string -> string -> list KeyValue).
  Context (reducefn : string -> list string -> string).
  Context `{Json} `{SortByKey} `{TempFile}.
  Context (visit : gmap string (list string) -> list (string * list string)).
  Context (inputs : list string) (n : Z) (fs0 : files).

Abbreviation wstep := (wstep mapfn reducefn visit).
Abbreviation prompt_step := (prompt_step mapfn reducefn visit).

(** The job of each input: task id, file and content. *)
Definition content (f : string) : string := default ""%string (fs0 !! f).

Definition jobs : list (string * string * string) :=
  imap (fun k f => (Itoa (Z.of_nat (k + 1)), f, content f)) inputs.

(** The reply that hands out task [t]. *)
Definition reply_of (t : Task) : GetTaskOut := mkGetTaskOut (id t) (input t) (tType t) n (idx t).

Definition ran (ws : gmap string wstat) (x : string) : Prop :=
  exists w o, ws !! w = Some (WRan o) /\ out_Id o = x.

(** The task has been executed, and its worker has reported it or is about to. *)
Definition executed (ws : gmap string wstat) (t : Task) : Prop := done t \/ ran ws (id t).

(** Output file [i] holds a line for every key of bucket [i]. *)
Definition written (i : nat) (fs : files) : Prop :=
  exists ks, NoDup ks /\ (forall k, k ∈ ks <-> k ∈ Key <$> in_bucket n i (produced mapfn jobs))
    /\ fs !! out_file i = Some (concat_strings (line_of reducefn (produced mapfn jobs) <$> ks)).

(** Neither a bucket nor an output of the job. *)
Definition foreign (name : string) : Prop :=
  forall i, (i < Z.to_nat n)%nat -> star_match (bucket_pattern i) name = false /\ name <> out_file i.

(** [es i] lists the map jobs whose bucket [i] is on disk. *)
Record sinv (s : sys) (es : nat -> list (string * string * string)) : Prop := {
  si_job : job_inv (s_job s);
  si_sig k : sig <$> tasks (coord (s_job s)) !! k = sig_at inputs n k;
  si_n : nReduce (coord (s_job s)) = n;
  si_hold w st x : s_ws s !! w = Some st -> holds_id st x ->
    exists k t, tasks (coord (s_job s)) !! k = Some t /\ id t = x /\ status t = TaskStatusOnGoing
      /\ (st = WGot (reply_of t) \/ st = WRan (reply_of t));
  si_unique w w' st st' x : s_ws s !! w = Some st -> s_ws s !! w' = Some st' ->
    holds_id st x -> holds_id st' x -> w = w';
  si_order t : t ∈ tasks (coord (s_job s)) -> tType t = TaskTypeReduce -> status t <> TaskStatusPending ->
    all_done TaskTypeMap (tasks (coord (s_job s))) = true;
  si_es i y : y ∈ es i -> y ∈ jobs;
  si_maps k t f i : inputs !! k = Some f -> tasks (coord (s_job s)) !! k = Some t ->
    executed (s_ws s) t -> (i < Z.to_nat n)%nat -> (id t, f, content f) ∈ es i;
  si_ready i t : (i < Z.to_nat n)%nat -> tasks (coord (s_job s)) !! (length inputs + i)%nat = Some t ->
    ~ executed (s_ws s) t -> ready mapfn n (es i) i (s_fs s);
  si_written i t : (i < Z.to_nat n)%nat -> tasks (coord (s_job s)) !! (length inputs + i)%nat = Some t ->
    executed (s_ws s) t -> written i (s_fs s);
  si_inputs f : all_done TaskTypeMap (tasks (coord (s_job s))) = false -> f ∈ inputs ->
    s_fs s !! f = Some (content f);
  si_frame name : foreign name -> s_fs s !! name = fs0 !! name
}.

(** *** Positions, ids and types *)

Lemma sig_at_id k x : sig_at inputs n k = Some x -> x.1.1.1 = Itoa (Z.of_nat (k + 1)).
Proof. unfold sig_at. repeat case_match; intros [=]; by subst. Qed.

Lemma sinv_pos s es k t :
  sinv s es -> tasks (coord (s_job s)) !! k = Some t -> sig_at inputs n k = Some (sig t).
Proof. intros Hs Ht. by rewrite <-(si_sig _ _ Hs), Ht. Qed.

Lemma sinv_id_inj s es k k' t t' :
  sinv s es -> tasks (coord (s_job s)) !! k = Some t -> tasks (coord (s_job s)) !! k' = Some t' ->
  id t = id t' -> k = k'.
Proof.
  intros Hs Ht Ht' Hid. apply (sinv_pos _ _ _ _ Hs), sig_at_id in Ht, Ht'. simpl in Ht, Ht'.
  rewrite Hid, Ht' in Ht. apply Itoa_inj in Ht. lia.
Qed.

Lemma sinv_NoDup s es : sinv s es -> NoDup (id <$> tasks (coord (s_job s))).
Proof.
  intros Hs. apply NoDup_alt. intros i j x Hi Hj.
  apply list_lookup_fmap_Some in Hi as (t&->&Hi). apply list_lookup_fmap_Some in Hj as (t'&He&Hj).
  by eapply sinv_id_inj.
Qed.

(** A map task sits at the position of its input, a reduce task at that of its bucket. *)
Lemma sinv_map s es k t :
  sinv s es -> tasks (coord (s_job s)) !! k = Some t -> tType t = TaskTypeMap ->
  exists f, inputs !! k = Some f /\ input t = f /\ (id t, f, content f) ∈ jobs.
Proof.
  intros Hs Ht Hty. pose proof (sinv_pos _ _ _ _ Hs Ht) as Hp. unfold sig_at in Hp.
  destruct (inputs !! k) as [f|] eqn:Ek.
  - injection Hp as Hid Hin _ _. exists f. split; [done|]. split; [done|].
    apply elem_of_lookup_imap. exists k, f. by rewrite <-Hid.
  - case_decide; [|done]. injection Hp as _ _ Hty' _. by rewrite Hty in Hty'.
Qed.

Lemma sinv_reduce s es k t :
  sinv s es -> tasks (coord (s_job s)) !! k = Some t -> tType t = TaskTypeReduce ->
  exists i, (i < Z.to_nat n)%nat /\ k = (length inputs + i)%nat /\ input t = bucket_pattern i /\ idx t = Z.of_nat i.
Proof.
  intros Hs Ht Hty. pose proof (sinv_pos _ _ _ _ Hs Ht) as Hp. unfold sig_at in Hp.
  destruct (inputs !! k) as [f|] eqn:Ek.
  - injection Hp as _ _ Hty' _. by rewrite Hty in Hty'.
  - apply lookup_ge_None in Ek. case_decide as Hi; [|done]. injection Hp as _ Hin _ Hidx.
    exists (k - length inputs)%nat. split; [done|]. split; [lia|done].
Qed.

Lemma sinv_at_reduce s es i t :
  sinv s es -> tasks (coord (s_job s)) !! (length inputs + i)%nat = Some t -> tType t = TaskTypeReduce.
Proof.
  intros Hs Ht. pose proof (sinv_pos _ _ _ _ Hs Ht) as Hp. unfold sig_at in Hp.
  rewrite lookup_ge_None_2 in Hp by lia. case_decide; [|done]. by injection Hp.
Qed.

Lemma sinv_task_at s es i :
  sinv s es -> (i < Z.to_nat n)%nat -> exists t, tasks (coord (s_job s)) !! (length inputs + i)%nat = Some t.
Proof.
  intros Hs Hi. pose proof (si_sig _ _ Hs (length inputs + i)) as Hp. unfold sig_at in Hp.
  rewrite (lookup_ge_None_2 inputs) in Hp by lia.
  destruct (decide (length inputs + i - length inputs < Z.to_nat n)%nat) in Hp; [|lia].
  destruct (tasks (coord (s_job s)) !! (length inputs + i)%nat) as [t|]; [by exists t|done].
Qed.

(** A task that was executed or is held is not pending. *)
Lemma executed_not_pending s es k t :
  sinv s es -> tasks (coord (s_job s)) !! k = Some t -> executed (s_ws s) t -> status t <> TaskStatusPending.
Proof.
  intros Hs Ht [Hd|(w&o&Hw&Ho)] Hst; [by apply (done_not_pending t Hst)|].
  destruct (si_hold _ _ Hs w (WRan o) (id t) Hw) as (k'&t'&Ht'&Hid&Hon&_); [by simpl|].
  assert (k' = k) as -> by (by eapply sinv_id_inj). simplify_eq. by rewrite Hst in Hon.
Qed.

(** *** Steps that execute nothing *)

Lemma sinv_same_fs j fs ws es j' ws' :
  sinv (mkSys j fs ws) es ->
  evolves (tasks (coord j)) (tasks (coord j')) -> nReduce (coord j') = nReduce (coord j) -> job_inv j' ->
  (forall w st x, ws' !! w = Some st -> holds_id st x ->
    exists k t, tasks (coord j') !! k = Some t /\ id t = x /\ status t = TaskStatusOnGoing
      /\ (st = WGot (reply_of t) \/ st = WRan (reply_of t))) ->
  (forall w w' st st' x, ws' !! w = Some st -> ws' !! w' = Some st' ->
    holds_id st x -> holds_id st' x -> w = w') ->
  (forall t, t ∈ tasks (coord j') -> tType t = TaskTypeReduce -> status t <> TaskStatusPending ->
    all_done TaskTypeMap (tasks (coord j')) = true) ->
  (forall k t t', tasks (coord j) !! k = Some t -> tasks (coord j') !! k = Some t' -> id t = id t' ->
    (executed ws' t' -> executed ws t) /\ (tType t' = TaskTypeReduce -> executed ws t -> executed ws' t')) ->
  sinv (mkSys j' fs ws') es.
Proof.
  intros Hs Hev Hn Hj Hhold Huniq Hord Hex. unfold evolves in Hev.
  assert (forall k t', tasks (coord j') !! k = Some t' -> exists t, tasks (coord j) !! k = Some t
            /\ sig t = sig t') as Hback.
  { intros k t' Ht'. destruct (Forall2_lookup_r _ _ _ _ _ Hev Ht') as (t&Ht&Hsg&_). by exists t. }
  split; simpl; try done.
  - intros k. pose proof (si_sig _ _ Hs k) as Hk. simpl in Hk. rewrite <-Hk.
    destruct (tasks (coord j') !! k) as [t'|] eqn:E.
    + destruct (Hback k t' E) as (t&->&Hsg). simpl. by rewrite Hsg.
    + apply lookup_ge_None in E. rewrite <-(evolves_length _ _ Hev) in E.
      by rewrite lookup_ge_None_2.
  - rewrite Hn. apply (si_n _ _ Hs).
  - apply (si_es _ _ Hs).
  - intros k t' f i Hk Ht' He Hi. destruct (Hback k t' Ht') as (t&Ht&Hsg). injection Hsg as Hid _ _ _.
    rewrite <-Hid. apply (si_maps _ _ Hs k t f i Hk Ht); [|done]. by apply (Hex k t t' Ht Ht' Hid).
  - intros i t' Hi Ht' He. destruct (Hback _ t' Ht') as (t&Ht&Hsg). injection Hsg as Hid _ Hty _.
    apply (si_ready _ _ Hs i t Hi Ht). intros Hex'. apply He, (Hex _ t t' Ht Ht' Hid); [|done].
    rewrite <-Hty. by eapply (sinv_at_reduce _ _ i t Hs).
  - intros i t' Hi Ht' He. destruct (Hback _ t' Ht') as (t&Ht&Hsg). injection Hsg as Hid _ _ _.
    apply (si_written _ _ Hs i t Hi Ht). by apply (Hex _ t t' Ht Ht' Hid).
  - intros f Hnd Hf. apply (si_inputs _ _ Hs f); [|done]. simpl.
    destruct (all_done TaskTypeMap (tasks (coord j))) eqn:E; [|done].
    by rewrite (evolves_all_done _ _ _ Hev E) in Hnd.
  - apply (si_frame _ _ Hs).
Qed.

Lemma holds_insert (ws : gmap string wstat) w st0 :
  (forall x, ~ holds_id st0 x) -> forall w' st x, <[w := st0]> ws !! w' = Some st -> holds_id st x ->
  w' <> w /\ ws !! w' = Some st.
Proof.
  intros Hno w' st x Hw Hh. destruct (decide (w = w')) as [->|Hne].
  - rewrite lookup_insert_eq in Hw. injection Hw as <-. by apply Hno in Hh.
  - rewrite lookup_insert_ne in Hw by done. done.
Qed.

Lemma ran_insert ws w st0 x :
  (forall o, st0 <> WRan o) -> (forall o, ws !! w = Some (WRan o) -> out_Id o <> x) ->
  ran (<[w := st0]> ws) x <-> ran ws x.
Proof.
  intros Hno Hold. split; intros (w'&o&Hw&Ho).
  - destruct (decide (w = w')) as [->|Hne].
    + rewrite lookup_insert_eq in Hw. injection Hw as Hw. by apply Hno in Hw.
    + rewrite lookup_insert_ne in Hw by done. by exists w', o.
  - exists w', o. rewrite lookup_insert_ne; [done|]. intros ->. by apply (Hold o).
Qed.

(** Replacing the status of a worker by one that holds nothing. *)
Lemma sinv_set_ws j fs ws es w st0 :
  sinv (mkSys j fs ws) es -> (forall x, ~ holds_id st0 x) -> (forall x o, ws !! w = Some (WRan o) -> out_Id o <> x) ->
  sinv (mkSys j fs (<[w := st0]> ws)) es.
Proof.
  intros Hs Hno Hold. eapply sinv_same_fs; [done| |done|apply Hs| | |apply Hs|].
  - apply Forall_Forall2_diag, list.Forall_forall. by intros.
  - intros w' st x Hw Hh. destruct (holds_insert _ _ _ Hno _ _ _ Hw Hh). by eapply (si_hold _ _ Hs).
  - intros w1 w2 st1 st2 x Hw1 Hw2 Hh1 Hh2.
    destruct (holds_insert _ _ _ Hno _ _ _ Hw1 Hh1). destruct (holds_insert _ _ _ Hno _ _ _ Hw2 Hh2).
    by eapply (si_unique _ _ Hs).
  - intros k t t' Ht Ht' _. simplify_eq. unfold executed.
    rewrite ran_insert; [done| |by intros; eapply Hold].
    intros o ->. by apply (Hno (out_Id o)).
Qed.

(** Changes of the coordinator that make no task done. *)
Lemma sinv_set_job j fs ws es j' :
  sinv (mkSys j fs ws) es -> job_inv j' -> nReduce (coord j') = nReduce (coord j) ->
  Forall2 (fun t t' => sig t = sig t' /\ (done t <-> done t')
             /\ (status t' <> TaskStatusPending -> status t <> TaskStatusPending)
             /\ (status t = TaskStatusOnGoing -> held ws (id t) -> status t' = TaskStatusOnGoing))
    (tasks (coord j)) (tasks (coord j')) ->
  sinv (mkSys j' fs ws) es.
Proof.
  intros Hs Hj Hn Hf.
  assert (none_done (tasks (coord j)) (tasks (coord j'))) as Hnone.
  { eapply Forall2_impl; [|exact Hf]. intros t t' (Hsg&Hd&_). split; [by injection Hsg|done]. }
  eapply sinv_same_fs; [done| |done|done| |apply (si_unique _ _ Hs)| |].
  - eapply Forall2_impl; [|exact Hf]. intros t t' (?&Hd&_). split; [done|]. apply Hd.
  - intros w st x Hw Hh. destruct (si_hold _ _ Hs w st x Hw Hh) as (k&t&Ht&Hid&Ho&Hst). simpl in Ht.
    destruct (Forall2_lookup_l _ _ _ _ _ Hf Ht) as (t'&Ht'&Hsg&_&_&Hon).
    exists k, t'. injection Hsg as Hi1 Hi2 Hi3 Hi4. split; [done|]. split; [congruence|].
    split; [apply Hon; [done|]; exists w, st; by rewrite Hid|].
    unfold reply_of in *. by rewrite <-Hi1, <-Hi2, <-Hi3, <-Hi4.
  - intros t' [k Ht']%list_elem_of_lookup Hty Hst.
    destruct (Forall2_lookup_r _ _ _ _ _ Hf Ht') as (t&Ht&Hsg&_&Hp&_). injection Hsg as _ _ Hty' _.
    rewrite <-(none_done_all_done _ _ _ Hnone). apply (si_order _ _ Hs t).
    + by eapply list_elem_of_lookup_2.
    + by rewrite Hty'.
    + by apply Hp.
  - intros k t t' Ht Ht' Hid. destruct (Forall2_lookup_l _ _ _ _ _ Hf Ht) as (t''&Ht''&_&Hd&_).
    rewrite Ht' in Ht''. injection Ht'' as <-. unfold executed. rewrite Hid. by rewrite Hd.
Qed.

Lemma sinv_ping j fs ws es w now :
  sinv (mkSys j fs ws) es -> sinv (mkSys (handle (EPing w now) j) fs ws) es.
Proof.
  intros Hs. eapply sinv_set_job; [done|by apply Ping_inv, Hs|done|].
  apply Forall2_fmap_same. intros t. by case_decide.
Qed.

Lemma sinv_start j fs ws es :
  sinv (mkSys j fs ws) es -> late j = false -> sinv (mkSys (handle EStart j) fs ws) es.
Proof.
  intros Hs Hl. eapply sinv_set_job; [done|by apply start_inv, Hl; apply Hs| |].
  - simpl. by destruct (started j).
  - simpl. destruct (started j); by apply Forall_Forall2_diag, Forall_true.
Qed.

Lemma sinv_check j fs ws es i now :
  sinv (mkSys j fs ws) es ->
  prompt (mkSys j fs ws) (mkSys (handle (ECheck i now) j) fs ws) ->
  sinv (mkSys (handle (ECheck i now) j) fs ws) es.
Proof.
  intros Hs [_ Hfree _]. pose proof (checkTask_inv i now j (si_job _ _ Hs)) as Hj. simpl in *.
  case_decide; [|done]. eapply sinv_set_job; [done..|]. simpl in *.
  rewrite alter_insert_lookup in *. destruct (tasks (coord j) !! i) as [t|] eqn:Et.
  - apply (Forall2_insert_same _ _ i t); [done..|]. specialize (Hfree i t (check_task now t) Et).
    rewrite list_lookup_insert_eq in Hfree by (by eapply lookup_lt_Some).
    unfold check_task in *. case_decide as Ho; [|done]. case_decide; [|done]. split_and!; [done| |..].
    + split; [by intros ?%done_not_ongoing|by intros ?%done_not_pending].
    + done.
    + intros _ Hh. by destruct Hfree.
  - by apply Forall_Forall2_diag, Forall_true.
Qed.

(** A worker that dies after running a reduce task would make it run twice. *)
Lemma sinv_die j fs ws es w st :
  sinv (mkSys j fs ws) es -> ws !! w = Some st -> left_whole st fs fs -> sinv (mkSys j fs (delete w ws)) es.
Proof.
  intros Hs Hw Hdie. eapply sinv_same_fs; [done| |done|apply Hs| | |apply Hs|].
  - by apply Forall_Forall2_diag, Forall_true.
  - intros w' st' x [_ Hw']%lookup_delete_Some Hh. by eapply (si_hold _ _ Hs).
  - intros w1 w2 st1 st2 x [_ Hw1]%lookup_delete_Some [_ Hw2]%lookup_delete_Some Hh1 Hh2.
    by eapply (si_unique _ _ Hs).
  - intros k t t' Ht Ht' _. simplify_eq. split; intros Hex.
    + destruct Hex as [Hd|(w'&o&[_ Hw']%lookup_delete_Some&Ho)]; [by left|]. right. by exists w', o.
    + intros [Hd|(w'&o&Hw'&Ho)]; [by left|]. right. exists w', o. split; [|done].
      apply lookup_delete_Some. split; [|done]. intros <-.
      rewrite Hw in Hw'. injection Hw' as ->. simpl in Hdie.
      destruct (si_hold _ _ Hs w (WRan o) (id t) Hw Ho) as (k'&t0&Ht0&Hid&_&[He|He]); [done|].
      assert (k' = k) as -> by (by eapply sinv_id_inj). simpl in Ht0. rewrite Ht in Ht0.
      injection Ht0 as <-. injection He as ->. simpl in Hdie. by rewrite Hex in Hdie.
Qed.

(** A report marks the reported task. *)
Lemma report_tasks j fs ws es w k t :
  sinv (mkSys j fs ws) es -> tasks (coord j) !! k = Some t ->
  tasks (coord (handle (EDone w (id t)) j)) = <[k := set_status t TaskStatusDone]> (tasks (coord j)).
Proof.
  intros Hs Ht. simpl. rewrite UpdateTask_tasks. apply apply_update_unique; [|done..]. by apply (sinv_NoDup _ _ Hs).
Qed.

Lemma UpdateTask_nReduce args c : nReduce (UpdateTask args c).1 = nReduce c.
Proof. unfold UpdateTask. rewrite update_loop_spec. simpl. by repeat case_match. Qed.

Lemma sinv_markAsDone j fs ws es w task :
  sinv (mkSys j fs ws) es -> ws !! w = Some (WRan task) ->
  sinv (mkSys (handle (EDone w (out_Id task)) j) fs (<[w := WIdle]> ws)) es.
Proof.
  intros Hs Hw.
  destruct (si_hold _ _ Hs w (WRan task) (out_Id task) Hw) as (k&t&Ht&Hid&Hon&[?|[= ->]]); [done..|].
  simpl in Ht. clear Hid. change (out_Id (reply_of t)) with (id t).
  pose proof (report_tasks _ _ _ _ w _ _ Hs Ht) as Et.
  pose proof (handle_evolves (EDone w (id t)) j) as Hev.
  pose proof (holds_insert ws w WIdle (fun _ Hf => Hf)) as Hback.
  assert (k < length (tasks (coord j)))%nat as Hk by (by eapply lookup_lt_Some).
  eapply sinv_same_fs; [done|done|apply UpdateTask_nReduce|by apply UpdateTask_inv, Hs|..]; rewrite ?Et in *.
  - intros w' st x Hw' Hh. destruct (Hback _ _ _ Hw' Hh) as [Hne Hw0].
    destruct (si_hold _ _ Hs w' st x Hw0 Hh) as (k'&t'&Ht'&Hid&Ho&Hst). exists k', t'.
    split; [|done]. rewrite list_lookup_insert_ne; [done|]. intros <-. simpl in Ht'. simplify_eq.
    by apply Hne, (si_unique _ _ Hs w' w st (WRan (reply_of t)) (id t)).
  - intros w1 w2 st1 st2 x Hw1 Hw2 Hh1 Hh2. destruct (Hback _ _ _ Hw1 Hh1), (Hback _ _ _ Hw2 Hh2).
    by eapply (si_unique _ _ Hs).
  - intros u [i Hi]%list_elem_of_lookup Hty Hst. eapply evolves_all_done; [done|].
    destruct (decide (i = k)) as [->|Hne].
    + rewrite list_lookup_insert_eq in Hi by done. simplify_eq. apply (si_order _ _ Hs t);
        [by eapply list_elem_of_lookup_2|done|by rewrite Hon].
    + rewrite list_lookup_insert_ne in Hi by done.
      by apply (si_order _ _ Hs u); [eapply list_elem_of_lookup_2| |].
  - intros i u u' Hu Hu' Hid. destruct (decide (i = k)) as [->|Hne].
    + rewrite list_lookup_insert_eq in Hu' by done. simplify_eq. split; [|by left].
      intros _. right. by exists w, (reply_of t).
    + rewrite list_lookup_insert_ne in Hu' by done. simplify_eq. unfold executed.
      rewrite ran_insert; [done|done|]. intros o Ho Hid'. simplify_eq. apply Hne.
      by eapply (sinv_id_inj _ _ i k u t).
Qed.

(** The worker takes task [u], which was pending. *)
Lemma sinv_take j fs ws es j' w k u u' :
  sinv (mkSys j fs ws) es -> job_inv j' -> nReduce (coord j') = nReduce (coord j) ->
  tasks (coord j) !! k = Some u -> status u = TaskStatusPending -> ws !! w = Some WIdle ->
  tasks (coord j') = <[k := u']> (tasks (coord j)) -> sig u' = sig u -> status u' = TaskStatusOnGoing ->
  (tType u = TaskTypeReduce -> all_done TaskTypeMap (tasks (coord j)) = true) ->
  sinv (mkSys j' fs (<[w := WGot (reply_of u)]> ws)) es.
Proof.
  intros Hs Hj Hn Hu Hst Hw Et Hsg Hon Hord. pose proof Hsg as Hsg'. injection Hsg' as Hi1 Hi2 Hi3 Hi4.
  assert (k < length (tasks (coord j)))%nat as Hk by (by eapply lookup_lt_Some).
  assert (forall w' st, ws !! w' = Some st -> ~ holds_id st (id u)) as Hfree.
  { intros w' st Hw' Hh. destruct (si_hold _ _ Hs w' st _ Hw' Hh) as (k'&t&Ht&Hid&Ho&_).
    assert (k' = k) as -> by (by eapply sinv_id_inj). simpl in Ht. rewrite Hu in Ht. injection Ht as <-.
    by rewrite Hst in Ho. }
  assert (evolves (tasks (coord j)) (tasks (coord j'))) as Hev.
  { rewrite Et. apply (Forall2_insert_same _ _ k u); [done..|]. split; [done|].
    intros Hd. by destruct (done_not_pending u Hst). }
  eapply sinv_same_fs; [done..| | | |]; rewrite ?Et.
  - intros w' st x Hw' Hh. destruct (decide (w = w')) as [->|Hne].
    + rewrite lookup_insert_eq in Hw'. injection Hw' as <-. exists k, u'.
      rewrite list_lookup_insert_eq by done. simpl in Hh. split; [done|]. split; [congruence|]. split; [done|].
      left. unfold reply_of. by rewrite Hi1, Hi2, Hi3, Hi4.
    + rewrite lookup_insert_ne in Hw' by done.
      destruct (si_hold _ _ Hs w' st x Hw' Hh) as (k'&t&Ht&Hid&Ho&Hwt). exists k', t. split; [|done].
      rewrite list_lookup_insert_ne; [done|]. intros <-. simpl in Ht. rewrite Hu in Ht.
      injection Ht as <-. by rewrite Hst in Ho.
  - intros w1 w2 st1 st2 x Hw1 Hw2 Hh1 Hh2.
    apply lookup_insert_Some in Hw1 as [[<- <-]|[Hne1 Hw1]], Hw2 as [[<- <-]|[Hne2 Hw2]]; [done|..]; simpl in *.
    + subst x. by destruct (Hfree w2 st2).
    + subst x. by destruct (Hfree w1 st1).
    + by eapply (si_unique _ _ Hs).
  - intros t [i Hi]%list_elem_of_lookup Hty Hp. rewrite <-Et. eapply evolves_all_done; [done|].
    destruct (decide (i = k)) as [->|Hne].
    + rewrite list_lookup_insert_eq in Hi by done. injection Hi as <-. apply Hord. by rewrite <-Hi3.
    + rewrite list_lookup_insert_ne in Hi by done.
      by apply (si_order _ _ Hs t); [eapply list_elem_of_lookup_2| |].
  - intros i t t' Ht Ht' Hid. unfold executed. rewrite ran_insert; [|done|intros o; by rewrite Hw]. rewrite Hid.
    destruct (decide (i = k)) as [->|Hne].
    + rewrite list_lookup_insert_eq in Ht' by done. rewrite Hu in Ht. injection Ht as <-. injection Ht' as <-.
      split; [intros [Hd|?]; [by destruct (done_not_ongoing u' Hon)|by right]|].
      intros _ [Hd|?]; [by destruct (done_not_pending u Hst)|by right].
    + rewrite list_lookup_insert_ne in Ht' by done. rewrite Ht in Ht'. injection Ht' as <-. done.
Qed.

Lemma sinv_getTask j fs ws es w now :
  sinv (mkSys j fs ws) es -> ws !! w = Some WIdle ->
  sinv (mkSys (handle (EGetTask w now) j) fs (<[w := after_getTask (answer w now j)]> ws)) es.
Proof.
  intros Hs Hw. pose proof (GetTask_inv w now j (si_job _ _ Hs)) as Hj.
  unfold answer. simpl in *.
  destruct (GetTask_cases (mkGetTaskIn w) GetTaskOut0 now (gen j) (coord j))
    as [[_ E]|[(_&_&E)|(Hnd&k&u&Hu&Hst&Hty&_&E)]]; rewrite E in *; simpl in *.
  1,2: apply sinv_set_ws; [|intros x; vm_compute; tauto|intros x o; by rewrite Hw];
    eapply sinv_set_job; [done..|]; by apply Forall_Forall2_diag, Forall_true.
  replace (after_getTask _) with (WGot (reply_of u)).
  - eapply (sinv_take j _ _ _ _ w k u _ Hs); try done. intros Hr.
    destruct (si_job _ _ Hs) as (_&[[Hph _]|[(_&?&_)|(?&_)]]&_); [|done..].
    rewrite decide_False in Hty by apply Hph. by rewrite Hr in Hty.
  - unfold reply_of, after_getTask. simpl. pose proof (si_n _ _ Hs) as Hn. simpl in Hn. rewrite Hn.
    by destruct (decide (phase (coord j) = JobPhaseReduce)); rewrite Hty.
Qed.

(** *** Executing a task *)

(** The worker has run the task it holds. *)
Lemma sinv_ran j fs fs' ws es w k t :
  sinv (mkSys j fs ws) es -> ws !! w = Some (WGot (reply_of t)) -> tasks (coord j) !! k = Some t ->
  (forall f i, inputs !! k = Some f -> (i < Z.to_nat n)%nat -> (id t, f, content f) ∈ es i) ->
  (forall i, (i < Z.to_nat n)%nat -> k <> (length inputs + i)%nat ->
     (ready mapfn n (es i) i fs -> ready mapfn n (es i) i fs') /\ (written i fs -> written i fs')) ->
  (forall i, (i < Z.to_nat n)%nat -> k = (length inputs + i)%nat -> written i fs') ->
  (forall f, all_done TaskTypeMap (tasks (coord j)) = false -> f ∈ inputs -> fs' !! f = fs !! f) ->
  (forall name, foreign name -> fs' !! name = fs !! name) ->
  sinv (mkSys j fs' (<[w := WRan (reply_of t)]> ws)) es.
Proof.
  intros Hs Hw Ht Hmap Hother Hred Hin Hframe.
  assert (forall i u, tasks (coord j) !! i = Some u -> i <> k ->
            executed (<[w := WRan (reply_of t)]> ws) u <-> executed ws u) as Hex.
  { intros i u Hu Hne. unfold executed. enough (ran (<[w := WRan (reply_of t)]> ws) (id u) <-> ran ws (id u)) by tauto.
    split; intros (w'&o&Hw'&Ho).
    - apply lookup_insert_Some in Hw' as [[<- [= <-]]|[_ Hw']]; [|by exists w', o].
      by destruct Hne; eapply (sinv_id_inj _ _ i k u t Hs).
    - exists w', o. rewrite lookup_insert_ne; [done|]. intros <-. by rewrite Hw in Hw'. }
  split; simpl; try apply Hs.
  - intros w' st x Hw' Hh. apply lookup_insert_Some in Hw' as [[<- <-]|[_ Hw']]; [|by eapply (si_hold _ _ Hs)].
    destruct (si_hold _ _ Hs w _ x Hw Hh) as (k'&t'&Ht'&Hid&Ho&[He|?]); [|done].
    exists k', t'. split_and!; [done..|]. right. injection He as Hi1 Hi2 Hi3 Hi4. unfold reply_of. by rewrite Hi1, Hi2, Hi3, Hi4.
  - intros w1 w2 st1 st2 x Hw1 Hw2 Hh1 Hh2.
    assert (forall w' st, <[w := WRan (reply_of t)]> ws !! w' = Some st -> holds_id st x ->
      exists st', ws !! w' = Some st' /\ holds_id st' x) as Hold.
    { intros w' st Hw' Hh. apply lookup_insert_Some in Hw' as [[<- <-]|[_ Hw']]; by eexists. }
    destruct (Hold _ _ Hw1 Hh1) as (?&?&?), (Hold _ _ Hw2 Hh2) as (?&?&?). by eapply (si_unique _ _ Hs).
  - intros i u f i' Hf Hu He Hi'. destruct (decide (i = k)) as [->|Hne].
    + rewrite Ht in Hu. injection Hu as <-. by apply Hmap.
    + apply (si_maps _ _ Hs i); try done. by apply (Hex i).
  - intros i u Hi Hu He. destruct (decide (length inputs + i = k)%nat) as [<-|Hne].
    + rewrite Ht in Hu. injection Hu as <-. exfalso. apply He. right. exists w, (reply_of t).
      by rewrite lookup_insert_eq.
    + apply Hother; [done..|]. apply (si_ready _ _ Hs i u Hi Hu). by rewrite <-(Hex _ _ Hu).
  - intros i u Hi Hu He. destruct (decide (length inputs + i = k)%nat) as [<-|Hne]; [by apply Hred|].
    apply Hother; [done..|]. apply (si_written _ _ Hs i u Hi Hu). by rewrite <-(Hex _ _ Hu).
  - intros f Hnd Hf. rewrite Hin by done. by apply (si_inputs _ _ Hs).
  - intros name Hn. rewrite Hframe by done. by apply (si_frame _ _ Hs).
Qed.

  Context (Hn : 0 < n).
  Context (Hinputs : forall f, f ∈ inputs -> is_Some (fs0 !! f) /\ Forall json_ok (mapfn f (content f))).
  Context (Hfresh : forall i name, (i < Z.to_nat n)%nat -> star_match (bucket_pattern i) name = true -> fs0 !! name = None).

Lemma elem_of_jobs x f c :
  (x, f, c) ∈ jobs <-> exists k, inputs !! k = Some f /\ x = Itoa (Z.of_nat (k + 1)) /\ c = content f.
Proof.
  unfold jobs. rewrite elem_of_lookup_imap. split.
  - intros (k&g&[= -> -> ->]&Hk). by exists k.
  - intros (k&Hk&->&->). by exists k, f.
Qed.

Lemma jobs_id_inj x f c g d : (x, f, c) ∈ jobs -> (x, g, d) ∈ jobs -> f = g /\ c = d.
Proof.
  rewrite !elem_of_jobs. intros (k&Hk&->&->) (k'&Hk'&E%Itoa_inj&->).
  replace k' with k in * by lia. by rewrite Hk in Hk'; injection Hk' as ->.
Qed.

Lemma jobs_NoDup : NoDup jobs.*1.*1.
Proof.
  apply NoDup_alt. intros i j x. rewrite !list_lookup_fmap. unfold jobs. rewrite !list_lookup_imap.
  destruct (inputs !! i), (inputs !! j); simpl; try done. intros [= <-] [= E%Itoa_inj]. lia.
Qed.

Lemma jobs_no_slash : Forall (fun '(x, _, _) => has_byte "/" x = false) jobs.
Proof.
  apply list.Forall_forall. intros [[x f] c] (k&_&->&_)%elem_of_jobs. apply Itoa_no_slash. lia.
Qed.

(** Inputs are not bucket files. *)
Lemma input_not_bucket f k i :
  f ∈ inputs -> (i < Z.to_nat n)%nat -> f <> bucket_file (Itoa (Z.of_nat k)) i.
Proof.
  intros Hf Hi ->. destruct (Hinputs _ Hf) as [[s Hs] _]. rewrite (Hfresh i) in Hs; [done..|].
  apply bucket_pattern_match. eexists. split; [|done]. apply Itoa_no_slash. lia.
Qed.

(** The jobs with bucket [i] on disk after a map task wrote the buckets [os]. *)
Definition es_add (os : nat -> write_outcome) (y : string * string * string)
    (es : nat -> list (string * string * string)) (i : nat) : list (string * string * string) :=
  match os i with WriteOk => y :: es i | _ => es i end.

Lemma elem_of_es_add os y es i z : z ∈ es_add os y es i <-> z ∈ es i \/ os i = WriteOk /\ z = y.
Proof. unfold es_add. destruct (os i); rewrite ?elem_of_cons; naive_solver. Qed.

Lemma ready_es_add os x f c es i fs fs' :
  (x, f, c) ∈ jobs -> (forall z, z ∈ es i -> z ∈ jobs) -> (i < Z.to_nat n)%nat ->
  (forall i, (i < Z.to_nat n)%nat -> os i = WriteOk ->
     exists s, fs' !! bucket_file x i = Some s /\ Unmarshal s = Some (Sort (in_bucket n i (mapfn f c)))) ->
  (forall name, (forall i, (i < Z.to_nat n)%nat -> os i = WriteOk -> name <> bucket_file x i) ->
     fs' !! name = fs !! name) ->
  ready mapfn n (es i) i fs -> ready mapfn n (es_add os (x, f, c) es i) i fs'.
Proof.
  intros Hy Hes Hi Hb Hfr [Hr1 Hr2].
  assert (forall x', ~ (x' = x /\ os i = WriteOk) -> fs' !! bucket_file x' i = fs !! bucket_file x' i) as Hsame.
  { intros x' Hx'. apply Hfr. intros j _ Hj [-> ->]%bucket_file_inj. by apply Hx'. }
  split.
  - intros name Hm Hsome. apply bucket_pattern_match in Hm as Hm'. destruct Hm' as (x'&_&->).
    destruct (decide (x' = x /\ os i = WriteOk)) as [[-> Ho]|Hno].
    + exists x, f, c. split; [|done]. apply elem_of_es_add. by right.
    + rewrite Hsame in Hsome by done. destruct (Hr1 _ Hm Hsome) as (x0&f0&c0&Hin&->%bucket_file_inj%proj1).
      exists x0, f0, c0. split; [apply elem_of_es_add; by left|done].
  - intros x' f' c' Hin. destruct (decide (x' = x /\ os i = WriteOk)) as [[-> Ho]|Hno].
    + assert ((x, f', c') ∈ jobs) as Hj.
      { apply elem_of_es_add in Hin as [Hin|[_ ->]]; [by apply Hes|done]. }
      destruct (jobs_id_inj x f c f' c' Hy Hj) as [<- <-]. by apply Hb.
    + rewrite Hsame by done. apply elem_of_es_add in Hin as [Hin|[Ho E]]; [by apply Hr2|].
      injection E as -> _ _. by destruct Hno.
Qed.

(** A task under way that is a map task: its input is still there. *)
Lemma ongoing_map_input j fs ws es k t :
  sinv (mkSys j fs ws) es -> tasks (coord j) !! k = Some t -> tType t = TaskTypeMap ->
  status t = TaskStatusOnGoing -> input t ∈ inputs /\ fs !! input t = Some (content (input t)).
Proof.
  intros Hs Ht Hty Ho. destruct (sinv_map _ _ k t Hs Ht Hty) as (f&Hf&->&_).
  apply list_elem_of_lookup_2 in Hf. split; [done|]. apply (si_inputs _ _ Hs f); [|done].
  apply all_done_false. exists t. split; [by eapply list_elem_of_lookup_2|]. split; [done|].
  by apply done_not_ongoing.
Qed.

(** A map task writes some of its buckets. *)
Lemma sinv_map_files j fs ws es k t os fs' :
  sinv (mkSys j fs ws) es -> tasks (coord j) !! k = Some t -> tType t = TaskTypeMap ->
  status t = TaskStatusOnGoing -> all_or_nothing os -> execMap mapfn os (reply_of t) fs = Ret fs' ->
  sinv (mkSys j fs' ws) (es_add os (id t, input t, content (input t)) es).
Proof.
  intros Hs Ht Hty Ho Hos Hex. destruct (ongoing_map_input _ _ _ _ _ _ Hs Ht Hty Ho) as [Hin Hf].
  destruct (sinv_map _ _ k t Hs Ht Hty) as (f&Hk&Hif&Hjob).
  destruct (execMap_writes mapfn os n (id t) (input t) (content (input t)) fs)
    as (fs1&E&Hb&Hfr); [done..|by apply Hinputs|].
  change (execMap mapfn os (reply_of t) fs = Ret fs1) in E. rewrite Hex in E. injection E as <-.
  pose proof (sinv_pos _ _ _ _ Hs Ht) as Hid%sig_at_id. simpl in Hid.
  split; simpl; try apply Hs.
  - intros i y [Hy|[_ ->]]%elem_of_es_add; [by eapply (si_es _ _ Hs)|]. by rewrite Hif.
  - intros k' t' f' i Hk' Ht' He Hi. apply elem_of_es_add. left. by eapply (si_maps _ _ Hs k').
  - intros i u Hi Hu He. apply (ready_es_add os _ _ _ es i fs fs'); [by rewrite Hif| |done..|].
    + intros z. apply (si_es _ _ Hs).
    + by eapply (si_ready _ _ Hs i u).
  - intros i u Hi Hu He. destruct (si_written _ _ Hs i u Hi Hu He) as (ks&Hk1&Hk2&Hk3).
    exists ks. split_and!; [done..|]. rewrite Hfr; [done|]. intros i' _ _. apply out_file_not_bucket.
  - intros g Hnd Hg. rewrite Hfr; [by apply (si_inputs _ _ Hs g)|].
    intros i Hi _. rewrite Hid. by apply input_not_bucket.
  - intros name Hforeign. rewrite Hfr; [by apply (si_frame _ _ Hs)|]. intros i Hi _ ->.
    destruct (Hforeign i Hi) as [Hno _]. apply not_true_iff_false in Hno. apply Hno, bucket_pattern_match.
    eexists. split; [|done]. rewrite Hid. apply Itoa_no_slash. lia.
Qed.

  Context (Hvisit : forall m, visit m ≡ₚ map_to_list m).
  Context (Hperm : forall k vs vs', vs ≡ₚ vs' -> reducefn k vs = reducefn k vs').

(** Once all maps are done, every job has every bucket on disk. *)
Lemma all_jobs_ready j fs ws es i u :
  sinv (mkSys j fs ws) es -> all_done TaskTypeMap (tasks (coord j)) = true -> (i < Z.to_nat n)%nat ->
  tasks (coord j) !! (length inputs + i)%nat = Some u -> ~ executed ws u -> ready mapfn n jobs i fs.
Proof.
  intros Hs Hd Hi Hu He. destruct (si_ready _ _ Hs i u Hi Hu He) as [Hr1 Hr2]. split.
  - intros name Hm Hsome. destruct (Hr1 name Hm Hsome) as (x&f&c&Hin&->). exists x, f, c.
    split; [by apply (si_es _ _ Hs i)|done].
  - intros x f c (k&Hk&->&->)%elem_of_jobs. apply Hr2.
    pose proof (si_sig _ _ Hs k) as Hsg. unfold sig_at in Hsg. rewrite Hk in Hsg. simpl in Hsg.
    destruct (tasks (coord j) !! k) as [t|] eqn:Ht; [|done]. injection Hsg as Hid _ Hty _.
    rewrite <-Hid. apply (si_maps _ _ Hs k t f i); try done. left.
    rewrite all_done_true in Hd. apply Hd; [by eapply list_elem_of_lookup_2|done].
Qed.

Lemma sinv_reduce_exec j fs ws es w k t :
  sinv (mkSys j fs ws) es -> ws !! w = Some (WGot (reply_of t)) -> tasks (coord j) !! k = Some t ->
  tType t = TaskTypeReduce -> status t = TaskStatusOnGoing ->
  sinv (mkSys j (execReduce reducefn visit WriteOk (reply_of t) fs) (<[w := WRan (reply_of t)]> ws)) es.
Proof.
  intros Hs Hw Ht Hty Ho. destruct (sinv_reduce _ _ k t Hs Ht Hty) as (i&Hi&->&Hin&Hidx).
  assert (all_done TaskTypeMap (tasks (coord j)) = true) as Hd.
  { apply (si_order _ _ Hs t); [by eapply list_elem_of_lookup_2|done|by rewrite Ho]. }
  replace (execReduce reducefn visit WriteOk (reply_of t) fs)
    with (execReduce reducefn visit WriteOk (reduce_task n i) fs)
    by (unfold execReduce; simpl; by rewrite Hin, Hidx).
  assert (~ executed ws t) as Hex.
  { intros [?|(w'&o&Hw'&Ho')]; [by eapply done_not_ongoing|].
    rewrite (si_unique _ _ Hs w' w (WRan o) (WGot (reply_of t)) (id t)) in Hw' by done. by rewrite Hw in Hw'. }
  destruct (execReduce_spec mapfn reducefn visit Hvisit Hperm n jobs i fs jobs_NoDup jobs_no_slash)
    as (ks&Hk1&Hk2&Hout&Hfr); [by eapply all_jobs_ready|].
  set (fs' := execReduce _ _ _ _ _) in *.
  assert (forall x i', i' <> i -> fs' !! bucket_file x i' = fs !! bucket_file x i') as Hsame.
  { intros x i' Hne. apply Hfr; [apply not_eq_sym, out_file_not_bucket|]. apply not_true_is_false.
    intros (y&_&E)%bucket_pattern_match. by apply bucket_file_inj in E as [_ ?]. }
  eapply sinv_ran; [done..| | | | |].
  - intros f i' Hf. apply lookup_lt_Some in Hf. lia.
  - intros i' Hi' Hne. assert (i' <> i) as Hne' by lia. split.
    + intros [Hr1 Hr2]. split.
      * intros name Hm Hsome. apply bucket_pattern_match in Hm as Hm'. destruct Hm' as (x&_&->).
        rewrite Hsame in Hsome by done. by apply Hr1.
      * intros x f c Hin'. rewrite Hsame by done. by apply Hr2.
    + intros (ks'&?&?&Hk3). exists ks'. split_and!; [done..|]. rewrite Hfr; [done|by intros ?%out_file_inj|].
      apply not_true_is_false. intros (y&_&E)%bucket_pattern_match. by eapply out_file_not_bucket.
  - intros i' _ E. replace i' with i by lia. by exists ks.
  - intros f Hnd. by rewrite Hd in Hnd.
  - intros name Hforeign. by apply Hfr; apply Hforeign.
Qed.

(** The task a worker holds. *)
Lemma held_task s es w st x :
  sinv s es -> s_ws s !! w = Some st -> holds_id st x ->
  exists k t, tasks (coord (s_job s)) !! k = Some t /\ status t = TaskStatusOnGoing /\ id t = x
    /\ (tType t = TaskTypeMap \/ tType t = TaskTypeReduce)
    /\ (st = WGot (reply_of t) \/ st = WRan (reply_of t)).
Proof.
  intros Hs Hw Hh. destruct (si_hold _ _ Hs w st x Hw Hh) as (k&t&Ht&Hid&Ho&Hst).
  exists k, t. split_and!; try done. destruct (si_job _ _ Hs) as (Hok&_&_).
  by apply (Forall_lookup_1 _ _ _ _ Hok Ht).
Qed.

(** The output of a reduce task that is to run again may be there already. *)
Lemma sinv_out_file j fs fs' ws es w t :
  sinv (mkSys j fs ws) es -> ws !! w = Some (WGot (reply_of t)) -> tType t = TaskTypeReduce ->
  (forall name, name <> "mr-out-" +:+ Itoa (idx t) -> fs' !! name = fs !! name) ->
  sinv (mkSys j fs' ws) es.
Proof.
  intros Hs Hw Hty Hfr.
  destruct (held_task _ _ w _ (id t) Hs Hw) as (k&t'&Ht&Ho&_&_&[E|?]); [done| |done]. simpl in Ht.
  injection E as Hi1 Hi2 Hi3 Hi4. rewrite Hi3 in Hty. rewrite Hi4 in Hfr.
  destruct (sinv_reduce _ _ k t' Hs Ht Hty) as (i&Hi&->&_&Hidx). rewrite Hidx in Hfr.
  change ("mr-out-" +:+ Itoa (Z.of_nat i)) with (out_file i) in Hfr.
  assert (all_done TaskTypeMap (tasks (coord j)) = true) as Hd.
  { apply (si_order _ _ Hs t'); [by eapply list_elem_of_lookup_2|done|by rewrite Ho]. }
  assert (~ executed ws t') as Hex.
  { intros [?|(w'&o&Hw'&Ho')]; [by eapply done_not_ongoing|].
    rewrite (si_unique _ _ Hs w' w (WRan o) (WGot (reply_of t)) (id t')) in Hw' by done. by rewrite Hw in Hw'. }
  split; simpl; try apply Hs.
  - intros i' u Hi' Hu He. destruct (si_ready _ _ Hs i' u Hi' Hu He) as [Hr1 Hr2]. split.
    + intros name Hm. rewrite Hfr; [by apply Hr1|]. intros ->.
      apply bucket_pattern_match in Hm as (x&_&E). by apply out_file_not_bucket in E.
    + intros x f c Hin. rewrite Hfr by (by apply not_eq_sym, out_file_not_bucket). by apply Hr2.
  - intros i' u Hi' Hu He. destruct (decide (i' = i)) as [->|Hne].
    { simpl in Hu. rewrite Ht in Hu. injection Hu as <-. done. }
    destruct (si_written _ _ Hs i' u Hi' Hu He) as (ks&?&?&Hk). exists ks. split_and!; [done..|].
    rewrite Hfr; [done|]. by intros ?%out_file_inj.
  - intros f Hnd. by rewrite Hd in Hnd.
  - intros name Hf. rewrite Hfr; [by apply (si_frame _ _ Hs)|]. by apply (Hf i Hi).
Qed.

Lemma sinv_step s s' es :
  sinv s es -> late (s_job s) = false -> prompt_step s s' -> exists es', sinv s' es'.
Proof.
  intros Hs Hl [Hstep Hpr]. destruct Hstep as [j fs ws _|j fs ws w Hw|j fs ws w now Hw|j fs ws w task fs' Hw Hex|j fs ws w task Hw
    |j fs ws w now Hw|j fs ws w st Hw|j fs ws w task os fs' Hw Hty Hos Hex|j fs ws w task m Hw Hty|j fs ws i now].
  - exists es. by apply sinv_start.
  - exists es. apply sinv_set_ws; [done|by intros x ?|intros x o; by rewrite Hw].
  - exists es. by apply sinv_getTask.
  - destruct (held_task _ _ w (WGot task) (out_Id task) Hs Hw) as (k&t&Ht&Ho&_&Hty&[[= ->]|?]); [done| |done].
    simpl in Ht. unfold exec_task in Hex. simpl in Hex.
    destruct (decide (tType t = TaskTypeMap)) as [Hm|Hm]; [|destruct Hty as [?|Hr]; [done|]].
    + pose proof (sinv_map_files _ _ _ _ _ _ _ _ Hs Ht Hm Ho (fun _ => or_introl eq_refl) Hex) as Hs'.
      eexists. eapply sinv_ran; [exact Hs'|done..| | | |done|done].
      * intros f i Hf Hi. destruct (sinv_map _ _ k t Hs Ht Hm) as (f'&Hf'&Hin&_).
        rewrite Hf in Hf'. injection Hf' as <-. rewrite Hin. set_solver +.
      * done.
      * intros i _ ->. by rewrite (sinv_at_reduce _ _ i t Hs Ht) in Hm.
    + rewrite decide_True in Hex by done. injection Hex as <-. exists es. by eapply sinv_reduce_exec.
  - exists es. by apply sinv_markAsDone.
  - exists es. by apply sinv_ping.
  - exists es. eapply sinv_die; [done|done|]. apply (pr_death _ _ Hpr w st Hw), lookup_delete_eq.
  - destruct (held_task _ _ w (WGot task) (out_Id task) Hs Hw) as (k&t&Ht&Ho&_&_&[[= ->]|?]); [done| |done].
    eexists. eapply sinv_die; [|done|done]. by eapply sinv_map_files.
  - destruct (held_task _ _ w (WGot task) (out_Id task) Hs Hw) as (k&t&Ht&Ho&_&_&[[= ->]|?]); [done| |done].
    exists es. eapply sinv_die; [|done|done]. eapply sinv_out_file; [done..|].
    apply (pr_death _ _ Hpr w (WGot (reply_of t)) Hw); [apply lookup_delete_eq|done].
  - exists es. by apply sinv_check.
Qed.

Lemma sinv_steps s s' es :
  rtc prompt_step s s' -> late (s_job s) = false -> sinv s es -> exists es', sinv s' es' /\ late (s_job s') = false.
Proof.
  intros Hr. revert es. induction Hr as [|s s1 s2 Hst _ IH]; intros es Hl Hs; [by exists es|].
  destruct (sinv_step _ _ _ Hs Hl Hst) as [es1 Hs1]. eapply IH; [apply Hst|done].
Qed.

Lemma sinv_init :
  inputs <> [] -> Z.of_nat (length inputs + Z.to_nat n) < 2 ^ 63 ->
  sinv (sys_init inputs n fs0) (fun _ => []).
Proof.
  intros Hne Hb. pose proof (job_init_pending inputs n) as Hp. rewrite list.Forall_forall in Hp.
  assert (forall k t, tasks (coord (job_init inputs n)) !! k = Some t -> ~ executed ∅ t) as Hex.
  { intros k t Ht%list_elem_of_lookup_2 [Hd|(w&o&Hw&_)]; [|by rewrite lookup_empty in Hw].
    by apply (done_not_pending t); [apply Hp|]. }
  split; simpl.
  - by apply job_init_inv.
  - intros k. by apply job_init_sig.
  - unfold job_init, MakeCoordinator, createTasks. by repeat case_match; simplify_eq.
  - intros w st x Hw. by rewrite lookup_empty in Hw.
  - intros w w' st st' x Hw. by rewrite lookup_empty in Hw.
  - intros t Ht _ Hst. by apply Hp in Ht.
  - intros i y Hy. by apply elem_of_nil in Hy.
  - intros k t f i _ Ht He. by destruct (Hex k t Ht).
  - intros i t Hi Ht _. split; [|intros x f c Hy; by apply elem_of_nil in Hy].
    intros name Hm [c Hc]. by rewrite (Hfresh i) in Hc.
  - intros i t _ Ht He. by destruct (Hex _ t Ht).
  - intros f _ Hf. unfold content. by destruct (Hinputs f Hf) as [[c ->] _].
  - done.
Qed.

(** *** Progress *)

Lemma none_done_remaining j j' :
  none_done (tasks (coord j)) (tasks (coord j')) -> remaining j = remaining j'.
Proof.
  intros Hd. unfold remaining. f_equal. apply list_eq_Forall2, Forall2_fmap.
  eapply Forall2_impl; [|exact Hd]. intros t t' [_ Ht]. by apply bool_decide_ext.
Qed.

(** Once the phase is set, a step in which no worker dies and no task is taken away is prompt. *)
Lemma quiet_prompt j fs ws j' fs' ws' :
  started j' = true ->
  Forall2 (fun t t' => status t = TaskStatusOnGoing -> status t' <> TaskStatusPending)
    (tasks (coord j)) (tasks (coord j')) ->
  (forall w, is_Some (ws !! w) -> is_Some (ws' !! w)) -> prompt (mkSys j fs ws) (mkSys j' fs' ws').
Proof.
  intros Hs Ht Hws. split; simpl.
  - unfold late. by rewrite Hs.
  - intros k t t' Hk Hk' Ho Hp. destruct (Forall2_lookup_lr _ _ _ _ _ _ Ht Hk Hk' Ho Hp).
  - intros w st Hw Hw'. destruct (Hws w) as [? E]; [by eexists|]. by rewrite Hw' in E.
Qed.

Lemma same_statuses l : Forall2 (fun t t' => status t = TaskStatusOnGoing -> status t' <> TaskStatusPending) l l.
Proof. apply Forall_Forall2_diag, list.Forall_forall. by intros t _ ->. Qed.

Lemma insert_kept (ws : gmap string wstat) w st w' : is_Some (ws !! w') -> is_Some (<[w := st]> ws !! w').
Proof. intros ?. rewrite lookup_insert_is_Some. destruct (decide (w = w')); auto. Qed.

(** One more task gets done. *)
Definition advances (s : sys) : Prop :=
  exists s' es', rtc prompt_step s s' /\ sinv s' es' /\ started (s_job s') = true
    /\ remaining (s_job s') = remaining (s_job s) - 1.

Lemma advances_after s s1 : rtc prompt_step s s1 -> remaining (s_job s1) = remaining (s_job s) -> advances s1 -> advances s.
Proof.
  intros Hr He (s'&es'&Hr'&Hs'&Hst&He'). exists s', es'. split_and!; [by etrans|done..|lia].
Qed.

Lemma started_not_late j : started j = true -> late j = false.
Proof. unfold late. by intros ->. Qed.

Lemma advance_mark s es w task :
  sinv s es -> started (s_job s) = true -> s_ws s !! w = Some (WRan task) -> advances s.
Proof.
  intros Hs Hsd Hw. destruct s as [j fs ws].
  destruct (held_task _ _ w _ (out_Id task) Hs Hw) as (k&t&Ht&Ho&_&_&[?|[= ->]]); [done..|].
  eexists _, es. split; [eapply rtc_once; split; [apply w_markAsDone; exact Hw|]|].
  { apply quiet_prompt; [done| |by intros; apply insert_kept]. unfold markAsDone.
    change (out_Id (reply_of t)) with (id t). simpl in Ht. rewrite (report_tasks _ _ _ _ w k t Hs Ht).
    apply (Forall2_insert_same _ _ k t); [by intros ? ->|done|done]. }
  split; [by apply sinv_markAsDone|]. split; [done|]. unfold remaining, markAsDone. change (out_Id (reply_of t)) with (id t). cbn [s_job] in *.
  rewrite (report_tasks _ _ _ _ w k t Hs Ht), list_fmap_insert, (occ_insert _ false).
  - rewrite decide_True, decide_False by done. lia.
  - rewrite list_lookup_fmap, Ht. simpl. f_equal. by apply bool_decide_eq_false_2, done_not_ongoing.
Qed.

Lemma advance_held s es w st x :
  sinv s es -> started (s_job s) = true -> s_ws s !! w = Some st -> holds_id st x -> advances s.
Proof.
  intros Hs Hsd Hw Hh. destruct s as [j fs ws].
  destruct (held_task _ _ w st x Hs Hw Hh) as (k&t&Ht&Ho&_&Hty&[E|E]); subst st; [|by eapply advance_mark].
  assert (exists fs', exec_task mapfn reducefn visit (reply_of t) fs = Ret fs') as [fs' E].
  { unfold exec_task. simpl. destruct (decide (tType t = TaskTypeMap)) as [Hm|Hm].
    - destruct (ongoing_map_input _ _ _ _ _ _ Hs Ht Hm Ho) as [Hin Hf].
      destruct (execMap_spec mapfn n (id t) (input t) (content (input t)) fs) as (fs'&E&_);
        [done..|by apply Hinputs|]. by exists fs'.
    - case_decide; by eexists. }
  assert (prompt_step (mkSys j fs ws) (mkSys j fs' (<[w := WRan (reply_of t)]> ws))) as Hst.
  { split; [by apply w_exec|]. apply quiet_prompt; [done|apply same_statuses|by intros; apply insert_kept]. }
  destruct (sinv_step _ _ _ Hs (started_not_late _ Hsd) Hst) as [es' Hs'].
  eapply advances_after; [by apply rtc_once|done|]. eapply (advance_mark _ es' w (reply_of t) Hs' Hsd).
  apply lookup_insert_eq.
Qed.

Lemma getTask_statuses w now j :
  Forall2 (fun t t' => status t = TaskStatusOnGoing -> status t' <> TaskStatusPending)
    (tasks (coord j)) (tasks (coord (handle (EGetTask w now) j))).
Proof.
  simpl. destruct (GetTask_cases (mkGetTaskIn w) GetTaskOut0 now (gen j) (coord j))
    as [[_ ->]|[(_&_&->)|(_&k&u&Hu&_&_&_&->)]]; simpl; [apply same_statuses..|].
  apply (Forall2_insert_same _ _ k u); [by intros ? ->|done|done].
Qed.

(** A pending task of the current phase is taken by a new worker. *)
Lemma advance_pending s es t :
  sinv s es -> started (s_job s) = true -> phase (coord (s_job s)) <> JobPhaseDone -> t ∈ tasks (coord (s_job s)) ->
  tType t = (if decide (phase (coord (s_job s)) = JobPhaseReduce) then TaskTypeReduce else TaskTypeMap) ->
  status t = TaskStatusPending -> advances s.
Proof.
  intros Hs Hsd Hph Ht Hty Hst. destruct s as [j fs ws]. set (w := fresh (dom ws)).
  assert (ws !! w = None) as Hw by (apply not_elem_of_dom, is_fresh).
  assert (prompt_step (mkSys j fs ws) (mkSys j fs (<[w := WIdle]> ws))) as Hst1.
  { split; [by apply w_spawn|]. apply quiet_prompt; [done|apply same_statuses|by intros; apply insert_kept]. }
  destruct (sinv_step _ _ _ Hs (started_not_late _ Hsd) Hst1) as [es1 Hs1].
  assert (prompt_step (mkSys j fs (<[w := WIdle]> ws)) (mkSys (getTask w 0 j).1 fs
    (<[w := after_getTask (getTask w 0 j).2]> (<[w := WIdle]> ws)))) as Hst2.
  { split; [apply w_getTask, lookup_insert_eq|].
    apply quiet_prompt; [by apply handle_started|apply getTask_statuses|by intros; apply insert_kept]. }
  destruct (sinv_step _ _ _ Hs1 (started_not_late _ Hsd) Hst2) as [es2 Hs2].
  assert (exists u, answer w 0 j = reply_of u /\ none_done (tasks (coord j)) (tasks (coord (handle (EGetTask w 0) j)))
            /\ after_getTask (reply_of u) = WGot (reply_of u)) as (u&Ea&Hnone&Eu).
  { unfold answer. simpl. pose proof (si_n _ _ Hs) as En. simpl in En, Hph, Ht, Hty.
    destruct (GetTask_cases (mkGetTaskIn w) GetTaskOut0 0 (gen j) (coord j))
      as [[? _]|[(_&Hno&_)|(_&k&u&Hu&Hp&Hu'&_&->)]]; [done|by destruct (Hno t Ht Hty)|].
    exists u. split; [unfold reply_of; by rewrite En|]. split; simpl.
    - apply (Forall2_insert_same _ _ k u); [done..|]. split; [done|].
      split; [intros Hd; by destruct (done_not_pending u Hp)|by intros ?].
    - unfold after_getTask. simpl. by destruct (decide (phase (coord j) = JobPhaseReduce)); rewrite Hu'. }
  eapply advances_after; [eapply rtc_l, rtc_once; [exact Hst1|exact Hst2]|symmetry; by apply none_done_remaining|].
  eapply (advance_held _ es2 w (WGot (reply_of u)) (id u) Hs2); [by apply handle_started| |done]. simpl.
  by rewrite lookup_insert_eq, Ea, Eu.
Qed.

Lemma held_dec ws x : held ws x \/ ~ held ws x.
Proof.
  assert (forall st, Decision (holds_id st x)) by (intros []; simpl; apply _).
  destruct (decide (map_Exists (fun _ st => holds_id st x) ws)) as [(w&st&?&?)|Hno]; [left; by exists w, st|].
  right. intros (w&st&?&?). apply Hno. by exists w, st.
Qed.

(** The task of a worker that is gone is handed out again. *)
Lemma advance_any s es :
  sinv s es -> started (s_job s) = true -> phase (coord (s_job s)) <> JobPhaseDone -> advances s.
Proof.
  intros Hs Hsd Hph. destruct s as [j fs ws].
  destruct (si_job _ _ Hs) as (Hok&Hp&Hwt). simpl in *.
  assert (exists k t, tasks (coord j) !! k = Some t /\ ~ done t /\
    tType t = if decide (phase (coord j) = JobPhaseReduce) then TaskTypeReduce else TaskTypeMap)
    as (k&t&Hk&Hd&Hty).
  { destruct Hp as [[Hp Hf]|[(Hp&_&Hf)|[? _]]]; [..|done];
      apply all_done_false in Hf as (t&[k Ht]%list_elem_of_lookup&?&?); exists k, t; [|by rewrite Hp].
    by rewrite decide_False by apply Hp. }
  apply list_elem_of_lookup_2 in Hk as Hin.
  destruct (Forall_lookup_1 _ _ _ _ Hok Hk) as [_ [Hst|[Hst|?]]]; [by eapply advance_pending| |done].
  destruct (held_dec ws (id t)) as [(w&st&Hw&Hh)|Hfree]; [by eapply advance_held|].
  set (now := lastPing t + 10001).
  assert (handle (ECheck k now) j = mkJob (gen j) (set_tasks (coord j)
    (<[k := set_workerId (set_status t TaskStatusPending) ""]> (tasks (coord j)))) (watchers j) (started j)) as Ej.
  { simpl. rewrite decide_True by (by eapply Hwt). unfold checkTask. rewrite alter_insert_lookup, Hk.
    unfold check_task. rewrite !decide_True; [done| |done]. unfold now.
    replace (lastPing t + 10001 - lastPing t) with 10001 by lia. done. }
  assert (prompt_step (mkSys j fs ws) (mkSys (handle (ECheck k now) j) fs ws)) as Hstep.
  { split; [apply w_check|]. split; rewrite ?Ej; simpl.
    - by apply started_not_late.
    - intros k' t1 t2 Ht1 Ht2 Ho Hpd. destruct (decide (k' = k)) as [->|Hne]; [by simplify_eq|].
      rewrite list_lookup_insert_ne in Ht2 by done. simplify_eq. by rewrite Ho in Hpd.
    - intros w st Hw Hw'. by rewrite Hw in Hw'. }
  destruct (sinv_step _ _ _ Hs (started_not_late _ Hsd) Hstep) as [es' Hs'].
  rewrite Ej in *. eapply advances_after; [by apply rtc_once| |].
  - symmetry. apply none_done_remaining. simpl. apply (Forall2_insert_same _ _ k t); [done..|]. split; [done|].
    split; [by intros ?%Hd|by intros ?].
  - eapply (advance_pending _ es' (set_workerId (set_status t TaskStatusPending) "") Hs'); try done.
    simpl. by eapply list_elem_of_insert, lookup_lt_Some.
Qed.

Lemma started_can_finish m : forall s es,
  sinv s es -> started (s_job s) = true -> remaining (s_job s) = Z.of_nat m ->
  exists s', rtc prompt_step s s' /\ started (s_job s') = true /\ Done (coord (s_job s')) = true.
Proof.
  induction m as [|m IH]; intros s es Hs Hsd Hm.
  - exists s. split; [done|]. split; [done|]. unfold Done. apply bool_decide_eq_true, remaining_zero; [apply Hs|done].
  - destruct (decide (phase (coord (s_job s)) = JobPhaseDone)) as [Hd|Hd].
    { exists s. split; [done|]. split; [done|]. unfold Done. by apply bool_decide_eq_true. }
    destruct (advance_any s es Hs Hsd Hd) as (s1&es1&Hr&Hs1&Hsd1&He).
    destruct (IH s1 es1 Hs1 Hsd1 ltac:(lia)) as (s2&Hr2&Hd2). exists s2. split; [by etrans|done].
Qed.

Lemma remaining_nat j : remaining j = Z.of_nat (Z.to_nat (remaining j)).
Proof. unfold remaining. pose proof (occ_nonneg false ((fun t => bool_decide (done t)) <$> tasks (coord j))). lia. Qed.

(** First the phase is set, if it is not yet. *)
Lemma sinv_can_finish s es :
  sinv s es -> late (s_job s) = false ->
  exists s', rtc prompt_step s s' /\ started (s_job s') = true /\ Done (coord (s_job s')) = true.
Proof.
  intros Hs Hl. destruct s as [j fs ws]. destruct (started j) eqn:Hsd.
  { by eapply started_can_finish; [exact Hs| |apply remaining_nat]. }
  assert (prompt_step (mkSys j fs ws) (mkSys (handle EStart j) fs ws)) as Hst.
  { split; [by apply w_start|]. apply quiet_prompt; [by simpl; rewrite Hsd| |done].
    simpl. rewrite Hsd. apply same_statuses. }
  destruct (sinv_step _ _ _ Hs Hl Hst) as [es' Hs'].
  destruct (started_can_finish _ _ _ Hs' ltac:(by simpl; rewrite Hsd) (remaining_nat _)) as (s'&Hr&?).
  exists s'. split; [by eapply rtc_l|done].
Qed.
End correctness.

(** ** Properties *)

(** A job that can be computed: at least one input and one bucket, fewer than 2^63 tasks,
    inputs that exist and whose pairs survive the encoding, no files left over from an
    earlier job that look like buckets. *)
Record setup `{Json} (mapfn : string -> string -> list KeyValue) (inputs : list string) (n : Z) (fs0 : files)
    : Prop := {
  su_inputs : inputs <> [];
  su_n : 0 < n;
  su_bound : Z.of_nat (length inputs + Z.to_nat n) < 2 ^ 63;
  su_files f : f ∈ inputs -> is_Some (fs0 !! f) /\ Forall json_ok (mapfn f (content fs0 f));
  su_fresh i name : (i < Z.to_nat n)%nat -> star_match (bucket_pattern i) name = true -> fs0 !! name = None;
}.

Section properties.
  Context `{Json} `{SortByKey} `{TempFile}.
  Context (mapfn : string -> string -> list KeyValue).
  Context (reducefn : string -> list string -> string).
  Context (visit : gmap string (list string) -> list (string * list string)).

Lemma jobs_files inputs fs0 : (fun '(_, f, _) => f) <$> jobs inputs fs0 = inputs.
Proof.
  unfold jobs. rewrite fmap_imap. apply list_eq. intros i. rewrite list_lookup_imap. simpl.
  by destruct (inputs !! i).
Qed.

(** All tasks done: every output file is there. *)
Lemma done_written inputs n fs0 s es i :
  sinv mapfn reducefn inputs n fs0 s es -> Done (coord (s_job s)) = true -> (i < Z.to_nat n)%nat ->
  written mapfn reducefn inputs n fs0 i (s_fs s).
Proof.
  intros Hs Hd Hi. destruct (sinv_task_at _ _ _ _ _ _ _ _ Hs Hi) as [t Ht].
  eapply (si_written _ _ _ _ _ _ _ Hs i t Hi Ht). left. unfold Done in Hd. apply bool_decide_eq_true in Hd.
  destruct (si_job _ _ _ _ _ _ _ Hs) as (_&[[Hp _]|[(Hp&_)|(_&_&Hr)]]&_); [by destruct Hp|by rewrite Hd in Hp|].
  rewrite all_done_true in Hr. apply Hr; [by eapply list_elem_of_lookup_2|]. by eapply sinv_at_reduce.
Qed.

(** What the directory holds when [Done] holds: the output files, whose lines are those of
    the sequential program, and nothing else has changed. *)
Lemma inv_done_spec inputs n fs0 s es :
  (forall k vs vs', vs ≡ₚ vs' -> reducefn k vs = reducefn k vs') ->
  setup mapfn inputs n fs0 -> sinv mapfn reducefn inputs n fs0 s es -> Done (coord (s_job s)) = true ->
  exists lines fsS slines,
    (forall i, (i < Z.to_nat n)%nat -> s_fs s !! out_file i = Some (concat_strings (lines i)))
    /\ mrsequential mapfn reducefn inputs fs0 = Ret (Some fsS)
    /\ fsS !! out_file 0 = Some (concat_strings slines)
    /\ (seq 0 (Z.to_nat n) ≫= lines) ≡ₚ slines
    /\ (forall l, l ∈ slines -> exists x, l = x +:+ String "010" "")
    /\ (forall name, foreign n name -> s_fs s !! name = fs0 !! name).
Proof.
  intros Hperm [Hne Hn Hb Hf Hfresh] Hs Hd.
  set (K := produced mapfn (jobs inputs fs0)).
  assert (exists ks : nat -> list string, forall i, (i < Z.to_nat n)%nat ->
    NoDup (ks i) /\ (forall k, k ∈ ks i <-> k ∈ Key <$> in_bucket n i K)
    /\ s_fs s !! out_file i = Some (concat_strings (line_of reducefn K <$> ks i))) as [ks Hks].
  { destruct (Forall_exists_fun (Z.to_nat n) (fun i l => NoDup l /\ (forall k, k ∈ l <-> k ∈ Key <$> in_bucket n i K)
      /\ s_fs s !! out_file i = Some (concat_strings (line_of reducefn K <$> l)))) as [ks Hks].
    - intros i Hi. by apply (done_written inputs n fs0 s es i Hs Hd Hi).
    - by exists ks. }
  destruct (mrsequential_spec mapfn reducefn (jobs inputs fs0) fs0 Hperm) as (fsS&sks&E&Hout&Hsnd&Hsks).
  { apply list.Forall_forall. intros [[x f] c] (k&Hk&_&->)%elem_of_jobs. unfold content.
    by destruct (Hf f (list_elem_of_lookup_2 _ _ _ Hk)) as [[c ->] _]. }
  rewrite jobs_files in E.
  destruct (bucket_keys n K ks Hn) as [Hb1 Hb2]; [intros i Hi; by destruct (Hks i Hi) as (?&?&_)|].
  exists (fun i => line_of reducefn K <$> ks i), fsS, (line_of reducefn K <$> sks). split_and!; [|done..| | |].
  - intros i Hi. by destruct (Hks i Hi) as (_&_&?).
  - rewrite <-fmap_bind_list. apply fmap_Permutation, list.NoDup_Permutation; [done..|].
    intros k. by rewrite Hb2, Hsks.
  - intros l (k&->&_)%list_elem_of_fmap. unfold line_of, format_line.
    exists (k +:+ " " +:+ reducefn k (values k K)). by rewrite !string_app_assoc.
  - apply (si_frame _ _ _ _ _ _ _ Hs).
Qed.

Lemma job_reach_inv inputs n fs0 s :
  (forall m, visit m ≡ₚ map_to_list m) ->
  (forall k vs vs', vs ≡ₚ vs' -> reducefn k vs = reducefn k vs') ->
  setup mapfn inputs n fs0 -> rtc (prompt_step mapfn reducefn visit) (sys_init inputs n fs0) s ->
  exists es, sinv mapfn reducefn inputs n fs0 s es /\ late (s_job s) = false.
Proof.
  intros Hvisit Hperm [Hne Hn Hb Hf Hfresh] Hr.
  exact (sinv_steps mapfn reducefn visit inputs n fs0 Hn Hf Hfresh Hvisit Hperm _ _ _ Hr
           (job_init_not_late inputs n Hne) (sinv_init mapfn reducefn inputs n fs0 Hf Hfresh Hne Hb)).
Qed.

Lemma job_done_spec inputs n fs0 s :
  (forall m, visit m ≡ₚ map_to_list m) ->
  (forall k vs vs', vs ≡ₚ vs' -> reducefn k vs = reducefn k vs') ->
  setup mapfn inputs n fs0 ->
  rtc (prompt_step mapfn reducefn visit) (sys_init inputs n fs0) s ->
  Done (coord (s_job s)) = true ->
  exists lines fsS slines,
    (forall i, (i < Z.to_nat n)%nat -> s_fs s !! out_file i = Some (concat_strings (lines i)))
    /\ mrsequential mapfn reducefn inputs fs0 = Ret (Some fsS)
    /\ fsS !! out_file 0 = Some (concat_strings slines)
    /\ (seq 0 (Z.to_nat n) ≫= lines) ≡ₚ slines
    /\ (forall l, l ∈ slines -> exists x, l = x +:+ String "010" "")
    /\ (forall name, foreign n name -> s_fs s !! name = fs0 !! name).
Proof.
  intros Hvisit Hperm Hset Hr Hd. destruct (job_reach_inv inputs n fs0 s Hvisit Hperm Hset Hr) as (es&Hs&_).
  by eapply inv_done_spec.
Qed.

(** C3: a whole MapReduce run computes what the sequential program computes.  Any number of
    workers run the loop of [worker.run] against the coordinator on a shared directory, in
    any interleaving; workers start at any time and die at any time but between the first
    deletion of a reduce task and its report; the tasks of dead workers are handed out
    again, those of live ones are not, because their pings arrive in time; the phase is set
    before the last map task is reported ([prompt]); writes succeed, and the reduce function
    does not depend on the order of the values.  When [Done] holds, the lines of mr-out-0
    ... mr-out-(n-1) are, as a multiset, the lines of [mrsequential]. *)
Theorem job_output_sequential inputs n fs0 s :
  (forall m, visit m ≡ₚ map_to_list m) ->
  (forall k vs vs', vs ≡ₚ vs' -> reducefn k vs = reducefn k vs') ->
  setup mapfn inputs n fs0 ->
  rtc (prompt_step mapfn reducefn visit) (sys_init inputs n fs0) s ->
  Done (coord (s_job s)) = true ->
  exists lines fsS slines,
    (forall i, (i < Z.to_nat n)%nat -> s_fs s !! out_file i = Some (concat_strings (lines i)))
    /\ mrsequential mapfn reducefn inputs fs0 = Ret (Some fsS)
    /\ fsS !! out_file 0 = Some (concat_strings slines)
    /\ (seq 0 (Z.to_nat n) ≫= lines) ≡ₚ slines.
Proof.
  intros Hvisit Hperm Hset Hr Hd.
  destruct (job_done_spec inputs n fs0 s Hvisit Hperm Hset Hr Hd) as (lines&fsS&slines&?&?&?&?&_).
  by exists lines, fsS, slines.
Qed.

(** C18: a job whose steps were prompt so far ([prompt]: the phase not late, pings in time,
    no death amid the deletions of a reduce task) is not stuck.  Whatever else has happened,
    whichever workers have died holding tasks, there is a way to go on, again by prompt
    steps, that ends with the phase set and [Done]. *)
Theorem job_can_finish inputs n fs0 s :
  (forall m, visit m ≡ₚ map_to_list m) ->
  (forall k vs vs', vs ≡ₚ vs' -> reducefn k vs = reducefn k vs') ->
  setup mapfn inputs n fs0 ->
  rtc (prompt_step mapfn reducefn visit) (sys_init inputs n fs0) s ->
  exists s', rtc (prompt_step mapfn reducefn visit) s s'
    /\ started (s_job s') = true /\ Done (coord (s_job s')) = true.
Proof.
  intros Hvisit Hperm Hset Hr. destruct (job_reach_inv inputs n fs0 s Hvisit Hperm Hset Hr) as (es&Hs&Hl).
  destruct Hset as [Hne Hn Hb Hf Hfresh].
  by eapply (sinv_can_finish mapfn reducefn visit inputs n fs0 Hn Hf Hfresh Hvisit Hperm).
Qed.
End properties.

(** *** Concrete instances *)

#[local] Existing Instances bits_Json merge_SortByKey fresh_TempFile.

Lemma demo_setup : setup count_mapfn ["a.txt"; "b.txt"]%string 2 demo_fs.
Proof.
  split.
  - discriminate.
  - lia.
  - vm_compute. reflexivity.
  - intros f Hf. split.
    + apply elem_of_cons in Hf as [->|Hf]; [by eexists|].
      apply list_elem_of_singleton in Hf as ->. by eexists.
    + repeat constructor.
  - intros i name _. apply demo_no_buckets.
Qed.

Lemma count_order_free k vs vs' : vs ≡ₚ vs' -> count_reducefn k vs = count_reducefn k vs'.
Proof. intros Hvs. unfold count_reducefn. by rewrite Hvs. Qed.

Lemma job_can_finish_witness :
  exists s, rtc (prompt_step count_mapfn count_reducefn map_to_list) (sys_init ["a.txt"; "b.txt"]%string 2 demo_fs) s
    /\ started (s_job s) = true /\ Done (coord (s_job s)) = true.
Proof.
  exact (job_can_finish count_mapfn count_reducefn map_to_list ["a.txt"; "b.txt"]%string 2 demo_fs
           (sys_init ["a.txt"; "b.txt"]%string 2 demo_fs)
           (fun m => reflexivity (map_to_list m)) count_order_free demo_setup (rtc_refl _ _)).
Defined.

(** A worker takes the first map task, dies after writing one of its two buckets; after its
    silence the task is handed out again, and the job still ends. *)
Lemma demo_run :
  exists s, rtc (prompt_step count_mapfn count_reducefn map_to_list) (sys_init ["a.txt"; "b.txt"]%string 2 demo_fs) s
    /\ Done (coord (s_job s)) = true.
Proof.
  set (w := "w"%string). set (s0 := sys_init ["a.txt"; "b.txt"]%string 2 demo_fs).
  set (os := fun i : nat => if decide (i = 0)%nat then WriteOk else CreateFails).
  set (ws1 := <[w := WIdle]> (∅ : gmap string wstat)).
  set (j0 := handle EStart (s_job s0)). set (j1 := handle (EGetTask w 0) j0).
  set (task := answer w 0 j0).
  assert (exists fs1, execMap count_mapfn os task demo_fs = Ret fs1) as [fs1 E1].
  { eexists. vm_compute. reflexivity. }
  assert (rtc (prompt_step count_mapfn count_reducefn map_to_list) s0
            (mkSys (handle (ECheck 0 10001) j1) fs1 (delete w (<[w := WGot task]> ws1)))) as Hr.
  { eapply rtc_l; [split; [by apply w_start|]|].
    { apply quiet_prompt; [done|apply same_statuses|done]. }
    eapply rtc_l; [split; [by apply (w_spawn _ _ _ _ _ _ w)|]|].
    { apply quiet_prompt; [done|apply same_statuses|by intros; apply insert_kept]. }
    eapply rtc_l; [split; [apply (w_getTask _ _ _ _ _ _ w 0); apply lookup_insert_eq|]|].
    { apply quiet_prompt; [done|apply getTask_statuses|by intros; apply insert_kept]. }
    eapply rtc_l; [split; [apply (w_die_exec _ _ _ _ _ _ w task os fs1); [|done|..|exact E1]|]|].
    - change (after_getTask _) with (WGot task). apply lookup_insert_eq.
    - intros i. unfold os. case_decide; [by left|by right].
    - split; [done| |].
      + intros k t t' Ht Ht' Ho Hp. cbn [s_job] in *. rewrite Ht in Ht'. injection Ht' as <-. by rewrite Ho in Hp.
      + intros w' st Hw Hw'. cbn [s_ws] in *. apply lookup_delete_None in Hw' as [<-|Hw']; [|by rewrite Hw' in Hw].
        change (after_getTask _) with (WGot task) in Hw. simpl in Hw. rewrite lookup_insert_eq in Hw.
        injection Hw as <-. discriminate.
    - apply rtc_once. split; [apply w_check|]. split; [done| |].
      + intros k t t' _ _ _ _ (w'&st&Hw&Hh). cbn [s_ws] in Hw. apply lookup_delete_Some in Hw as [Hne Hw].
        unfold ws1 in Hw. by rewrite !lookup_insert_ne, lookup_empty in Hw by done.
      + intros w' st Hw Hw'. discriminate (eq_trans (eq_sym Hw) Hw'). }
  destruct demo_setup as [Hne Hn Hb Hf Hfresh].
  destruct (sinv_steps count_mapfn count_reducefn map_to_list _ 2 demo_fs Hn Hf Hfresh
    (fun m => reflexivity _) count_order_free _ _ _ Hr (job_init_not_late _ 2 Hne)
    (sinv_init count_mapfn count_reducefn _ 2 demo_fs Hf Hfresh Hne Hb)) as (es&Hs&Hl).
  destruct (sinv_can_finish count_mapfn count_reducefn map_to_list _ 2 demo_fs Hn Hf Hfresh
    (fun m => reflexivity _) count_order_free _ _ Hs Hl) as (s&Hr'&_&Hd).
  exists s. split; [by etrans|done].
Qed.

Lemma job_output_sequential_witness :
  exists s lines slines,
    Done (coord (s_job s)) = true
    /\ (forall i, (i < 2)%nat -> s_fs s !! out_file i = Some (concat_strings (lines i)))
    /\ ([0; 1]%nat ≫= lines) ≡ₚ slines.
Proof.
  destruct demo_run as (s&Hr&Hd).
  destruct (job_output_sequential count_mapfn count_reducefn map_to_list ["a.txt"; "b.txt"]%string 2 demo_fs s
    (fun m => reflexivity (map_to_list m)) count_order_free demo_setup Hr Hd) as (lines&_&slines&H1&_&_&H2).
  exists s, lines, slines. repeat apply conj; [exact Hd|exact H1|exact H2].
Defined.
