(* ===== verification/MRTest.v ===== *)
(** * The MapReduce test harness

    [src/map_reduce/mr/util.go]: running the sequential program for the correct output,
    merging the outputs of a distributed run, and comparing the two.  The shell commands
    [find] and [sort] are parameters with the behaviour the harness relies on; paths are
    relative to the directory of the test.  The processes of a run, the counting of
    patterns and the directory itself are in [MRHarness]. *)

From S2P Require Import Prelude Coordinator MRWorker MRJob.
Local Open Scope Z_scope.

Definition nl : ascii := "010".

(** ** Text *)

(** The lines of a text; a newline at the end starts no line. *)
Fixpoint drop_last_empty (l : list string) : list string :=
  match l with
  | [] => []
  | [x] => if decide (x = ""%string) then [] else [x]
  | x :: l' => x :: drop_last_empty l'
  end.

Definition text_lines (s : string) : list string := drop_last_empty (split_on nl s).

(** ASCII white space, as [strings.TrimSpace] trims it. *)
Definition is_space (c : ascii) : bool :=
  bool_decide (c = " "%char) || (Nat.leb 9 (nat_of_ascii c) && Nat.leb (nat_of_ascii c) 13).

Fixpoint trim_left (s : string) : string :=
  match s with
  | EmptyString => ""
  | String c s' => if is_space c then trim_left s' else s
  end.

Fixpoint trim_right (s : string) : string :=
  match s with
  | EmptyString => ""
  | String c s' =>
      let r := trim_right s' in
      if decide (r = ""%string) then if is_space c then "" else String c r else String c r
  end.

Definition TrimSpace (s : string) : string := trim_right (trim_left s).

(** The patterns of [find -name]: a star, a range in brackets, other bytes as they are. *)
Fixpoint fnmatch (pat name : string) : bool :=
  match pat with
  | EmptyString => match name with EmptyString => true | _ => false end
  | String c pat' =>
      if decide (c = "*"%char) then
        (fix star (name : string) : bool :=
           fnmatch pat' name || match name with EmptyString => false | String _ name' => star name' end) name
      else if decide (c = "["%char) then
        match pat', name with
        | String lo (String _ (String hi (String _ rest))), String d name' =>
            Nat.leb (nat_of_ascii lo) (nat_of_ascii d) && Nat.leb (nat_of_ascii d) (nat_of_ascii hi) && fnmatch rest name'
        | _, _ => false
        end
      else match name with
           | EmptyString => false
           | String d name' => bool_decide (c = d) && fnmatch pat' name'
           end
  end.

(** ** Commands *)

(** [find dir -type f -name pat] prints the matching files in some order, a line each;
    [sort] writes the lines of its files in an order that depends on the lines only. *)
Class Shell := {
  find : string -> files -> list string;
  find_NoDup pat fs : NoDup (find pat fs);
  find_spec pat fs name : name ∈ find pat fs <-> is_Some (fs !! name) /\ fnmatch pat name = true;
  sort : list string -> string;
  sort_lines l l' : (l ≫= text_lines) ≡ₚ (l' ≫= text_lines) -> sort l = sort l';
}.

Section harness.
  Context `{Json} `{SortByKey} `{TempFile} `{Shell}.
  Context (mapfn : string -> string -> list KeyValue).
  Context (reducefn : string -> list string -> string).

Definition find_output (pat : string) (fs : files) : string :=
  concat_strings ((fun p => p +:+ String nl "") <$> find pat fs).

Definition findFiles (pat : string) (fs : files) : list string :=
  let s1 := TrimSpace (find_output pat fs) in
  if decide (s1 = ""%string) then [] else split_on nl s1.

(** [sort files...]: fails if a file is missing. *)
Definition run_sort (names : list string) (fs : files) : go string :=
  match mapM (fun name => fs !! name) names with
  | Some contents => Ret (sort contents)
  | None => Crash Fatal
  end.

Definition mkCorrectOutput (inputs : list string) (out : string) (fs : files) : go (option files) :=
  r ← mrsequential mapfn reducefn inputs fs;
  match r with
  | None => Ret None
  | Some fs1 =>
      let fs2 := <[out := ""%string]> fs1 in
      sorted ← run_sort ["mr-out-0"%string] fs2;
      let fs3 := <[out := sorted]> fs2 in
      if decide (fs3 !! "mr-out-0"%string = None) then Crash Fatal
      else Ret (Some (delete "mr-out-0"%string fs3))
  end.

Definition mergeOutput (out : string) (fs : files) : go files :=
  let names := findFiles "mr-out-[0-9]" fs in
  if decide (length names < 1)%nat then Crash Fatal
  else
    let fs1 := <[out := ""%string]> fs in
    sorted ← run_sort names fs1;
    Ret (<[out := sorted]> fs1).

(** [cmp f1 f2] succeeds if both files exist and are equal. *)
Definition runCmp (f1 f2 : string) (fs : files) : go unit :=
  match fs !! f1, fs !! f2 with
  | Some c1, Some c2 => if decide (c1 = c2) then Ret () else Crash Fatal
  | _, _ => Crash Fatal
  end.
End harness.

(** ** Lemmas: text *)

Lemma split_on_app_sep sep a b : split_on sep (a +:+ String sep b) = split_on sep a ++ split_on sep b.
Proof.
  induction a as [|c a IH]; [rewrite string_nil_app; apply split_on_cons_sep|].
  rewrite string_cons_app. simpl. rewrite IH. case_decide; [done|].
  destruct (split_on sep a) as [|w ws] eqn:E; [|done].
  exfalso. clear -E. destruct a as [|d a]; simpl in E; [done|]. case_decide; [done|]. by destruct (split_on sep a).
Qed.

Lemma split_on_nonempty sep s : split_on sep s <> [].
Proof. destruct s as [|c s]; simpl; [done|]. case_decide; [done|]. by destruct (split_on sep s). Qed.

Lemma drop_last_empty_app l l' : l' <> [] -> drop_last_empty (l ++ l') = l ++ drop_last_empty l'.
Proof.
  intros Hne. induction l as [|x l IH]; [done|]. simpl. rewrite IH.
  destruct (l ++ l') eqn:E; [|done]. by apply app_eq_nil in E as [_ ->].
Qed.

(** The lines of a text that consists of pieces ending in newlines. *)
Lemma text_lines_pieces ls :
  (forall l, l ∈ ls -> exists x, l = x +:+ String nl "") ->
  text_lines (concat_strings ls) = ls ≫= text_lines.
Proof.
  induction ls as [|l ls IH]; intros Hls; [done|].
  destruct (Hls l ltac:(set_solver +)) as [x ->].
  rewrite concat_strings_cons.
  assert (forall b, text_lines ((x +:+ String nl "") +:+ b) = split_on nl x ++ text_lines b) as Hx.
  { intros b. rewrite string_app_assoc, string_cons_app, string_nil_app. unfold text_lines.
    by rewrite split_on_app_sep, drop_last_empty_app by apply split_on_nonempty. }
  rewrite Hx, IH by (intros l Hl; apply Hls; set_solver + Hl). rewrite bind_cons. f_equal.
  rewrite <-(string_app_nil_r (x +:+ _)), Hx. unfold text_lines. simpl. by rewrite app_nil_r.
Qed.

Lemma bind_text_lines (lines : nat -> list string) idxs :
  (forall i l, i ∈ idxs -> l ∈ lines i -> exists x, l = x +:+ String nl "") ->
  ((fun i => concat_strings (lines i)) <$> idxs) ≫= text_lines = (idxs ≫= lines) ≫= text_lines.
Proof.
  induction idxs as [|i idxs IH]; intros Hl; [done|]. rewrite fmap_cons, !bind_cons, bind_app.
  rewrite IH by (intros j l Hj; apply Hl; set_solver + Hj). f_equal. apply text_lines_pieces.
  intros l Hin. apply (Hl i); [set_solver +|done].
Qed.

(** A name without white space. *)
Fixpoint solid (s : string) : bool :=
  match s with EmptyString => true | String c s' => negb (is_space c) && solid s' end.

Lemma trim_right_solid s : solid s = true -> trim_right s = s.
Proof.
  induction s as [|c s IH]; [done|]. simpl. intros [Hc Hs]%andb_true_iff. rewrite IH by done.
  apply negb_true_iff in Hc. rewrite Hc. by case_decide.
Qed.

Lemma trim_right_app a b : trim_right b = b -> b <> ""%string -> trim_right (a +:+ b) = a +:+ b.
Proof.
  intros Hb Hne. induction a as [|c a IH]; [by rewrite string_nil_app|].
  rewrite string_cons_app. simpl. rewrite IH. case_decide as E; [|done]. exfalso.
  destruct a; [rewrite string_nil_app in E; done|by rewrite string_cons_app in E].
Qed.

Lemma trim_right_newline s : trim_right (s +:+ String nl "") = trim_right s.
Proof. induction s as [|c s IH]; [done|]. rewrite string_cons_app. simpl. by rewrite IH. Qed.

Lemma solid_no_newline s : solid s = true -> has_byte nl s = false.
Proof.
  induction s as [|c s IH]; [done|]. simpl. intros [Hc Hs]%andb_true_iff. rewrite IH by done.
  rewrite orb_false_r. apply bool_decide_eq_false. by intros ->.
Qed.

(** The names [find] printed are read back. *)
Lemma find_round_trip names :
  Forall (fun s => solid s = true /\ s <> ""%string) names ->
  let s1 := TrimSpace (concat_strings ((fun p => p +:+ String nl "") <$> names)) in
  (if decide (s1 = ""%string) then [] else split_on nl s1) = names.
Proof.
  intros Hn. destruct names as [|x names]; [done|].
  assert (forall x names, Forall (fun s => solid s = true /\ s <> ""%string) (x :: names) ->
    let t := concat_strings ((fun p => p +:+ String nl "") <$> x :: names) in
    exists c t', trim_right t = String c t' /\ is_space c = false
      /\ (exists t'', t = String c t'') /\ split_on nl (String c t') = x :: names) as Hall.
  { clear. intros x names. revert x. induction names as [|y names IH]; intros x Hn t.
    - apply list.Forall_cons in Hn as [[Hx Hne] _]. unfold t. rewrite fmap_cons, concat_strings_cons. cbn [fmap list_fmap].
      change (concat_strings []) with ""%string. rewrite string_app_nil_r.
      rewrite trim_right_newline, trim_right_solid by done. destruct x as [|c x]; [done|].
      exists c, x. split; [done|]. simpl in Hx. apply andb_true_iff in Hx as [Hc%negb_true_iff Hx].
      split; [done|]. split; [rewrite string_cons_app; by eexists|].
      apply split_on_absent, solid_no_newline. simpl. by rewrite Hc, Hx.
    - apply list.Forall_cons in Hn as [[Hx Hne] Hn]. destruct (IH y Hn) as (c&t'&Et&_&_&Es).
      unfold t. rewrite fmap_cons, concat_strings_cons.
      set (rest := concat_strings ((fun p => p +:+ String nl "") <$> y :: names)) in *.
      assert (trim_right ((x +:+ String nl "") +:+ rest) = (x +:+ String nl "") +:+ String c t') as E.
      { rewrite <-Et. clear -Et. induction (x +:+ String nl "") as [|d a IHa]; [by rewrite !string_nil_app|].
        rewrite !string_cons_app. simpl. rewrite IHa. case_decide as Hd; [|done]. exfalso.
        destruct a; [rewrite string_nil_app, Et in Hd; done|by rewrite string_cons_app in Hd]. }
      rewrite E. destruct x as [|d x]; [done|]. rewrite !string_cons_app.
      eexists d, _. split; [done|]. simpl in Hx. apply andb_true_iff in Hx as [Hd%negb_true_iff Hx].
      split; [done|]. split; [by eexists|].
      replace (String d ((x +:+ String nl "") +:+ String c t')) with (String d x +:+ String nl (String c t'))
        by (by rewrite string_app_assoc, !string_cons_app, string_nil_app).
      rewrite split_on_app, Es; [done|].
      apply solid_no_newline. simpl. by rewrite Hd, Hx. }
  destruct (Hall x names Hn) as (c&t'&Et&Hc&(t''&E)&Es). unfold TrimSpace. rewrite E in *. simpl trim_left. rewrite Hc.
  rewrite Et. by rewrite decide_False.
Qed.

(** ** Lemmas: output files *)

Lemma fnmatch_prefix p pat name :
  has_byte "*" p = false -> has_byte "[" p = false ->
  fnmatch (p +:+ pat) name = true <-> exists rest, name = p +:+ rest /\ fnmatch pat rest = true.
Proof.
  revert name. induction p as [|c p IH]; intros name.
  - intros _ _. rewrite string_nil_app. split; [intros Hm; by exists name|].
    intros (rest&->&Hm). by rewrite string_nil_app.
  - rewrite string_cons_app. simpl. intros [Hc Hp]%orb_false_iff [Hb Hp']%orb_false_iff.
    apply bool_decide_eq_false in Hc, Hb. rewrite !decide_False by done. destruct name as [|d name].
    + split; [done|]. by intros (rest&?&_).
    + rewrite andb_true_iff, bool_decide_eq_true, (IH name Hp Hp'). split.
      * intros (->&rest&->&Hm). exists rest. by rewrite string_cons_app.
      * intros (rest&Hn&Hm). rewrite string_cons_app in Hn. simplify_eq. eauto.
Qed.

Lemma fnmatch_digit rest :
  fnmatch "[0-9]" rest = true <-> exists i, (i < 10)%nat /\ rest = Itoa (Z.of_nat i).
Proof.
  split.
  - destruct rest as [|d rest]; [done|]. intros Hm. apply andb_true_iff in Hm as [Hm Hr].
    apply andb_true_iff in Hm as [H1%Nat.leb_le H2%Nat.leb_le].
    destruct rest as [|? ?]; [|done]. change (nat_of_ascii "0") with 48%nat in H1.
    change (nat_of_ascii "9") with 57%nat in H2. exists (nat_of_ascii d - 48)%nat. split; [lia|].
    rewrite <-(ascii_nat_embedding d) at 1.
    assert (exists i, (i < 10)%nat /\ nat_of_ascii d = (48 + i)%nat) as (i&Hi&->).
    { exists (nat_of_ascii d - 48)%nat. lia. }
    clear -Hi. do 10 (destruct i as [|i]; [reflexivity|]). lia.
  - intros (i&Hi&->). do 10 (destruct i as [|i]; [reflexivity|]). lia.
Qed.

Lemma out_pattern_match name :
  fnmatch "mr-out-[0-9]" name = true <-> exists i, (i < 10)%nat /\ name = out_file i.
Proof.
  change "mr-out-[0-9]"%string with ("mr-out-" +:+ "[0-9]"). rewrite fnmatch_prefix by done.
  setoid_rewrite fnmatch_digit. unfold out_file. split.
  - intros (rest&->&i&Hi&->). by exists i.
  - intros (i&Hi&->). eauto.
Qed.

Lemma out_file_solid i : (i < 10)%nat -> solid (out_file i) = true /\ out_file i <> ""%string.
Proof. intros Hi. split; [|done]. do 10 (destruct i as [|i]; [reflexivity|]). lia. Qed.

Lemma mapM_fmap_total {A B C} (f : B -> option C) (g : A -> B) (h : A -> C) l :
  (forall x, x ∈ l -> f (g x) = Some (h x)) -> mapM f (g <$> l) = Some (h <$> l).
Proof.
  induction l as [|x l IH]; intros Hl; [done|]. rewrite !fmap_cons. simpl.
  rewrite Hl by set_solver +. simpl. rewrite IH by (intros y Hy; apply Hl; set_solver + Hy). done.
Qed.

Lemma mrsequential_same `{SortByKey} mapfn reducefn inputs fs fs' fsS :
  (forall f, f ∈ inputs -> fs !! f = fs' !! f) -> mrsequential mapfn reducefn inputs fs = Ret (Some fsS) ->
  exists out, fsS = <["mr-out-0"%string := out]> fs
    /\ mrsequential mapfn reducefn inputs fs' = Ret (Some (<["mr-out-0"%string := out]> fs')).
Proof.
  intros Hf. unfold mrsequential.
  replace (read_and_map mapfn inputs fs) with (read_and_map mapfn inputs fs').
  - destruct (read_and_map mapfn inputs fs') as [l|]; [|done]. run_go.
    destruct (reduce_runs _ _ _) as [lines|]; [|done]. cbn. intros [= <-]. by eexists.
  - induction inputs as [|f inputs IH]; [done|]. cbn [read_and_map]. rewrite (Hf f) by set_solver +.
    rewrite IH; [done|]. intros g Hg. apply Hf. set_solver + Hg.
Qed.

Section harness_lemmas.
  Context `{Json} `{SortByKey} `{TempFile} `{Shell}.
  Context (mapfn : string -> string -> list KeyValue).
  Context (reducefn : string -> list string -> string).

(** The output files [find] lists when exactly the first [n] exist. *)
Lemma findFiles_outputs n fs :
  (n <= 10)%nat -> (forall i, (i < 10)%nat -> is_Some (fs !! out_file i) <-> (i < n)%nat) ->
  exists idxs, findFiles "mr-out-[0-9]" fs = out_file <$> idxs /\ idxs ≡ₚ seq 0 n.
Proof.
  intros Hn Hout. assert (find "mr-out-[0-9]" fs ≡ₚ out_file <$> seq 0 n) as Hp.
  { apply list.NoDup_Permutation; [apply find_NoDup|apply NoDup_fmap_2; [intros i j; apply out_file_inj|apply NoDup_seq]|].
    intros name. rewrite find_spec, out_pattern_match, list_elem_of_fmap. split.
    - intros [Hs (i&Hi&->)]. exists i. split; [done|]. apply elem_of_seq. apply Hout in Hs; [lia|done].
    - intros (i&->&[_ Hi]%elem_of_seq). split; [apply Hout; lia|]. exists i. split; [lia|done]. }
  destruct (Permutation_map_inv _ _ Hp) as (idxs&E&Hidx). exists idxs. split; [|by symmetry].
  unfold findFiles, find_output. change (List.map out_file idxs) with (out_file <$> idxs) in E.
  rewrite E. apply find_round_trip. apply Forall_fmap, list.Forall_forall. intros i Hi. simpl. apply out_file_solid.
  rewrite <-Hidx in Hi. apply elem_of_seq in Hi. lia.
Qed.

(** Merging output files that consist of lines. *)
Lemma mergeOutput_spec n fs out (lines : nat -> list string) slines :
  (0 < n <= 10)%nat -> (forall i, out <> out_file i) ->
  (forall i, (i < 10)%nat -> is_Some (fs !! out_file i) <-> (i < n)%nat) ->
  (forall i, (i < n)%nat -> fs !! out_file i = Some (concat_strings (lines i))) ->
  (seq 0 n ≫= lines) ≡ₚ slines -> (forall l, l ∈ slines -> exists x, l = x +:+ String nl "") ->
  exists fs', mergeOutput out fs = Ret fs' /\ fs' !! out = Some (sort [concat_strings slines])
    /\ forall name, name <> out -> fs' !! name = fs !! name.
Proof.
  intros Hn Hne Hex Hout Hp Hnl. destruct (findFiles_outputs n fs) as (idxs&E&Hidx); [lia|done|].
  assert (length idxs = n) as Hlen by (rewrite Hidx; apply length_seq).
  unfold mergeOutput. rewrite E, length_fmap, decide_False by lia.
  assert (forall i, i ∈ idxs -> (i < n)%nat) as Hlt by (intros i; rewrite Hidx, elem_of_seq; lia).
  unfold run_sort. rewrite (mapM_fmap_total _ out_file (fun i => concat_strings (lines i))).
  2: { intros i Hi. rewrite lookup_insert_ne by apply Hne. apply Hout, Hlt, Hi. }
  eexists. split; [done|]. split.
  - rewrite lookup_insert_eq. f_equal. apply sort_lines.
    assert ((idxs ≫= lines) ≡ₚ slines) as Hp' by (by rewrite Hidx).
    rewrite bind_text_lines, Hp'.
    + simpl. rewrite app_nil_r. by rewrite text_lines_pieces.
    + intros i l Hi Hl. apply Hnl. rewrite <-Hp'. apply list_elem_of_bind. by exists i.
  - intros name Hname. by rewrite !lookup_insert_ne by (by apply not_eq_sym).
Qed.
End harness_lemmas.

(** ** Properties *)

Section properties.
  Context `{Json} `{SortByKey} `{TempFile} `{Shell}.
  Context (mapfn : string -> string -> list KeyValue).
  Context (reducefn : string -> list string -> string).
  Context (visit : gmap string (list string) -> list (string * list string)).

(** A name the harness may use for a file of its own. *)
Definition own_name (inputs : list string) (n : Z) (name : string) : Prop :=
  foreign n name /\ (forall i, name <> out_file i) /\ name ∉ inputs.

(** The correct output is produced; the inputs are as before and no output file is left. *)
Lemma mkCorrectOutput_spec inputs n fs correct :
  (forall k vs vs', vs ≡ₚ vs' -> reducefn k vs = reducefn k vs') ->
  setup mapfn inputs n fs -> (forall i, fs !! out_file i = None) -> own_name inputs n correct ->
  exists fs0 out, mkCorrectOutput mapfn reducefn inputs correct fs = Ret (Some fs0)
    /\ mrsequential mapfn reducefn inputs fs0 = Ret (Some (<["mr-out-0"%string := out]> fs0))
    /\ fs0 !! correct = Some (sort [out]) /\ (forall i, fs0 !! out_file i = None)
    /\ setup mapfn inputs n fs0.
Proof.
  intros Hperm Hset Hno (Hforeign&Hown&Hnin). destruct Hset as [Hne Hn Hb Hf Hfresh].
  destruct (mrsequential_spec mapfn reducefn (jobs inputs fs) fs Hperm) as (fsS&ks&E&_).
  { apply list.Forall_forall. intros [[x f] c] (k&Hk&_&->)%elem_of_jobs. unfold content.
    by destruct (Hf f (list_elem_of_lookup_2 _ _ _ Hk)) as [[c ->] _]. }
  rewrite jobs_files in E. change "mr-out-0"%string with (out_file 0) in *.
  destruct (mrsequential_same mapfn reducefn inputs fs fs fsS (fun f _ => eq_refl) E) as (out&->&_).
  change "mr-out-0"%string with (out_file 0) in *.
  set (fs3 := <[correct := sort [out]]> (<[correct := ""%string]> (<[out_file 0 := out]> fs))).
  assert (forall name, name <> correct -> name <> out_file 0 -> delete (out_file 0) fs3 !! name = fs !! name) as Hsame.
  { intros name H1' H2'. unfold fs3. rewrite lookup_delete_ne by (by apply not_eq_sym).
    by rewrite !lookup_insert_ne by (by apply not_eq_sym). }
  assert (forall f, f ∈ inputs -> delete (out_file 0) fs3 !! f = fs !! f) as Hin.
  { intros f Hfi. apply Hsame; [by intros ->|]. intros ->. destruct (Hf _ Hfi) as [[c Hc] _]. by rewrite Hno in Hc. }
  exists (delete (out_file 0) fs3), out. split_and!.
  - unfold mkCorrectOutput. change "mr-out-0"%string with (out_file 0). rewrite E. run_go. unfold run_sort. simpl mapM.
    rewrite lookup_insert_ne, lookup_insert_eq by apply Hown. run_go. simpl. fold fs3.
    rewrite decide_False; [done|]. unfold fs3. rewrite !lookup_insert_ne, lookup_insert_eq by apply Hown. done.
  - destruct (mrsequential_same mapfn reducefn inputs fs (delete (out_file 0) fs3) _ (fun f Hfi => symmetry (Hin f Hfi)) E)
      as (out'&Eo&Hm). rewrite Hm. change "mr-out-0"%string with (out_file 0) in *.
    apply (f_equal (fun m => m !! out_file 0)) in Eo. rewrite !lookup_insert_eq in Eo. by injection Eo as ->.
  - rewrite lookup_delete_ne by (apply not_eq_sym, Hown). unfold fs3. by rewrite lookup_insert_eq.
  - intros i. destruct (decide (i = 0)%nat) as [->|Hi]; [apply lookup_delete_eq|].
    rewrite Hsame; [apply Hno|by apply not_eq_sym|by intros ?%out_file_inj].
  - split; [done..| |].
    + intros f Hfi. unfold content. rewrite Hin by done. by apply Hf.
    + intros i name Hi Hm. destruct (decide (name = correct)) as [->|Hnc].
      { destruct (Hforeign i Hi) as [Hx _]. by rewrite Hx in Hm. }
      destruct (decide (name = out_file 0)) as [->|Hno0]; [apply lookup_delete_eq|].
      rewrite Hsame by done. by eapply Hfresh.
Qed.

(** C16: the MapReduce test passes.  Produce the correct output, run the job with any number
    of workers that come and go, merge the output files and compare: with up to ten reduce
    tasks the comparison succeeds whenever the job has ended.  The run is one of prompt
    steps ([MRJob.prompt]). *)
Theorem mr_test_passes inputs n fs correct all :
  (forall m, visit m ≡ₚ map_to_list m) ->
  (forall k vs vs', vs ≡ₚ vs' -> reducefn k vs = reducefn k vs') ->
  setup mapfn inputs n fs -> n <= 10 -> (forall i, fs !! out_file i = None) ->
  own_name inputs n correct -> own_name inputs n all -> all <> correct ->
  exists fs0, mkCorrectOutput mapfn reducefn inputs correct fs = Ret (Some fs0)
    /\ forall s, rtc (prompt_step mapfn reducefn visit) (sys_init inputs n fs0) s -> Done (coord (s_job s)) = true ->
         exists fs', mergeOutput all (s_fs s) = Ret fs' /\ runCmp all correct fs' = Ret ().
Proof.
  intros Hvisit Hperm Hset Hn10 Hno Hc Ha Hne.
  destruct (mkCorrectOutput_spec inputs n fs correct Hperm Hset Hno Hc) as (fs0&out&E&Hseq&Hcor&Hno0&Hset0).
  exists fs0. split; [done|]. intros s Hr Hd.
  destruct (job_done_spec mapfn reducefn visit inputs n fs0 s Hvisit Hperm Hset0 Hr Hd)
    as (lines&fsS&slines&Hout&Hseq'&HoutS&Hp&Hnl&Hframe).
  rewrite Hseq in Hseq'. injection Hseq' as <-. change "mr-out-0"%string with (out_file 0) in HoutS.
  rewrite lookup_insert_eq in HoutS. injection HoutS as ->. destruct Hset as [_ Hn _ _ _].
  destruct (mergeOutput_spec (Z.to_nat n) (s_fs s) all lines slines) as (fs'&Em&Hall&Hsame).
  - lia.
  - apply Ha.
  - intros i Hi. split; [|intros Hlt; rewrite Hout by done; by eexists]. intros [c Hci].
    destruct (decide (i < Z.to_nat n)%nat) as [|Hge]; [done|exfalso]. rewrite Hframe, Hno0 in Hci; [done|].
    intros j Hj. split; [|intros ?%out_file_inj; lia]. apply not_true_is_false.
    intros (x&_&Hx)%bucket_pattern_match. by eapply out_file_not_bucket.
  - done.
  - done.
  - done.
  - exists fs'. split; [done|]. unfold runCmp. rewrite Hall, Hsame by (by apply not_eq_sym).
    rewrite Hframe by apply Hc. rewrite Hcor. by rewrite decide_True.
Qed.
End properties.

(** *** A concrete shell *)

(** [find] in the order of the map; [sort] as a sorting of the lines by bytes. *)
Definition find_map (pat : string) (fs : files) : list string :=
  List.filter (fnmatch pat) (map_to_list fs).*1.

Lemma find_map_NoDup pat fs : NoDup (find_map pat fs).
Proof.
  unfold find_map. apply NoDup_ListNoDup, List.NoDup_filter, NoDup_ListNoDup, NoDup_fst_map_to_list.
Qed.

Lemma find_map_spec pat fs name : name ∈ find_map pat fs <-> is_Some (fs !! name) /\ fnmatch pat name = true.
Proof.
  unfold find_map. rewrite list_elem_of_In, filter_In, <-list_elem_of_In, list_elem_of_fmap.
  split; intros [Hx Hm]; (split; [|done]).
  - destruct Hx as ([k v]&->&Hkv%elem_of_map_to_list). by exists v.
  - destruct Hx as [v Hv]. exists (name, v). by rewrite elem_of_map_to_list.
Qed.

#[local] Instance str_le_Trans : Transitive str_le.
Proof. intros s t u. apply str_le_trans. Qed.
#[local] Instance str_le_Total : Total str_le.
Proof. intros s t. apply str_le_total. Qed.
#[local] Instance str_le_AntiSymm : AntiSymm (=) str_le.
Proof. intros s t. apply str_le_antisym. Qed.

Definition sort_bytes (l : list string) : string :=
  concat_strings ((fun x => x +:+ String nl "") <$> merge_sort str_le (l ≫= text_lines)).

Lemma sort_bytes_lines l l' : (l ≫= text_lines) ≡ₚ (l' ≫= text_lines) -> sort_bytes l = sort_bytes l'.
Proof.
  intros Hp. unfold sort_bytes. do 2 f_equal. apply (Sorted_unique str_le); [apply Sorted_merge_sort, _..|].
  by rewrite !merge_sort_Permutation.
Qed.

#[local] Instance bytes_Shell : Shell := {|
  find := find_map;
  find_NoDup := find_map_NoDup;
  find_spec := find_map_spec;
  sort := sort_bytes;
  sort_lines := sort_bytes_lines;
|}.

#[local] Existing Instances bits_Json merge_SortByKey fresh_TempFile.


Lemma demo_own c name :
  c <> "m"%char -> String c name ∉ ["a.txt"; "b.txt"]%string -> own_name ["a.txt"; "b.txt"]%string 2 (String c name).
Proof.
  intros Hc Hn. assert (forall i, String c name <> out_file i) as Ho by (intros i [= ?]; done).
  split; [|done]. intros i _. split; [|done]. apply not_true_is_false. intros (x&_&Hx)%bucket_pattern_match.
  by injection Hx.
Qed.

Lemma demo_no_outputs i : demo_fs !! out_file i = None.
Proof. unfold demo_fs, out_file. by rewrite !lookup_insert_ne by discriminate. Qed.

Lemma mr_test_passes_witness :
  exists fs0 s fs', mkCorrectOutput count_mapfn count_reducefn ["a.txt"; "b.txt"]%string "correct" demo_fs = Ret (Some fs0)
    /\ Done (coord (s_job s)) = true
    /\ mergeOutput "all" (s_fs s) = Ret fs' /\ runCmp "all" "correct" fs' = Ret ().
Proof.
  assert (own_name ["a.txt"; "b.txt"]%string 2 "correct") as Hc by (apply demo_own; [discriminate|set_solver]).
  assert (own_name ["a.txt"; "b.txt"]%string 2 "all") as Ha by (apply demo_own; [discriminate|set_solver]).
  destruct (mr_test_passes count_mapfn count_reducefn map_to_list ["a.txt"; "b.txt"]%string 2 demo_fs "correct" "all"
    (fun m => reflexivity _) count_order_free demo_setup ltac:(lia) demo_no_outputs Hc Ha ltac:(discriminate))
    as (fs0&E&Hall).
  destruct (mkCorrectOutput_spec count_mapfn count_reducefn _ 2 _ _ count_order_free demo_setup demo_no_outputs Hc)
    as (fs0'&out&E'&_&_&_&Hset).
  rewrite E in E'. injection E' as <-. destruct Hset as [Hne Hn Hb Hf Hfresh].
  destruct (sinv_can_finish count_mapfn count_reducefn map_to_list _ 2 fs0 Hn Hf Hfresh
    (fun m => reflexivity _) count_order_free _ _
    (sinv_init count_mapfn count_reducefn _ 2 fs0 Hf Hfresh Hne Hb) (job_init_not_late _ 2 Hne)) as (s&Hr&_&Hd).
  destruct (Hall s Hr Hd) as (fs'&Em&Ec). exists fs0, s, fs'. exact (conj E (conj Hd (conj Em Ec))).
Defined.
