(* ===== verification/MRLogger.v ===== *)
(** * The logger of the MapReduce worker

    [src/map_reduce/mr/logger.go] and the way [worker.run] of [worker.go] uses it: a list of
    default key/value pairs that every line repeats.  [AddDefault] appends inside the loop
    that searches for the key, so the list grows with every call; the theorems say exactly
    how, and what that means for a worker that has been running for a while. *)

From S2P Require Import Prelude.
Local Open Scope Z_scope.

(** ** The logger *)

(** Keys and values alternate.  The worker stores strings only. *)
Record Logger := mkLogger { defaults : list string }.

Definition NewLogger : Logger := mkLogger [].

(** The loop of [AddDefault], from index [i]; the bound [len(l.defaults)] is read anew in
    every turn.  [fuel] bounds the turns. *)
Fixpoint add_loop (fuel : nat) (i : nat) (k v : string) (l : list string) : option (go (list string)) :=
  if decide (i < length l)%nat then
    match fuel with
    | O => None
    | S fuel' =>
        match l !! i with
        | None => Some (Crash Panic)
        | Some key =>
            if decide (key = k) then
              if decide (S i < length l)%nat
              then add_loop fuel' (i + 2) k v (<[S i := v]> l)
              else Some (Crash Panic)
            else add_loop fuel' (i + 2) k v (l ++ [k; v])
        end
    end
  else Some (Ret l).

Definition AddDefault (fuel : nat) (k v : string) (l : Logger) : option (go Logger) :=
  let d := if decide (length (defaults l) = 0)%nat then defaults l ++ [k; v] else defaults l in
  r ← add_loop fuel 0 k v d;
  Some (match r with Ret d' => Ret (mkLogger d') | Crash c => Crash c end).

(** Pairs as " k=v"; a list of odd length is an index out of range. *)
Fixpoint format_pairs (kvs : list string) : go string :=
  match kvs with
  | [] => Ret ""%string
  | [_] => Crash Panic
  | k :: v :: rest => s ← format_pairs rest; Ret (" " +:+ k +:+ "=" +:+ v +:+ s)
  end.

(** [print]: the new contents of app.log; [now] is the formatted time, [open_ok] and
    [write_ok] say how the system calls end. *)
Definition print (level : string) (kvs : list string) (now : string) (open_ok write_ok : bool)
    (l : Logger) (app_log : string) : go string :=
  if decide (level = "DEBUG"%string) then Ret app_log else
  s ← format_pairs kvs;
  d ← format_pairs (defaults l);
  if open_ok then
    Ret (if write_ok
         then app_log +:+ "[" +:+ now +:+ "] [" +:+ level +:+ "]" +:+ s +:+ d +:+ String "010" ""
         else app_log)
  else Crash Fatal.

Definition Debug (kvs : list string) := print "DEBUG" kvs.
Definition Info (kvs : list string) := print "INFO" kvs.
Definition Error (kvs : list string) := print "ERROR" kvs.

(** ** The worker's use of it *)

(** [Worker] sets the first default. *)
Definition worker_logger (workerId : string) : option (go Logger) := AddDefault 1 "worker" workerId NewLogger.

(** One turn of [run]: the two defaults of the task it got. *)
Definition run_defaults (fuel : nat) (task : string * string) (l : Logger) : option (go Logger) :=
  r ← AddDefault fuel "task" task.1 l;
  match r with
  | Ret l' => AddDefault fuel "type" task.2 l'
  | Crash c => Some (Crash c)
  end.

Fixpoint runs (fuel : nat) (tasks : list (string * string)) (l : Logger) : option (go Logger) :=
  match tasks with
  | [] => Some (Ret l)
  | t :: ts =>
      r ← run_defaults fuel t l;
      match r with Ret l' => runs fuel ts l' | Crash c => Some (Crash c) end
  end.

(** ** Pairs *)

Abbreviation pairs := (list (string * string)).

Definition flat (ps : pairs) : list string := ps ≫= (fun '(k, v) => [k; v]).

Definition count_key (k : string) (ps : pairs) : nat := length (filter (fun p => p.1 = k) ps).

(** What [AddDefault] does to the pairs: the pairs with key [k] get the value, and one more
    pair per pair with another key is appended. *)
Definition set_key (k v : string) (p : string * string) : string * string :=
  if decide (p.1 = k) then (k, v) else p.

Definition add_default (k v : string) (ps : pairs) : pairs :=
  (set_key k v <$> ps) ++ replicate (length ps - count_key k ps) (k, v).

Lemma length_flat ps : length (flat ps) = (2 * length ps)%nat.
Proof. induction ps as [|[k v] ps IH]; [done|]. simpl. unfold flat in *. simpl. rewrite IH. lia. Qed.

Lemma flat_app ps qs : flat (ps ++ qs) = flat ps ++ flat qs.
Proof. apply bind_app. Qed.

Lemma count_key_le k ps : (count_key k ps <= length ps)%nat.
Proof. apply length_filter. Qed.

(** At the pair [p] after the pairs [done]. *)
Lemma add_loop_step fuel k v done p rest :
  add_loop (S fuel) (2 * length done) k v (flat (done ++ p :: rest))
  = add_loop fuel (2 * length (done ++ [p])) k v
      (if decide (p.1 = k) then flat ((done ++ [(k, v)]) ++ rest) else flat ((done ++ [p]) ++ rest ++ [(k, v)])).
Proof.
  destruct p as [k0 v0]. cbn [add_loop].
  assert (length (flat (done ++ (k0, v0) :: rest)) = 2 * length done + 2 + 2 * length rest)%nat as El.
  { rewrite length_flat, length_app. simpl. lia. }
  rewrite decide_True by lia.
  assert (flat (done ++ (k0, v0) :: rest) = flat done ++ k0 :: v0 :: flat rest) as Ef by apply flat_app.
  replace (2 * length (done ++ [(k0, v0)]))%nat with (2 * length done + 2)%nat by (rewrite length_app; simpl; lia).
  rewrite Ef at 1. rewrite lookup_app_r by (rewrite length_flat; lia).
  rewrite length_flat, Nat.sub_diag. cbn [lookup list_lookup fst]. case_decide as Hk.
  - subst k0. rewrite (decide_True (P := (S _ < _)%nat)) by lia. f_equal. rewrite Ef.
    replace (S (2 * length done)) with (length (flat done) + 1)%nat by (rewrite length_flat; lia).
    rewrite insert_app_r. simpl. rewrite <-app_assoc, flat_app. done.
  - f_equal. rewrite Ef. rewrite !flat_app. unfold flat at 4 6. simpl. by rewrite <-!app_assoc.
Qed.

Lemma add_loop_appended k v c : forall done fuel, (c <= fuel)%nat ->
  add_loop fuel (2 * length done) k v (flat (done ++ replicate c (k, v)))
  = Some (Ret (flat (done ++ replicate c (k, v)))).
Proof.
  induction c as [|c IH]; intros done fuel Hf.
  - simpl. rewrite app_nil_r. destruct fuel; simpl; rewrite decide_False by (rewrite length_flat; lia); done.
  - destruct fuel as [|fuel]; [lia|]. simpl replicate. rewrite add_loop_step. cbn [fst]. rewrite decide_True by done.
    rewrite IH by lia. by rewrite <-app_assoc.
Qed.

Lemma add_loop_spec k v rest : forall done c fuel,
  (2 * length rest - count_key k rest + c <= fuel)%nat ->
  add_loop fuel (2 * length done) k v (flat (done ++ rest ++ replicate c (k, v)))
  = Some (Ret (flat (done ++ (set_key k v <$> rest) ++ replicate (length rest - count_key k rest + c) (k, v)))).
Proof.
  induction rest as [|p rest IH]; intros done c fuel Hf; [by apply add_loop_appended|].
  pose proof (count_key_le k rest) as Hle. unfold count_key in *. rewrite fmap_cons, filter_cons in *.
  simpl length in Hf. destruct fuel as [|fuel]; [destruct (decide (p.1 = k)); simpl in Hf; lia|].
  rewrite <-app_comm_cons, add_loop_step. unfold set_key at 1. destruct (decide (p.1 = k)) as [Hk|Hk].
  - replace (2 * length (done ++ [p]))%nat with (2 * length (done ++ [(k, v)]))%nat by (rewrite !length_app; done).
    simpl length in *. rewrite IH by lia. rewrite <-app_assoc. simpl.
    by replace (S (length rest) - S (length (filter (fun p => p.1 = k) rest)) + c)%nat
      with (length rest - length (filter (fun p => p.1 = k) rest) + c)%nat by lia.
  - rewrite <-(app_assoc rest). change [(k, v)] with (replicate 1 (k, v)). rewrite <-replicate_add.
    rewrite IH by lia. rewrite <-app_assoc. simpl.
    by replace (S (length rest) - length (filter (fun p => p.1 = k) rest) + c)%nat
      with (length rest - length (filter (fun p => p.1 = k) rest) + (c + 1))%nat by lia.
Qed.

(** [AddDefault] on a list of pairs: it returns, and the pairs are those of [add_default];
    an empty list first gets the pair. *)
Lemma AddDefault_spec fuel k v ps :
  (2 * Nat.max 1 (length ps) <= fuel)%nat ->
  AddDefault fuel k v (mkLogger (flat ps))
  = Some (Ret (mkLogger (flat (add_default k v (if decide (ps = []) then [(k, v)] else ps))))).
Proof.
  intros Hf. unfold AddDefault. cbn [defaults]. rewrite length_flat.
  set (ps' := if decide (ps = []) then [(k, v)] else ps).
  replace (if decide (2 * length ps = 0)%nat then flat ps ++ [k; v] else flat ps) with (flat ps').
  - pose proof (add_loop_spec k v ps' [] 0 fuel) as Hs. simpl in Hs. rewrite app_nil_r, Nat.add_0_r in Hs.
    rewrite Hs; [simpl; by rewrite Nat.add_0_r|]. unfold ps'. pose proof (count_key_le k ps). case_decide; simpl; lia.
  - unfold ps'. destruct ps as [|p ps]; [done|]. rewrite !decide_False by (simpl; done || lia). done.
Qed.

Lemma length_add_default k v ps : length (add_default k v ps) = (2 * length ps - count_key k ps)%nat.
Proof.
  unfold add_default. rewrite length_app, length_fmap, length_replicate. pose proof (count_key_le k ps). lia.
Qed.

Lemma count_key_app k ps qs : count_key k (ps ++ qs) = (count_key k ps + count_key k qs)%nat.
Proof. unfold count_key. by rewrite list.filter_app, length_app. Qed.

Lemma count_key_set k k' v ps : count_key k' (set_key k v <$> ps) = count_key k' ps.
Proof.
  assert (forall p, (set_key k v p).1 = p.1) as Hkey by (intros p; unfold set_key; by case_decide).
  unfold count_key. induction ps as [|p ps IH]; [done|]. rewrite fmap_cons, !filter_cons.
  destruct (decide (p.1 = k')) as [Hk|Hk].
  - rewrite decide_True by (by rewrite Hkey). simpl. by rewrite IH.
  - by rewrite decide_False by (by rewrite Hkey).
Qed.

Lemma count_key_replicate k k' v n : count_key k' (replicate n (k, v)) = if decide (k = k') then n else O.
Proof.
  unfold count_key. induction n as [|n IH]; [by case_decide|]. simpl. rewrite filter_cons. cbn [fst].
  destruct (decide (k = k')); simpl; by rewrite IH.
Qed.

Lemma count_other_add_default k k' v ps : k' <> k -> count_key k' (add_default k v ps) = count_key k' ps.
Proof.
  intros Hne. unfold add_default. rewrite count_key_app, count_key_set, count_key_replicate, decide_False by done. lia.
Qed.

(** ** Properties *)

(** A turn of [run] on a logger that has pairs. *)
Lemma run_defaults_spec fuel task ps :
  ps <> [] -> (4 * length ps <= fuel)%nat ->
  run_defaults fuel task (mkLogger (flat ps))
  = Some (Ret (mkLogger (flat (add_default "type" task.2 (add_default "task" task.1 ps))))).
Proof.
  intros Hne Hf. assert (0 < length ps)%nat as Hp by (destruct ps; simpl; [done|lia]).
  unfold run_defaults. rewrite AddDefault_spec by lia. rewrite (decide_False (P := ps = [])) by done. cbn [mbind option_bind].
  pose proof (length_add_default "task" task.1 ps) as El. pose proof (count_key_le "task" ps).
  rewrite AddDefault_spec by lia. rewrite decide_False; [done|]. intros E. rewrite E in El. simpl in El. lia.
Qed.

(** The number of pairs at least doubles with every turn. *)
Lemma run_pairs_double task ps :
  (2 * length ps <= length (add_default "type" task.2 (add_default "task" task.1 ps)) <= 4 * length ps)%nat.
Proof.
  rewrite !length_add_default, count_other_add_default by done.
  pose proof (count_key_le "task" ps). pose proof (count_key_le "type" ps).
  enough (count_key "task" ps + count_key "type" ps <= length ps)%nat by lia.
  unfold count_key. clear. induction ps as [|p ps IH]; [simpl; lia|]. rewrite !filter_cons.
  destruct (decide (p.1 = "task"%string)) as [E|E]; destruct (decide (p.1 = "type"%string)); [congruence|..]; simpl; lia.
Qed.

Lemma runs_pairs tasks : forall fuel ps, ps <> [] -> (4 ^ S (length tasks) * length ps <= fuel)%nat ->
  exists ps', runs fuel tasks (mkLogger (flat ps)) = Some (Ret (mkLogger (flat ps')))
    /\ (2 ^ length tasks * length ps <= length ps' <= 4 ^ length tasks * length ps)%nat.
Proof.
  induction tasks as [|t tasks IH]; intros fuel ps Hne Hf; [exists ps; split; [done|simpl; lia]|].
  pose proof (run_pairs_double t ps) as Hd. set (ps1 := add_default _ _ _) in Hd.
  assert (4 ^ length tasks > 0)%nat as Hpos by (pose proof (Nat.pow_nonzero 4 (length tasks)); lia).
  assert (2 ^ length tasks > 0)%nat as Hpos2 by (pose proof (Nat.pow_nonzero 2 (length tasks)); lia).
  simpl length in Hf. rewrite !Nat.pow_succ_r' in Hf.
  cbn [runs]. rewrite run_defaults_spec; [|done|nia]. cbn [mbind option_bind]. fold ps1.
  destruct (IH fuel ps1) as (ps'&E&Hl).
  - intros E. rewrite E in Hd. destruct ps; simpl in *; [done|lia].
  - rewrite Nat.pow_succ_r'. nia.
  - exists ps'. split; [done|]. simpl length. rewrite !Nat.pow_succ_r'. nia.
Qed.

(** The defaults of a worker's logger explode.  [AddDefault] ends and keeps keys and
    values paired, but it appends a pair for every pair with another key it passes: after
    [r] turns of [run], waiting turns included, the logger holds at least 2^r pairs, which
    every further line prints. *)
Theorem logger_defaults_explode workerId tasks fuel :
  (4 ^ S (length tasks) <= fuel)%nat ->
  exists ps, (l ← worker_logger workerId; match l with Ret l => runs fuel tasks l | Crash c => Some (Crash c) end)
             = Some (Ret (mkLogger (flat ps)))
    /\ (2 ^ length tasks <= length ps <= 4 ^ length tasks)%nat.
Proof.
  intros Hf. change (worker_logger workerId) with (Some (Ret (mkLogger (flat [("worker"%string, workerId)])))).
  cbn [mbind option_bind]. destruct (runs_pairs tasks fuel [("worker"%string, workerId)]) as (ps&E&Hl);
    [done|simpl length; lia|]. exists ps. split; [done|]. simpl length in Hl. lia.
Qed.

Lemma logger_defaults_explode_witness :
  exists ps, (2 ^ 3 <= length ps <= 4 ^ 3)%nat
    /\ runs 256 [("1", "map"); ("2", "wait"); ("3", "wait")]%string (mkLogger ["worker"; "w"]%string)
       = Some (Ret (mkLogger (flat ps))).
Proof.
  destruct (logger_defaults_explode "w" [("1", "map"); ("2", "wait"); ("3", "wait")]%string 256) as (ps&E&Hl).
  - vm_compute. lia.
  - exists ps. split; [exact Hl|exact E].
Defined.
