(* ===== verification/Logs.v ===== *)
(** * Loggers

    [src/src/logger.go], the logger of Raft servers with its text of defaults, and
    [src/src/kvsrv1/logger.go], the one of the key/value server and the lock.  All loggers of a process
    append to the same file, one write per line.  [fmt.Sprintf] is a parameter; the time and the
    outcome of the system calls come with each call. *)

From S2P Require Import Prelude.
Local Open Scope Z_scope.

(** The outcome of the system calls of one [print]. *)
Record outcome := mkOutcome { now : string; open_ok : bool; write_ok : bool }.

(** The end of [print]: the line goes to app.log. *)
Definition append_line (o : outcome) (line app_log : string) : go string :=
  if open_ok o then Ret (if write_ok o then app_log +:+ line +:+ String "010" "" else app_log) else Crash Fatal.

Section loggers.
  Context {V : Type} (Sprintf : string -> list V -> string).

(** The level and the time at the start of a line. *)
Definition stamp (level : string) (o : outcome) : string := "[" +:+ now o +:+ "] [" +:+ level +:+ "]".

Record Logger := mkLogger { defaults : string }.

Definition NewLogger : Logger := mkLogger "".

Definition AddDefault (str : string) (vals : list V) (l : Logger) : Logger := mkLogger (defaults l +:+ Sprintf str vals).

Definition print (level str : string) (vals : list V) (o : outcome) (l : Logger) (app_log : string) : go string :=
  if decide (level = "DEBUG"%string) then Ret app_log
  else append_line o (stamp level o +:+ defaults l +:+ Sprintf str vals) app_log.

Definition Debug : string -> list V -> outcome -> Logger -> string -> go string := print "DEBUG".
Definition Info : string -> list V -> outcome -> Logger -> string -> go string := print "INFO".
Definition Error : string -> list V -> outcome -> Logger -> string -> go string := print "ERROR".

(** The logger of [kvsrv1] has no state. *)
Definition kv_print (level str : string) (vals : list V) (o : outcome) (app_log : string) : go string :=
  if decide (level = "DEBUG"%string) then Ret app_log
  else append_line o (stamp level o +:+ Sprintf str vals) app_log.

Definition kv_Debug : string -> list V -> outcome -> string -> go string := kv_print "DEBUG".
Definition kv_Info : string -> list V -> outcome -> string -> go string := kv_print "INFO".
Definition kv_Error : string -> list V -> outcome -> string -> go string := kv_print "ERROR".

(** ** Several loggers on one file *)

Inductive call :=
  | CDebug (str : string) (vals : list V) (o : outcome)
  | CInfo (str : string) (vals : list V) (o : outcome)
  | CError (str : string) (vals : list V) (o : outcome)
  | CAddDefault (str : string) (vals : list V).

Definition do_call (c : call) (l : Logger) (app_log : string) : go (Logger * string) :=
  match c with
  | CDebug str vals o => s ← Debug str vals o l app_log; Ret (l, s)
  | CInfo str vals o => s ← Info str vals o l app_log; Ret (l, s)
  | CError str vals o => s ← Error str vals o l app_log; Ret (l, s)
  | CAddDefault str vals => Ret (AddDefault str vals l, app_log)
  end.

(** Calls of the loggers [ls], in the order in which they happen; a logger that is not there is new. *)
Fixpoint do_calls (cs : list (Z * call)) (ls : gmap Z Logger) (app_log : string) : go (gmap Z Logger * string) :=
  match cs with
  | [] => Ret (ls, app_log)
  | (i, c) :: cs' =>
      match do_call c (default NewLogger (ls !! i)) app_log with
      | Ret (l, s) => do_calls cs' (<[i := l]> ls) s
      | Crash x => Crash x
      end
  end.

(** The text a call adds to the file. *)
Definition output (c : call) (l : Logger) : string :=
  let line level str vals o := if write_ok o then stamp level o +:+ defaults l +:+ Sprintf str vals +:+ String "010" "" else ""%string in
  match c with
  | CInfo str vals o => line "INFO"%string str vals o
  | CError str vals o => line "ERROR"%string str vals o
  | CDebug _ _ _ | CAddDefault _ _ => ""%string
  end.

Definition after (c : call) (l : Logger) : Logger :=
  match c with CAddDefault str vals => AddDefault str vals l | _ => l end.

(** What one logger writes when it is alone. *)
Fixpoint outputs (cs : list call) (l : Logger) : list string :=
  match cs with [] => [] | c :: cs' => output c l :: outputs cs' (after c l) end.

Definition opens (c : call) : Prop :=
  match c with CInfo _ _ o | CError _ _ o => open_ok o = true | CDebug _ _ _ | CAddDefault _ _ => True end.

Lemma do_call_output c l s : opens c -> do_call c l s = Ret (after c l, s +:+ output c l).
Proof.
  destruct c as [str vals o|str vals o|str vals o|str vals]; cbn; [by rewrite string_app_nil_r|..|by rewrite string_app_nil_r];
    intros Ho; unfold Info, Error, print, append_line; rewrite decide_False by done; rewrite Ho; run_go;
    (destruct (write_ok o); [|by rewrite string_app_nil_r]); by rewrite !string_app_assoc.
Qed.

(** The calls of logger [i]. *)
Definition calls_of (i : Z) (cs : list (Z * call)) : list call := (filter (fun p => p.1 = i) cs).*2.

(** The loggers share the file and nothing else.  When the file can be opened, the calls of all loggers
    leave the old text followed by one piece per call, in the order of the calls; the pieces of a logger are what it would
    have written alone, whatever the others log and add to their defaults. *)
Theorem shared_log cs : forall ls s, Forall (fun p => opens p.2) cs ->
  exists ls' pieces, do_calls cs ls s = Ret (ls', s +:+ concat_strings pieces.*2) /\ pieces.*1 = cs.*1
    /\ forall i, (filter (fun p => p.1 = i) pieces).*2 = outputs (calls_of i cs) (default NewLogger (ls !! i)).
Proof.
  induction cs as [|[i c] cs IH]; intros ls s Ho.
  - exists ls, []. cbn. by rewrite string_app_nil_r.
  - apply list.Forall_cons in Ho as [Hc Ho]. cbn [do_calls]. rewrite do_call_output by done.
    destruct (IH (<[i := after c (default NewLogger (ls !! i))]> ls) (s +:+ output c (default NewLogger (ls !! i))) Ho)
      as (ls'&pieces&E&Hf&Hi).
    exists ls', ((i, output c (default NewLogger (ls !! i))) :: pieces). split_and!.
    + rewrite E. rewrite fmap_cons, concat_strings_cons. by rewrite string_app_assoc.
    + by rewrite !fmap_cons, Hf.
    + intros j. unfold calls_of. rewrite !list.filter_cons. cbn [fst]. specialize (Hi j). unfold calls_of in Hi.
      destruct (decide (i = j)) as [<-|Hne].
      * rewrite !fmap_cons. cbn [outputs snd]. rewrite Hi, lookup_insert_eq. done.
      * by rewrite Hi, lookup_insert_ne.
Qed.

(** The start of [raft.Make]: server [me] marks its lines. *)
Definition raft_logger (vals : list V) : Logger := AddDefault "[ID %d] " vals NewLogger.

(** Every line of a Raft server that adds no further defaults carries the mark of the server after its
    time and level; debug calls write nothing. *)
Theorem raft_lines_marked vals cs x :
  Forall (fun c => match c with CAddDefault _ _ => False | _ => True end) cs ->
  x ∈ outputs cs (raft_logger vals) ->
  x = ""%string \/ exists level o msg, x = (stamp level o +:+ Sprintf "[ID %d] " vals +:+ msg +:+ String "010" "")%string.
Proof.
  induction cs as [|c cs IH]; intros Hc; cbn [outputs]; [by intros ?%elem_of_nil|].
  apply list.Forall_cons in Hc as [Hc Hcs]. rewrite elem_of_cons. intros [->|Hx].
  - destruct c as [str vs o|str vs o|str vs o|str vs]; cbn; [by left|..|done];
      (destruct (write_ok o); [right|by left]); do 3 eexists; reflexivity.
  - apply IH; [done|]. by destruct c.
Qed.
End loggers.
