(* ===== verification/OpLog.v ===== *)
(** * The operation log and the linearizability check

    [src/src/kvtest1/porcupine.go] with [TestClerk] of [kvtest.go]: the harness runs every
    operation between two readings of the clock and appends it to a log shared by all
    clients.  The readings are differences to [time.Unix(0, 0)], which has no monotonic
    part: they follow the wall clock, which may be set back; at the end the third-party checker [porcupine] decides whether the log is
    linearizable with respect to [KvModel].  Any number of goroutines run [Get] and [Put]
    over any service that satisfies [IKVClerk], in any interleaving.  The checker is a
    parameter; what it calls linearizable is written out. *)

From S2P Require Import Prelude Rpc KVServer KVModel KVClerk.
Local Open Scope Z_scope.

(** ** The log *)

Record OpLog := mkOpLog { operations : list Operation }.

Definition Len (log : OpLog) : Z := Z.of_nat (length (operations log)).
Definition Append (op : Operation) (log : OpLog) : OpLog := mkOpLog (operations log ++ [op]).
Definition Read (log : OpLog) : list Operation := operations log.

(** [atomic.AddInt32(&cfg.ops, 1)]. *)
Definition OpInc (ops : Z) : Z := i32 (ops + 1).

(** ** Logged operations *)

(** A call of the functions [Get] and [Put] of the package, or of the methods of [Test]
    with the same names. *)
Inductive routine :=
  | RGet (key : string)
  | RPut (key value : string) (version : Tversion)
  | TsGet (key : string)
  | TsPut (key value : string) (version : Tversion).

(** The [Input] that is logged. *)
Definition input_of (r : routine) : KvInput :=
  match r with
  | RGet key | TsGet key => mkIn 0 key "" 0
  | RPut key value version | TsPut key value version => mkIn 1 key value version
  end.

Definition get_output (res : string * Tversion * Err) : KvOutput :=
  let '(val, ver, err) := res in mkOut val ver err.

Definition put_output (err : Err) : KvOutput := mkOut "" 0 err.

(** A goroutine in the middle of a routine: [start] is taken; the clerk has returned;
    [end] is taken. *)
Inductive pc :=
  | Called (r : routine) (cli start : Z)
  | Returned (r : routine) (cli start : Z) (out : KvOutput)
  | Logging (r : routine) (op : Operation).

Definition append_log (op : Operation) (log : option OpLog) : option OpLog := Append op <$> log.

Section harness.
  Context {S : Type} `{IKVClerk S}.

(** The service, the clock, the goroutines, the log ([None]: a nil pointer) and the number
    of operations counted. *)
Record hsys := mkH { h_svc : S; h_now : Z; h_pcs : gmap nat pc; h_log : option OpLog; h_ops : Z }.

(** The functions [Get] and [Put]: take the time, call the clerk ([TestClerk] counts the
    call), take the time, count, append to the log. *)
Inductive pkg_step : hsys -> hsys -> Prop :=
  | pkg_start s now pcs log ops g r cli :
      pcs !! g = None -> (exists key, r = RGet key) \/ (exists key value version, r = RPut key value version) ->
      pkg_step (mkH s now pcs log ops) (mkH s now (<[g := Called r cli now]> pcs) log ops)
  | pkg_get s now pcs log ops g key cli start res :
      pcs !! g = Some (Called (RGet key) cli start) -> ck_get s key res ->
      pkg_step (mkH s now pcs log ops)
        (mkH s now (<[g := Returned (RGet key) cli start (get_output res)]> pcs) log (OpInc ops))
  | pkg_put s now pcs log ops g key value version cli start err s' :
      pcs !! g = Some (Called (RPut key value version) cli start) ->
      ck_put s (mkPutArgs key value version) err s' ->
      pkg_step (mkH s now pcs log ops)
        (mkH s' now (<[g := Returned (RPut key value version) cli start (put_output err)]> pcs) log (OpInc ops))
  | pkg_end s now pcs log ops g r cli start out :
      pcs !! g = Some (Returned r cli start out) ->
      (exists key, r = RGet key) \/ (exists key value version, r = RPut key value version) ->
      pkg_step (mkH s now pcs log ops)
        (mkH s now (<[g := Logging r (mkOperation cli (input_of r) start out now)]> pcs) log (OpInc ops)).

(** The methods of [Test]: the same, but [Put] does not count after the call. *)
Inductive ts_step : hsys -> hsys -> Prop :=
  | ts_start s now pcs log ops g r cli :
      pcs !! g = None -> (exists key, r = TsGet key) \/ (exists key value version, r = TsPut key value version) ->
      ts_step (mkH s now pcs log ops) (mkH s now (<[g := Called r cli now]> pcs) log ops)
  | ts_get s now pcs log ops g key cli start res :
      pcs !! g = Some (Called (TsGet key) cli start) -> ck_get s key res ->
      ts_step (mkH s now pcs log ops)
        (mkH s now (<[g := Returned (TsGet key) cli start (get_output res)]> pcs) log (OpInc ops))
  | ts_put s now pcs log ops g key value version cli start err s' :
      pcs !! g = Some (Called (TsPut key value version) cli start) ->
      ck_put s (mkPutArgs key value version) err s' ->
      ts_step (mkH s now pcs log ops)
        (mkH s' now (<[g := Returned (TsPut key value version) cli start (put_output err)]> pcs) log (OpInc ops))
  | ts_end_get s now pcs log ops g key cli start out :
      pcs !! g = Some (Returned (TsGet key) cli start out) ->
      ts_step (mkH s now pcs log ops)
        (mkH s now (<[g := Logging (TsGet key) (mkOperation cli (input_of (TsGet key)) start out now)]> pcs) log (OpInc ops))
  | ts_end_put s now pcs log ops g key value version cli start out :
      pcs !! g = Some (Returned (TsPut key value version) cli start out) ->
      ts_step (mkH s now pcs log ops)
        (mkH s now (<[g := Logging (TsPut key value version)
                             (mkOperation cli (input_of (TsPut key value version)) start out now)]> pcs) log ops).

(** The clock shows another time, a goroutine does its next step, or appends to the log and
    returns. *)
Inductive hstep : hsys -> hsys -> Prop :=
  | h_tick s now pcs log ops now' : hstep (mkH s now pcs log ops) (mkH s now' pcs log ops)
  | h_pkg h h' : pkg_step h h' -> hstep h h'
  | h_ts h h' : ts_step h h' -> hstep h h'
  | h_append s now pcs log ops g r op :
      pcs !! g = Some (Logging r op) ->
      hstep (mkH s now pcs log ops) (mkH s now (delete g pcs) (append_log op log) ops).

(** A step in which the clock is not set back. *)
Definition steady (h h' : hsys) : Prop := hstep h h' /\ h_now h <= h_now h'.

(** [MakeTest]: an empty log. *)
Definition h_init (s : S) (now : Z) : hsys := mkH s now ∅ (Some (mkOpLog [])) 0.
End harness.
Arguments hsys S : clear implicits.

(** ** Linearizability *)

(** [b] was called after [a] returned: [a] comes first.  With equal times the checker
    takes the two as concurrent. *)
Definition respects_time (h : list Operation) : Prop :=
  forall i j a b, h !! i = Some a -> h !! j = Some b -> op_Return a < op_Call b -> (i < j)%nat.

(** What [porcupine] decides for a model with a [Partition]: every part has an order that
    respects real time and that [Step] accepts from [Init]. *)
Definition linearizable (h : list Operation) : Prop :=
  Forall (fun part => exists p, p ≡ₚ part /\ respects_time p /\ replay Init p = Ret true) (Partition h).

Inductive CheckResult := Ok | Illegal | Unknown.

(** ** [checkPorcupine] *)

(** What it prints, opens and writes. *)
Inductive effect :=
  | CreateTempVis
  | OpenVis (path : string)
  | InfoOpenFailed
  | FinalizeAnnotations (final : string)
  | InfoVisFailed
  | InfoVisWritten
  | InfoTimedOut.

(** The environment: [VIS_ENABLE], [VIS_FILE], whether the annotations are finalized, and
    whether opening and writing the visualization succeed. *)
Record env := mkEnv {
  enabled : string;
  fpath : string;
  annotations_finalized : bool;
  open_ok : bool;
  visualize_ok : bool;
}.

Definition open_vis (e : env) : effect :=
  if decide (fpath e = ""%string) then CreateTempVis else OpenVis (fpath e).

Definition visualize (e : env) (final : string) : list effect :=
  [FinalizeAnnotations final; if visualize_ok e then InfoVisWritten else InfoVisFailed].

Definition checkPorcupine (check : list Operation -> CheckResult) (e : env) (log : OpLog)
    : list effect * go unit :=
  let res := check (Read log) in
  match res with
  | Illegal =>
      (open_vis e ::
       (if negb (open_ok e) then [InfoOpenFailed]
        else if decide (enabled e <> "never"%string) then visualize e "test failed" else []),
       Crash Fatal)
  | _ =>
      let timed_out := match res with Unknown => [InfoTimedOut] | _ => [] end in
      (timed_out ++
       (if decide (enabled e = "always"%string /\ annotations_finalized e = true)
        then open_vis e :: (if negb (open_ok e) then [InfoOpenFailed] else visualize e "test passed")
        else []),
       Ret ())
  end.

(** ** Lemmas: lists *)

Lemma StronglySorted_filter_fmap {A B} (R : B -> B -> Prop) (f : A -> B) (P : A -> Prop)
    `{!forall x, Decision (P x)} l :
  StronglySorted R (f <$> l) -> StronglySorted R (f <$> filter P l).
Proof.
  induction l as [|x l IH]; intros Hs; [done|]. apply StronglySorted_inv in Hs as [Hs Hx].
  rewrite filter_cons. case_decide; [|by apply IH]. constructor; [by apply IH|].
  rewrite list.Forall_forall in Hx |- *. intros y (z&->&[_ Hz]%list_elem_of_filter)%list_elem_of_fmap.
  apply Hx. by apply list_elem_of_fmap_2.
Qed.

Lemma StronglySorted_lookup {A} (R : A -> A -> Prop) l i j a b :
  StronglySorted R l -> l !! i = Some a -> l !! j = Some b -> (i < j)%nat -> R a b.
Proof.
  intros Hs. revert i j. induction Hs as [|x l Hs IH Hx]; intros i j Hi Hj Hlt; [done|].
  destruct j as [|j]; [lia|]. simpl in Hj. destruct i as [|i]; simpl in Hi.
  - injection Hi as <-. rewrite list.Forall_forall in Hx. apply Hx. by eapply list_elem_of_lookup_2.
  - by eapply (IH i j); [| |lia].
Qed.

Lemma insert_Permutation {A} (l : list A) i x y :
  l !! i = Some x -> exists k, l ≡ₚ x :: k /\ <[i := y]> l ≡ₚ y :: k.
Proof.
  intros Hi. exists (take i l ++ drop (S i) l). split.
  - rewrite <-(take_drop_middle l i x Hi) at 1. by rewrite Permutation_middle.
  - rewrite insert_take_drop by (by eapply lookup_lt_Some). by rewrite Permutation_middle.
Qed.

Lemma filter_fmap_list {A B} (f : A -> B) (P : B -> Prop) `{!forall x, Decision (P x)} (l : list A) :
  filter P (f <$> l) = f <$> filter (fun x => P (f x)) l.
Proof.
  induction l as [|x l IH]; [done|]. rewrite fmap_cons, !filter_cons, IH. by case_decide.
Qed.

(** ** Lemmas: the model along a history *)

Definition io (o : Operation) : KvInput * KvOutput := (Input o, Output o).

(** The verdict and the state after a history. *)
Fixpoint run_model (st : state) (h : list (KvInput * KvOutput)) : go (bool * state) :=
  match h with
  | [] => Ret (true, st)
  | (i, o) :: h' =>
      '(ok, st1) ← Step st i o;
      '(rest, st2) ← run_model st1 h';
      Ret (ok && rest, st2)
  end.

Lemma run_model_snoc h i o : forall st b st1 b' st2,
  run_model st h = Ret (b, st1) -> Step st1 i o = Ret (b', st2) ->
  run_model st (h ++ [(i, o)]) = Ret (b && b', st2).
Proof.
  induction h as [|[i0 o0] h IH]; intros st b st1 b' st2 Hr Hs.
  - injection Hr as <- <-. cbn [app run_model]. rewrite Hs. run_go. by rewrite andb_true_r.
  - cbn [app run_model] in *. destruct (Step st i0 o0) as [[ok st']|]; [|done]. cbn in Hr |- *.
    destruct (run_model st' h) as [[rest st'']|] eqn:E; [|done]. cbn in Hr. injection Hr as <- <-.
    rewrite (IH _ _ _ _ _ E Hs). cbn. by rewrite andb_assoc.
Qed.

Lemma replay_run_model h : forall st b st', run_model st (io <$> h) = Ret (b, st') -> replay st h = Ret b.
Proof.
  induction h as [|o h IH]; intros st b st' Hr; [by injection Hr as <-|].
  rewrite fmap_cons in Hr. cbn [run_model replay io] in *.
  destruct (Step st (Input o) (Output o)) as [[ok st1]|]; [|done]. cbn in Hr |- *.
  destruct (run_model st1 (io <$> h)) as [[rest st2]|] eqn:E; [|done]. cbn in Hr. injection Hr as <- <-.
  by rewrite (IH _ _ _ E).
Qed.

Definition io_key (k : string) (x : KvInput * KvOutput) : Prop := in_Key x.1 = k.
#[export] Instance io_key_dec k x : Decision (io_key k x).
Proof. unfold io_key. apply _. Defined.

(** Not a Put answered ErrNoKey, which the model rejects. *)
Definition io_ok (x : KvInput * KvOutput) : bool :=
  negb (bool_decide (in_Op x.1 = 1) && bool_decide (out_Err x.2 = ErrNoKey)).

Section proofs.
  Context {S : Type} `{IKVClerk S}.

Definition sabs (s : S) (k : string) : KvState :=
  match entry s k with Some vv => mkSt (value vv) (version vv) | None => mkSt "" 0 end.

Lemma step_get s key res :
  ck_get s key res -> Step (St (sabs s key)) (mkIn 0 key "" 0) (get_output res) = Ret (true, St (sabs s key)).
Proof.
  destruct res as [[v n] e]. intros Hg%ck_get_law. unfold sabs. simpl.
  destruct (entry s key); destruct Hg as (->&_); by rewrite bool_decide_true.
Qed.

Lemma step_put s key value version err s' :
  ck_put s (mkPutArgs key value version) err s' ->
  Step (St (sabs s key)) (mkIn 1 key value version) (put_output err)
    = Ret (io_ok (mkIn 1 key value version, put_output err), St (sabs s' key))
  /\ forall k, k <> key -> sabs s' k = sabs s k.
Proof.
  assert (st_Version (sabs s key) = from_option KVServer.version 0 (entry s key)) as Ev
    by (unfold sabs; by destruct (entry s key)).
  intros [(Hv&He&Hs&Ho)|(Hv&->&He)]%ck_put_law; simpl in *; rewrite <-Ev in Hv.
  - rewrite decide_True by done. split.
    + unfold sabs at 2. rewrite Hs. unfold io_ok. simpl. rewrite Hv. by destruct He as [->| ->].
    + intros k Hk. unfold sabs. by rewrite Ho.
  - rewrite decide_False by done. split; [|done]. unfold io_ok. simpl.
    destruct He as [->| ->]; [done|]. by destruct (entry s key).
Qed.

(** *** The order of the effects *)

(** An operation that has taken effect, at time [le_t]; [le_pending]: its return time is
    not taken yet, and [op_Return] is 0. *)
Record lent := mkLent { le_op : Operation; le_pending : bool; le_t : Z }.

Definition le_tag (e : lent) : bool * Operation := (le_pending e, le_op e).

(** The operations of goroutines that have taken effect and are not in the log yet. *)
Definition pc_entries (p : pc) : list (bool * Operation) :=
  match p with
  | Called _ _ _ => []
  | Returned r cli start out => [(true, mkOperation cli (input_of r) start out 0)]
  | Logging _ op => [(false, op)]
  end.

Definition all_entries (pcs : gmap nat pc) : list (bool * Operation) :=
  map_to_list pcs ≫= (fun p => pc_entries p.2).

Lemma all_entries_delete pcs g p :
  pcs !! g = Some p -> all_entries pcs ≡ₚ pc_entries p ++ all_entries (delete g pcs).
Proof. intros Hg. unfold all_entries. by rewrite <-(map_to_list_delete pcs g p Hg). Qed.

Lemma all_entries_insert pcs g p :
  all_entries (<[g := p]> pcs) ≡ₚ pc_entries p ++ all_entries (delete g pcs).
Proof.
  rewrite (all_entries_delete _ g p) by apply lookup_insert_eq. by rewrite delete_insert_eq.
Qed.

Record hinv (h : hsys S) (lin : list lent) (log : OpLog) : Prop := {
  hi_log : h_log h = Some log;
  hi_sorted : StronglySorted Z.le (le_t <$> lin);
  hi_times e : e ∈ lin -> op_Call (le_op e) <= le_t e <= h_now h
                          /\ (le_pending e = false -> le_t e <= op_Return (le_op e));
  hi_start g r cli start : h_pcs h !! g = Some (Called r cli start) -> start <= h_now h;
  hi_perm : le_tag <$> lin ≡ₚ (pair false <$> operations log) ++ all_entries (h_pcs h);
  hi_run k : run_model Init (filter (io_key k) (io <$> (le_op <$> lin)))
             = Ret (forallb io_ok (filter (io_key k) (io <$> (le_op <$> lin))), St (sabs (h_svc h) k));
}.

(** A goroutine's operation takes effect. *)
Lemma hinv_effect s now pcs lg ops lin log g r cli start out s' ops' :
  hinv (mkH s now pcs lg ops) lin log -> pcs !! g = Some (Called r cli start) ->
  Step (St (sabs s (in_Key (input_of r)))) (input_of r) out
    = Ret (io_ok (input_of r, out), St (sabs s' (in_Key (input_of r)))) ->
  (forall k, k <> in_Key (input_of r) -> sabs s' k = sabs s k) ->
  exists lin', hinv (mkH s' now (<[g := Returned r cli start out]> pcs) lg ops') lin' log.
Proof.
  intros Hi Hg Hstep Hother. set (o := mkOperation cli (input_of r) start out 0).
  exists (lin ++ [mkLent o true now]). pose proof (hi_start _ _ _ Hi g r cli start Hg) as Hst. simpl in Hst.
  split; simpl.
  - apply Hi.
  - rewrite fmap_app. apply StronglySorted_app_2; [|apply Hi|repeat constructor].
    intros x y (e&->&He)%list_elem_of_fmap ->%list_elem_of_singleton. by apply (hi_times _ _ _ Hi e He).
  - intros e [He|He%list_elem_of_singleton]%elem_of_app; [by apply (hi_times _ _ _ Hi e)|]. subst e.
    simpl. split; [lia|done].
  - intros g' r' cli' start' Hg'. apply lookup_insert_Some in Hg' as [[_ ?]|[_ Hg']]; [done|].
    by apply (hi_start _ _ _ Hi g' r' cli').
  - rewrite fmap_app, (hi_perm _ _ _ Hi), all_entries_insert, (all_entries_delete _ g _ Hg). simpl.
    rewrite <-app_assoc. f_equiv. by rewrite Permutation_app_comm.
  - intros k. rewrite !fmap_app, list.filter_app. pose proof (hi_run _ _ _ Hi k) as Hr. simpl in Hr.
    cbn [fmap list_fmap io]. rewrite filter_cons, filter_nil.
    change (io (le_op _)) with (input_of r, out).
    destruct (decide (io_key k (input_of r, out))) as [Hk|Hk].
    + rewrite forallb_app. cbn [forallb]. rewrite andb_true_r. unfold io_key in Hk. simpl in Hk. subst k.
      by eapply run_model_snoc.
    + rewrite app_nil_r, Hr. by rewrite Hother by (unfold io_key in Hk; simpl in Hk; congruence).
Qed.

(** A goroutine takes its return time. *)
Lemma hinv_end s now pcs lg ops lin log g r cli start out ops' :
  hinv (mkH s now pcs lg ops) lin log -> pcs !! g = Some (Returned r cli start out) ->
  exists lin', hinv (mkH s now (<[g := Logging r (mkOperation cli (input_of r) start out now)]> pcs) lg ops') lin' log.
Proof.
  intros Hi Hg. set (o := mkOperation cli (input_of r) start out 0).
  set (o' := mkOperation cli (input_of r) start out now).
  assert ((true, o) ∈ le_tag <$> lin) as (e&Eo&He)%list_elem_of_fmap.
  { rewrite (hi_perm _ _ _ Hi), elem_of_app. right. simpl. rewrite (all_entries_delete _ g _ Hg). set_solver +. }
  apply list_elem_of_lookup in He as [i Hii]. injection Eo as Ep Eo.
  assert (i < length lin)%nat as Hlt by (by eapply lookup_lt_Some).
  destruct (hi_times _ _ _ Hi e (list_elem_of_lookup_2 _ _ _ Hii)) as [Ht _]. rewrite <-Eo in Ht. simpl in Ht.
  set (e' := mkLent o' false (le_t e)). exists (<[i := e']> lin).
  assert (forall B (f : lent -> B), f e' = f e -> f <$> <[i := e']> lin = f <$> lin) as Hsame.
  { intros B f Hf. rewrite list_fmap_insert, Hf. apply list_insert_id. by rewrite list_lookup_fmap, Hii. }
  split; simpl.
  - apply Hi.
  - rewrite Hsame by done. apply Hi.
  - intros x [j Hj]%list_elem_of_lookup. destruct (decide (i = j)) as [<-|Hne].
    + rewrite list_lookup_insert_eq in Hj by done. injection Hj as <-. simpl. split; [lia|]. intros _. lia.
    + rewrite list_lookup_insert_ne in Hj by done. apply (hi_times _ _ _ Hi x). by eapply list_elem_of_lookup_2.
  - intros g' r' cli' start' Hg'. apply lookup_insert_Some in Hg' as [[_ ?]|[_ Hg']]; [done|].
    by apply (hi_start _ _ _ Hi g' r' cli').
  - destruct (insert_Permutation lin i e e' Hii) as (k&E1&E2). rewrite E2, all_entries_insert.
    pose proof (hi_perm _ _ _ Hi) as Hp. simpl in Hp. rewrite E1, (all_entries_delete _ g _ Hg) in Hp.
    simpl in *. change (le_tag e' :: _) with ((false, o') :: (le_tag <$> k)).
    unfold le_tag at 1 in Hp. rewrite <-Ep, <-Eo, <-Permutation_middle in Hp.
    apply Permutation_cons_inv in Hp. rewrite Hp. by rewrite <-Permutation_middle.
  - intros k. rewrite <-!list_fmap_compose, Hsame; [|simpl; by rewrite <-Eo].
    rewrite list_fmap_compose. apply Hi.
Qed.

(** A goroutine starts a routine. *)
Lemma hinv_start s now pcs lg ops lin log g r cli :
  hinv (mkH s now pcs lg ops) lin log -> pcs !! g = None ->
  exists lin', hinv (mkH s now (<[g := Called r cli now]> pcs) lg ops) lin' log.
Proof.
  intros Hi Hg. exists lin. split; simpl; try apply Hi.
  - intros g' r' cli' start' [[_ [= _ _ <-]]|[_ Hg']]%lookup_insert_Some; [lia|].
    by apply (hi_start _ _ _ Hi g' r' cli').
  - rewrite all_entries_insert, delete_id by done. apply (hi_perm _ _ _ Hi).
Qed.

(** A goroutine's clerk call. *)
Lemma hinv_get s now pcs lg ops lin log g r key cli start res ops' :
  hinv (mkH s now pcs lg ops) lin log -> pcs !! g = Some (Called r cli start) ->
  input_of r = mkIn 0 key "" 0 -> ck_get s key res ->
  exists lin', hinv (mkH s now (<[g := Returned r cli start (get_output res)]> pcs) lg ops') lin' log.
Proof.
  intros Hi Hg Er Hck. eapply hinv_effect; [done..| |done]. rewrite Er.
  destruct res as [[v n] e]. by apply step_get.
Qed.

Lemma hinv_put s now pcs lg ops lin log g r key value version cli start err s' ops' :
  hinv (mkH s now pcs lg ops) lin log -> pcs !! g = Some (Called r cli start) ->
  input_of r = mkIn 1 key value version -> ck_put s (mkPutArgs key value version) err s' ->
  exists lin', hinv (mkH s' now (<[g := Returned r cli start (put_output err)]> pcs) lg ops') lin' log.
Proof.
  intros Hi Hg Er Hck. destruct (step_put _ _ _ _ _ _ Hck) as [Hs Ho].
  by eapply hinv_effect; [done..|rewrite Er|rewrite Er].
Qed.

Lemma hinv_pkg h h' lin log : hinv h lin log -> pkg_step h h' -> exists lin', hinv h' lin' log.
Proof.
  intros Hi Hst. destruct Hst.
  - by eapply hinv_start.
  - by eapply hinv_get.
  - by eapply hinv_put.
  - by eapply hinv_end.
Qed.

Lemma hinv_ts h h' lin log : hinv h lin log -> ts_step h h' -> exists lin', hinv h' lin' log.
Proof.
  intros Hi Hst. destruct Hst.
  - by eapply hinv_start.
  - by eapply hinv_get.
  - by eapply hinv_put.
  - by eapply hinv_end.
  - by eapply hinv_end.
Qed.

Lemma hinv_step h h' lin log :
  hinv h lin log -> steady h h' -> exists lin' log', hinv h' lin' log'.
Proof.
  intros Hi [Hst Hle]. destruct Hst as [s now pcs lg ops now'|h h' Hst|h h' Hst|s now pcs lg ops g r op Hg].
  - exists lin, log. split; simpl; try apply Hi.
    + intros e He. destruct (hi_times _ _ _ Hi e He) as [? ?]. simpl in *. split; [lia|done].
    + intros g r cli start Hg. pose proof (hi_start _ _ _ Hi _ _ _ _ Hg). simpl in *. lia.
  - destruct (hinv_pkg _ _ _ _ Hi Hst) as [lin' Hi']. by exists lin', log.
  - destruct (hinv_ts _ _ _ _ Hi Hst) as [lin' Hi']. by exists lin', log.
  - exists lin, (Append op log). pose proof (hi_log _ _ _ Hi) as El. simpl in El. rewrite El.
    split; simpl; try apply Hi.
    + done.
    + intros g' r' cli start [_ Hg']%lookup_delete_Some. by apply (hi_start _ _ _ Hi g' r' cli).
    + rewrite (hi_perm _ _ _ Hi). simpl. rewrite (all_entries_delete _ g _ Hg), fmap_app. simpl.
      by rewrite <-app_assoc.
Qed.

Lemma hinv_steps h h' lin log :
  rtc steady h h' -> hinv h lin log -> exists lin' log', hinv h' lin' log'.
Proof.
  intros Hr. revert lin log. induction Hr as [|h h1 h2 Hst _ IH]; intros lin log Hi; [by exists lin, log|].
  destruct (hinv_step _ _ _ _ Hi Hst) as (lin1&log1&Hi1). by eapply IH.
Qed.

Lemma hinv_init s now : (forall k, entry s k = None) -> hinv (h_init s now) [] (mkOpLog []).
Proof.
  intros Hs. split; simpl; try done.
  - constructor.
  - intros e He. by apply elem_of_nil in He.
  - intros k. unfold sabs. by rewrite Hs.
Qed.

(** When no goroutine is in the middle of a routine, the log is linearizable. *)
Lemma hinv_linearizable h lin log :
  hinv h lin log -> h_pcs h = ∅ -> (forall o, o ∈ operations log -> no_key_put o = false) ->
  linearizable (operations log).
Proof.
  intros Hi Hq Hnk. pose proof (hi_perm _ _ _ Hi) as Hp. rewrite Hq in Hp.
  change (all_entries ∅) with (@nil (bool * Operation)) in Hp. rewrite app_nil_r in Hp.
  assert (le_op <$> lin ≡ₚ operations log) as Hops.
  { apply (fmap_Permutation snd) in Hp. by rewrite <-!list_fmap_compose, list_fmap_id in Hp. }
  assert (forall e, e ∈ lin -> le_pending e = false) as Hpend.
  { intros e He%(list_elem_of_fmap_2 le_tag). rewrite Hp in He.
    by apply list_elem_of_fmap in He as (o&[= -> _]&_). }
  unfold linearizable. rewrite Partition_filters. apply Forall_fmap, list.Forall_forall. intros k _. simpl.
  exists (le_op <$> filter (fun e => has_key k (le_op e)) lin). rewrite <-filter_fmap_list.
  split; [by rewrite Hops|]. split.
  - rewrite filter_fmap_list. set (L := filter _ lin). intros i j a b Ha Hb Hlt.
    rewrite list_lookup_fmap in Ha, Hb. apply fmap_Some in Ha as (ea&Hea&->), Hb as (eb&Heb&->).
    assert (forall e i, L !! i = Some e -> e ∈ lin) as Hin.
    { intros e i' He%list_elem_of_lookup_2. by apply list_elem_of_filter in He as [_ ?]. }
    destruct (hi_times _ _ _ Hi ea (Hin _ _ Hea)) as [_ Hta]. destruct (hi_times _ _ _ Hi eb (Hin _ _ Heb)) as [Htb _].
    specialize (Hta (Hpend _ (Hin _ _ Hea))).
    destruct (decide (i < j)%nat) as [|Hge]; [done|exfalso]. destruct (decide (i = j)) as [->|Hne].
    { rewrite Hea in Heb. injection Heb as <-. lia. }
    assert (le_t eb <= le_t ea); [|lia].
    eapply (StronglySorted_lookup Z.le (le_t <$> L) j i); [|by rewrite list_lookup_fmap, Heb
      |by rewrite list_lookup_fmap, Hea|lia]. apply StronglySorted_filter_fmap, Hi.
  - eapply replay_run_model.
    replace (io <$> filter (has_key k) (le_op <$> lin)) with (filter (io_key k) (io <$> (le_op <$> lin)))
      by (by rewrite filter_fmap_list).
    rewrite (hi_run _ _ _ Hi k). do 2 f_equal. apply forallb_forall. intros x Hx%list_elem_of_In.
    apply list_elem_of_filter in Hx as [_ (o&->&Ho)%list_elem_of_fmap].
    rewrite Hops in Ho. unfold io_ok. simpl. specialize (Hnk o Ho). unfold no_key_put in Hnk. by rewrite Hnk.
Qed.
End proofs.

(** ** Properties *)

(** C13: the logs that the harness records over a correct service are linearizable, as long
    as the clock is not set back during the test and no Put was answered ErrNoKey (which
    [KvModel] never accepts).  Any number of goroutines run [Get] and [Put] in any
    interleaving over any service that keeps the promises of [IKVClerk]; when none is in the
    middle of a call, every per-key part of the log has an order that respects the recorded
    call and return times and that [KvModel] accepts. *)
Theorem oplog_linearizable {S} `{IKVClerk S} s0 now0 h log :
  (forall k, entry s0 k = None) ->
  rtc steady (h_init s0 now0) h -> h_pcs h = ∅ -> h_log h = Some log ->
  (forall o, o ∈ Read log -> no_key_put o = false) ->
  linearizable (Read log).
Proof.
  intros Hs0 Hr Hq Hl Hnk. destruct (hinv_steps _ _ _ _ Hr (hinv_init s0 now0 Hs0)) as (lin&log'&Hi).
  pose proof (hi_log _ _ _ Hi) as El. rewrite Hl in El. injection El as <-. by eapply hinv_linearizable.
Qed.

(** The linearizability check accepts a correct service and rejects exactly when the
    checker does.  With a checker that answers Illegal only for histories that are not
    linearizable, [checkPorcupine] returns on every log of a correct service, whatever
    happens to the visualization; a check that timed out passes, and an illegal history
    fails the test even if its visualization cannot be written. *)
Theorem porcupine_check_outcome {S} `{IKVClerk S} check e s0 now0 h log :
  (forall hist, check hist = Illegal -> ~ linearizable hist) ->
  (forall k, entry s0 k = None) ->
  rtc steady (h_init s0 now0) h -> h_pcs h = ∅ -> h_log h = Some log ->
  (forall o, o ∈ Read log -> no_key_put o = false) ->
  (checkPorcupine check e log).2 = Ret ()
  /\ forall log', (checkPorcupine check e log').2 = Crash Fatal <-> check (Read log') = Illegal.
Proof.
  intros Hsound Hs0 Hr Hq Hl Hnk. split.
  - unfold checkPorcupine. destruct (check (Read log)) eqn:E; [done| |done].
    destruct (Hsound _ E). destruct (hinv_steps _ _ _ _ Hr (hinv_init s0 now0 Hs0)) as (lin&log'&Hi).
    pose proof (hi_log _ _ _ Hi) as El. rewrite Hl in El. injection El as <-. by eapply hinv_linearizable.
  - intros log'. unfold checkPorcupine. by destruct (check (Read log')).
Qed.

(** *** A concrete run *)

(** Goroutine 1 puts while goroutine 2 reads: the Get is called before and returns after the
    Put took effect.  Each of the two operations is counted twice. *)
Definition demo_put : PutArgs := mkPutArgs "k" "v" 0.

Definition demo_log : OpLog := mkOpLog
  [mkOperation 1 (mkIn 1 "k" "v" 0) 10 (mkOut "" 0 OK) 10;
   mkOperation 2 (mkIn 0 "k" "" 0) 10 (mkOut "v" 1 OK) 11].

Lemma steady_l (h h1 h2 : hsys KVServer) : hstep h h1 -> h_now h <= h_now h1 -> rtc steady h1 h2 -> rtc steady h h2.
Proof. intros. by eapply rtc_l. Qed.

Lemma porc_demo_run :
  exists h, rtc (steady (S := KVServer)) (h_init MakeKVServer 10) h /\ h_pcs h = ∅ /\ h_log h = Some demo_log
    /\ h_ops h = 4.
Proof.
  eexists. split.
  - eapply steady_l; [apply h_ts, (ts_start _ _ _ _ _ 2%nat (TsGet "k") 2); [done|left; by eexists]|done|].
    eapply steady_l; [apply h_pkg, (pkg_start _ _ _ _ _ 1%nat (RPut "k" "v" 0) 1); [done|right; by eexists _, _, _]|done|].
    eapply steady_l.
    { eapply h_pkg, (pkg_put _ _ _ _ _ 1%nat "k" "v" 0 1 10 OK (KVServer.Put MakeKVServer demo_put PutReply0).1); [done|].
      left. split; [done|]. split; [done|by left]. }
    { done. }
    eapply steady_l.
    { eapply h_pkg, (pkg_end _ _ _ _ _ 1%nat (RPut "k" "v" 0) 1 10 (put_output OK));
        [vm_compute; reflexivity|right; by eexists _, _, _]. }
    { done. }
    eapply steady_l; [eapply h_ts, (ts_get _ _ _ _ _ 2%nat "k" 2 10 ("v"%string, 1, OK)); done|done|].
    eapply steady_l; [apply (h_tick _ 10 _ _ _ 11)|done|].
    eapply steady_l; [eapply (h_append _ _ _ _ _ 1%nat (RPut "k" "v" 0) _); vm_compute; reflexivity|done|].
    eapply steady_l; [eapply h_ts, (ts_end_get _ _ _ _ _ 2%nat "k" 2 10 (mkOut "v" 1 OK)); vm_compute; reflexivity|done|].
    eapply steady_l; [eapply (h_append _ _ _ _ _ 2%nat (TsGet "k") _); vm_compute; reflexivity|done|]. apply rtc_refl.
  - split; [vm_compute; reflexivity|split; reflexivity].
Qed.

Lemma demo_no_ErrNoKey o : o ∈ Read demo_log -> no_key_put o = false.
Proof. intros [->|[->|[]%elem_of_nil]%elem_of_cons]%elem_of_cons; reflexivity. Qed.

Lemma oplog_linearizable_witness : linearizable (Read demo_log).
Proof.
  destruct porc_demo_run as (h&Hr&Hq&Hl&_).
  exact (oplog_linearizable MakeKVServer 10 h demo_log (fun k => eq_refl) Hr Hq Hl demo_no_ErrNoKey).
Defined.

(** The checker that never finishes is sound. *)
Lemma porcupine_check_outcome_witness :
  let run := checkPorcupine (fun _ => Unknown) (mkEnv "always" "" true true false) demo_log in
  run.2 = Ret ()
  /\ run.1 = [InfoTimedOut; CreateTempVis; FinalizeAnnotations "test passed"; InfoVisFailed].
Proof.
  destruct porc_demo_run as (h&Hr&Hq&Hl&_). split; [|reflexivity].
  apply (porcupine_check_outcome (fun _ => Unknown) (mkEnv "always" "" true true false)
    MakeKVServer 10 h demo_log); [discriminate|done|exact Hr|exact Hq|exact Hl|exact demo_no_ErrNoKey].
Defined.
