(* ===== verification/Labgob.v ===== *)
(** * The checking wrapper of gob

    [src/src/labgob/labgob.go]: before a value is encoded, decoded or registered, its type
    is searched for fields whose names do not start with a capital, and before decoding the
    target is searched for values that are not zero.  Types refer to each other by number
    in a table ([reflect.Type] is comparable), so recursive types are cyclic references;
    values refer to each other through a heap.  Field names are ASCII.  The calls of
    [encoding/gob] itself are parameters. *)

From S2P Require Import Prelude.
Local Open Scope Z_scope.

(** ** Types *)

(** A [reflect.Type]; [TBasic] stands for the booleans, numbers and strings, [TOther] for
    the kinds the code does not look into. *)
Inductive tdesc :=
  | TStruct (name : string) (fields : list (string * nat))
  | TSlice (elem : nat)
  | TArray (elem : nat)
  | TPtr (elem : nat)
  | TMap (key elem : nat)
  | TBasic (name : string)
  | TOther.

(** [unicode.IsUpper] on the first rune; the rune of an empty name is not upper case. *)
Definition is_upper (name : string) : bool :=
  match name with
  | EmptyString => false
  | String c _ => (65 <=? Z.of_nat (nat_of_ascii c)) && (Z.of_nat (nat_of_ascii c) <=? 90)
  end.

(** The package's variables and what has been printed: complaints about a field of a type,
    and warnings about a variable. *)
Inductive message :=
  | LowerCaseField (field : string) (t : nat)
  | NonDefault (what : string).

Record gstate := mkG { checked : gset nat; errorCount : Z; printed : list message }.

Definition gstate0 : gstate := mkG ∅ 0 [].

Definition mark_checked (t : nat) (st : gstate) : gstate :=
  mkG ({[t]} ∪ checked st) (errorCount st) (printed st).

Definition complain (m : message) (st : gstate) : gstate :=
  mkG (checked st) (i64 (errorCount st + 1)) (printed st ++ [m]).

Section types.
  Context (types : gmap nat tdesc).

Definition desc (t : nat) : tdesc := default TOther (types !! t).

(** The loop over the fields of type [t], with the recursive call [check]. *)
Fixpoint check_fields (check : nat -> gstate -> option gstate) (t : nat) (fields : list (string * nat))
    (st : gstate) : option gstate :=
  match fields with
  | [] => Some st
  | (name, ft) :: rest =>
      let st := if is_upper name then st else complain (LowerCaseField name t) st in
      st ← check ft st;
      check_fields check t rest st
  end.

(** [fuel] bounds the depth of the recursion. *)
Fixpoint checkType (fuel : nat) (t : nat) (st : gstate) : option gstate :=
  match fuel with
  | O => None
  | S fuel' =>
      if decide (t ∈ checked st) then Some st else
      let st := mark_checked t st in
      match desc t with
      | TStruct _ fields => check_fields (checkType fuel') t fields st
      | TSlice elem | TArray elem | TPtr elem => checkType fuel' elem st
      | TMap key elem => st ← checkType fuel' elem st; checkType fuel' key st
      | TBasic _ | TOther => Some st
      end
  end.

(** Deep enough for every table: each level checks a type that was not checked before. *)
Definition type_fuel : nat := S (size (dom types)).

(** [checkValue] on a value of type [t]; a nil interface has no type, and [Kind] of it
    panics. *)
Definition checkValue (t : option nat) (st : gstate) : go (option gstate) :=
  match t with
  | None => Crash Panic
  | Some t => Ret (checkType type_fuel t st)
  end.
End types.

(** ** Values *)

Inductive basic :=
  | BBool (b : bool)
  | BInt (z : Z)
  | BFloat (bits : Z)
  | BString (s : string).

(** Equality with the zero value; both zeroes of a 64-bit float are equal to it. *)
Definition is_zero (b : basic) : bool :=
  match b with
  | BBool b => negb b
  | BInt z => bool_decide (z = 0)
  | BFloat bits => bool_decide (bits = 0 \/ bits = 2 ^ 63)
  | BString s => bool_decide (s = ""%string)
  end.

(** A [reflect.Value]: a struct with its fields (name, whether embedded, value), a pointer
    into the heap, a basic value with the name of its type, or another kind. *)
Inductive rval :=
  | VStruct (fields : list rfield)
  | VPtr (target : option nat)
  | VBasic (tname : string) (b : basic)
  | VOther
with rfield :=
  | Field (name : string) (embedded : bool) (v : rval).

(** Whether a value was reached through an unexported field, which forbids [Interface]. *)
Inductive access := RW | StickyRO | EmbedRO.

(** The access of a field: only the sticky flag is inherited. *)
Definition field_access (parent : access) (name : string) (embedded : bool) : access :=
  match parent with
  | StickyRO => StickyRO
  | _ => if is_upper name then RW else if embedded then EmbedRO else StickyRO
  end.

Definition qualify (name field : string) : string :=
  if decide (name = ""%string) then field else name +:+ "." +:+ field.

(** A non-zero leaf: the first error ever counted is printed. *)
Definition warn (tname name : string) (st : gstate) : gstate :=
  let what := if decide (name = ""%string) then tname else name in
  mkG (checked st) (i64 (errorCount st + 1))
    (if decide (errorCount st < 1) then printed st ++ [NonDefault what] else printed st).

Section values.
  Context (heap : gmap nat rval).

(** A pointer to nowhere cannot occur in Go; it reads as a kind that is not looked into. *)
Definition deref (l : nat) : rval := default VOther (heap !! l).

Fixpoint check_default_fields (check : rval -> access -> string -> gstate -> go gstate)
    (fields : list rfield) (ro : access) (name : string) (st : gstate) : go gstate :=
  match fields with
  | [] => Ret st
  | Field field embedded v :: rest =>
      st ← check v (field_access ro field embedded) (qualify name field) st;
      check_default_fields check rest ro name st
  end.

(** [levels] is 4 - depth: the function returns at once at depth 4. *)
Fixpoint checkDefault1 (levels : nat) (v : rval) (ro : access) (name : string) (st : gstate) : go gstate :=
  match levels with
  | O => Ret st
  | S levels' =>
      match v with
      | VStruct fields => check_default_fields (checkDefault1 levels') fields ro name st
      | VPtr None => Ret st
      | VPtr (Some l) => checkDefault1 levels' (deref l) ro name st
      | VBasic tname b =>
          match ro with
          | RW => Ret (if is_zero b then st else warn tname name st)
          | _ => Crash Panic
          end
      | VOther => Ret st
      end
  end.

(** [None] is a nil interface. *)
Definition checkDefault (v : option rval) (st : gstate) : go gstate :=
  match v with
  | None => Ret st
  | Some v => checkDefault1 3 v RW "" st
  end.
End values.

(** ** The encoder and the decoder *)

Section coder.
  Context (types : gmap nat tdesc) (heap : gmap nat rval).
  Context {G E : Type} (gob_call : G -> option nat -> option rval -> G * E).

(** A value passed as [interface{}]: its type and its contents. *)
Record iface := mkIface { i_type : option nat; i_value : option rval }.

Definition Encode (enc : G) (e : iface) (st : gstate) : go (option (gstate * (G * E))) :=
  st ← checkValue types (i_type e) st;
  Ret (st ← st; Some (st, gob_call enc (i_type e) (i_value e))).

Definition Decode (dec : G) (e : iface) (st : gstate) : go (option (gstate * (G * E))) :=
  st ← checkValue types (i_type e) st;
  match st with
  | None => Ret None
  | Some st =>
      st ← checkDefault heap (i_value e) st;
      Ret (Some (st, gob_call dec (i_type e) (i_value e)))
  end.

Definition Register (g : G) (e : iface) (st : gstate) : go (option (gstate * (G * E))) :=
  st ← checkValue types (i_type e) st;
  Ret (st ← st; Some (st, gob_call g (i_type e) (i_value e))).
End coder.

(** ** Lemmas: types *)

Definition children (d : tdesc) : list nat :=
  match d with
  | TStruct _ fields => fields.*2
  | TSlice elem | TArray elem | TPtr elem => [elem]
  | TMap key elem => [elem; key]
  | TBasic _ | TOther => []
  end.

(** The complaints a type deserves. *)
Definition field_complaints (t : nat) (fields : list (string * nat)) : list message :=
  (fun f => LowerCaseField f.1 t) <$> filter (fun f => is_upper f.1 = false) fields.

Section type_lemmas.
  Context (types : gmap nat tdesc).
  Context (Hclosed : forall t d c, types !! t = Some d -> c ∈ children d -> c ∈ dom types).

Definition child (t c : nat) : Prop := c ∈ children (desc types t).

Definition complaints (t : nat) : list message :=
  match desc types t with TStruct _ fields => field_complaints t fields | _ => [] end.

Lemma child_dom t c : child t c -> c ∈ dom types.
Proof.
  unfold child, desc. destruct (types !! t) as [d|] eqn:E; [by eapply Hclosed|].
  by intros ?%elem_of_nil.
Qed.

Definition bump (n : nat) (c : Z) : Z := Nat.iter n (fun c => i64 (c + 1)) c.

Lemma bump_small n : forall c, - 2 ^ 63 <= c -> c + Z.of_nat n < 2 ^ 63 -> bump n c = c + Z.of_nat n.
Proof.
  unfold bump. induction n as [|n IH]; intros c H1 H2; [simpl; lia|].
  rewrite Nat.iter_succ, IH, i64_small by lia. lia.
Qed.

(** From [st] to [st'] the types [ts] and what they lead to are checked, [new] of them for
    the first time; the messages are those of the types in [new] and [own]. *)
Record post_with (ts : list nat) (own : list message) (st st' : gstate)
    (new : gset nat) (msgs : list message) : Prop := {
  p_checked : checked st' = checked st ∪ new;
  p_disj : new ## checked st;
  p_printed : printed st' = printed st ++ msgs;
  p_perm : msgs ≡ₚ own ++ (elements new ≫= complaints);
  p_count : errorCount st' = bump (length msgs) (errorCount st);
  p_ts t : t ∈ ts -> t ∈ checked st';
  p_closed u c : u ∈ new -> child u c -> c ∈ checked st';
  p_reach u : u ∈ new -> exists t, t ∈ ts /\ rtc child t u;
}.

Definition post (ts : list nat) (own : list message) (st st' : gstate) : Prop :=
  exists new msgs, post_with ts own st st' new msgs.

Lemma post_refl ts st : (forall t, t ∈ ts -> t ∈ checked st) -> post ts [] st st.
Proof.
  intros Hts. exists ∅, []. split; try done.
  - set_solver +.
  - by rewrite app_nil_r.
Qed.

Lemma post_trans ts1 ts2 own1 own2 st st1 st2 :
  post ts1 own1 st st1 -> post ts2 own2 st1 st2 -> post (ts1 ++ ts2) (own1 ++ own2) st st2.
Proof.
  intros (N1&m1&P1) (N2&m2&P2). destruct P1 as [C1 D1 R1 M1 E1 T1 L1 X1], P2 as [C2 D2 R2 M2 E2 T2 L2 X2].
  assert (N1 ## N2) as Hdis by (rewrite C1 in D2; set_solver + D2).
  exists (N1 ∪ N2), (m1 ++ m2). split.
  - rewrite C2, C1. set_solver +.
  - rewrite C1 in D2. set_solver + D1 D2.
  - by rewrite R2, R1, app_assoc.
  - rewrite M1, M2, elements_disj_union, bind_app by done. rewrite <-!app_assoc. f_equiv.
    rewrite !app_assoc. f_equiv. apply Permutation_app_comm.
  - rewrite E2, E1, length_app. unfold bump. by rewrite (Nat.add_comm (length m1)), Nat.iter_add.
  - intros t [Ht|Ht]%elem_of_app; [|by apply T2]. rewrite C2. apply elem_of_union. left. by apply T1.
  - intros u c [Hu|Hu]%elem_of_union Hc; [|by eapply L2]. rewrite C2. apply elem_of_union. left. by eapply L1.
  - intros u [Hu|Hu]%elem_of_union; [destruct (X1 u Hu) as (t&?&?)|destruct (X2 u Hu) as (t&?&?)];
      exists t; (split; [apply elem_of_app; tauto|done]).
Qed.

Lemma post_complain m st : post [] [m] st (complain m st).
Proof.
  exists ∅, [m]. split; simpl; try done; [set_solver +|].
  intros t Ht. by apply elem_of_nil in Ht.
Qed.

(** A type is checked when its children are. *)
Lemma post_mark t st st' :
  t ∉ checked st -> post (children (desc types t)) (complaints t) (mark_checked t st) st' -> post [t] [] st st'.
Proof.
  intros Ht (N&m&[C D R M E T L X]). simpl in *. exists ({[t]} ∪ N), m. split; try done.
  - rewrite C. set_solver +.
  - set_solver + Ht D.
  - rewrite M. rewrite elements_union_singleton by (set_solver + D). done.
  - intros u ->%list_elem_of_singleton. rewrite C. set_solver +.
  - intros u c [->%elem_of_singleton|Hu]%elem_of_union Hc; [by apply T|by eapply L].
  - intros u [->%elem_of_singleton|Hu]%elem_of_union; exists t; (split; [set_solver +|]); [done|].
    destruct (X u Hu) as (c&Hc&Hr). by eapply rtc_l.
Qed.

Lemma post_shrinks ts own st st' :
  post ts own st st' -> (size (dom types ∖ checked st') <= size (dom types ∖ checked st))%nat.
Proof. intros (N&m&P). apply subseteq_size. rewrite (p_checked _ _ _ _ _ _ P). set_solver +. Qed.

(** What a recursive call promises when at most [n] types are left. *)
Definition checks (check : nat -> gstate -> option gstate) (n : nat) : Prop :=
  forall t st, t ∈ dom types -> (size (dom types ∖ checked st) <= n)%nat ->
    exists st', check t st = Some st' /\ post [t] [] st st'.

Lemma check_fields_spec check n t fields : checks check n -> forall st,
  (forall c, c ∈ fields.*2 -> c ∈ dom types) -> (size (dom types ∖ checked st) <= n)%nat ->
  exists st', check_fields check t fields st = Some st' /\ post fields.*2 (field_complaints t fields) st st'.
Proof.
  intros Hc. induction fields as [|[name ft] fields IH]; intros st Hdom Hn; cbn [check_fields].
  - exists st. split; [done|]. apply post_refl. intros u Hu. by apply elem_of_nil in Hu.
  - set (own := if is_upper name then [] else [LowerCaseField name t]).
    set (st1 := if is_upper name then st else complain (LowerCaseField name t) st).
    assert (post [] own st st1) as P1.
    { unfold own, st1. destruct (is_upper name); [|apply post_complain].
      apply post_refl. intros u Hu. by apply elem_of_nil in Hu. }
    pose proof (post_shrinks _ _ _ _ P1) as Hs1.
    destruct (Hc ft st1) as (st2&E2&P2); [apply Hdom; set_solver +|lia|]. rewrite E2. cbn [mbind option_bind].
    pose proof (post_shrinks _ _ _ _ P2) as Hs2.
    destruct (IH st2) as (st3&E3&P3); [intros c Hin; apply Hdom; set_solver + Hin|lia|].
    exists st3. split; [done|].
    pose proof (post_trans _ _ _ _ _ _ _ P1 (post_trans _ _ _ _ _ _ _ P2 P3)) as P.
    replace (field_complaints t ((name, ft) :: fields)) with (own ++ [] ++ field_complaints t fields); [done|].
    unfold field_complaints, own. rewrite filter_cons. simpl. by destruct (is_upper name).
Qed.

Lemma checkType_checks fuel : checks (checkType types (S fuel)) fuel.
Proof.
  induction fuel as [|fuel IH]; intros t st Ht Hn; cbn [checkType].
  all: destruct (decide (t ∈ checked st)) as [Hin|Hin];
    [exists st; split; [done|]; apply post_refl; by intros u ->%list_elem_of_singleton|].
  - exfalso. assert (size (dom types ∖ checked st) = 0)%nat as H0%size_empty_inv by lia. set_solver + Ht Hin H0.
  - assert (size (dom types ∖ checked (mark_checked t st)) <= fuel)%nat as Hn'.
    { assert (size (dom types ∖ checked (mark_checked t st)) < size (dom types ∖ checked st))%nat; [|lia].
      apply subset_size. simpl. set_solver + Ht Hin. }
    pose proof (fun c => child_dom t c) as Hch. unfold child in Hch.
    pose proof (post_mark t st) as Hmark. unfold complaints in Hmark. fold (checkType types (S fuel)).
    destruct (desc types t) as [nm fields|e|e|e|k e|nm|] eqn:Ed; simpl in Hch, Hmark.
    1: destruct (check_fields_spec _ _ t fields IH (mark_checked t st)) as (st'&E&P); [done..|];
      exists st'; split; [done|by apply Hmark].
    1,2,3: destruct (IH e (mark_checked t st)) as (st'&E&P); [apply Hch; set_solver +|done|];
      exists st'; split; [done|by apply Hmark].
    1: destruct (IH e (mark_checked t st)) as (st1&E1&P1); [apply Hch; set_solver +|done|];
      pose proof (post_shrinks _ _ _ _ P1);
      destruct (IH k st1) as (st2&E2&P2); [apply Hch; set_solver +|lia|];
      exists st2;
      (split; [transitivity (st' ← checkType types (S fuel) e (mark_checked t st); checkType types (S fuel) k st');
        [done|by rewrite E1]|apply Hmark; [done|by eapply (post_trans [e] [k] [] [])]]).
    all: exists (mark_checked t st); split; [done|]; apply Hmark; [done|]; apply post_refl;
      intros u Hu; by apply elem_of_nil in Hu.
Qed.

(** A run of checks: one value after the other. *)
Fixpoint checkValues (ts : list nat) (st : gstate) : option gstate :=
  match ts with
  | [] => Some st
  | t :: ts' => st' ← checkType types (type_fuel types) t st; checkValues ts' st'
  end.

Lemma checkValues_post ts : forall st, (forall t, t ∈ ts -> t ∈ dom types) ->
  exists st', checkValues ts st = Some st' /\ post ts [] st st'.
Proof.
  induction ts as [|t ts IH]; intros st Hts; cbn [checkValues].
  - exists st. split; [done|]. apply post_refl. intros u Hu. by apply elem_of_nil in Hu.
  - destruct (checkType_checks (size (dom types)) t st) as (st1&E1&P1).
    { apply Hts. set_solver +. }
    { apply subseteq_size. set_solver +. }
    unfold type_fuel. rewrite E1. cbn [mbind option_bind].
    destruct (IH st1) as (st2&E2&P2); [intros u Hu; apply Hts; set_solver + Hu|].
    exists st2. split; [done|]. by eapply (post_trans [t] ts [] []).
Qed.

(** From the start, the checked types are those the values lead to. *)
Lemma post_from_start ts st' :
  post ts [] gstate0 st' ->
  (forall u, u ∈ checked st' <-> exists t, t ∈ ts /\ rtc child t u)
  /\ printed st' ≡ₚ (elements (checked st') ≫= complaints)
  /\ errorCount st' = bump (length (printed st')) 0.
Proof.
  intros (N&m&[C D R M E T L X]). simpl in *. assert (checked st' = N) as -> by (rewrite C; set_solver +).
  assert (printed st' = m) as -> by done. split; [|by split]. intros u. split; [by apply X|].
  intros (t&Ht&Hr). assert (t ∈ N) as Hin by (specialize (T t Ht); set_solver + T C). clear Ht.
  induction Hr as [|a b c Hab _ IH]; [done|]. apply IH. specialize (L a b Hin Hab). set_solver + L C.
Qed.
End type_lemmas.

(** ** Lemmas: values *)

(** A basic value that is looked at: its access, the name it is reported under, the value. *)
Record leaf := mkLeaf { lf_access : access; lf_what : string; lf_value : basic }.

Section value_lemmas.
  Context (heap : gmap nat rval).

(** The leaves of a value within [levels], in order. *)
Fixpoint leaves (levels : nat) (v : rval) (ro : access) (name : string) : list leaf :=
  match levels with
  | O => []
  | S levels' =>
      match v with
      | VStruct fields =>
          fields ≫= (fun '(Field f emb v) => leaves levels' v (field_access ro f emb) (qualify name f))
      | VPtr (Some l) => leaves levels' (deref heap l) ro name
      | VBasic tname b => [mkLeaf ro (if decide (name = ""%string) then tname else name) b]
      | _ => []
      end
  end.

Definition forbidden (lf : leaf) : bool := match lf_access lf with RW => false | _ => true end.
Definition nonzero (lf : leaf) : bool := negb (is_zero (lf_value lf)).

Definition warn_leaf (st : gstate) (lf : leaf) : gstate :=
  if nonzero lf then
    mkG (checked st) (i64 (errorCount st + 1))
      (if decide (errorCount st < 1) then printed st ++ [NonDefault (lf_what lf)] else printed st)
  else st.

Lemma checkDefault1_leaves levels : forall v ro name st,
  checkDefault1 heap levels v ro name st =
    (if existsb forbidden (leaves levels v ro name) then Crash Panic
     else Ret (foldl warn_leaf st (leaves levels v ro name))).
Proof.
  induction levels as [|levels IH]; intros v ro name st; [done|]. cbn [checkDefault1 leaves].
  destruct v as [fields|[l|]|tname b|]; [|by apply IH|done| |done].
  - revert st. induction fields as [|[f emb v] fields IHf]; intros st; [done|]. cbn [check_default_fields].
    rewrite bind_cons, existsb_app, foldl_app, IH.
    destruct (existsb forbidden (leaves levels v _ _)); run_go; [done|]. simpl. by rewrite IHf.
  - simpl. unfold forbidden, warn_leaf, nonzero. simpl. destruct ro; simpl; [|done..].
    unfold warn. by destruct (is_zero b).
Qed.

(** The warnings of a list of leaves. *)
Lemma foldl_warn_leaf ls : forall st,
  0 <= errorCount st -> errorCount st + Z.of_nat (length ls) < 2 ^ 63 ->
  let st' := foldl warn_leaf st ls in
  checked st' = checked st
  /\ errorCount st' = errorCount st + Z.of_nat (length (List.filter nonzero ls))
  /\ printed st' = printed st ++
       (if decide (errorCount st < 1) then
          match List.filter nonzero ls with lf :: _ => [NonDefault (lf_what lf)] | [] => [] end else []).
Proof.
  induction ls as [|lf ls IH]; intros st H0 Hb; simpl in *.
  - split; [done|]. split; [lia|]. by case_decide; rewrite app_nil_r.
  - unfold warn_leaf at 2 4 6. destruct (nonzero lf) eqn:En; [|apply IH; lia].
    edestruct IH as (->&->&->); [..|simpl].
    { simpl. rewrite i64_small by lia. lia. }
    { simpl. rewrite i64_small by lia. lia. }
    rewrite i64_small by lia. split; [done|]. split; [lia|].
    rewrite (decide_False (P := errorCount st + 1 < 1)), app_nil_r by lia.
    by case_decide; rewrite ?app_nil_r.
Qed.
End value_lemmas.

(** ** Properties *)

(** C30: the search of types ends, complains about every lower-case field of every type the
    values lead to, and complains once.  The table of types may be cyclic; whatever values
    are checked in whatever order, the types checked are exactly those reachable from
    them, the messages are one per lower-case field of these types, and the error counter
    is their number. *)
Theorem labgob_complains_once types ts :
  (forall t d c, types !! t = Some d -> c ∈ children d -> c ∈ dom types) ->
  (forall t, t ∈ ts -> t ∈ dom types) ->
  exists st, checkValues types ts gstate0 = Some st
    /\ (forall u, u ∈ checked st <-> exists t, t ∈ ts /\ rtc (child types) t u)
    /\ printed st ≡ₚ (elements (checked st) ≫= complaints types)
    /\ (Z.of_nat (length (printed st)) < 2 ^ 63 -> errorCount st = Z.of_nat (length (printed st))).
Proof.
  intros Hclosed Hts. destruct (checkValues_post types Hclosed ts gstate0 Hts) as (st&E&P).
  exists st. split; [done|]. destruct (post_from_start types ts st P) as (Hc&Hp&He).
  split; [done|]. split; [done|]. intros Hb. by rewrite He, bump_small by lia.
Qed.

(** What [Decode] tells of its target.  The search goes three levels deep, also through
    cyclic pointers; unless it meets an unexported basic field it returns, counts every
    non-zero basic value it meets and prints a warning for the first of them, only if
    nothing has been counted before. *)
Theorem labgob_default_check heap v st :
  let ls := leaves heap 3 v RW "" in
  existsb forbidden ls = false -> 0 <= errorCount st -> errorCount st + Z.of_nat (length ls) < 2 ^ 63 ->
  exists st', checkDefault heap (Some v) st = Ret st'
    /\ checked st' = checked st
    /\ errorCount st' = errorCount st + Z.of_nat (length (List.filter nonzero ls))
    /\ printed st' = printed st ++
         (if decide (errorCount st < 1) then
            match List.filter nonzero ls with lf :: _ => [NonDefault (lf_what lf)] | [] => [] end else []).
Proof.
  intros ls Hf H0 Hb. eexists. split.
  - unfold checkDefault. rewrite checkDefault1_leaves. fold ls. by rewrite Hf.
  - by apply foldl_warn_leaf.
Qed.

(** [Decode] into a struct with a lower-case basic field does not warn, it panics: the
    search asks for the interface of a value it may not export. *)
Theorem labgob_lower_case_panics types heap {G E} (gob_call : G -> option nat -> option rval -> G * E)
    dec t l fs1 name tname b fs2 st st1 :
  checkValue types (Some t) st = Ret (Some st1) ->
  heap !! l = Some (VStruct (fs1 ++ Field name false (VBasic tname b) :: fs2)) ->
  is_upper name = false ->
  Decode types heap gob_call dec (mkIface (Some t) (Some (VPtr (Some l)))) st = Crash Panic.
Proof.
  intros Hc Hl Hn. unfold Decode. cbn [i_type i_value]. rewrite Hc. run_go. unfold checkDefault.
  rewrite checkDefault1_leaves. replace (existsb forbidden _) with true; [done|]. symmetry.
  cbn [leaves]. unfold deref. rewrite Hl. simpl. rewrite bind_app, bind_cons, !existsb_app. simpl. rewrite Hn.
  by rewrite orb_true_r.
Qed.

(** *** A recursive type: a linked list with a lower-case field *)

Definition node_types : gmap nat tdesc :=
  <[0%nat := TPtr 1]> (<[1%nat := TStruct "Node" [("Next", 0%nat); ("val", 2%nat)]]> (<[2%nat := TBasic "int"]> ∅)).

Lemma node_types_closed t d c : node_types !! t = Some d -> c ∈ children d -> c ∈ dom node_types.
Proof.
  intros Ht Hc. assert (c = 0 \/ c = 1 \/ c = 2)%nat as Hcs.
  { unfold node_types in Ht. apply lookup_insert_Some in Ht as [[<- <-]|[_ Ht]]; [set_solver|].
    apply lookup_insert_Some in Ht as [[<- <-]|[_ Ht]]; [set_solver|].
    apply lookup_insert_Some in Ht as [[<- <-]|[_ Ht]]; [set_solver|]. by rewrite lookup_empty in Ht. }
  destruct Hcs as [->|[->| ->]]; apply elem_of_dom; by eexists.
Qed.

Lemma labgob_complains_once_witness :
  exists st, checkValues node_types [0; 1; 0]%nat gstate0 = Some st
    /\ printed st = [LowerCaseField "val" 1] /\ errorCount st = 1.
Proof.
  destruct (labgob_complains_once node_types [0; 1; 0]%nat node_types_closed) as (st&E&_&_&He).
  { intros t Ht. assert (t = 0 \/ t = 1)%nat as [->| ->] by set_solver; apply elem_of_dom; by eexists. }
  exists st. split; [exact E|].
  assert (printed st = [LowerCaseField "val" 1]) as Hp.
  { vm_compute in E. injection E as <-. reflexivity. }
  split; [exact Hp|]. rewrite Hp in He. exact (He ltac:(vm_compute; reflexivity)).
Defined.

(** A cyclic list with a non-zero value. *)
Definition ring : gmap nat rval :=
  <[0%nat := VStruct [Field "Next" false (VPtr (Some 0%nat)); Field "Val" false (VBasic "int" (BInt 7))]]> ∅.

Lemma labgob_default_check_witness :
  exists st, checkDefault ring (Some (VPtr (Some 0%nat))) gstate0 = Ret st
    /\ errorCount st = 1 /\ printed st = [NonDefault "Val"].
Proof.
  destruct (labgob_default_check ring (VPtr (Some 0%nat)) gstate0) as (st&E&_&Hc&Hp).
  - vm_compute. reflexivity.
  - vm_compute. discriminate.
  - vm_compute. reflexivity.
  - exists st. vm_compute in Hc, Hp. repeat apply conj; [exact E|exact Hc|exact Hp].
Defined.

Lemma labgob_lower_case_panics_witness :
  Decode node_types (<[0%nat := VStruct [Field "Next" false (VPtr None); Field "val" false (VBasic "int" (BInt 0))]]> ∅)
    (fun (g : unit) _ _ => (g, ())) () (mkIface (Some 0%nat) (Some (VPtr (Some 0%nat)))) gstate0 = Crash Panic.
Proof.
  refine (labgob_lower_case_panics node_types
    (<[0%nat := VStruct [Field "Next" false (VPtr None); Field "val" false (VBasic "int" (BInt 0))]]> ∅)
    (fun (g : unit) _ _ => (g, ())) () 0 0 [Field "Next" false (VPtr None)] "val" "int" (BInt 0) [] gstate0
    (mkG {[0; 1; 2]}%nat 1 [LowerCaseField "val" 1]) _ _ _); vm_compute; reflexivity.
Defined.
