(* ===== verification/ShardTest.v ===== *)
(** * The driver of the shard tests

    [src/src/shardkv1/test.go]: group ids, joining and leaving of groups through a shard
    controller, and the check that data is sharded.  The controller
    ([src/src/shardkv1/shardctrler/shardctrler.go]) is an interface, and the theorems on joining
    and leaving hold for a controller that does what the comments there ask for (the laws
    below).  The repository has only a stub, the instance at the end, which does not: with it
    the first join panics.  A group of the tester is known by the names
    of its servers; what it is made of is in [TesterConfig]. *)

From S2P Require Import Prelude ShardCfg TesterGroup.
Local Open Scope Z_scope.

Definition NSRV : nat := 3.

(** ** The controller *)

(** [Query] returns a pointer: [None] is nil. *)
Class ShardCtrler (C : Type) := {
  InitConfig : ShardConfig -> C -> C;
  ChangeConfigTo : ShardConfig -> C -> C;
  Query : C -> option ShardConfig;
}.

(** What the comments ask of a controller that is not superseded: [Query] returns the
    configuration installed last.  The stub does not meet it. *)
Class ShardCtrlerLaws (C : Type) `{ShardCtrler C} := {
  query_init c cfg : Query (InitConfig cfg c) = Some cfg;
  query_change c old new :
    Query c = Some old -> Num new = i64 (Num old + 1) -> Query (ChangeConfigTo new c) = Some new;
}.

(** Calls that may crash, or whose fuel may run out. *)
Definition gbind {A B} (m : go (option A)) (f : A -> go (option B)) : go (option B) :=
  match m with
  | Ret (Some a) => f a
  | Ret None => Ret None
  | Crash c => Crash c
  end.

Notation "'do' x <- m ; f" := (gbind m (fun x => f))
  (at level 60, x pattern, m at level 55, right associativity).

Section driver.
  Context {C : Type} `{ShardCtrler C}.

(** The next group id, the tester's groups by id and the controller. *)
Record Test := mkTest { ngid : Z; tgroups : gmap Z (list string); sck : C }.

Definition set_sck (ts : Test) (c : C) : Test := mkTest (ngid ts) (tgroups ts) c.

Definition newGid (ts : Test) : Test * Z :=
  (mkTest (i64 (ngid ts + 1)) (tgroups ts) (sck ts), ngid ts).

Fixpoint groups (n : nat) (ts : Test) : Test * list Z :=
  match n with
  | O => (ts, [])
  | S n' => let '(ts1, g) := newGid ts in let '(ts2, gs) := groups n' ts1 in (ts2, g :: gs)
  end.

(** The names of the servers of a group of the tester. *)
Definition srv_names (gid : Z) : list string :=
  (fun i => ServerName gid (Z.of_nat i)) <$> seq 0 NSRV.

Definition MakeGroupStart (gid : Z) (ts : Test) : Test :=
  mkTest (ngid ts) (<[gid := srv_names gid]> (tgroups ts)) (sck ts).

(** [ts.Group(gid)] is nil for an unknown group, and its methods panic. *)
Definition SrvNames (gid : Z) (ts : Test) : go (list string) :=
  match tgroups ts !! gid with Some l => Ret l | None => Crash Panic end.

Definition ExitGroup (gid : Z) (ts : Test) : go (option Test) :=
  match tgroups ts !! gid with
  | Some _ => Ret (Some (mkTest (ngid ts) (delete gid (tgroups ts)) (sck ts)))
  | None => Crash Panic
  end.

Definition checkMember (c : C) (gid : Z) : go (option bool) :=
  match Query c with
  | None => Crash Panic
  | Some cfg => Ret (Some (IsMember cfg gid))
  end.

Definition join (c : C) (gid : Z) (srvs : list string) : go (option C) :=
  match Query c with
  | None => Crash Panic
  | Some cfg =>
      do (newcfg, ok) <- JoinBalance rebalance_fuel [(gid, srvs)] (Copy cfg);
      if (ok : bool) then Ret (Some (ChangeConfigTo newcfg c)) else Crash Fatal
  end.

Fixpoint joinGroups (gids : list Z) (ts : Test) : go (option (Test * bool)) :=
  match gids with
  | [] => Ret (Some (ts, true))
  | gid :: rest =>
      let ts := MakeGroupStart gid ts in
      do srvs <- (l ← SrvNames gid ts; Ret (Some l));
      do c <- join (sck ts) gid srvs;
      let ts := set_sck ts c in
      do ok <- checkMember c gid;
      if (ok : bool) then joinGroups rest ts else Ret (Some (ts, false))
  end.

Definition leave (c : C) (gid : Z) : go (option C) :=
  match Query c with
  | None => Crash Panic
  | Some cfg =>
      do (newcfg, ok) <- LeaveBalance rebalance_fuel [gid] (Copy cfg);
      if (ok : bool) then Ret (Some (ChangeConfigTo newcfg c)) else Crash Fatal
  end.

Fixpoint leaveGroups (gids : list Z) (ts : Test) : go (option (Test * bool)) :=
  match gids with
  | [] => Ret (Some (ts, true))
  | gid :: rest =>
      do c <- leave (sck ts) gid;
      let ts := set_sck ts c in
      do ok <- checkMember c gid;
      if (ok : bool) then Ret (Some (ts, false))
      else do ts <- ExitGroup gid ts; leaveGroups rest ts
  end.

(** The answer of [JoinBalance] is not looked at. *)
Definition setupKVService (ts : Test) : go (option (Test * Z)) :=
  let ts := MakeGroupStart Gid1 ts in
  do srvs <- (l ← SrvNames Gid1 ts; Ret (Some l));
  do (scfg, _) <- JoinBalance rebalance_fuel [(Gid1, srvs)] MakeShardConfig;
  Ret (Some (set_sck ts (InitConfig scfg (sck ts)), Gid1)).

Definition MakeTest (c : C) : Test := mkTest (Gid1 + 1) ∅ c.
End driver.
Arguments Test C : clear implicits.

(** ** The sharding check *)

(** What the loop of [checkShutdownSharding] receives: a client's complaint, empty if the
    value was right, or two seconds of silence. *)
Inductive shard_event := Answer (err : string) | Silence.

(** [ndone] clients are done; [None]: the events given end before the loop does. *)
Fixpoint sharding_loop (evs : list shard_event) (ndone : Z) : option (go Z) :=
  match evs with
  | [] => None
  | Answer err :: evs' => if decide (err <> ""%string) then Some (Crash Fatal) else sharding_loop evs' (i64 (ndone + 1))
  | Silence :: _ => Some (Ret ndone)
  end.

Definition checkShutdownSharding (n : Z) (evs : list shard_event) : option (go unit) :=
  r ← sharding_loop evs 0;
  Some (match r with
        | Ret ndone => if decide (ndone >= n) then Crash Fatal else Ret ()
        | Crash c => Crash c
        end).

(** ** The stub *)

(** [shardctrler.go] as it is: nothing is stored, [Query] returns nil. *)
Definition stub : Type := unit.

#[export] Instance stub_ShardCtrler : ShardCtrler stub := {|
  InitConfig _ c := c;
  ChangeConfigTo _ c := c;
  Query _ := None;
|}.

(** ** Lemmas: configurations with few groups *)

Lemma occ_le_1_NoDup (l : list Z) : (forall x, occ x l <= 1) -> NoDup l.
Proof.
  induction l as [|x l IH]; intros Hl; [constructor|]. constructor.
  - intros Hin%occ_pos. specialize (Hl x). rewrite occ_cons, decide_True in Hl by done. lia.
  - apply IH. intros y. specialize (Hl y). rewrite occ_cons in Hl. case_decide; lia.
Qed.

Lemma length_sorted_gids c : length (sorted_gids c) = size (Groups c).
Proof. unfold sorted_gids. by rewrite merge_sort_Permutation, length_fmap, length_map_to_list. Qed.

(** With at most as many groups as shards, every group of a balanced configuration has a
    shard. *)
Lemma balanced_member c g :
  wf c -> balanced c -> (size (Groups c) <= Z.to_nat NShards)%nat -> valid c g -> IsMember c g = true.
Proof.
  intros Hwf [Hv Hb] Hsz Hg. apply IsMember_spec.
  destruct (decide (g ∈ Shards c)) as [|Hno]; [done|exfalso].
  assert (load c g = 0) as H0.
  { pose proof (load_bound c g Hwf). destruct (decide (0 < load c g)) as [H1%occ_pos|]; [done|lia]. }
  assert (NoDup (g :: Shards c)) as Hnd.
  { constructor; [done|]. apply occ_le_1_NoDup. intros x. destruct (decide (x ∈ Shards c)) as [Hx|Hx].
    - rewrite list.Forall_forall in Hv. specialize (Hb x g (Hv x Hx) Hg). unfold load in *. lia.
    - pose proof (occ_nonneg x (Shards c)). destruct (decide (0 < occ x (Shards c))) as [?%occ_pos|]; [done|lia]. }
  assert (g :: Shards c ⊆+ sorted_gids c) as Hsub%submseteq_length.
  { apply NoDup_submseteq; [done|]. intros x. rewrite elem_of_sorted_gids, elem_of_cons.
    intros [->|Hx]; [done|]. rewrite list.Forall_forall in Hv. by apply Hv. }
  rewrite length_sorted_gids in Hsub. simpl in Hsub. unfold wf in Hwf. lia.
Qed.

(** With at least as many groups as shards, no group has two. *)
Lemma balanced_load_le_1 c g :
  wf c -> balanced c -> (Z.to_nat NShards <= size (Groups c))%nat -> valid c g -> load c g <= 1.
Proof.
  intros Hwf [Hv Hb] Hsz Hg. destruct (decide (load c g <= 1)) as [|Hgt]; [done|exfalso].
  assert (g ∈ Shards c) as [i Hi]%list_elem_of_lookup by (apply occ_pos; unfold load in *; lia).
  assert (sorted_gids c ⊆+ take i (Shards c) ++ drop (S i) (Shards c)) as Hsub%submseteq_length.
  { apply NoDup_submseteq; [apply sorted_gids_NoDup|]. intros x Hx%elem_of_sorted_gids. apply occ_pos.
    specialize (Hb g x Hg Hx). unfold load in *.
    rewrite <-(take_drop_middle _ _ _ Hi) in Hgt, Hb. rewrite occ_app, occ_cons in Hgt, Hb.
    rewrite occ_app. rewrite (decide_True (P := g = g)) in Hgt, Hb by done.
    destruct (decide (x = g)) as [->|Hne]; [lia|]. rewrite occ_app, occ_cons, decide_False in Hb by done. lia. }
  apply lookup_lt_Some in Hi as Hlt. rewrite length_sorted_gids, length_app, length_take, length_drop in Hsub.
  unfold wf in Hwf. lia.
Qed.

Lemma not_valid_not_member c g : balanced c -> ~ valid c g -> IsMember c g = false.
Proof.
  intros [Hv _] Hg. apply not_true_is_false. rewrite IsMember_spec. intros Hin.
  rewrite list.Forall_forall in Hv. by apply Hg, Hv.
Qed.

(** ** Lemmas: names *)

(** The groups of a configuration are groups of the tester with their servers. *)
Definition named (m : gmap Z (list string)) : Prop := forall g l, m !! g = Some l -> l = srv_names g.

Lemma named_not_in_group m gid : named m -> m !! gid = None -> in_some_group m (srv_names gid) = false.
Proof.
  intros Hn Hg. apply not_true_is_false. unfold in_some_group. rewrite existsb_exists.
  intros ([g l]&Hin&H1). apply list_elem_of_In, elem_of_map_to_list in Hin. rewrite (Hn g l Hin) in H1.
  apply existsb_exists in H1 as (s1&Hs1&H2). apply existsb_exists in H2 as (s2&Hs2&E%bool_decide_eq_true). subst s2.
  apply list_elem_of_In, list_elem_of_fmap in Hs1 as (i&->&_). apply list_elem_of_In, list_elem_of_fmap in Hs2 as (j&E&_).
  apply ServerName_inj in E as [-> _]. by rewrite Hg in Hin.
Qed.

Lemma named_disjoint m : named m -> disjoint_groups m.
Proof.
  intros Hn g1 g2 l1 l2 s H1 H2 Hs1 Hs2. rewrite (Hn _ _ H1) in Hs1. rewrite (Hn _ _ H2) in Hs2.
  apply list_elem_of_fmap in Hs1 as (i&->&_). apply list_elem_of_fmap in Hs2 as (j&E&_).
  by apply ServerName_inj in E as [-> _].
Qed.

(** ** Lemmas: one group joins or leaves *)

Lemma JoinBalance_one cfg gid :
  wf cfg -> named (Groups cfg) -> Groups cfg !! gid = None ->
  exists c1, JoinBalance rebalance_fuel [(gid, srv_names gid)] cfg
             = Ret ((fun c' => (c', true)) <$> Rebalance rebalance_fuel c1)
    /\ Groups c1 = <[gid := srv_names gid]> (Groups cfg) /\ Num c1 = i64 (Num cfg + 1) /\ Shards c1 = Shards cfg.
Proof.
  intros Hwf Hn Hg. unfold JoinBalance, Join. cbn [join_loop].
  rewrite Hg, (named_not_in_group _ _ Hn Hg). run_go. by eexists.
Qed.

Lemma LeaveBalance_one cfg gid l :
  Groups cfg !! gid = Some l ->
  exists c1, LeaveBalance rebalance_fuel [gid] cfg = Ret ((fun c' => (c', true)) <$> Rebalance rebalance_fuel c1)
    /\ Groups c1 = delete gid (Groups cfg) /\ Num c1 = i64 (Num cfg + 1) /\ Shards c1 = Shards cfg.
Proof.
  intros Hg. unfold LeaveBalance, Leave. cbn [leave_loop]. rewrite Hg. run_go. by eexists.
Qed.

Lemma named_insert m gid : named m -> named (<[gid := srv_names gid]> m).
Proof. intros Hn g l [[<- <-]|[_ Hg]]%lookup_insert_Some; [done|by apply Hn]. Qed.

Lemma named_delete m gid : named m -> named (delete gid m).
Proof. intros Hn g l [_ Hg]%lookup_delete_Some. by apply Hn. Qed.

Section driver_lemmas.
  Context {C : Type} `{ShardCtrlerLaws C}.

(** The driver and the controller agree, and the configuration is balanced. *)
Record tinv (ts : Test C) (cfg : ShardConfig) : Prop := {
  ti_query : Query (sck ts) = Some cfg;
  ti_wf : wf cfg;
  ti_balanced : balanced cfg;
  ti_nonempty : Groups cfg <> ∅;
  ti_named : named (Groups cfg);
  ti_tester g : valid cfg g -> is_Some (tgroups ts !! g);
}.

(** A group joins: the controller has the new configuration. *)
Lemma join_one (c : C) cfg gid :
  Query c = Some cfg -> wf cfg -> named (Groups cfg) -> Groups cfg !! gid = None ->
  exists c' cfg', join c gid (srv_names gid) = Ret (Some c') /\ Query c' = Some cfg'
    /\ Groups cfg' = <[gid := srv_names gid]> (Groups cfg) /\ wf cfg' /\ balanced cfg'.
Proof.
  intros Hq Hwf Hn Hg. destruct (JoinBalance_one cfg gid Hwf Hn Hg) as (c1&E&Eg&En&Es).
  destruct (Rebalance_returns c1) as (c2&Er&Eg2&En2&Hwf2&Hb&_); [unfold wf; by rewrite Es|].
  unfold join. rewrite Hq, Copy_eq, E, Er. simpl. exists (ChangeConfigTo c2 c), c2. split; [done|].
  split; [apply (query_change c cfg c2 Hq); congruence|]. split; [congruence|]. split; [done|].
  apply Hb. rewrite Eg. apply insert_non_empty.
Qed.

Lemma leave_one (c : C) cfg gid l :
  Query c = Some cfg -> wf cfg -> Groups cfg !! gid = Some l -> delete gid (Groups cfg) <> ∅ ->
  exists c' cfg', leave c gid = Ret (Some c') /\ Query c' = Some cfg'
    /\ Groups cfg' = delete gid (Groups cfg) /\ wf cfg' /\ balanced cfg'.
Proof.
  intros Hq Hwf Hg Hne. destruct (LeaveBalance_one cfg gid l Hg) as (c1&E&Eg&En&Es).
  destruct (Rebalance_returns c1) as (c2&Er&Eg2&En2&Hwf2&Hb&_); [unfold wf; by rewrite Es|].
  unfold leave. rewrite Hq, Copy_eq, E, Er. simpl. exists (ChangeConfigTo c2 c), c2. split; [done|].
  split; [apply (query_change c cfg c2 Hq); congruence|]. split; [congruence|]. split; [done|].
  apply Hb. by rewrite Eg.
Qed.

Lemma joinGroups_spec gids : forall ts cfg,
  tinv ts cfg -> NoDup gids -> (forall g, g ∈ gids -> Groups cfg !! g = None) ->
  (size (Groups cfg) + length gids <= Z.to_nat NShards)%nat ->
  exists ts' cfg', joinGroups gids ts = Ret (Some (ts', true)) /\ tinv ts' cfg'
    /\ forall g, Groups cfg' !! g = if decide (g ∈ gids) then Some (srv_names g) else Groups cfg !! g.
Proof.
  induction gids as [|gid gids IH]; intros ts cfg Ht Hnd Hnew Hsz.
  { exists ts, cfg. split; [done|]. split; [done|]. intros g. by rewrite decide_False by apply not_elem_of_nil. }
  apply list.NoDup_cons in Hnd as [Hgid Hnd]. assert (Groups cfg !! gid = None) as Hg by (apply Hnew; set_solver +).
  cbn [joinGroups]. unfold SrvNames, MakeGroupStart. cbn [tgroups sck ngid]. rewrite lookup_insert_eq. cbn [mbind go_bind gbind sck].
  destruct (join_one (sck ts) cfg gid) as (c'&cfg'&Ej&Hq'&Eg'&Hwf'&Hb'); [apply Ht..|done|].
  rewrite Ej. cbn [gbind]. unfold checkMember. rewrite Hq'. cbn [gbind].
  simpl length in Hsz. assert (size (Groups cfg') = S (size (Groups cfg))) as Esz.
  { rewrite Eg'. by rewrite map_size_insert_None. }
  rewrite balanced_member; [|done..|lia|unfold valid; rewrite Eg'; by rewrite lookup_insert_eq].
  edestruct (IH (set_sck (mkTest (ngid ts) (<[gid:=srv_names gid]> (tgroups ts)) (sck ts)) c') cfg')
    as (ts'&cfg''&E&Ht'&Hall).
  - split; simpl; [done..| | |].
    + rewrite Eg'. apply insert_non_empty.
    + rewrite Eg'. apply named_insert, Ht.
    + intros g. unfold valid. rewrite Eg'. intros [l [[<- _]|[Hne Hl]]%lookup_insert_Some].
      * rewrite lookup_insert_eq. by eexists.
      * rewrite lookup_insert_ne by done. apply (ti_tester _ _ Ht). by exists l.
  - done.
  - intros g Hin. rewrite Eg', lookup_insert_ne by (by intros ->). apply Hnew. set_solver + Hin.
  - rewrite Esz. lia.
  - exists ts', cfg''. split; [exact E|]. split; [done|]. intros g. rewrite Hall, Eg'.
    destruct (decide (g = gid)) as [->|Hne].
    + rewrite decide_False, lookup_insert_eq, decide_True by (done || set_solver +). done.
    + rewrite lookup_insert_ne by done. destruct (decide (g ∈ gids)) as [Hin|Hin].
      * rewrite decide_True by set_solver + Hin. done.
      * rewrite decide_False by set_solver + Hin Hne. done.
Qed.

Lemma leaveGroups_spec gids : forall ts cfg stay,
  tinv ts cfg -> NoDup gids -> (forall g, g ∈ gids -> valid cfg g) -> valid cfg stay -> stay ∉ gids ->
  exists ts' cfg', leaveGroups gids ts = Ret (Some (ts', true)) /\ tinv ts' cfg'
    /\ forall g, Groups cfg' !! g = if decide (g ∈ gids) then None else Groups cfg !! g.
Proof.
  induction gids as [|gid gids IH]; intros ts cfg stay Ht Hnd Hold Hstay Hns.
  { exists ts, cfg. split; [done|]. split; [done|]. intros g. by rewrite decide_False by apply not_elem_of_nil. }
  apply list.NoDup_cons in Hnd as [Hgid Hnd]. destruct (Hold gid ltac:(set_solver +)) as [l Hl].
  apply not_elem_of_cons in Hns as [Hsg Hns]. destruct Hstay as [ls Hls].
  assert (delete gid (Groups cfg) !! stay = Some ls) as Hls' by (by rewrite lookup_delete_ne).
  destruct (leave_one (sck ts) cfg gid l) as (c'&cfg'&El&Hq'&Eg'&Hwf'&Hb'); [apply Ht..|done| |].
  { intros E. by rewrite E, lookup_empty in Hls'. }
  cbn [leaveGroups]. rewrite El. cbn [gbind]. unfold checkMember. rewrite Hq'. cbn [gbind].
  rewrite not_valid_not_member; [|done|unfold valid; rewrite Eg', lookup_delete_eq; by intros [? ?]].
  destruct (ti_tester _ _ Ht gid) as [lt Hlt]; [by exists l|]. unfold ExitGroup. cbn [set_sck tgroups]. rewrite Hlt. cbn [gbind].
  edestruct (IH (mkTest (ngid (set_sck ts c')) (delete gid (tgroups (set_sck ts c'))) (sck (set_sck ts c'))) cfg' stay)
    as (ts'&cfg''&E&Ht'&Hall); [..|exists ts', cfg''; split; [exact E|]; split; [done|]].
  - split; simpl; [done..| | |].
    + rewrite Eg'. intros E. by rewrite E, lookup_empty in Hls'.
    + rewrite Eg'. apply named_delete, Ht.
    + intros g. unfold valid. rewrite Eg'. intros [x [Hne Hx]%lookup_delete_Some].
      rewrite lookup_delete_ne by done. apply (ti_tester _ _ Ht). by exists x.
  - done.
  - intros g Hin. unfold valid. rewrite Eg', lookup_delete_ne by (by intros ->). apply Hold. set_solver + Hin.
  - unfold valid. rewrite Eg'. by exists ls.
  - done.
  - intros g. rewrite Hall, Eg'. destruct (decide (g = gid)) as [->|Hne].
    + rewrite decide_False, lookup_delete_eq, decide_True by (done || set_solver +). done.
    + rewrite lookup_delete_ne by done. destruct (decide (g ∈ gids)) as [Hin|Hin].
      * rewrite decide_True by set_solver + Hin. done.
      * rewrite decide_False by set_solver + Hin Hne. done.
Qed.
End driver_lemmas.

(** ** Group ids *)

Lemma groups_spec {C} (H : ShardCtrler C) n : forall ts : Test C,
  - 2 ^ 63 <= ngid ts -> ngid ts + Z.of_nat n < 2 ^ 63 ->
  groups n ts = (mkTest (ngid ts + Z.of_nat n) (tgroups ts) (sck ts),
                 (fun i => ngid ts + Z.of_nat i) <$> seq 0 n).
Proof.
  induction n as [|n IH]; intros ts H0 Hb; cbn [groups].
  - rewrite Z.add_0_r. by destruct ts.
  - unfold newGid. rewrite IH; cbn [ngid tgroups sck]; rewrite i64_small by lia; [|lia..].
    f_equal; [f_equal; lia|]. rewrite <-cons_seq, fmap_cons, <-fmap_S_seq, <-list_fmap_compose.
    f_equal; [lia|]. apply list_fmap_ext. intros i x _. simpl. lia.
Qed.

Section driver_theorems.
  Context {C : Type} `{ShardCtrlerLaws C}.

Lemma setup_spec (c : C) :
  exists ts cfg, setupKVService (MakeTest c) = Ret (Some (ts, Gid1)) /\ tinv ts cfg
    /\ Groups cfg = {[Gid1 := srv_names Gid1]} /\ ngid ts = 2.
Proof.
  unfold setupKVService, SrvNames, MakeGroupStart, MakeTest. cbn [tgroups sck ngid].
  rewrite lookup_insert_eq. cbn [mbind go_bind gbind sck].
  destruct (JoinBalance_one MakeShardConfig Gid1) as (c1&E&Eg&En&Es); [done|by intros g l|done|].
  destruct (Rebalance_returns c1) as (c2&Er&Eg2&En2&Hwf2&Hb&_); [unfold wf; by rewrite Es|].
  rewrite E, Er. cbn. eexists _, c2. split; [done|].
  assert (Groups c2 = {[Gid1 := srv_names Gid1]}) as Eg' by (rewrite Eg2, Eg; apply insert_empty).
  split; [|split; [exact Eg'|reflexivity]].
  split; cbn [sck tgroups set_sck].
  - apply query_init.
  - done.
  - apply Hb. rewrite Eg. apply insert_non_empty.
  - rewrite Eg'. apply map_non_empty_singleton.
  - rewrite Eg'. by intros g l [<- <-]%lookup_singleton_Some.
  - intros g. unfold valid. rewrite Eg'. intros [l [<- _]%lookup_singleton_Some]. rewrite lookup_insert_eq. by eexists.
Qed.

(** From the state after the set-up. *)
Lemma join_leave_from ts cfg n :
  tinv ts cfg -> Groups cfg = {[Gid1 := srv_names Gid1]} -> ngid ts = 2 -> (n < Z.to_nat NShards)%nat ->
  exists ts2 ts3 cfg2 cfg3,
    let gids := (groups n ts).2 in
    NoDup (Gid1 :: gids)
    /\ joinGroups gids (groups n ts).1 = Ret (Some (ts2, true)) /\ Query (sck ts2) = Some cfg2
    /\ CheckConfig cfg2 (Gid1 :: gids) = Ret tt /\ (forall g, g ∈ Gid1 :: gids -> IsMember cfg2 g = true)
    /\ leaveGroups gids ts2 = Ret (Some (ts3, true)) /\ Query (sck ts3) = Some cfg3
    /\ Groups cfg3 = {[Gid1 := srv_names Gid1]}.
Proof.
  intros Ht Eg En Hn. change (Z.to_nat NShards) with 12%nat in *.
  pose proof (groups_spec _ n ts ltac:(lia) ltac:(lia)) as Egs.
  set (gids := (fun i => ngid ts + Z.of_nat i) <$> seq 0 n).
  set (ts1 := mkTest (ngid ts + Z.of_nat n) (tgroups ts) (sck ts)).
  assert (NoDup gids) as Hnd by (apply NoDup_fmap_2; [intros i j Hij; lia|apply NoDup_seq]).
  assert (Gid1 ∉ gids) as H1 by (intros (i&Hi&_)%list_elem_of_fmap; unfold Gid1 in Hi; lia).
  assert (forall g, g ∈ gids -> Groups cfg !! g = None) as Hnew.
  { intros g Hg. rewrite Eg. apply lookup_singleton_ne. intros <-. exact (H1 Hg). }
  assert (tinv ts1 cfg) as Ht1 by (destruct Ht; constructor; assumption).
  destruct (joinGroups_spec gids ts1 cfg Ht1 Hnd Hnew) as (ts2&cfg2&E2&Ht2&Hg2).
  { rewrite Eg, map_size_singleton. unfold gids. rewrite length_fmap, length_seq. change (Z.to_nat NShards) with 12%nat. lia. }
  assert (forall g, g ∈ Gid1 :: gids <-> valid cfg2 g) as Hval.
  { intros g. unfold valid. rewrite Hg2, elem_of_cons, Eg. case_decide as Hg; [split; [by eexists|auto]|].
    split; [intros [->|?]; [rewrite lookup_singleton_eq; by eexists|done]|].
    intros [l [<- _]%lookup_singleton_Some]. by left. }
  assert (Gid1 :: gids ≡ₚ sorted_gids cfg2) as Hp.
  { apply list.NoDup_Permutation; [by constructor|apply sorted_gids_NoDup|].
    intros g. by rewrite elem_of_sorted_gids. }
  destruct (leaveGroups_spec gids ts2 cfg2 Gid1 Ht2 Hnd) as (ts3&cfg3&E3&Ht3&Hg3).
  { intros g Hg. apply Hval. set_solver + Hg. }
  { apply Hval. set_solver +. }
  { done. }
  exists ts2, ts3, cfg2, cfg3. rewrite Egs. cbn [fst snd]. fold gids ts1. split; [by constructor|]. split; [done|]. split; [apply Ht2|].
  split; [|split; [|split; [done|split; [apply Ht3|]]]].
  - apply CheckConfig_passes; [apply Ht2|left; apply Ht2|]. rewrite Hp. unfold sorted_gids, ShardCfg.gids.
    by rewrite merge_sort_Permutation.
  - intros g Hg%Hval. apply balanced_member; [apply Ht2..| |done]. rewrite <-length_sorted_gids, <-Hp.
    unfold gids. simpl. rewrite length_fmap, length_seq. change (Z.to_nat NShards) with 12%nat. lia.
  - apply map_eq. intros g. rewrite Hg3, Hg2, Eg. case_decide as Hg; [|done].
    symmetry. apply lookup_singleton_ne. intros <-. exact (H1 Hg).
Qed.

(** Joining groups and leaving again.  Over any controller that keeps its promise, set
    up the service, take [n] new group ids and join them all: with at most twelve groups
    every join succeeds, every group serves a shard and the configuration passes
    [CheckConfig]; leaving them again succeeds and leaves the one group of the set-up. *)
Theorem join_leave_round_trip (c : C) n :
  (n < Z.to_nat NShards)%nat ->
  exists ts ts2 ts3 cfg2 cfg3,
    setupKVService (MakeTest c) = Ret (Some (ts, Gid1))
    /\ let gids := (groups n ts).2 in
       NoDup (Gid1 :: gids)
       /\ joinGroups gids (groups n ts).1 = Ret (Some (ts2, true)) /\ Query (sck ts2) = Some cfg2
       /\ CheckConfig cfg2 (Gid1 :: gids) = Ret tt /\ (forall g, g ∈ Gid1 :: gids -> IsMember cfg2 g = true)
       /\ leaveGroups gids ts2 = Ret (Some (ts3, true)) /\ Query (sck ts3) = Some cfg3
       /\ Groups cfg3 = {[Gid1 := srv_names Gid1]}.
Proof.
  intros Hn. destruct (setup_spec c) as (ts&cfg&E&Ht&Eg&En).
  destruct (join_leave_from ts cfg n Ht Eg En Hn) as (ts2&ts3&cfg2&cfg3&Hall).
  exists ts, ts2, ts3, cfg2, cfg3. exact (conj E Hall).
Qed.

(** The thirteenth group.  [IsMember] looks for a shard of the group, and there are
    twelve shards: when twelve groups or more are configured, a new group joins the
    configuration, which stays balanced, but gets no shard, and [joinGroups] reports
    failure. *)
Theorem thirteenth_group_not_member (ts : Test C) cfg gid :
  Query (sck ts) = Some cfg -> rtc ctrl_step MakeShardConfig cfg -> named (Groups cfg) ->
  (Z.to_nat NShards <= size (Groups cfg))%nat -> Groups cfg !! gid = None ->
  exists ts' cfg', joinGroups [gid] ts = Ret (Some (ts', false)) /\ Query (sck ts') = Some cfg'
    /\ Groups cfg' !! gid = Some (srv_names gid) /\ balanced cfg' /\ Shards cfg' = Shards cfg.
Proof.
  intros Hq (Hwf&_&Hb)%reachable_inv Hn Hsz Hg.
  destruct Hb as [Hb|E]; [|rewrite E, map_size_empty in Hsz; change (Z.to_nat NShards) with 12%nat in Hsz; lia].
  destruct (JoinBalance_one cfg gid Hwf Hn Hg) as (c1&E&Eg&En&Es).
  assert (balanced c1) as Hb1.
  { destruct Hb as [Hv Hl]. split.
    - rewrite Es. eapply Forall_impl; [|exact Hv]. intros g [l Hgl]. unfold valid. rewrite Eg.
      destruct (decide (gid = g)) as [->|?]; [rewrite lookup_insert_eq; by eexists|].
      rewrite lookup_insert_ne by done. by exists l.
    - intros g1 g2 Hv1 _. pose proof (load_bound cfg g2 Hwf) as H2. unfold load in *. rewrite Es.
      enough (occ g1 (Shards cfg) <= 1) by lia. destruct (decide (gid = g1)) as [<-|Hne].
      + destruct (decide (0 < occ gid (Shards cfg))) as [Hin%occ_pos|]; [|lia].
        rewrite list.Forall_forall in Hv. destruct (Hv _ Hin) as [l Hl']. by rewrite Hg in Hl'.
      + apply (balanced_load_le_1 cfg g1 Hwf); [by split|done|].
        unfold valid in *. by rewrite Eg, lookup_insert_ne in Hv1. }
  assert (Rebalance rebalance_fuel c1 = Some c1) as Er.
  { apply Rebalance_id; [unfold wf; by rewrite Es| |done]. rewrite Eg. apply insert_non_empty. }
  cbn [joinGroups]. unfold SrvNames, MakeGroupStart, join. cbn [tgroups sck ngid]. rewrite lookup_insert_eq.
  cbn [mbind go_bind gbind]. rewrite Hq, Copy_eq, E, Er. cbn. unfold checkMember.
  rewrite (query_change _ cfg c1 Hq) by done. cbn.
  replace (IsMember c1 gid) with false.
  - eexists _, c1. split; [done|]. split; [by apply (query_change _ cfg)|]. rewrite Eg, lookup_insert_eq. done.
  - symmetry. apply not_true_is_false. rewrite IsMember_spec, Es. intros Hin. destruct Hb as [Hv _].
    rewrite list.Forall_forall in Hv. destruct (Hv _ Hin) as [l Hl]. by rewrite Hg in Hl.
Qed.
End driver_theorems.

(** *** Concrete controllers *)

(** A controller that keeps the configuration in a variable. *)
Definition var_ctrler : Type := option ShardConfig.

#[local] Instance var_ShardCtrler : ShardCtrler var_ctrler := {|
  InitConfig cfg _ := Some cfg;
  ChangeConfigTo cfg _ := Some cfg;
  Query c := c;
|}.

#[local] Instance var_laws : ShardCtrlerLaws var_ctrler.
Proof. split; [intros c cfg; reflexivity|intros c old new _ _; reflexivity]. Qed.

Lemma join_leave_round_trip_witness :
  exists ts ts2 cfg2, setupKVService (MakeTest (None : var_ctrler)) = Ret (Some (ts, Gid1))
    /\ joinGroups (groups 3 ts).2 (groups 3 ts).1 = Ret (Some (ts2, true)) /\ Query (sck ts2) = Some cfg2.
Proof.
  destruct (join_leave_round_trip (None : var_ctrler) 3) as (ts&ts2&ts3&cfg2&cfg3&H1&_&H2&H3&_).
  - vm_compute. lia.
  - exists ts, ts2, cfg2. exact (conj H1 (conj H2 H3)).
Defined.

Definition twelve : list (Z * list string) :=
  (fun i => (Z.of_nat i, srv_names (Z.of_nat i))) <$> seq 1 12.

Definition cfg_twelve : ShardConfig := cfg_of (JoinBalance rebalance_fuel twelve MakeShardConfig).

Lemma cfg_twelve_step : ctrl_step MakeShardConfig cfg_twelve.
Proof. apply (ctrl_join twelve). vm_compute. reflexivity. Qed.

Lemma cfg_twelve_named : map_Forall (fun g l => l = srv_names g) (Groups cfg_twelve).
Proof. apply (bool_decide_unpack _). vm_compute. exact I. Qed.

Lemma thirteenth_group_not_member_witness :
  exists ts, joinGroups [13] (mkTest 14 ∅ (Some cfg_twelve : var_ctrler)) = Ret (Some (ts, false)).
Proof.
  destruct (thirteenth_group_not_member (mkTest 14 ∅ (Some cfg_twelve : var_ctrler)) cfg_twelve 13) as (ts&cfg'&E&_).
  - reflexivity.
  - exact (rtc_once _ _ cfg_twelve_step).
  - exact cfg_twelve_named.
  - vm_compute. lia.
  - vm_compute. reflexivity.
  - exists ts. exact E.
Defined.

(** With the stub the first join dereferences nil. *)
Example stub_join_panics gid rest (ts : Test stub) : joinGroups (gid :: rest) ts = Crash Panic.
Proof.
  cbn [joinGroups]. unfold SrvNames, MakeGroupStart. cbn [tgroups]. by rewrite lookup_insert_eq.
Qed.
