(* ===== verification/ShardConcur.v ===== *)
(** * Concurrent shard controllers

    [concurCtrler] and [partitionCtrler] of [src/src/shardkv1/test.go]: several controllers
    change the configuration at the same time, or one is cut off in the middle of a change
    and another one takes over.  What the tests rely on of the controllers
    is a class of laws: a change that was asked for may be made later, by anybody, or never, but
    only on the configuration it was computed from.  The methods in
    [src/src/shardkv1/shardctrler/shardctrler.go] are stubs with comments and do not meet the laws;
    the theorems are about the tests over a controller that is still to be written.  Between any two calls of a goroutine the others may do
    anything. *)

From S2P Require Import Prelude ShardCfg TesterGroup ShardTest.
Local Open Scope Z_scope.

(** ** Shared controllers *)

(** The current configuration, the configurations that [ChangeConfigTo] was called with, such
    a call, and the progress that controllers make in their calls. *)
Class SharedCtrler (K : Type) := {
  sc_query : K -> option ShardConfig;
  sc_asked : K -> list ShardConfig;
  sc_ask : ShardConfig -> K -> K;
  sc_progress : K -> K -> Prop;
}.

Class SharedCtrlerLaws (K : Type) `{SharedCtrler K} := {
  ask_query new c : sc_query (sc_ask new c) = sc_query c;
  ask_asked new c n : n ∈ sc_asked (sc_ask new c) -> n = new \/ n ∈ sc_asked c;
  progress_asked c c' n : sc_progress c c' -> n ∈ sc_asked c' -> n ∈ sc_asked c;
  progress_query c c' :
    sc_progress c c' ->
    sc_query c' = sc_query c
    \/ exists old new, sc_query c = Some old /\ new ∈ sc_asked c /\ Num new = i64 (Num old + 1) /\ sc_query c' = Some new;
}.

(** ** [concurCtrler] *)

(** The computations of [join] and [leave] on the configuration they read. *)
Definition join_config (cfg : ShardConfig) (gid : Z) (srvs : list string) : go (option ShardConfig) :=
  do (newcfg, ok) <- JoinBalance rebalance_fuel [(gid, srvs)] (Copy cfg);
  if (ok : bool) then Ret (Some newcfg) else Crash Fatal.

Definition leave_config (cfg : ShardConfig) (gid : Z) : go (option ShardConfig) :=
  do (newcfg, ok) <- LeaveBalance rebalance_fuel [gid] (Copy cfg);
  if (ok : bool) then Ret (Some newcfg) else Crash Fatal.

(** Where a goroutine is with its group: at the [select]; its group is started; it has computed the
    new configuration; it is in [ChangeConfigTo]; at the check in [joinGroups] and the one
    after it; the same for [leaveGroups]; stopped. *)
Inductive cpc :=
  | PLoop
  | PStarted (g : Z)
  | PJoin (g : Z) (new : ShardConfig)
  | PJoining (g : Z)
  | PCheck1 (g : Z)
  | PCheck2 (g : Z)
  | PLeave (g : Z)
  | PLeft (g : Z) (new : ShardConfig)
  | PLeaving (g : Z)
  | PCheck3 (g : Z)
  | PStopped.

Section concur.
  Context {K : Type} `{SharedCtrler K}.

(** The controllers, the next group id, the running groups of the tester, the goroutines,
    and, for the statements, the configurations there have been. *)
Record csys := mkC { cs_ctrl : K; cs_ngid : Z; cs_running : gset Z; cs_pcs : list cpc; cs_hist : list ShardConfig }.

Definition set_pc (i : nat) (p : cpc) (s : csys) : csys :=
  mkC (cs_ctrl s) (cs_ngid s) (cs_running s) (<[i := p]> (cs_pcs s)) (cs_hist s).

Definition set_ctrl (c : K) (s : csys) : csys :=
  mkC c (cs_ngid s) (cs_running s) (cs_pcs s) (cs_hist s).

(** [sck.Query()] and the methods of what it returns, which may be nil. *)
Definition query (s : csys) : go ShardConfig :=
  match sc_query (cs_ctrl s) with Some cfg => Ret cfg | None => Crash Panic end.

Definition start_group (g : Z) (s : csys) : csys :=
  mkC (cs_ctrl s) (cs_ngid s) ({[ g ]} ∪ cs_running s) (cs_pcs s) (cs_hist s).

Definition exit_group (g : Z) (s : csys) : go csys :=
  if decide (g ∈ cs_running s) then Ret (mkC (cs_ctrl s) (cs_ngid s) (cs_running s ∖ {[ g ]}) (cs_pcs s) (cs_hist s))
  else Crash Panic.

Definition take_gid (s : csys) : csys * Z :=
  (mkC (cs_ctrl s) (i64 (cs_ngid s + 1)) (cs_running s) (cs_pcs s) (cs_hist s), cs_ngid s).

(** One step of goroutine [i], from its [pc]: up to its next call of a controller or its return.
    Making a controller and [InitController] are progress of the controllers, as are the delays. *)
Definition goroutine (i : nat) (p : cpc) (s : csys) : go (option csys) :=
  match p with
  | PLoop => let '(s, g) := take_gid s in Ret (Some (set_pc i (PStarted g) (start_group g s)))
  | PStarted g =>
      cfg ← query s;
      do new <- join_config cfg g (srv_names g);
      Ret (Some (set_pc i (PJoin g new) s))
  | PJoin g new => Ret (Some (set_pc i (PJoining g) (set_ctrl (sc_ask new (cs_ctrl s)) s)))
  | PJoining g => Ret (Some (set_pc i (PCheck1 g) s))
  | PCheck1 g => cfg ← query s; Ret (Some (set_pc i (PCheck2 g) s))
  | PCheck2 g => cfg ← query s; Ret (Some (set_pc i (if IsMember cfg g then PLeave g else PLoop) s))
  | PLeave g =>
      cfg ← query s;
      do new <- leave_config cfg g;
      Ret (Some (set_pc i (PLeft g new) s))
  | PLeft g new => Ret (Some (set_pc i (PLeaving g) (set_ctrl (sc_ask new (cs_ctrl s)) s)))
  | PLeaving g => Ret (Some (set_pc i (PCheck3 g) s))
  | PCheck3 g =>
      cfg ← query s;
      if IsMember cfg g then Ret (Some (set_pc i PLoop s))
      else s ← exit_group g s; Ret (Some (set_pc i PLoop s))
  | PStopped => Ret (Some s)
  end.

(** The current configuration is noted. *)
Definition note (c' : K) (hist : list ShardConfig) : list ShardConfig :=
  match sc_query c' with Some new => new :: hist | None => hist end.

(** A goroutine takes a step, the controllers make progress, or the test stops a goroutine at
    its [select].  The result is [None] if the fuel of [Rebalance] did not suffice. *)
Inductive cstep : csys -> go (option csys) -> Prop :=
  | c_go s i p : cs_pcs s !! i = Some p -> cstep s (goroutine i p s)
  | c_ctrl s c' :
      sc_progress (cs_ctrl s) c' ->
      cstep s (Ret (Some (mkC c' (cs_ngid s) (cs_running s) (cs_pcs s) (note c' (cs_hist s)))))
  | c_stop s i : cs_pcs s !! i = Some PLoop -> cstep s (Ret (Some (set_pc i PStopped s))).

Definition cs_init (c : K) (cfg : ShardConfig) (ngid : Z) (running : gset Z) (n : nat) : csys :=
  mkC c ngid running (replicate n PLoop) [cfg].
End concur.
Arguments csys K : clear implicits.

(** ** Lemmas: changes of the configuration *)

(** A configuration a test works with; the first group never leaves. *)
Definition config_ok (c : ShardConfig) : Prop :=
  wf c /\ balanced c /\ named (Groups c) /\ valid c Gid1.

(** [new] is [base] after group [g] joined, or left. *)
Definition joins (g : Z) (base new : ShardConfig) : Prop :=
  Num new = Num base + 1 /\ config_ok new /\ Groups base !! g = None
  /\ Groups new = <[g := srv_names g]> (Groups base).

Definition leaves (g : Z) (base new : ShardConfig) : Prop :=
  Num new = Num base + 1 /\ config_ok new /\ Groups new = delete g (Groups base).

(** A change on behalf of group [g]. *)
Definition changes (g : Z) (base new : ShardConfig) : Prop := joins g base new \/ leaves g base new.

Lemma changes_Num g base new : changes g base new -> Num new = Num base + 1.
Proof. by intros [[? _]|[? _]]. Qed.

Lemma changes_ok g base new : changes g base new -> config_ok new.
Proof. by intros [(_&?&_)|(_&?&_)]. Qed.

(** Other groups stay or stay away. *)
Lemma changes_other g g' base new : changes g base new -> g' <> g -> valid new g' <-> valid base g'.
Proof.
  intros [(_&_&_&E)|(_&_&E)] Hne; unfold valid; rewrite E; [by rewrite lookup_insert_ne|by rewrite lookup_delete_ne].
Qed.

Lemma join_config_spec cfg g :
  config_ok cfg -> ~ valid cfg g -> 0 <= Num cfg < 2 ^ 62 ->
  exists new, join_config cfg g (srv_names g) = Ret (Some new) /\ joins g cfg new.
Proof.
  intros (Hwf&_&Hn&H1) Hg Hnum. apply eq_None_not_Some in Hg.
  destruct (JoinBalance_one cfg g Hwf Hn Hg) as (c1&E&Eg&En&Es).
  destruct (Rebalance_returns c1) as (c2&Er&Eg2&En2&Hwf2&Hb&_); [unfold wf; by rewrite Es|].
  unfold join_config. rewrite Copy_eq, E, Er. simpl. exists c2. split; [done|].
  split; [rewrite En2, En, i64_small; lia|]. split; [|split; [done|by rewrite Eg2]].
  split; [done|]. split; [apply Hb; rewrite Eg; apply insert_non_empty|]. rewrite Eg2, Eg. split; [by apply named_insert|].
  unfold valid. rewrite Eg2, Eg. destruct (decide (g = Gid1)) as [->|Hne]; [rewrite lookup_insert_eq; by eexists|].
  by rewrite lookup_insert_ne.
Qed.

Lemma leave_config_spec cfg g :
  config_ok cfg -> valid cfg g -> g <> Gid1 -> 0 <= Num cfg < 2 ^ 62 ->
  exists new, leave_config cfg g = Ret (Some new) /\ leaves g cfg new.
Proof.
  intros (Hwf&_&Hn&[l1 H1]) [l Hg] Hne Hnum. destruct (LeaveBalance_one cfg g l Hg) as (c1&E&Eg&En&Es).
  destruct (Rebalance_returns c1) as (c2&Er&Eg2&En2&Hwf2&Hb&_); [unfold wf; by rewrite Es|].
  unfold leave_config. rewrite Copy_eq, E, Er. simpl. exists c2. split; [done|].
  split; [rewrite En2, En, i64_small; lia|]. split; [|by rewrite Eg2].
  assert (delete g (Groups cfg) !! Gid1 = Some l1) as H1' by (by rewrite lookup_delete_ne).
  split; [done|]. split; [apply Hb; rewrite Eg; intros E0; by rewrite E0, lookup_empty in H1'|].
  rewrite Eg2, Eg. split; [by apply named_delete|]. unfold valid. rewrite Eg2, Eg. by exists l1.
Qed.

(** ** Lemmas: the invariant *)

(** Facts about group [g] and the configurations that were ([H]) and were asked for ([A]). *)
Definition nowhere (g : Z) (H A : list ShardConfig) : Prop := forall n, n ∈ H \/ n ∈ A -> ~ valid n g.

Definition no_leave (g : Z) (H A : list ShardConfig) : Prop :=
  forall n base, n ∈ A -> base ∈ H -> Num n = Num base + 1 -> valid base g -> valid n g.

Definition join_past (g : Z) (H A : list ShardConfig) (cur : ShardConfig) : Prop :=
  forall n base, n ∈ A -> base ∈ H -> Num n = Num base + 1 -> ~ valid base g -> valid n g -> Num base < Num cur.

Definition pc_gid (p : cpc) : option Z :=
  match p with
  | PLoop | PStopped => None
  | PStarted g | PJoin g _ | PJoining g | PCheck1 g | PCheck2 g | PLeave g | PLeft g _ | PLeaving g | PCheck3 g => Some g
  end.

Definition pc_ok (H A : list ShardConfig) (cur : ShardConfig) (p : cpc) : Prop :=
  match p with
  | PLoop | PStopped => True
  | PStarted g => nowhere g H A
  | PJoin g new => nowhere g H A /\ exists base, base ∈ H /\ joins g base new
  | PJoining g | PCheck1 g | PCheck2 g => no_leave g H A
  | PLeave g => no_leave g H A /\ join_past g H A cur /\ valid cur g
  | PLeft g new => join_past g H A cur /\ exists base, base ∈ H /\ leaves g base new
  | PLeaving g | PCheck3 g => join_past g H A cur
  end.

(** The configurations: one for each number up to the current one; what is asked for is a
    change of one of them. *)
Record history (H A : list ShardConfig) (cur : ShardConfig) : Prop := {
  hi_cur : cur ∈ H;
  hi_ok a : a ∈ H -> config_ok a /\ 0 <= Num a <= Num cur;
  hi_unique a b : a ∈ H -> b ∈ H -> Num a = Num b -> a = b;
  hi_asked n : n ∈ A -> exists g base, g <> Gid1 /\ base ∈ H /\ changes g base n;
}.

(** Asking for a change on behalf of [g] does not touch what is known of others. *)
Lemma ask_pc_ok H A A' cur g base new p :
  history H A cur -> base ∈ H -> changes g base new -> (forall n, n ∈ A' -> n = new \/ n ∈ A) ->
  pc_gid p <> Some g -> pc_ok H A cur p -> pc_ok H A' cur p.
Proof.
  intros Hh Hb Hch HA Hp Hok. pose proof (changes_Num _ _ _ Hch) as Hnum.
  assert (forall g', g' <> g -> nowhere g' H A -> nowhere g' H A') as H1.
  { intros g' Hne Hn n [Hin|[->|Hin]%HA]; [by apply Hn; left| |by apply Hn; right].
    rewrite (changes_other g g' base new Hch Hne). apply Hn. by left. }
  assert (forall g', g' <> g -> no_leave g' H A -> no_leave g' H A') as H2.
  { intros g' Hne Hn n b [->|Hin]%HA Hb' En Hv; [|by eapply Hn].
    rewrite (hi_unique _ _ _ Hh b base Hb' Hb ltac:(lia)) in Hv. by apply (changes_other g g' base new Hch Hne). }
  assert (forall g', g' <> g -> join_past g' H A cur -> join_past g' H A' cur) as H3.
  { intros g' Hne Hn n b [->|Hin]%HA Hb' En Hv Hv'; [|by eapply Hn].
    rewrite (hi_unique _ _ _ Hh b base Hb' Hb ltac:(lia)) in Hv. by apply (changes_other g g' base new Hch Hne) in Hv'. }
  destruct p as [|g'|g' n|g'|g'|g'|g'|g' n|g'|g'|]; simpl in *; try done; (assert (g' <> g) as Hne by congruence); auto.
  - destruct Hok. auto.
  - destruct Hok as (?&?&?). auto.
  - destruct Hok. auto.
Qed.

(** The numbers of what is asked for. *)
Lemma asked_Num H A cur n : history H A cur -> n ∈ A -> config_ok n /\ 1 <= Num n <= Num cur + 1.
Proof.
  intros Hh Hn. destruct (hi_asked _ _ _ Hh n Hn) as (g&base&_&Hb&Hch). destruct (hi_ok _ _ _ Hh base Hb) as [_ Hr].
  pose proof (changes_Num _ _ _ Hch). split; [by eapply changes_ok|lia].
Qed.

(** The next configuration is installed. *)
Lemma install_history H A A' cur new :
  history H A cur -> new ∈ A -> Num new = Num cur + 1 -> (forall n, n ∈ A' -> n ∈ A) -> history (new :: H) A' new.
Proof.
  intros Hh Hn En HA. split.
  - by left.
  - intros a [->|Ha]%elem_of_cons; [destruct (asked_Num _ _ _ _ Hh Hn); split; [done|lia]|].
    destruct (hi_ok _ _ _ Hh a Ha). split; [done|lia].
  - intros a b [->|Ha]%elem_of_cons [->|Hb]%elem_of_cons E; [done| | |by eapply hi_unique];
      [destruct (hi_ok _ _ _ Hh b Hb)|destruct (hi_ok _ _ _ Hh a Ha)]; lia.
  - intros n Hin%HA. destruct (hi_asked _ _ _ Hh n Hin) as (g&base&Hg&Hb&Hch). exists g, base. split; [done|].
    split; [by right|done].
Qed.

Lemma install_pc_ok H A A' cur new p :
  history H A cur -> new ∈ A -> Num new = Num cur + 1 -> (forall n, n ∈ A' -> n ∈ A) ->
  pc_ok H A cur p -> pc_ok (new :: H) A' new p.
Proof.
  intros Hh Hn En HA Hok.
  assert (forall n b, n ∈ A' -> b ∈ new :: H -> Num n = Num b + 1 -> n ∈ A /\ b ∈ H) as Hold.
  { intros n b Hin%HA [->|Hb]%elem_of_cons E; [|done]. destruct (asked_Num _ _ _ _ Hh Hin). lia. }
  assert (forall g, nowhere g H A -> nowhere g (new :: H) A') as H1.
  { intros g Hg n [[->|Hin]%elem_of_cons|Hin%HA]; apply Hg; auto. }
  assert (forall g, no_leave g H A -> no_leave g (new :: H) A') as H2.
  { intros g Hg n b Hin Hb E Hv. destruct (Hold n b Hin Hb E). by eapply Hg. }
  assert (forall g, join_past g H A cur -> join_past g (new :: H) A' new) as H3.
  { intros g Hg n b Hin Hb E Hv Hv'. destruct (Hold n b Hin Hb E) as [H4 H5]. specialize (Hg n b H4 H5 E Hv Hv'). lia. }
  destruct p as [|g|g n|g|g|g|g|g n|g|g|]; simpl in *; auto.
  - destruct Hok as (Ha&b&Hb&Hj). split; [auto|]. exists b. split; [by right|done].
  - destruct Hok as (Ha&Hb&Hv). split; [auto|]. split; [auto|]. apply (Ha new cur); [done|apply Hh|done|done].
  - destruct Hok as (Ha&b&Hb&Hj). split; [auto|]. exists b. split; [by right|done].
Qed.

(** There have been at most as many groups as shards. *)
Definition small (H : list ShardConfig) : Prop := forall a, a ∈ H -> (size (Groups a) <= Z.to_nat NShards)%nat.

Section concur_lemmas.
  Context {K : Type} `{SharedCtrlerLaws K}.

Record cinv (k : Z) (s : csys K) (cur : ShardConfig) : Prop := {
  ci_query : sc_query (cs_ctrl s) = Some cur;
  ci_history : history (cs_hist s) (sc_asked (cs_ctrl s)) cur;
  ci_bound : Num cur <= k /\ Gid1 < cs_ngid s <= k;
  ci_new g : cs_ngid s <= g -> nowhere g (cs_hist s) (sc_asked (cs_ctrl s));
  ci_pcs i p : cs_pcs s !! i = Some p -> pc_ok (cs_hist s) (sc_asked (cs_ctrl s)) cur p;
  ci_gid i p g : cs_pcs s !! i = Some p -> pc_gid p = Some g -> Gid1 < g < cs_ngid s /\ g ∈ cs_running s;
  ci_distinct i j p q g :
    cs_pcs s !! i = Some p -> cs_pcs s !! j = Some q -> pc_gid p = Some g -> pc_gid q = Some g -> i = j;
  ci_running : small (cs_hist s) ->
    (forall g, valid cur g -> g ∈ cs_running s)
    /\ forall n g, n ∈ sc_asked (cs_ctrl s) -> Num n = Num cur + 1 -> valid n g -> g ∈ cs_running s;
}.

(** A goroutine moves on without touching anything. *)
Lemma cinv_set_pc k s cur i p p' :
  cinv k s cur -> cs_pcs s !! i = Some p -> pc_gid p' = pc_gid p \/ pc_gid p' = None ->
  pc_ok (cs_hist s) (sc_asked (cs_ctrl s)) cur p' -> cinv k (set_pc i p' s) cur.
Proof.
  intros [H1 H2 H3 H4 H5 H6 H7 H8] Hi Hg Hok. split; simpl; [done..| | | |done].
  - intros j q [(<-&<-&_)|[_ Hj]]%list_lookup_insert_Some; [done|by eapply H5].
  - intros j q g [(<-&<-&_)|[_ Hj]]%list_lookup_insert_Some Hq; [|by eapply H6].
    destruct Hg as [E|E]; rewrite E in Hq; [|done]. by eapply H6.
  - assert (forall j q g, <[i := p']> (cs_pcs s) !! j = Some q -> pc_gid q = Some g ->
              exists q', cs_pcs s !! j = Some q' /\ pc_gid q' = Some g) as Hold.
    { intros j q g [(<-&<-&_)|[_ Hj]]%list_lookup_insert_Some Hq; [|by eauto]. exists p. split; [done|].
      destruct Hg; congruence. }
    intros j j' q q' g Hj Hj' Hq Hq'. destruct (Hold j q g Hj Hq) as (r&?&?), (Hold j' q' g Hj' Hq') as (r'&?&?). by eapply H7.
Qed.

(** A goroutine calls [ChangeConfigTo]. *)
Lemma cinv_ask k s cur i p p' g base new :
  cinv k s cur -> cs_pcs s !! i = Some p -> pc_gid p = Some g -> pc_gid p' = Some g ->
  base ∈ cs_hist s -> changes g base new ->
  pc_ok (cs_hist s) (sc_asked (sc_ask new (cs_ctrl s))) cur p' ->
  cinv k (set_pc i p' (set_ctrl (sc_ask new (cs_ctrl s)) s)) cur.
Proof.
  intros Hc Hi Hg Hg' Hb Hch Hok. pose proof Hc as [H1 H2 H3 H4 H5 H6 H7 H8].
  pose proof (ask_asked new (cs_ctrl s)) as HA. pose proof (changes_Num _ _ _ Hch) as Hnum.
  destruct (H6 i p g Hi Hg) as [Hgid Hrun].
  assert (cinv k (set_ctrl (sc_ask new (cs_ctrl s)) (set_pc i PLoop s)) cur) as [C1 C2 C3 C4 C5 C6 C7 C8].
  { split; simpl.
    - by rewrite ask_query.
    - destruct H2 as [X1 X2 X3 X4]. split; [done..|]. intros n [->|Hn]%HA; [|auto]. exists g, base.
      split; [lia|done].
    - done.
    - intros g' Hg'' n [Hn|[->|Hn]%HA]; [apply (H4 g'); auto| |apply (H4 g'); auto].
      rewrite (changes_other g g' base new Hch ltac:(lia)). apply (H4 g'); auto.
    - intros j q [(<-&<-&_)|[Hne Hj]]%list_lookup_insert_Some; [done|].
      apply (ask_pc_ok _ (sc_asked (cs_ctrl s)) _ cur g base new); [done..| |by eapply H5].
      intros Hq. by apply Hne, (H7 i j p q g).
    - intros j q g' [(<-&<-&_)|[_ Hj]]%list_lookup_insert_Some; [done|by eapply H6].
    - intros j j' q q' g' [(<-&<-&_)|[_ Hj]]%list_lookup_insert_Some; [done|].
      intros [(<-&<-&_)|[_ Hj']]%list_lookup_insert_Some; [done|by eapply H7].
    - intros Hs. destruct (H8 Hs) as [R1 R2]. split; [done|]. intros n g' [->|Hn]%HA En Hv; [|by eapply R2].
      destruct (decide (g' = g)) as [->|Hne]; [done|]. apply R1.
      rewrite (changes_other g g' base new Hch Hne) in Hv.
      by rewrite (hi_unique _ _ _ H2 cur base (hi_cur _ _ _ H2) Hb ltac:(lia)). }
  split; simpl in *; [done|done|done|done| | | |done].
  - intros j q [(<-&<-&_)|[Hne Hj]]%list_lookup_insert_Some; [done|].
    apply (C5 j q). by rewrite list_lookup_insert_ne by done.
  - intros j q g' [(<-&<-&_)|[_ Hj]]%list_lookup_insert_Some; [|by eapply H6]. intros E. rewrite Hg' in E.
    by injection E as <-.
  - assert (forall j q g0, <[i := p']> (cs_pcs s) !! j = Some q -> pc_gid q = Some g0 ->
              exists q', cs_pcs s !! j = Some q' /\ pc_gid q' = Some g0) as Hold.
    { intros j q g0 [(<-&<-&_)|[_ Hj]]%list_lookup_insert_Some Hq; [|by eauto]. exists p. split; congruence. }
    intros j j' q q' g0 Hj Hj' Hq Hq'. destruct (Hold j q g0 Hj Hq) as (r&?&?), (Hold j' q' g0 Hj' Hq') as (r'&?&?).
    by eapply H7.
Qed.

Lemma cinv_weaken k k' s cur : k <= k' -> cinv k s cur -> cinv k' s cur.
Proof. intros Hk [H1 H2 H3 H4 H5 H6 H7 H8]. split; [done|done|lia|done..]. Qed.

(** A goroutine takes a new id and starts the group. *)
Lemma cinv_start k s cur i :
  cinv k s cur -> k < 2 ^ 62 -> cs_pcs s !! i = Some PLoop ->
  cinv (k + 1) (set_pc i (PStarted (cs_ngid s)) (start_group (cs_ngid s) (take_gid s).1)) cur.
Proof.
  intros [H1 H2 H3 H4 H5 H6 H7 H8] Hk Hi. unfold take_gid, start_group. simpl.
  assert (i64 (cs_ngid s + 1) = cs_ngid s + 1) as -> by (unfold Gid1 in H3; apply i64_small; lia).
  split; simpl; [done|done|lia| | | | |].
  - intros g Hg. apply H4. lia.
  - intros j q [(<-&<-&_)|[_ Hj]]%list_lookup_insert_Some; [|by eapply H5]. apply H4. lia.
  - intros j q g [(<-&<-&_)|[_ Hj]]%list_lookup_insert_Some Hq.
    + injection Hq as <-. split; [lia|set_solver +].
    + destruct (H6 j q g Hj Hq). split; [lia|set_solver].
  - intros j j' q q' g [(<-&<-&_)|[Hne Hj]]%list_lookup_insert_Some [(<-&<-&_)|[Hne' Hj']]%list_lookup_insert_Some Hq Hq'.
    + done.
    + injection Hq as <-. destruct (H6 j' q' _ Hj' Hq'). lia.
    + injection Hq' as <-. destruct (H6 j q _ Hj Hq). lia.
    + by eapply H7.
  - intros Hs. destruct (H8 Hs) as [R1 R2]. split; [intros g Hg; specialize (R1 g Hg)|intros n g Hn En Hv; specialize (R2 n g Hn En Hv)];
      set_solver.
Qed.

(** A goroutine ends its group, which is no member any more. *)
Lemma cinv_exit k s cur i g :
  cinv k s cur -> cs_pcs s !! i = Some (PCheck3 g) -> IsMember cur g = false ->
  exists s', exit_group g s = Ret s' /\ cinv k (set_pc i PLoop s') cur.
Proof.
  intros Hc Hi Hm. pose proof Hc as [H1 H2 H3 H4 H5 H6 H7 H8]. destruct (H6 i _ g Hi eq_refl) as [Hgid Hrun].
  unfold exit_group. rewrite decide_True by done. eexists. split; [done|].
  destruct (cinv_set_pc k s cur i _ PLoop Hc Hi (or_intror eq_refl) I) as [C1 C2 C3 C4 C5 C6 C7 C8]. simpl in *.
  split; simpl; [done..| |done|].
  - intros j q g' [(<-&<-&_)|[Hne Hj]]%list_lookup_insert_Some Hq; [done|]. destruct (H6 j q g' Hj Hq). split; [done|].
    assert (g' <> g) by (intros ->; by apply Hne, (H7 i j (PCheck3 g) q g)). set_solver.
  - intros Hs. destruct (H8 Hs) as [R1 R2]. destruct (hi_ok _ _ _ H2 cur (hi_cur _ _ _ H2)) as [(Hwf&Hb&_) _].
    assert (~ valid cur g) as Hg.
    { intros Hv. rewrite balanced_member in Hm; [done..|apply Hs, H2|done]. }
    split; [intros g' Hg'; specialize (R1 g' Hg')|intros n g' Hn En Hv; specialize (R2 n g' Hn En Hv)];
      (apply elem_of_difference; split; [done|]); intros ->%elem_of_singleton; [done|].
    specialize (H5 i _ Hi n cur Hn (hi_cur _ _ _ H2) En Hg Hv). lia.
Qed.

(** The controllers make progress. *)
Lemma cinv_progress k s cur c' :
  cinv k s cur -> k < 2 ^ 62 -> sc_progress (cs_ctrl s) c' ->
  exists cur', cinv (k + 1) (mkC c' (cs_ngid s) (cs_running s) (cs_pcs s) (note c' (cs_hist s))) cur'.
Proof.
  intros Hc Hk Hp. pose proof Hc as [H1 H2 H3 H4 H5 H6 H7 H8].
  assert (forall n, n ∈ sc_asked c' -> n ∈ sc_asked (cs_ctrl s)) as HA by (intros n; by apply progress_asked).
  unfold note. destruct (progress_query _ _ Hp) as [E|(old&new&Eo&Hnew&En&E)].
  - exists cur. rewrite E, H1.
    assert (forall a, a ∈ cur :: cs_hist s <-> a ∈ cs_hist s) as HH.
    { intros a. rewrite elem_of_cons. split; [intros [->|?]; [apply H2|done]|by right]. }
    assert (forall p, pc_ok (cs_hist s) (sc_asked (cs_ctrl s)) cur p -> pc_ok (cur :: cs_hist s) (sc_asked c') cur p) as Hpc.
    { intros p. destruct p as [|g|g n|g|g|g|g|g n|g|g|]; simpl; unfold nowhere, no_leave, join_past;
        try setoid_rewrite HH; naive_solver. }
    split; simpl; [by rewrite E| |lia| | |done|done|].
    + destruct H2 as [X1 X2 X3 X4]. split; [by left|setoid_rewrite HH; done|setoid_rewrite HH; done|].
      intros n Hn%HA%X4. setoid_rewrite HH. done.
    + intros g Hg n [Hn%HH|Hn%HA]; apply (H4 g); auto.
    + intros j q Hj. by eapply Hpc, H5.
    + intros Hsm. destruct H8 as [R1 R2]; [intros a Ha; apply Hsm; by right|]. split; [done|]. intros n g Hn%HA. by apply R2.
  - rewrite H1 in Eo. injection Eo as <-. rewrite E. exists new.
    destruct (hi_ok _ _ _ H2 cur (hi_cur _ _ _ H2)) as [_ Hcur]. rewrite i64_small in En by lia.
    split; simpl; [by rewrite E|by eapply install_history|lia| | |done|done|].
    + intros g Hg n [[->|Hn]%elem_of_cons|Hn%HA]; apply (H4 g); auto.
    + intros j q Hj. eapply install_pc_ok; [done..|]. by eapply H5.
    + intros Hs. destruct H8 as [R1 R2]; [intros a Ha; apply Hs; by right|]. split; [intros g Hg; by apply (R2 new)|].
      intros n g Hn%HA En' _. destruct (asked_Num _ _ _ _ H2 Hn). lia.
Qed.

Lemma cinv_query k s cur : cinv k s cur -> query s = Ret cur.
Proof. intros Hc. unfold query. by rewrite (ci_query _ _ _ Hc). Qed.

Lemma cinv_goroutine k s cur i p :
  cinv k s cur -> k < 2 ^ 62 -> cs_pcs s !! i = Some p ->
  exists s' cur', goroutine i p s = Ret (Some s') /\ cinv (k + 1) s' cur'.
Proof.
  intros Hc Hk Hi. pose proof Hc as [H1 H2 H3 H4 H5 H6 H7 H8]. pose proof (H5 i p Hi) as Hok.
  pose proof (cinv_query _ _ _ Hc) as Hq. destruct (hi_ok _ _ _ H2 cur (hi_cur _ _ _ H2)) as [Hcur Hnum].
  assert (forall p', pc_gid p' = pc_gid p \/ pc_gid p' = None -> pc_ok (cs_hist s) (sc_asked (cs_ctrl s)) cur p' ->
            cinv (k + 1) (set_pc i p' s) cur) as Hmove.
  { intros p' Hg Hok'. apply (cinv_weaken k); [lia|]. by eapply cinv_set_pc. }
  destruct p as [|g|g new|g|g|g|g|g new|g|g|]; cbn [goroutine]; rewrite ?Hq; run_go; simpl in Hok.
  - exists (set_pc i (PStarted (cs_ngid s)) (start_group (cs_ngid s) (take_gid s).1)), cur. split; [done|]. by apply cinv_start.
  - destruct (join_config_spec cur g Hcur) as (new&->&Hj); [apply Hok; left; apply H2|lia|]. cbn [gbind].
    eexists _, cur. split; [done|]. apply Hmove; [by left|]. split; [done|]. exists cur. split; [apply H2|done].
  - destruct Hok as (Hno&base&Hb&Hj). eexists _, cur. split; [done|]. apply (cinv_weaken k); [lia|].
    apply (cinv_ask k s cur i (PJoin g new) _ g base new); [done..|by left|]. intros n b _ Hb' _ Hv.
    exfalso. apply (Hno b); auto.
  - eexists _, cur. split; [done|]. by apply Hmove; [left|].
  - eexists _, cur. split; [done|]. by apply Hmove; [left|].
  - destruct (IsMember cur g) eqn:Hm; eexists _, cur; (split; [done|]); [|by apply Hmove; [right|]].
    apply Hmove; [by left|]. apply IsMember_spec in Hm. destruct Hcur as (_&[Hv _]&_). rewrite list.Forall_forall in Hv.
    specialize (Hv g Hm). split; [done|]. split; [|done]. intros n b Hn Hb En Hnv Hnv'.
    destruct (hi_ok _ _ _ H2 b Hb) as [_ Hr]. destruct (decide (Num b = Num cur)) as [E|]; [|lia].
    by rewrite (hi_unique _ _ _ H2 b cur Hb (hi_cur _ _ _ H2) E) in Hnv.
  - destruct Hok as (Hno&Hj&Hv). destruct (H6 i _ g Hi eq_refl) as [Hgid _].
    destruct (leave_config_spec cur g Hcur Hv) as (new&->&Hl); [unfold Gid1 in *; lia|lia|]. cbn [gbind].
    eexists _, cur. split; [done|]. apply Hmove; [by left|]. split; [done|]. exists cur. split; [apply H2|done].
  - destruct Hok as (Hj&base&Hb&Hl). eexists _, cur. split; [done|]. apply (cinv_weaken k); [lia|].
    apply (cinv_ask k s cur i (PLeft g new) _ g base new); [done..|by right|]. intros n b [->|Hn]%ask_asked Hb' En Hnv Hnv'.
    + destruct Hl as (_&_&E). unfold valid in Hnv'. rewrite E, lookup_delete_eq in Hnv'. by destruct Hnv'.
    + by eapply Hj.
  - eexists _, cur. split; [done|]. by apply Hmove; [left|].
  - destruct (IsMember cur g) eqn:Hm; [eexists _, cur; split; [done|]; by apply Hmove; [right|]|].
    destruct (cinv_exit k s cur i g Hc Hi Hm) as (s'&->&Hc'). run_go. eexists _, cur. split; [done|].
    apply (cinv_weaken k); [lia|done].
  - eexists _, cur. split; [done|]. apply (cinv_weaken k); [lia|done].
Qed.
End concur_lemmas.

(** ** [partitionCtrler] *)

(** What the goroutine of the cut-off controller is doing: nothing yet, or the joins and the
    leaves of the group [ngid]. *)
Inductive pstate := PNone | PJOIN | PLEAVE.

#[export] Instance pstate_eq_dec : EqDecision pstate.
Proof. solve_decision. Defined.

(** The checks on the configuration [cfg] that the second controller has after recovery, when the
    configuration was numbered [num] at the start; the result says if the group is to leave. *)
Definition partition_check (num : Z) (state : pstate) (ngid : Z) (cfg : ShardConfig) : go bool :=
  if decide (Num cfg <= num) then Crash Fatal
  else
    let present := IsMember cfg ngid in
    if (bool_decide (state = PJOIN) && negb present) || (bool_decide (state = PLEAVE) && present) then Crash Fatal
    else Ret (bool_decide (state = PJOIN) && present).

Section concur_theorems.
  Context {K : Type} `{SharedCtrlerLaws K}.

(** A step of the system that neither crashes nor runs out of fuel. *)
Definition cmove (s s' : csys K) : Prop := cstep s (Ret (Some s')).

Lemma cinv_cstep k s cur r :
  cinv k s cur -> k < 2 ^ 62 -> cstep s r -> exists s' cur', r = Ret (Some s') /\ cinv (k + 1) s' cur'.
Proof.
  intros Hc Hk Hs. destruct Hs as [s i p Hi|s c' Hp|s i Hi].
  - by apply (cinv_goroutine k s cur).
  - destruct (cinv_progress k s cur c' Hc Hk Hp) as [cur' Hc']. eauto.
  - eexists _, cur. split; [done|]. apply (cinv_weaken k); [lia|]. by eapply cinv_set_pc; [| |right|].
Qed.

Lemma cinv_nmoves n : forall k s s' cur,
  cinv k s cur -> k + Z.of_nat n < 2 ^ 62 -> nsteps cmove n s s' -> exists cur', cinv (k + Z.of_nat n) s' cur'.
Proof.
  induction n as [|n IH]; intros k s s' cur Hc Hk Hs; inversion Hs; subst.
  - exists cur. by rewrite Z.add_0_r.
  - destruct (cinv_cstep k s cur (Ret (Some y))) as (s1&cur1&E&Hc1); [done|lia|done|]. injection E as <-.
    replace (k + Z.of_nat (S n)) with (k + 1 + Z.of_nat n) by lia. eapply IH; [exact Hc1|lia|done].
Qed.

(** The system as it starts, after the set-up. *)
Lemma cinv_start_state c cfg ngid running n :
  sc_query c = Some cfg -> sc_asked c = [] -> config_ok cfg -> 0 <= Num cfg -> Gid1 < ngid ->
  (forall g, valid cfg g -> g < ngid /\ g ∈ running) ->
  cinv (Z.max (Num cfg) ngid) (cs_init c cfg ngid running n) cfg.
Proof.
  intros Hq Ha Hok Hn0 Hn Hg.
  assert (forall i p, replicate n PLoop !! i = Some p -> p = PLoop) as Hp by (intros i p; by intros [-> _]%lookup_replicate).
  split; simpl; rewrite ?Ha.
  - done.
  - split.
    + by left.
    + intros a ->%list_elem_of_singleton. split; [done|lia].
    + by intros a b ->%list_elem_of_singleton ->%list_elem_of_singleton.
    + intros m Hm. by apply elem_of_nil in Hm.
  - lia.
  - intros g Hge m [->%list_elem_of_singleton|Hm%elem_of_nil]; [|done]. intros Hv%Hg. lia.
  - by intros i p ->%Hp.
  - by intros i p g ->%Hp.
  - by intros i j p q g ->%Hp.
  - intros _. split; [intros g Hv; by apply Hg|]. intros m g Hm. by apply elem_of_nil in Hm.
Qed.

(** Concurrent controllers are safe.  However the goroutines of [concurCtrler] and the
    controllers are scheduled, for fewer than [2^61] steps: no step crashes (no join of a group that
    is there, no leave of one that is not, no exit of a group that does not run) and
    [Rebalance] always ends; the configuration is well formed and balanced and still has the first
    group; and as long as there were never more groups than shards, every group of the
    configuration runs. *)
Theorem concur_ctrler_safe c cfg ngid running n k s :
  sc_query c = Some cfg -> sc_asked c = [] -> config_ok cfg -> 0 <= Num cfg < 2 ^ 61 -> Gid1 < ngid < 2 ^ 61 ->
  (forall g, valid cfg g -> g < ngid /\ g ∈ running) ->
  Z.of_nat k < 2 ^ 61 -> nsteps cmove k (cs_init c cfg ngid running n) s ->
  (forall r, cstep s r -> exists s', r = Ret (Some s'))
  /\ exists cur, sc_query (cs_ctrl s) = Some cur /\ config_ok cur
       /\ (small (cs_hist s) -> forall g, valid cur g -> g ∈ cs_running s).
Proof.
  intros Hq Ha Hok Hn0 Hn Hg Hk Hs.
  destruct (cinv_nmoves k _ _ _ _ (cinv_start_state c cfg ngid running n Hq Ha Hok ltac:(lia) ltac:(lia) Hg) ltac:(lia) Hs)
    as [cur Hc].
  split.
  - intros r Hr. destruct (cinv_cstep _ _ _ r Hc ltac:(lia) Hr) as (s'&_&->&_). by eexists.
  - exists cur. split; [apply Hc|]. split; [by destruct (hi_ok _ _ _ (ci_history _ _ _ Hc) cur (hi_cur _ _ _ (ci_history _ _ _ Hc)))|].
    intros Hsm. by destruct (ci_running _ _ _ Hc Hsm).
Qed.
End concur_theorems.

(** The checks of [partitionCtrler] after a recovery: they pass if the change the cut-off controller
    was making has been finished (of at most twelve groups), and the joined group then leaves; they fail if nothing
    has changed, or if the change the goroutine was about to make is not there. *)
Theorem partition_check_recovery num g base new :
  config_ok base -> num <= Num base ->
  (joins g base new -> (size (Groups new) <= Z.to_nat NShards)%nat -> partition_check num PJOIN g new = Ret true)
  /\ (leaves g base new -> partition_check num PLEAVE g new = Ret false)
  /\ (~ valid base g -> partition_check num PJOIN g base = Crash Fatal)
  /\ (valid base g -> (size (Groups base) <= Z.to_nat NShards)%nat -> partition_check num PLEAVE g base = Crash Fatal).
Proof.
  intros (Hwf&Hb&_) Hnum. unfold partition_check. split; [|split; [|split]].
  - intros (En&(Hwf'&Hb'&_)&_&Eg) Hsz. rewrite decide_False by lia.
    rewrite balanced_member; [done..| |]; [done|]. unfold valid. rewrite Eg, lookup_insert_eq. by eexists.
  - intros (En&(_&Hb'&_)&Eg). rewrite decide_False by lia. rewrite not_valid_not_member; [done..|].
    unfold valid. rewrite Eg, lookup_delete_eq. by intros [].
  - intros Hv. case_decide; [done|]. by rewrite not_valid_not_member.
  - intros Hv Hsz. case_decide; [done|]. by rewrite balanced_member.
Qed.

(** *** A concrete controller *)

(** The configuration in a variable; a change that was asked for is made if it is still the next one. *)
Definition cas_ctrler : Type := option ShardConfig * list ShardConfig.

#[local] Instance cas_SharedCtrler : SharedCtrler cas_ctrler := {|
  sc_query c := c.1;
  sc_asked c := c.2;
  sc_ask new c := (c.1, new :: c.2);
  sc_progress c c' :=
    exists old new, c.1 = Some old /\ new ∈ c.2 /\ Num new = i64 (Num old + 1) /\ c' = (Some new, c.2);
|}.

#[local] Instance cas_laws : SharedCtrlerLaws cas_ctrler.
Proof.
  split; simpl.
  - done.
  - by intros new c n [->|?]%elem_of_cons; [left|right].
  - by intros c c' n (old&new&_&_&_&->).
  - intros c c' (old&new&E&Hn&En&->). right. by exists old, new.
Qed.

Lemma setup_config_ok :
  exists cfg, JoinBalance rebalance_fuel [(Gid1, srv_names Gid1)] MakeShardConfig = Ret (Some (cfg, true))
    /\ config_ok cfg /\ Num cfg = 1 /\ forall g, valid cfg g -> g = Gid1.
Proof.
  destruct (JoinBalance_one MakeShardConfig Gid1) as (c1&E&Eg&En&Es); [done|by intros g l|done|].
  destruct (Rebalance_returns c1) as (c2&Er&Eg2&En2&Hwf2&Hb&_); [unfold wf; by rewrite Es|].
  assert (Groups c2 = {[Gid1 := srv_names Gid1]}) as Eg' by (rewrite Eg2, Eg; apply insert_empty).
  exists c2. rewrite E, Er. split; [done|]. split; [split; [done|]; split; [|split]|].
  - apply Hb. rewrite Eg. apply insert_non_empty.
  - rewrite Eg'. by intros g l [<- <-]%lookup_singleton_Some.
  - unfold valid. rewrite Eg', lookup_singleton_eq. by eexists.
  - split; [by rewrite En2, En|]. intros g [l Hl]. rewrite Eg' in Hl. by apply lookup_singleton_Some in Hl as [<- _].
Qed.

Lemma cas_first_start cfg :
  cmove (cs_init ((Some cfg, []) : cas_ctrler) cfg 2 {[ Gid1 ]} 4)
    (set_pc 0 (PStarted 2) (start_group 2 (take_gid (cs_init (Some cfg, []) cfg 2 {[ Gid1 ]} 4)).1)).
Proof. exact (c_go (cs_init ((Some cfg, []) : cas_ctrler) cfg 2 {[ Gid1 ]} 4) 0 PLoop eq_refl). Qed.

(** One goroutine of four has started its group. *)
Lemma concur_ctrler_safe_witness :
  exists s : csys cas_ctrler, cs_pcs s = [PStarted 2; PLoop; PLoop; PLoop] /\ 2 ∈ cs_running s
    /\ forall r, cstep s r -> exists s', r = Ret (Some s').
Proof.
  destruct setup_config_ok as (cfg&_&Hok&Hnum&Hv).
  destruct (concur_ctrler_safe ((Some cfg, []) : cas_ctrler) cfg 2 {[ Gid1 ]} 4 1
              (set_pc 0 (PStarted 2) (start_group 2 (take_gid (cs_init (Some cfg, []) cfg 2 {[ Gid1 ]} 4)).1)))
    as [Hs _].
  - reflexivity.
  - reflexivity.
  - exact Hok.
  - rewrite Hnum. lia.
  - unfold Gid1. lia.
  - intros g ->%Hv. unfold Gid1. split; [lia|set_solver +].
  - lia.
  - apply nsteps_once, cas_first_start.
  - eexists. split; [|split; [|exact Hs]]; [reflexivity|simpl; set_solver +].
Defined.
