(* ===== verification/ShardPartition.v ===== *)
(** * A controller that is cut off

    [partitionCtrler] of [src/src/shardkv1/test.go]: a goroutine joins new groups and lets them leave
    again through a controller, the test cuts this controller off in the middle of a change, a second
    controller takes over, the test looks at what it finds, and the first controller is connected
    again.  The steps of the goroutine are those of [ShardConcur], whose class of shared controllers
    and whose invariant are used here; the checks are [partition_check].

    What the test relies on of the second controller (still to be written: the repository's is a stub), which nobody supersedes while the first is cut
    off: [InitController] returns when no change that was asked for is still under way ([settled]), and
    [ChangeConfigTo] when the change has been made. *)

From S2P Require Import Prelude ShardCfg TesterGroup ShardTest ShardConcur.
Local Open Scope Z_scope.

(** ** The test *)

(** Where [partitionCtrler] is: the goroutine runs; its controller is cut off; the second controller has
    been initialised and has returned a configuration; in [leave], before its [Query], before and in its
    [ChangeConfigTo]; at the check of [leaveGroups]; in the rest of the test; at its end. *)
Inductive mpc :=
  | MRun
  | MCut
  | MNew (cfg : ShardConfig)
  | MLeave
  | MLeft (new : ShardConfig)
  | MLeaving (new : ShardConfig)
  | MCheck
  | MHeal
  | MDone.

Section partition.
  Context {K : Type} `{SharedCtrler K}.

(** [p_sys] has the goroutine as its only one.  [p_num] is the number of the configuration at the start,
    [p_ngid] and [p_state] are the variables [ngid] and [state], [p_cut] says if the first controller's client is
    disconnected. *)
Record psys := mkP {
  p_sys : csys K; p_num : Z; p_ngid : Z; p_state : pstate; p_main : mpc; p_cut : bool;
}.

Definition with_sys (c : csys K) (s : psys) : psys := mkP c (p_num s) (p_ngid s) (p_state s) (p_main s) (p_cut s).
Definition with_main (m : mpc) (cut : bool) (s : psys) : psys := mkP (p_sys s) (p_num s) (p_ngid s) (p_state s) m cut.

(** One step of the goroutine, with its assignments; it returns when its group is not a member. *)
Definition pgoroutine (p : cpc) (s : psys) : go (option psys) :=
  match p with
  | PLoop =>
      do c <- goroutine 0 PLoop (p_sys s);
      Ret (Some (mkP c (p_num s) (cs_ngid (p_sys s)) PJOIN (p_main s) (p_cut s)))
  | PCheck2 g =>
      cfg ← query (p_sys s);
      if IsMember cfg g
      then Ret (Some (mkP (set_pc 0 (PLeave g) (p_sys s)) (p_num s) (p_ngid s) PLEAVE (p_main s) (p_cut s)))
      else Ret (Some (with_sys (set_pc 0 PStopped (p_sys s)) s))
  | _ => do c <- goroutine 0 p (p_sys s); Ret (Some (with_sys c s))
  end.

(** What is not part of a call of the controller can be done while it is cut off. *)
Definition in_call (p : cpc) : bool := match p with PLoop | PStopped => false | _ => true end.

(** No change that was asked for can be made next. *)
Definition settled (c : K) : Prop :=
  forall cur n, sc_query c = Some cur -> n ∈ sc_asked c -> Num n <> Num cur + 1.

(** The change to [new] has been made. *)
Definition made (new : ShardConfig) (c : K) : Prop := exists cur, sc_query c = Some cur /\ Num new <= Num cur.

(** The checks, on the variables of the goroutine; if the group is there, it is to leave. *)
Definition check_recovery (cfg : ShardConfig) (s : psys) : go (option psys) :=
  present ← partition_check (p_num s) (p_state s) (p_ngid s) cfg;
  Ret (Some (with_main (if (present : bool) then MLeave else MHeal) (p_cut s) s)).

(** The check of [leaveGroups]; its answer is not looked at. *)
Definition check_left (s : psys) : go (option psys) :=
  cfg ← query (p_sys s);
  if IsMember cfg (p_ngid s) then Ret (Some (with_main MHeal (p_cut s) s))
  else c ← exit_group (p_ngid s) (p_sys s); Ret (Some (with_main MHeal (p_cut s) (with_sys c s))).

Definition progressed (c' : K) (s : csys K) : csys K :=
  mkC c' (cs_ngid s) (cs_running s) (cs_pcs s) (note c' (cs_hist s)).

Inductive pstep : psys -> go (option psys) -> Prop :=
  | p_goroutine s p : cs_pcs (p_sys s) !! 0%nat = Some p -> p_cut s && in_call p = false -> pstep s (pgoroutine p s)
  (* the controllers make progress *)
  | p_progress s c' : sc_progress (cs_ctrl (p_sys s)) c' -> pstep s (Ret (Some (with_sys (progressed c' (p_sys s)) s)))
  (* clnt.DisconnectAll *)
  | p_disconnect s : p_main s = MRun -> pstep s (Ret (Some (with_main MCut true s)))
  (* sck0.InitController and sck0.Query *)
  | p_recover s :
      p_main s = MCut -> settled (cs_ctrl (p_sys s)) ->
      pstep s (cfg ← query (p_sys s); Ret (Some (with_main (MNew cfg) (p_cut s) s)))
  | p_check s cfg : p_main s = MNew cfg -> pstep s (check_recovery cfg s)
  (* leaveGroups with sck0 *)
  | p_leave s :
      p_main s = MLeave ->
      pstep s (cfg ← query (p_sys s); do new <- leave_config cfg (p_ngid s); Ret (Some (with_main (MLeft new) (p_cut s) s)))
  | p_left s new :
      p_main s = MLeft new ->
      pstep s (Ret (Some (with_main (MLeaving new) (p_cut s) (with_sys (set_ctrl (sc_ask new (cs_ctrl (p_sys s))) (p_sys s)) s))))
  | p_leaving s new :
      p_main s = MLeaving new -> made new (cs_ctrl (p_sys s)) -> pstep s (Ret (Some (with_main MCheck (p_cut s) s)))
  | p_check_left s : p_main s = MCheck -> pstep s (check_left s)
  (* clnt.ConnectAll, if the test was made with partitions; the Gets and DeleteClient *)
  | p_connect s : p_main s = MHeal -> pstep s (Ret (Some (with_main MHeal false s)))
  | p_delete s : p_main s = MHeal -> pstep s (Ret (Some (with_main MDone true s))).

Definition p_init (c : K) (cfg : ShardConfig) (ngid : Z) (running : gset Z) : psys :=
  mkP (cs_init c cfg ngid running 1) (Num cfg) 0 PNone MRun false.
End partition.
Arguments psys K : clear implicits.

(** ** The invariant *)

Section partition_lemmas.
  Context {K : Type} `{SharedCtrlerLaws K}.

(** *** Steps of the parts *)

(** The system as if [a] were where the goroutine is. *)
Definition as_if (a : cpc) (c : csys K) : csys K := mkC (cs_ctrl c) (cs_ngid c) (cs_running c) [a] (cs_hist c).

Lemma as_if_same a c : cs_pcs c = [a] -> as_if a c = c.
Proof. destruct c; simpl. by intros ->. Qed.

Lemma cinv_cur k c cur c' : cinv k c cur -> sc_query (cs_ctrl c) = Some c' -> c' = cur.
Proof. intros Hc E. rewrite (ci_query _ _ _ Hc) in E. by injection E. Qed.

Lemma cinv_move k c cur a a' :
  cinv k (as_if a c) cur -> pc_gid a' = pc_gid a \/ pc_gid a' = None ->
  pc_ok (cs_hist c) (sc_asked (cs_ctrl c)) cur a' -> cinv k (as_if a' c) cur.
Proof. intros Hc Hg Hok. exact (cinv_set_pc k (as_if a c) cur 0 a a' Hc eq_refl Hg Hok). Qed.

(** Where the goroutine is after a step. *)
Definition next_pc (ngid : Z) (p p' : cpc) : Prop :=
  match p with
  | PLoop => p' = PStarted ngid
  | PStarted g => exists new, p' = PJoin g new
  | PJoin g _ => p' = PJoining g
  | PJoining g => p' = PCheck1 g
  | PCheck1 g => p' = PCheck2 g
  | PCheck2 g => p' = PLeave g \/ p' = PLoop
  | PLeave g => exists new, p' = PLeft g new
  | PLeft g _ => p' = PLeaving g
  | PLeaving g => p' = PCheck3 g
  | PCheck3 g => p' = PLoop
  | PStopped => p' = PStopped
  end.

Lemma goroutine_next p c c' :
  cs_pcs c = [p] -> goroutine 0 p c = Ret (Some c') ->
  exists p', cs_pcs c' = [p'] /\ next_pc (cs_ngid c) p p' /\ cs_hist c' = cs_hist c
    /\ sc_query (cs_ctrl c') = sc_query (cs_ctrl c)
    /\ cs_ngid c' = match p with PLoop => i64 (cs_ngid c + 1) | _ => cs_ngid c end.
Proof.
  intros Hp.
  assert (forall (c1 : csys K) p', cs_pcs c1 = cs_pcs c -> cs_pcs (set_pc 0 p' c1) = [p']) as Hset.
  { intros c1 p' E. simpl. by rewrite E, Hp. }
  destruct p as [|g|g n|g|g|g|g|g n|g|g|]; cbn [goroutine].
  - intros [= <-]. eexists. split; [by apply Hset|done].
  - destruct (query c) as [cfg|]; run_go; [|done]. destruct (join_config cfg g _) as [[new|]|]; cbn [gbind]; [|done..].
    intros [= <-]. eexists. split; [by apply Hset|]. split; [by eexists|done].
  - intros [= <-]. eexists. split; [by apply Hset|]. split; [done|]. split; [done|]. split; [apply ask_query|done].
  - intros [= <-]. eexists. split; [by apply Hset|done].
  - destruct (query c) as [cfg|]; run_go; [|done]. intros [= <-]. eexists. split; [by apply Hset|done].
  - destruct (query c) as [cfg|]; run_go; [|done]. intros [= <-]. eexists. split; [by apply Hset|].
    split; [destruct (IsMember cfg g); simpl; auto|done].
  - destruct (query c) as [cfg|]; run_go; [|done]. destruct (leave_config cfg g) as [[new|]|]; cbn [gbind]; [|done..].
    intros [= <-]. eexists. split; [by apply Hset|]. split; [by eexists|done].
  - intros [= <-]. eexists. split; [by apply Hset|]. split; [done|]. split; [done|]. split; [apply ask_query|done].
  - intros [= <-]. eexists. split; [by apply Hset|done].
  - destruct (query c) as [cfg|]; run_go; [|done]. destruct (IsMember cfg g).
    + intros [= <-]. eexists. split; [by apply Hset|done].
    + unfold exit_group. case_decide; run_go; [|done]. intros [= <-]. eexists. split; [by apply Hset|done].
  - intros [= <-]. eexists. split; [exact Hp|done].
Qed.

(** The controllers install the next configuration that was asked for, or keep the one there is. *)
Lemma progress_cases k c cur c' :
  cinv k c cur -> k < 2 ^ 62 -> sc_progress (cs_ctrl c) c' ->
  exists cur', cinv (k + 1) (progressed c' c) cur' /\ (forall n, n ∈ sc_asked c' -> n ∈ sc_asked (cs_ctrl c))
    /\ (cur' = cur \/ cur' ∈ sc_asked (cs_ctrl c) /\ Num cur' = Num cur + 1)
    /\ forall b, b ∈ cs_hist (progressed c' c) -> b = cur' \/ b ∈ cs_hist c.
Proof.
  intros Hc Hk Hp. destruct (cinv_progress k c cur c' Hc Hk Hp) as [cur' Hc']. exists cur'.
  pose proof (ci_query _ _ _ Hc') as E. simpl in E.
  split; [done|]. split; [intros n; by apply progress_asked|]. split.
  - destruct (hi_ok _ _ _ (ci_history _ _ _ Hc) cur (hi_cur _ _ _ (ci_history _ _ _ Hc))) as [_ Hn].
    pose proof (ci_bound _ _ _ Hc) as [Hb _]. destruct (progress_query _ _ Hp) as [Eq|(old&new&Eo&Hnew&En&Eq)].
    + left. rewrite E, (ci_query _ _ _ Hc) in Eq. by injection Eq.
    + right. rewrite (ci_query _ _ _ Hc) in Eo. injection Eo as <-. rewrite E in Eq. injection Eq as ->.
      rewrite i64_small in En by lia. done.
  - intros b. simpl. unfold note. rewrite E. by intros [->|?]%elem_of_cons; [left|right].
Qed.

(** *** Groups *)

(** Group [g] is out and will not come back. *)
Definition gone (g : Z) (c : csys K) (cur : ShardConfig) : Prop :=
  join_past g (cs_hist c) (sc_asked (cs_ctrl c)) cur /\ ~ valid cur g.

Lemma join_past_progress g k c cur c' cur' :
  cinv k c cur -> join_past g (cs_hist c) (sc_asked (cs_ctrl c)) cur ->
  (forall n, n ∈ sc_asked c' -> n ∈ sc_asked (cs_ctrl c)) ->
  (cur' = cur \/ cur' ∈ sc_asked (cs_ctrl c) /\ Num cur' = Num cur + 1) ->
  (forall b, b ∈ cs_hist (progressed c' c) -> b = cur' \/ b ∈ cs_hist c) ->
  join_past g (cs_hist (progressed c' c)) (sc_asked c') cur'.
Proof.
  intros Hc Hj HA Hcur HH n b Hn%HA Hb En Hv Hv'. pose proof (ci_history _ _ _ Hc) as Hh.
  destruct (HH b Hb) as [->|Hb'].
  - destruct Hcur as [->|[_ E]]; [eapply (Hj n cur); [done|apply Hh|done..]|].
    destruct (asked_Num _ _ _ _ Hh Hn). lia.
  - specialize (Hj n b Hn Hb' En Hv Hv'). destruct Hcur as [->|[_ E]]; lia.
Qed.

Lemma gone_progress g k c cur c' cur' :
  cinv k c cur -> gone g c cur ->
  (forall n, n ∈ sc_asked c' -> n ∈ sc_asked (cs_ctrl c)) ->
  (cur' = cur \/ cur' ∈ sc_asked (cs_ctrl c) /\ Num cur' = Num cur + 1) ->
  (forall b, b ∈ cs_hist (progressed c' c) -> b = cur' \/ b ∈ cs_hist c) ->
  gone g (progressed c' c) cur'.
Proof.
  intros Hc [Hj Hv] HA Hcur HH. split; [by eapply join_past_progress|].
  destruct Hcur as [->|[Hin E]]; [done|]. intros Hv'. pose proof (ci_history _ _ _ Hc) as Hh.
  specialize (Hj cur' cur Hin (hi_cur _ _ _ Hh) E Hv Hv'). lia.
Qed.

Lemma settled_progress c cur c' cur' :
  sc_query (cs_ctrl c) = Some cur -> settled (cs_ctrl c) ->
  (forall n, n ∈ sc_asked c' -> n ∈ sc_asked (cs_ctrl c)) ->
  (cur' = cur \/ cur' ∈ sc_asked (cs_ctrl c) /\ Num cur' = Num cur + 1) -> sc_query c' = Some cur' ->
  cur' = cur /\ settled c'.
Proof.
  intros Hq Hs HA Hcur Hq'. assert (cur' = cur) as ->.
  { destruct Hcur as [->|[Hin E]]; [done|]. by destruct (Hs cur cur' Hq Hin). }
  split; [done|]. intros cur0 n E Hn. rewrite Hq' in E. injection E as <-. by apply Hs; [|apply HA].
Qed.

(** *** The phases *)

(** The goroutine has asked for the join of [g], and not for its leave. *)
Definition joined_pc (g : Z) (p : cpc) : Prop := p = PJoining g \/ p = PCheck1 g \/ p = PCheck2 g.

(** What the variables of the goroutine say about where it is. *)
Definition vars_ok (s : psys K) (a : cpc) (cur : ShardConfig) : Prop :=
  match p_state s with
  | PNone => a = PLoop
  | PJOIN => a = PStarted (p_ngid s) \/ (exists new, a = PJoin (p_ngid s) new) \/ joined_pc (p_ngid s) a
  | PLEAVE =>
      p_num s < Num cur
      /\ (a = PLeave (p_ngid s) \/ (exists new, a = PLeft (p_ngid s) new) \/ a = PLeaving (p_ngid s)
          \/ a = PCheck3 (p_ngid s) \/ a = PLoop)
  end.

(** The configuration [c0] at the start of the test, when [ng0] was the next group. *)
Definition started (c0 : ShardConfig) (ng0 : Z) (s : psys K) : Prop :=
  c0 ∈ cs_hist (p_sys s) /\ Num c0 = p_num s /\ (forall g, valid c0 g -> g < ng0) /\ ng0 <= cs_ngid (p_sys s).

(** The goroutine has its group: it is at [a], or it has returned because it did not see its group. *)
Record owner (k : Z) (c0 : ShardConfig) (ng0 : Z) (s : psys K) (cur : ShardConfig) (a p : cpc) : Prop := {
  ow_inv : cinv k (as_if a (p_sys s)) cur;
  ow_pc : p = a \/ p = PStopped /\ a = PCheck2 (p_ngid s);
  ow_vars : vars_ok s a cur;
  ow_start : started c0 ng0 s;
  ow_gid g : pc_gid a = Some g -> ng0 <= g;
}.

(** The test has taken the group out of the goroutine's hands; [a] is where the test is with it. *)
Record deposed (k : Z) (s : psys K) (cur : ShardConfig) (a p : cpc) : Prop := {
  de_inv : cinv k (as_if a (p_sys s)) cur;
  de_pc : joined_pc (p_ngid s) p \/ p = PStopped;
}.

(** The leave that the test has asked for is the next change, or has been made. *)
Definition under_way (g : Z) (new : ShardConfig) (c : csys K) (cur : ShardConfig) : Prop :=
  ~ valid new g
  /\ (Num new = Num cur + 1 /\ (forall n, n ∈ sc_asked (cs_ctrl c) -> Num n = Num cur + 1 -> n = new)
      \/ ~ valid cur g).

Definition phase_ok (k : Z) (c0 : ShardConfig) (ng0 : Z) (s : psys K) (cur : ShardConfig) (p : cpc) : Prop :=
  let g := p_ngid s in
  match p_main s with
  | MRun => exists a, owner k c0 ng0 s cur a p
  | MCut => p_cut s = true /\ exists a, owner k c0 ng0 s cur a p
  | MNew cfg => p_cut s = true /\ cfg = cur /\ settled (cs_ctrl (p_sys s)) /\ exists a, owner k c0 ng0 s cur a p
  | MLeave => p_cut s = true /\ settled (cs_ctrl (p_sys s)) /\ deposed k s cur (PLeave g) p
  | MLeft new => p_cut s = true /\ settled (cs_ctrl (p_sys s)) /\ deposed k s cur (PLeft g new) p /\ leaves g cur new
  | MLeaving new => p_cut s = true /\ deposed k s cur (PLeaving g) p /\ under_way g new (p_sys s) cur
  | MCheck => p_cut s = true /\ deposed k s cur (PCheck3 g) p /\ gone g (p_sys s) cur
  | MHeal => (exists a, owner k c0 ng0 s cur a p) \/ deposed k s cur PLoop p /\ gone g (p_sys s) cur
  | MDone => p_cut s = true /\ ((exists a, owner k c0 ng0 s cur a p) \/ deposed k s cur PLoop p /\ gone g (p_sys s) cur)
  end.

Definition pinv (k : Z) (c0 : ShardConfig) (ng0 : Z) (s : psys K) (cur : ShardConfig) : Prop :=
  exists p, cs_pcs (p_sys s) = [p] /\ phase_ok k c0 ng0 s cur p.

(** A group that is new since the start and a member shows that the configuration has changed. *)
Lemma member_later k c0 ng0 s cur a g :
  cinv k (as_if a (p_sys s)) cur -> started c0 ng0 s -> ng0 <= g -> valid cur g -> p_num s < Num cur.
Proof.
  intros Hc (H1&H2&H3&_) Hg Hv. pose proof (ci_history _ _ _ Hc) as Hh. destruct (hi_ok _ _ _ Hh c0 H1) as [_ Hn].
  destruct (decide (Num c0 = Num cur)) as [E|]; [|lia].
  rewrite (hi_unique _ _ _ Hh c0 cur H1 (hi_cur _ _ _ Hh) E) in H3. specialize (H3 g Hv). lia.
Qed.

Lemma member_valid k c cur g : cinv k c cur -> IsMember cur g = true -> valid cur g.
Proof.
  intros Hc Hm%IsMember_spec. pose proof (ci_history _ _ _ Hc) as Hh.
  destruct (hi_ok _ _ _ Hh cur (hi_cur _ _ _ Hh)) as [(_&[Hv _]&_) _]. rewrite list.Forall_forall in Hv. by apply Hv.
Qed.

(** *** Steps of the goroutine *)

(** [s'] differs from [s] in the system and the variables only. *)
Definition same_test (s s' : psys K) : Prop := p_main s' = p_main s /\ p_cut s' = p_cut s /\ p_num s' = p_num s.

Ltac next_vars s := unfold vars_ok, joined_pc in *; simpl in *; destruct (p_state s); naive_solver.

Lemma owner_step k c0 ng0 s cur a p :
  cs_pcs (p_sys s) = [p] -> owner k c0 ng0 s cur a p -> k < 2 ^ 62 ->
  exists s' p' a', pgoroutine p s = Ret (Some s') /\ same_test s s' /\ cs_pcs (p_sys s') = [p']
    /\ owner (k + 1) c0 ng0 s' cur a' p'.
Proof.
  intros Hp [Hc Hpc Hv (Hst1&Hst2&Hst3&Hst4) Hg] Hk.
  destruct Hpc as [<-|[-> Ea]].
  2: { exists (with_sys (p_sys s) s), PStopped, a. split; [done|]. split; [done|]. split; [done|].
       split; [by apply (cinv_weaken k); [lia|]|by right|done|by split_and!|done]. }
  rewrite as_if_same in Hc by done. pose proof (ci_bound _ _ _ Hc) as Hb.
  assert (cs_pcs (p_sys s) !! 0%nat = Some p) as Hl by (by rewrite Hp).
  destruct (cinv_goroutine k (p_sys s) cur 0 p Hc Hk Hl) as (c'&cur'&E&Hc').
  destruct (goroutine_next p (p_sys s) c' Hp E) as (p'&Hp'&Hnext&Hh&Hq&Hn).
  assert (cur' = cur) as -> by (eapply cinv_cur; [exact Hc|]; rewrite <-Hq; apply Hc').
  assert (ng0 <= cs_ngid c') as Hng.
  { rewrite Hn. destruct p; [rewrite i64_small by (unfold Gid1 in Hb; lia)|..]; lia. }
  assert (forall s', p_sys s' = c' -> p_num s' = p_num s -> vars_ok s' p' cur -> (forall g, pc_gid p' = Some g -> ng0 <= g) ->
            owner (k + 1) c0 ng0 s' cur p' p') as Hmk.
  { intros s' E1 E2 E3 E4. split; [by rewrite E1, as_if_same|by left|done| |done].
    unfold started. by rewrite E1, E2, Hh. }
  assert (pc_gid p' = pc_gid p -> vars_ok (with_sys c' s) p' cur ->
    exists s' p1 a', (do c <- Ret (Some c'); Ret (Some (with_sys c s))) = Ret (Some s') /\ same_test s s'
      /\ cs_pcs (p_sys s') = [p1] /\ owner (k + 1) c0 ng0 s' cur a' p1) as Hadv.
  { intros Eg Hv'. eexists _, p', p'. do 3 (split; [done|]). apply Hmk; [done..|]. by rewrite Eg. }
  destruct p as [|g|g n|g|g|g|g|g n|g|g|]; cbn [pgoroutine]; try (rewrite E; cbn [gbind]); simpl in Hnext.
  - subst p'. eexists _, (PStarted _), (PStarted _). do 3 (split; [done|]). apply Hmk; [done|done|by left|].
    intros g [= <-]. done.
  - destruct Hnext as [new ->]. apply Hadv; [done|]. next_vars s.
  - subst p'. apply Hadv; [done|]. next_vars s.
  - subst p'. apply Hadv; [done|]. next_vars s.
  - subst p'. apply Hadv; [done|]. next_vars s.
  - assert (g = p_ngid s) as -> by next_vars s.
    rewrite (cinv_query _ _ _ Hc). run_go. cbn [goroutine] in E. rewrite (cinv_query _ _ _ Hc) in E. cbn [mbind go_bind] in E.
    destruct (IsMember cur (p_ngid s)) eqn:Hm.
    + injection E as <-. eexists _, _, (PLeave (p_ngid s)). split; [done|]. split; [done|]. split; [by simpl; rewrite Hp|].
      assert (p' = PLeave (p_ngid s)) as -> by (simpl in Hp'; rewrite Hp in Hp'; by injection Hp').
      apply Hmk; [done|done| |done]. split; [|by left].
      apply (member_later k c0 ng0 s cur (PCheck2 (p_ngid s)) (p_ngid s)); [by rewrite as_if_same|done|by apply Hg|].
      by apply (member_valid k (p_sys s)).
    + eexists _, PStopped, (PCheck2 (p_ngid s)). split; [done|]. split; [done|]. split; [by simpl; rewrite Hp|].
      split; [|by right|done|done|done]. apply (cinv_weaken k); [lia|].
      change (cinv k (as_if (PCheck2 (p_ngid s)) (p_sys s)) cur). by rewrite as_if_same.
  - destruct Hnext as [new ->]. apply Hadv; [done|]. next_vars s.
  - subst p'. apply Hadv; [done|]. next_vars s.
  - subst p'. apply Hadv; [done|]. next_vars s.
  - subst p'. eexists _, PLoop, PLoop. do 3 (split; [done|]). apply Hmk; [done|done| |done]. next_vars s.
  - exfalso. next_vars s.
Qed.

(** A goroutine whose group is gone finds out, and returns. *)
Lemma deposed_step k s cur a p :
  cs_pcs (p_sys s) = [p] -> deposed k s cur a p -> gone (p_ngid s) (p_sys s) cur ->
  exists p', pgoroutine p s = Ret (Some (with_sys (set_pc 0 p' (p_sys s)) s)) /\ (joined_pc (p_ngid s) p' \/ p' = PStopped).
Proof.
  intros Hp [Hc Hpc] [_ Hv]. assert (query (p_sys s) = Ret cur) as Hq by (exact (cinv_query k (as_if a (p_sys s)) cur Hc)).
  pose proof (ci_history _ _ _ Hc) as Hh. destruct (hi_ok _ _ _ Hh cur (hi_cur _ _ _ Hh)) as [(_&Hb&_) _].
  destruct Hpc as [[->|[->| ->]]| ->].
  - exists (PCheck1 (p_ngid s)). split; [done|]. left. by right; left.
  - exists (PCheck2 (p_ngid s)). cbn [pgoroutine goroutine]. rewrite Hq. split; [done|]. left. by right; right.
  - exists PStopped. cbn [pgoroutine]. rewrite Hq. run_go. rewrite not_valid_not_member by done. split; [done|by right].
  - exists PStopped. split; [|by right]. cbn. do 2 f_equal. destruct s as [c num ng st m cut]. simpl in *. unfold with_sys. simpl. f_equal.
    destruct c. simpl in *. unfold set_pc. simpl. by rewrite Hp.
Qed.

(** *** Steps of the test *)

(** The test finds the group the goroutine has joined, and takes it over. *)
Lemma take_over k c0 ng0 s cur a p :
  owner k c0 ng0 s cur a p -> p_cut s = true -> p_state s = PJOIN -> IsMember cur (p_ngid s) = true -> k < 2 ^ 62 ->
  deposed (k + 1) s cur (PLeave (p_ngid s)) p.
Proof.
  intros [Hc Hpc Hv Hst Hg] _ Hs Hm Hk. pose proof (member_valid _ _ _ _ Hc Hm) as Hval.
  pose proof (ci_history _ _ _ Hc) as Hh. pose proof (ci_pcs _ _ _ Hc 0%nat a eq_refl) as Hok.
  assert (joined_pc (p_ngid s) a) as Ha.
  { unfold vars_ok in Hv. rewrite Hs in Hv. destruct Hv as [->|[[new ->]|?]]; [exfalso..|done]; simpl in Hok.
    - apply (Hok cur); [left; apply Hh|done].
    - destruct Hok as [Hok _]. apply (Hok cur); [left; apply Hh|done]. }
  assert (cinv k (as_if (PCheck2 (p_ngid s)) (p_sys s)) cur) as Hc2.
  { eapply cinv_move; [exact Hc|left; by destruct Ha as [->|[->| ->]]|]. by destruct Ha as [->|[->| ->]]. }
  split.
  - destruct (cinv_goroutine k _ cur 0 (PCheck2 (p_ngid s)) Hc2 Hk eq_refl) as (c'&cur'&E&Hc').
    cbn [goroutine] in E. rewrite (cinv_query _ _ _ Hc2) in E. cbn [mbind go_bind] in E. rewrite Hm in E. injection E as <-.
    assert (cur' = cur) as -> by (eapply cinv_cur; [exact Hc2|apply Hc']). exact Hc'.
  - destruct Hpc as [<-|[-> _]]; [by left|by right].
Qed.

(** [leaveGroups] of the test, up to its [ChangeConfigTo]. *)
Lemma main_leave k s cur p :
  deposed k s cur (PLeave (p_ngid s)) p -> k < 2 ^ 62 ->
  exists new, leave_config cur (p_ngid s) = Ret (Some new) /\ leaves (p_ngid s) cur new
    /\ deposed k s cur (PLeft (p_ngid s) new) p.
Proof.
  intros [Hc Hp] Hk. pose proof (ci_history _ _ _ Hc) as Hh. destruct (hi_ok _ _ _ Hh cur (hi_cur _ _ _ Hh)) as [Hok Hn].
  destruct (ci_pcs _ _ _ Hc 0%nat _ eq_refl) as (_&Hj&Hv). destruct (ci_gid _ _ _ Hc 0%nat _ _ eq_refl eq_refl) as [Hg _].
  pose proof (ci_bound _ _ _ Hc) as [Hb _].
  destruct (leave_config_spec cur (p_ngid s) Hok Hv) as (new&E&Hl); [unfold Gid1 in *; lia|lia|].
  exists new. split; [done|]. split; [done|]. split; [|done]. eapply cinv_move; [exact Hc|by left|].
  split; [done|]. exists cur. split; [apply Hh|done].
Qed.

Lemma main_ask k s cur new p :
  deposed k s cur (PLeft (p_ngid s) new) p -> settled (cs_ctrl (p_sys s)) -> leaves (p_ngid s) cur new -> k < 2 ^ 62 ->
  let s' := with_main (MLeaving new) (p_cut s) (with_sys (set_ctrl (sc_ask new (cs_ctrl (p_sys s))) (p_sys s)) s) in
  deposed (k + 1) s' cur (PLeaving (p_ngid s)) p /\ under_way (p_ngid s) new (p_sys s') cur.
Proof.
  intros [Hc Hp] Hset (En&_&Eg) Hk s'. split.
  - split; [|done].
    destruct (cinv_goroutine k _ cur 0 (PLeft (p_ngid s) new) Hc Hk eq_refl) as (c'&cur'&E&Hc').
    cbn [goroutine] in E. injection E as <-.
    assert (cur' = cur) as ->.
    { eapply cinv_cur; [exact Hc|]. rewrite <-(ask_query new). apply Hc'. }
    exact Hc'.
  - split; [unfold valid; rewrite Eg, lookup_delete_eq; by intros []|]. left. split; [done|].
    intros n [->|Hn]%ask_asked E; [done|]. by destruct (Hset cur n (ci_query _ _ _ Hc) Hn).
Qed.

Lemma main_check k s cur p :
  deposed k s cur (PCheck3 (p_ngid s)) p -> gone (p_ngid s) (p_sys s) cur -> cs_pcs (p_sys s) = [p] ->
  exists s', check_left s = Ret (Some s') /\ deposed k s' cur PLoop p /\ gone (p_ngid s') (p_sys s') cur
    /\ cs_pcs (p_sys s') = [p] /\ p_main s' = MHeal.
Proof.
  intros [Hc Hp] [Hj Hv] Hpc. pose proof (ci_history _ _ _ Hc) as Hh. destruct (hi_ok _ _ _ Hh cur (hi_cur _ _ _ Hh)) as [(_&Hb&_) _].
  assert (IsMember cur (p_ngid s) = false) as Hm by (by apply not_valid_not_member).
  destruct (cinv_exit k _ cur 0 (p_ngid s) Hc eq_refl Hm) as (c'&E&Hc').
  assert (query (p_sys s) = Ret cur) as Hq by (exact (cinv_query k (as_if (PCheck3 (p_ngid s)) (p_sys s)) cur Hc)).
  unfold check_left. rewrite Hq. run_go. rewrite Hm. unfold exit_group in *. simpl in E.
  destruct (decide (p_ngid s ∈ cs_running (p_sys s))); [|done]. injection E as <-. run_go.
  eexists. split; [done|]. split; [|done]. by split.
Qed.

(** *** Progress of the controllers *)

Lemma owner_progress k c0 ng0 s cur a p c' :
  owner k c0 ng0 s cur a p -> k < 2 ^ 62 -> sc_progress (cs_ctrl (p_sys s)) c' ->
  exists cur', owner (k + 1) c0 ng0 (with_sys (progressed c' (p_sys s)) s) cur' a p
    /\ (settled (cs_ctrl (p_sys s)) -> cur' = cur /\ settled c').
Proof.
  intros [Hc Hpc Hv (H1&H2&H3&H4) Hg] Hk Hp. destruct (progress_cases k _ cur c' Hc Hk Hp) as (cur'&Hc'&HA&Hcur&HH).
  exists cur'. split.
  - split; [exact Hc'|done| |split_and!; [|done..]|done].
    + unfold vars_ok in *. simpl. destruct (p_state s); [done..|]. destruct Hv as [Hn Hv]. split; [|done].
      destruct Hcur as [->|[_ E]]; lia.
    + simpl. unfold note. destruct (sc_query c'); [by right|done].
  - intros Hs. eapply (settled_progress (p_sys s)); [exact (ci_query _ _ _ Hc)|done..|exact (ci_query _ _ _ Hc')].
Qed.

Lemma deposed_progress k s cur a p c' :
  deposed k s cur a p -> k < 2 ^ 62 -> sc_progress (cs_ctrl (p_sys s)) c' ->
  exists cur', deposed (k + 1) (with_sys (progressed c' (p_sys s)) s) cur' a p
    /\ (settled (cs_ctrl (p_sys s)) -> cur' = cur /\ settled c')
    /\ (gone (p_ngid s) (p_sys s) cur -> gone (p_ngid s) (progressed c' (p_sys s)) cur')
    /\ (forall new, a = PLeaving (p_ngid s) -> under_way (p_ngid s) new (p_sys s) cur ->
          under_way (p_ngid s) new (progressed c' (p_sys s)) cur').
Proof.
  intros [Hc Hpc] Hk Hp. destruct (progress_cases k _ cur c' Hc Hk Hp) as (cur'&Hc'&HA&Hcur&HH).
  exists cur'. split; [by split|]. split; [|split].
  - intros Hs. eapply (settled_progress (p_sys s)); [exact (ci_query _ _ _ Hc)|done..|exact (ci_query _ _ _ Hc')].
  - intros Hg. exact (gone_progress (p_ngid s) k _ cur c' cur' Hc Hg HA Hcur HH).
  - intros new -> [Hv [[En Hu]|Hv']]; (split; [done|]).
    + destruct Hcur as [->|[Hin E]]; [left|right].
      * split; [done|]. intros n Hn. by apply Hu, HA.
      * by rewrite (Hu cur' Hin E).
    + right. pose proof (ci_pcs _ _ _ Hc 0%nat _ eq_refl) as Hj. simpl in Hj.
      by destruct (gone_progress (p_ngid s) k _ cur c' cur' Hc (conj Hj Hv') HA Hcur HH).
Qed.

(** *** All steps *)

Lemma owner_weaken k c0 ng0 s s' cur a p :
  owner k c0 ng0 s cur a p -> p_sys s' = p_sys s -> p_num s' = p_num s -> p_ngid s' = p_ngid s -> p_state s' = p_state s ->
  owner (k + 1) c0 ng0 s' cur a p.
Proof.
  intros [H1 H2 H3 H4 H5] E1 E2 E3 E4. unfold vars_ok, started in *.
  split; unfold vars_ok, started; rewrite ?E1, ?E2, ?E3, ?E4; try done. apply (cinv_weaken k); [lia|done].
Qed.

Lemma deposed_weaken k s s' cur a p :
  deposed k s cur a p -> p_sys s' = p_sys s -> p_ngid s' = p_ngid s -> deposed (k + 1) s' cur a p.
Proof. intros [H1 H2] E1 E3. split; rewrite ?E1, ?E3; [|done]. apply (cinv_weaken k); [lia|done]. Qed.

Definition outcome_ok (k : Z) (c0 : ShardConfig) (ng0 : Z) (s : psys K) (r : go (option (psys K))) : Prop :=
  (exists s' cur', r = Ret (Some s') /\ pinv (k + 1) c0 ng0 s' cur') \/ (exists cfg, p_main s = MNew cfg) /\ r = Crash Fatal.

Lemma pinv_goroutine k c0 ng0 s cur p :
  pinv k c0 ng0 s cur -> k < 2 ^ 62 -> cs_pcs (p_sys s) !! 0%nat = Some p -> p_cut s && in_call p = false ->
  outcome_ok k c0 ng0 s (pgoroutine p s).
Proof.
  intros (p1&Hp&Hph) Hk Hl Hcut. rewrite Hp in Hl. injection Hl as ->.
  assert (forall a, owner k c0 ng0 s cur a p -> exists s' p' a', pgoroutine p s = Ret (Some s') /\ same_test s s'
            /\ cs_pcs (p_sys s') = [p'] /\ owner (k + 1) c0 ng0 s' cur a' p') as Hown by (intros a Ha; by eapply owner_step).
  assert (forall a, p_cut s = true -> deposed k s cur a p -> pgoroutine p s = Ret (Some (with_sys (p_sys s) s)) /\ p = PStopped) as Hdep.
  { intros a Hct [_ [[->|[->| ->]]| ->]]; rewrite Hct in Hcut; simpl in Hcut; done. }
  assert (forall a, p_cut s = true -> deposed k s cur a p -> phase_ok (k + 1) c0 ng0 (with_sys (p_sys s) s) cur p ->
            outcome_ok k c0 ng0 s (pgoroutine p s)) as Hd.
  { intros a Hct Ha Hok. destruct (Hdep a Hct Ha) as [E _]. left. eexists _, cur. split; [exact E|]. by exists p. }
  assert (forall a, owner k c0 ng0 s cur a p ->
            (forall s' p' a', same_test s s' -> owner (k + 1) c0 ng0 s' cur a' p' ->
               (p_cut s = true -> cs_ctrl (p_sys s') = cs_ctrl (p_sys s)) -> phase_ok (k + 1) c0 ng0 s' cur p') ->
            outcome_ok k c0 ng0 s (pgoroutine p s)) as Ho.
  { intros a Ha Hok. destruct (Hown a Ha) as (s'&p'&a'&E&Hs&Hp'&Ho). left. exists s', cur. split; [done|]. exists p'. split; [done|].
    eapply Hok; [done..|]. intros Hct. rewrite Hct in Hcut. destruct p; try done; simpl in E; by injection E as <-. }
  unfold phase_ok in Hph. destruct (p_main s) as [| |cfg| |new|new| | |] eqn:Em.
  - destruct Hph as [a Ha]. eapply Ho; [exact Ha|]. intros s' p' a' (E1&E2&_) Ha' _. unfold phase_ok. rewrite E1, Em. by exists a'.
  - destruct Hph as (Hct&a&Ha). eapply Ho; [exact Ha|]. intros s' p' a' (E1&E2&_) Ha' _. unfold phase_ok. rewrite E1, E2, Em.
    split; [done|]. by exists a'.
  - destruct Hph as (Hct&->&Hset&a&Ha). eapply Ho; [exact Ha|]. intros s' p' a' (E1&E2&_) Ha' Ec.
    unfold phase_ok. rewrite E1, E2, Em, Ec by done. split_and!; [done..|]. by exists a'.
  - destruct Hph as (Hct&Hset&Ha). eapply Hd; [done|exact Ha|]. unfold phase_ok. simpl. rewrite Em.
    split_and!; [done..|]. by eapply deposed_weaken.
  - destruct Hph as (Hct&Hset&Ha&Hl). eapply Hd; [done|exact Ha|]. unfold phase_ok. simpl. rewrite Em.
    split_and!; [done..| |done]. by eapply deposed_weaken.
  - destruct Hph as (Hct&Ha&Hu). eapply Hd; [done|exact Ha|]. unfold phase_ok. simpl. rewrite Em.
    split_and!; [done| |done]. by eapply deposed_weaken.
  - destruct Hph as (Hct&Ha&Hu). eapply Hd; [done|exact Ha|]. unfold phase_ok. simpl. rewrite Em.
    split_and!; [done| |done]. by eapply deposed_weaken.
  - destruct Hph as [[a Ha]|[Ha Hg]].
    + eapply Ho; [exact Ha|]. intros s' p' a' (E1&E2&_) Ha' _. unfold phase_ok. rewrite E1, Em. left. by exists a'.
    + destruct (deposed_step k s cur PLoop p Hp Ha Hg) as (p'&E&Hp'). left. eexists _, cur. split; [exact E|].
      exists p'. split; [by simpl; rewrite Hp|]. unfold phase_ok. simpl. rewrite Em. right. split; [|done].
      split; [|done]. destruct Ha as [Hc _]. apply (cinv_weaken k); [lia|]. exact Hc.
  - destruct Hph as [Hct [[a Ha]|[Ha Hg]]].
    + eapply Ho; [exact Ha|]. intros s' p' a' (E1&E2&_) Ha' _. unfold phase_ok. rewrite E1, E2, Em. split; [done|]. left. by exists a'.
    + eapply Hd; [done|exact Ha|]. unfold phase_ok. simpl. rewrite Em. split; [done|]. right. split; [|done]. by eapply deposed_weaken.
Qed.

Lemma pinv_progress k c0 ng0 s cur c' :
  pinv k c0 ng0 s cur -> k < 2 ^ 62 -> sc_progress (cs_ctrl (p_sys s)) c' ->
  exists cur', pinv (k + 1) c0 ng0 (with_sys (progressed c' (p_sys s)) s) cur'.
Proof.
  intros (p&Hp&Hph) Hk Hpr. unfold pinv, phase_ok in *. simpl in *. destruct (p_main s) as [| |cfg| |new|new| | |].
  - destruct Hph as [a Ha]. destruct (owner_progress _ _ _ _ _ _ _ c' Ha Hk Hpr) as (cur'&Ha'&_). exists cur', p. eauto.
  - destruct Hph as (Hct&a&Ha). destruct (owner_progress _ _ _ _ _ _ _ c' Ha Hk Hpr) as (cur'&Ha'&_). exists cur', p. eauto.
  - destruct Hph as (Hct&->&Hset&a&Ha). destruct (owner_progress _ _ _ _ _ _ _ c' Ha Hk Hpr) as (cur'&Ha'&Hs).
    destruct (Hs Hset) as [-> Hset']. exists cur, p. eauto 6.
  - destruct Hph as (Hct&Hset&Ha). destruct (deposed_progress _ _ _ _ _ c' Ha Hk Hpr) as (cur'&Ha'&Hs&_).
    destruct (Hs Hset) as [-> Hset']. exists cur, p. eauto 6.
  - destruct Hph as (Hct&Hset&Ha&Hl). destruct (deposed_progress _ _ _ _ _ c' Ha Hk Hpr) as (cur'&Ha'&Hs&_).
    destruct (Hs Hset) as [-> Hset']. exists cur, p. eauto 6.
  - destruct Hph as (Hct&Ha&Hu). destruct (deposed_progress _ _ _ _ _ c' Ha Hk Hpr) as (cur'&Ha'&_&_&Hu'). exists cur', p. eauto 6.
  - destruct Hph as (Hct&Ha&Hg). destruct (deposed_progress _ _ _ _ _ c' Ha Hk Hpr) as (cur'&Ha'&_&Hg'&_). exists cur', p. eauto 6.
  - destruct Hph as [[a Ha]|[Ha Hg]].
    + destruct (owner_progress _ _ _ _ _ _ _ c' Ha Hk Hpr) as (cur'&Ha'&_). exists cur', p. eauto 6.
    + destruct (deposed_progress _ _ _ _ _ c' Ha Hk Hpr) as (cur'&Ha'&_&Hg'&_). exists cur', p. eauto 6.
  - destruct Hph as [Hct [[a Ha]|[Ha Hg]]].
    + destruct (owner_progress _ _ _ _ _ _ _ c' Ha Hk Hpr) as (cur'&Ha'&_). exists cur', p. eauto 7.
    + destruct (deposed_progress _ _ _ _ _ c' Ha Hk Hpr) as (cur'&Ha'&_&Hg'&_). exists cur', p. eauto 7.
Qed.

Lemma phase_cinv k c0 ng0 s cur p : phase_ok k c0 ng0 s cur p -> exists a, cinv k (as_if a (p_sys s)) cur.
Proof.
  unfold phase_ok. intros Hph. assert (forall a p', owner k c0 ng0 s cur a p' -> exists a, cinv k (as_if a (p_sys s)) cur) as Ho.
  { intros a p' Ha. exists a. apply Ha. }
  assert (forall a p', deposed k s cur a p' -> exists a, cinv k (as_if a (p_sys s)) cur) as Hd.
  { intros a p' Ha. exists a. apply Ha. }
  destruct (p_main s); naive_solver.
Qed.

Lemma pinv_query k c0 ng0 s cur : pinv k c0 ng0 s cur -> query (p_sys s) = Ret cur.
Proof. intros (p&_&Hph). destruct (phase_cinv _ _ _ _ _ _ Hph) as [a Hc]. exact (cinv_query k (as_if a (p_sys s)) cur Hc). Qed.

Lemma pinv_pstep k c0 ng0 s cur r : pinv k c0 ng0 s cur -> k < 2 ^ 62 -> pstep s r -> outcome_ok k c0 ng0 s r.
Proof.
  intros Hi Hk Hs. pose proof (pinv_query _ _ _ _ _ Hi) as Hq. pose proof Hi as (p0&Hp&Hph). unfold phase_ok in Hph.
  assert (forall s', cs_pcs (p_sys s') = [p0] -> phase_ok (k + 1) c0 ng0 s' cur p0 -> outcome_ok k c0 ng0 s (Ret (Some s'))) as Hret.
  { intros s' E Hok. left. exists s', cur. split; [done|]. by exists p0. }
  destruct Hs as [s p Hl Hcut|s c' Hpr|s Em|s Em Hset|s cfg Em|s Em|s new Em|s new Em Hmade|s Em|s Em|s Em]; try rewrite Em in Hph.
  - by eapply pinv_goroutine.
  - left. destruct (pinv_progress _ _ _ _ _ c' Hi Hk Hpr) as [cur' Hi']. by eexists _, cur'.
  - destruct Hph as [a Ha]. apply Hret; [done|]. split; [done|]. exists a. by eapply owner_weaken.
  - destruct Hph as (Hct&a&Ha). rewrite Hq. run_go. apply Hret; [done|]. split_and!; [done..|]. exists a. by eapply owner_weaken.
  - destruct Hph as (Hct&->&Hset&a&Ha). unfold check_recovery.
    assert (partition_check (p_num s) (p_state s) (p_ngid s) cur = Crash Fatal
            \/ exists b, partition_check (p_num s) (p_state s) (p_ngid s) cur = Ret b
                 /\ b = bool_decide (p_state s = PJOIN) && IsMember cur (p_ngid s)) as [E|(b&E&Eb)].
    { unfold partition_check. case_decide; [by left|]. destruct (_ || _); [by left|right; by eexists]. }
    { right. rewrite E. split; [by exists cur|done]. }
    rewrite E. run_go. apply Hret; [done|]. destruct b; unfold phase_ok; simpl.
    + symmetry in Eb. apply andb_true_iff in Eb as [Hj%bool_decide_eq_true Hm].
      pose proof (take_over _ _ _ _ _ _ _ Ha Hct Hj Hm Hk) as [? ?]. by split_and!.
    + left. exists a. by eapply owner_weaken.
  - destruct Hph as (Hct&Hset&Ha). rewrite Hq. run_go. destruct (main_leave _ _ _ _ Ha Hk) as (new&->&Hl&Ha'). cbn [gbind].
    apply Hret; [done|]. split_and!; [done..| |done]. by eapply deposed_weaken.
  - destruct Hph as (Hct&Hset&Ha&Hl). destruct (main_ask _ _ _ _ _ Ha Hset Hl Hk) as [Ha' Hu]. apply Hret; [done|]. by split_and!.
  - destruct Hph as (Hct&Ha&Hv&Hu). apply Hret; [done|].
    pose proof (ci_pcs _ _ _ (de_inv _ _ _ _ _ Ha) 0%nat _ eq_refl) as Hj. simpl in Hj. split_and!; [done| |].
    + apply (deposed_weaken k s); [|done..]. destruct Ha as [Hc Hz]. split; [|done]. by eapply cinv_move; [exact Hc|left|].
    + split; [done|]. destruct Hu as [[En _]|?]; [|done]. destruct Hmade as (cur'&E&Hle).
      rewrite (cinv_cur _ _ _ cur' (de_inv _ _ _ _ _ Ha) E) in Hle. lia.
  - destruct Hph as (Hct&Ha&Hg). destruct (main_check _ _ _ _ Ha Hg Hp) as (s'&->&Ha'&Hg'&Hp'&Em'). apply Hret; [done|].
    unfold phase_ok. rewrite Em'. right. split; [|done]. by eapply deposed_weaken.
  - apply Hret; [done|]. destruct Hph as [[a Ha]|[Ha Hg]]; [left; exists a; by eapply owner_weaken|].
    right. split; [by eapply deposed_weaken|done].
  - apply Hret; [done|]. split; [done|]. destruct Hph as [[a Ha]|[Ha Hg]]; [left; exists a; by eapply owner_weaken|].
    right. split; [by eapply deposed_weaken|done].
Qed.

(** A step that does not end the process. *)
Definition pmove (s s' : psys K) : Prop := pstep s (Ret (Some s')).

Lemma pinv_moves n : forall k c0 ng0 s s' cur,
  pinv k c0 ng0 s cur -> k + Z.of_nat n < 2 ^ 62 -> nsteps pmove n s s' -> exists cur', pinv (k + Z.of_nat n) c0 ng0 s' cur'.
Proof.
  induction n as [|n IH]; intros k c0 ng0 s s' cur Hi Hk Hs; inversion Hs; subst.
  - exists cur. by rewrite Z.add_0_r.
  - destruct (pinv_pstep k c0 ng0 s cur (Ret (Some y))) as [(s1&cur1&E&Hi1)|[_ ?]]; [done|lia|done| |done]. injection E as <-.
    replace (k + Z.of_nat (S n)) with (k + 1 + Z.of_nat n) by lia. eapply IH; [exact Hi1|lia|done].
Qed.

Lemma part_inv_init c cfg ngid running :
  sc_query c = Some cfg -> sc_asked c = [] -> config_ok cfg -> 0 <= Num cfg -> Gid1 < ngid ->
  (forall g, valid cfg g -> g < ngid /\ g ∈ running) ->
  pinv (Z.max (Num cfg) ngid) cfg ngid (p_init c cfg ngid running) cfg.
Proof.
  intros Hq Ha Hok Hn0 Hn Hg. exists PLoop. split; [done|]. exists PLoop.
  split; [exact (cinv_start_state c cfg ngid running 1 Hq Ha Hok Hn0 Hn Hg)|by left|done| |done].
  split_and!; [by left|done| |done]. intros g Hv. by apply Hg.
Qed.
End partition_lemmas.

(** ** Properties *)

Section partition_theorems.
  Context {K : Type} `{SharedCtrlerLaws K}.

(** A controller can be cut off at any moment.  In every run of [partitionCtrler] of fewer than
    [2^61] steps, whenever the first controller is disconnected and connected again, and however far its
    change had got: no step ends the process, except the two checks after recovery, which may
    report; in particular no group joins that is there or leaves that is not, and no group exits that does not run.  The
    configuration is always well formed and balanced, with the first group. *)
Theorem partition_ctrler_safe c cfg ngid running k s :
  sc_query c = Some cfg -> sc_asked c = [] -> config_ok cfg -> 0 <= Num cfg < 2 ^ 61 -> Gid1 < ngid < 2 ^ 61 ->
  (forall g, valid cfg g -> g < ngid /\ g ∈ running) ->
  Z.of_nat k < 2 ^ 61 -> nsteps pmove k (p_init c cfg ngid running) s ->
  (forall r, pstep s r -> (exists s', r = Ret (Some s')) \/ (exists cfg', p_main s = MNew cfg') /\ r = Crash Fatal)
  /\ exists cur, sc_query (cs_ctrl (p_sys s)) = Some cur /\ config_ok cur.
Proof.
  intros Hq Ha Hok Hn0 Hn Hg Hk Hs.
  destruct (pinv_moves k _ _ _ _ _ _ (part_inv_init c cfg ngid running Hq Ha Hok ltac:(lia) ltac:(lia) Hg) ltac:(lia) Hs) as [cur Hi].
  split.
  - intros r Hr. destruct (pinv_pstep _ _ _ _ _ r Hi ltac:(lia) Hr) as [(s'&_&->&_)|?]; [left; by eexists|by right].
  - destruct Hi as (p&_&Hph). destruct (phase_cinv _ _ _ _ _ _ Hph) as [a Hc]. exists cur. split; [exact (ci_query _ _ _ Hc)|].
    pose proof (ci_history _ _ _ Hc) as Hh. by destruct (hi_ok _ _ _ Hh cur (hi_cur _ _ _ Hh)).
Qed.

(** What the checks after recovery decide.  The goroutine is inside a call of the controller that was cut
    off, and there are at most as many groups as shards.  The test goes on exactly if the change that the goroutine was
    making is there: its group is a member and the join had been asked for, or its group is not
    a member and the leave had been computed.  If the goroutine had only announced the join or the leave in
    [state], the test fails although nothing is wrong. *)
Theorem partition_verdict c cfg0 ngid running k s cfg p :
  sc_query c = Some cfg0 -> sc_asked c = [] -> config_ok cfg0 -> 0 <= Num cfg0 < 2 ^ 61 -> Gid1 < ngid < 2 ^ 61 ->
  (forall g, valid cfg0 g -> g < ngid /\ g ∈ running) ->
  Z.of_nat k < 2 ^ 61 -> nsteps pmove k (p_init c cfg0 ngid running) s ->
  p_main s = MNew cfg -> cs_pcs (p_sys s) = [p] -> in_call p = true -> (size (Groups cfg) <= Z.to_nat NShards)%nat ->
  (exists s', check_recovery cfg s = Ret (Some s'))
  <-> joined_pc (p_ngid s) p /\ valid cfg (p_ngid s)
      \/ ((exists new, p = PLeft (p_ngid s) new) \/ p = PLeaving (p_ngid s) \/ p = PCheck3 (p_ngid s)) /\ ~ valid cfg (p_ngid s).
Proof.
  intros Hq Ha Hok Hn0 Hn Hg Hk Hs Em Hp Hin Hsz.
  destruct (pinv_moves k _ _ _ _ _ _ (part_inv_init c cfg0 ngid running Hq Ha Hok ltac:(lia) ltac:(lia) Hg) ltac:(lia) Hs) as [cur Hi].
  destruct Hi as (p'&Hp'&Hph). rewrite Hp in Hp'. injection Hp' as <-. unfold phase_ok in Hph. rewrite Em in Hph.
  destruct Hph as (_&->&_&a&[Hc Hpc Hv Hst Hgid]). destruct Hpc as [<-|[-> _]]; [|done].
  pose proof (ci_history _ _ _ Hc) as Hh. destruct (hi_ok _ _ _ Hh cur (hi_cur _ _ _ Hh)) as [(Hwf&Hb&_) _].
  pose proof (ci_pcs _ _ _ Hc 0%nat p eq_refl) as Hpk.
  assert (IsMember cur (p_ngid s) = true <-> valid cur (p_ngid s)) as Hm.
  { split; [by eapply member_valid|by apply balanced_member]. }
  assert (p_state s = PJOIN -> ~ valid cur (p_ngid s) -> check_recovery cur s = Crash Fatal) as Hjoin.
  { intros E Hnv. unfold check_recovery, partition_check. rewrite E. case_decide; [done|].
    by rewrite not_valid_not_member. }
  assert (p_state s = PLEAVE -> valid cur (p_ngid s) -> check_recovery cur s = Crash Fatal) as Hleave.
  { intros E Hval%Hm. unfold check_recovery, partition_check. rewrite E, Hval. by case_decide. }
  assert (p_num s < Num cur -> (p_state s = PJOIN -> valid cur (p_ngid s)) -> (p_state s = PLEAVE -> ~ valid cur (p_ngid s)) ->
            exists s', check_recovery cur s = Ret (Some s')) as Hpass.
  { intros Hnum H1 H2. unfold check_recovery, partition_check. rewrite decide_False by lia. destruct (p_state s); [by eexists|..].
    - rewrite (proj2 Hm) by auto. by eexists.
    - rewrite not_valid_not_member; [by eexists|done|auto]. }
  unfold vars_ok in Hv. destruct (p_state s) eqn:Es.
  - by subst p.
  - assert (joined_pc (p_ngid s) p \/ ~ joined_pc (p_ngid s) p /\ ~ valid cur (p_ngid s)) as [Hj|[Hnj Hnv]].
    { unfold joined_pc. destruct Hv as [->|[[new ->]|Hj]]; [right..|by left]; (split; [naive_solver|]).
      - apply Hpk. left. apply Hh.
      - apply Hpk. left. apply Hh. }
    + split.
      * intros [s' E]. left. split; [done|]. destruct (decide (valid cur (p_ngid s))) as [|Hnv]; [done|].
        by rewrite (Hjoin eq_refl Hnv) in E.
      * intros [[_ Hval]|[Hbad _]]; [|by destruct Hj as [->|[->| ->]], Hbad as [[??]|[?|?]]].
        apply Hpass; [|done|done]. eapply member_later; [exact Hc|exact Hst| |exact Hval].
        apply Hgid. by destruct Hj as [->|[->| ->]].
    + rewrite (Hjoin eq_refl Hnv). split; [by intros [??]|]. intros [[? _]|[Hbad _]]; [done|].
      destruct Hv as [->|[[new ->]|?]], Hbad as [[??]|[?|?]]; done.
  - destruct Hv as [Hnum Hv]. assert (~ joined_pc (p_ngid s) p) as Hnj by (unfold joined_pc; naive_solver).
    split.
    + intros [s' E]. right. assert (~ valid cur (p_ngid s)) as Hnv by (intros Hval; by rewrite (Hleave eq_refl Hval) in E).
      split; [|done]. destruct Hv as [->|[?|[?|[?| ->]]]]; [|by left|by right; left|by right; right|done].
      by destruct Hpk as (_&_&?).
    + intros [[? _]|[_ Hnv]]; [done|]. by apply Hpass.
Qed.
End partition_theorems.

(** *** A concrete run *)

#[local] Existing Instances cas_SharedCtrler cas_laws.

(** The goroutine has started its first group when its controller is cut off and the second one takes over. *)
Definition cut_early (cfg : ShardConfig) : psys cas_ctrler :=
  let s0 := p_init ((Some cfg, []) : cas_ctrler) cfg 2 {[ Gid1 ]} in
  mkP (set_pc 0 (PStarted 2) (start_group 2 (take_gid (p_sys s0)).1)) (Num cfg) 2 PJOIN (MNew cfg) true.

Lemma cut_early_run cfg : nsteps pmove 3 (p_init ((Some cfg, []) : cas_ctrler) cfg 2 {[ Gid1 ]}) (cut_early cfg).
Proof.
  eapply nsteps_l; [exact (p_goroutine (p_init ((Some cfg, []) : cas_ctrler) cfg 2 {[ Gid1 ]}) PLoop eq_refl eq_refl)|].
  eapply nsteps_l; [exact (p_disconnect (mkP _ (Num cfg) 2 PJOIN MRun false) eq_refl)|].
  apply nsteps_once. refine (p_recover (mkP _ (Num cfg) 2 PJOIN MCut true) eq_refl _).
  intros cur n _ Hn. by apply elem_of_nil in Hn.
Qed.

Lemma partition_ctrler_safe_witness :
  exists s : psys cas_ctrler, cs_pcs (p_sys s) = [PStarted 2] /\ p_cut s = true
    /\ forall r, pstep s r -> (exists s', r = Ret (Some s')) \/ (exists cfg', p_main s = MNew cfg') /\ r = Crash Fatal.
Proof.
  destruct setup_config_ok as (cfg&_&Hok&Hnum&Hv). exists (cut_early cfg). split; [reflexivity|]. split; [reflexivity|].
  refine (proj1 (partition_ctrler_safe ((Some cfg, []) : cas_ctrler) cfg 2 {[ Gid1 ]} 3 (cut_early cfg) _ _ _ _ _ _ _ _)).
  - reflexivity.
  - reflexivity.
  - exact Hok.
  - rewrite Hnum. lia.
  - unfold Gid1. lia.
  - intros g ->%Hv. unfold Gid1. split; [lia|set_solver +].
  - lia.
  - apply cut_early_run.
Defined.

(** A run in which the test fails for no fault of the controllers. *)
Lemma partition_verdict_witness :
  exists cfg s, nsteps pmove 3 (p_init ((Some cfg, []) : cas_ctrler) cfg 2 {[ Gid1 ]}) s /\ p_main s = MNew cfg
    /\ ~ exists s', check_recovery cfg s = Ret (Some s').
Proof.
  destruct setup_config_ok as (cfg&_&Hok&Hnum&Hv). exists cfg, (cut_early cfg).
  split; [apply cut_early_run|]. split; [reflexivity|].
  rewrite (partition_verdict ((Some cfg, []) : cas_ctrler) cfg 2 {[ Gid1 ]} 3 (cut_early cfg) cfg (PStarted 2)).
  - intros [[[E|[E|E]] _]|[[[new E]|[E|E]] _]]; discriminate E.
  - reflexivity.
  - reflexivity.
  - exact Hok.
  - rewrite Hnum. lia.
  - unfold Gid1. lia.
  - intros g ->%Hv. unfold Gid1. split; [lia|set_solver +].
  - lia.
  - apply cut_early_run.
  - reflexivity.
  - reflexivity.
  - reflexivity.
  - assert (dom (Groups cfg) ⊆ {[ Gid1 ]}) as Hd.
    { intros g Hg. apply elem_of_dom in Hg. apply elem_of_singleton. by apply Hv. }
    apply subseteq_size in Hd. rewrite size_dom, size_singleton in Hd. unfold NShards. lia.
Defined.
