(* ===== verification/Rsm.v ===== *)
(** * The replicated state machine's test server and tester

    [src/src/kvraft1/rsm/server.go]: a counter behind the [StateMachine] interface of
    [rsm.go]; [src/src/kvraft1/rsm/test.go]: the tester that looks for the leader, submits
    operations and compares counters.  [RSM.Submit] itself is a stub in the repository: a
    server's [Submit] is a parameter of the tester.  Snapshots are encoded with labgob, of
    which only the round trip of an [int] is used. *)

From S2P Require Import Prelude Rpc.
Local Open Scope Z_scope.

(** ** The server *)

(** The requests and replies the server registers; [any] is one of them. *)
Inductive req := Inc | Null | Dec.

#[export] Instance req_eq_dec : EqDecision req.
Proof. solve_decision. Defined.

Inductive reply := IncRep (N : Z) | NullRep.

Record rsmSrv := mkSrv { me : Z; counter : Z }.

Definition newRSMSrv (srv : Z) : rsmSrv := mkSrv srv 0.

Definition GetCounter (rs : rsmSrv) : Z := counter rs.

(** A [Dec] is registered but not implemented. *)
Definition DoOp (r : req) (rs : rsmSrv) : go (rsmSrv * reply) :=
  match r with
  | Inc => let rs' := mkSrv (me rs) (i64 (counter rs + 1)) in Ret (rs', IncRep (counter rs'))
  | Null => Ret (rs, NullRep)
  | Dec => Crash Fatal
  end.

(** labgob on a top-level [int]. *)
Class IntCodec := {
  encode_int : Z -> string;
  decode_int : string -> option Z;
  int_round_trip z : decode_int (encode_int z) = Some z;
}.

Section snapshots.
  Context `{IntCodec}.

Definition Snapshot (rs : rsmSrv) : string := encode_int (counter rs).

Definition Restore (data : string) (rs : rsmSrv) : go rsmSrv :=
  match decode_int data with
  | Some c => Ret (mkSrv (me rs) c)
  | None => Crash Fatal
  end.
End snapshots.

(** The operations of a log, one after the other. *)
Fixpoint do_ops (rs_ops : list req) (rs : rsmSrv) : go (rsmSrv * list reply) :=
  match rs_ops with
  | [] => Ret (rs, [])
  | r :: rest =>
      '(rs1, rep) ← DoOp r rs;
      '(rs2, reps) ← do_ops rest rs1;
      Ret (rs2, rep :: reps)
  end.

(** ** The proxy *)

(** A call to the server's process: [None] if it fails, and then the caller sees the zero
    reply. *)
Definition proxy_Submit (answer : option (Err * option reply)) : Err * option reply :=
  default (""%string, None) answer.

Definition proxy_GetCounter (answer : option Z) : Z := default 0 answer.

(** ** The tester *)

Definition NSRV : nat := 3.

(** [p == nil] is [None]. *)
Definition inPartition (s : nat) (p : option (list nat)) : bool :=
  match p with
  | None => true
  | Some l => existsb (fun i => bool_decide (s = i)) l
  end.

Section tester.
  (** The servers and the network: [Submit] at a server, and whether the tester's group has
      the server connected and its process alive. *)
  Context {S : Type}.
  Context (submit : nat -> req -> S -> S * Err * option reply).
  Context (connected alive : nat -> S -> bool).
  Context (get_counter : nat -> S -> Z).

Record Test := mkTest { leader : nat; ops : Z; world : S }.

(** The inner loop of [onePartition]: [k] servers from number [index] on.  The result is
    the reply, if some server accepted the request. *)
Fixpoint try_servers (k : nat) (index : nat) (p : option (list nat)) (r : req) (ts : Test)
    : go (Test * option (option reply)) :=
  match k with
  | O => Ret (ts, None)
  | Datatypes.S k' =>
      if decide (NSRV <= index)%nat then Crash Fatal
      else
        let next := ((index + 1) mod NSRV)%nat in
        if connected index (world ts) && (alive index (world ts) && inPartition index p)
        then
          let '(w, err, rep) := submit index r (world ts) in
          if decide (err = OK) then Ret (mkTest index (i32 (ops ts + 1)) w, Some rep)
          else try_servers k' next p r (mkTest (leader ts) (ops ts) w)
        else try_servers k' next p r ts
  end.

(** [rounds] is how often ten seconds and the sleeps let the outer loop turn; [None] is the
    nil reply. *)
Fixpoint onePartition (rounds : nat) (p : option (list nat)) (r : req) (ts : Test) : go (Test * option reply) :=
  match rounds with
  | O => Ret (ts, None)
  | Datatypes.S rounds' =>
      '(ts', res) ← try_servers NSRV (leader ts) p r ts;
      match res with
      | Some rep => Ret (ts', rep)
      | None => onePartition rounds' p r ts'
      end
  end.

(** The type assertion [rep.(IncRep)] panics on another reply. *)
Definition oneInc (rounds : nat) (ts : Test) : go (Test * reply) :=
  '(ts', rep) ← onePartition rounds None Inc ts;
  match rep with
  | None => Ret (ts', IncRep 0)
  | Some (IncRep n) => Ret (ts', IncRep n)
  | Some NullRep => Crash Panic
  end.

Definition oneNull (rounds : nat) (ts : Test) : go (Test * reply) :=
  '(ts', rep) ← onePartition rounds None Null ts;
  match rep with
  | None | Some NullRep => Ret (ts', NullRep)
  | Some (IncRep _) => Crash Panic
  end.

Fixpoint count_value (v : Z) (srvs : list nat) (w : S) : Z :=
  match srvs with
  | [] => 0
  | s :: rest => (if decide (get_counter s w = v) then 1 else 0) + count_value v rest w
  end.

Definition countValue (v : Z) (w : S) : Z := count_value v (seq 0 NSRV) w.

(** [worlds] are the states in which the thirty iterations look at the servers. *)
Fixpoint checkCounter (v nsrv : Z) (worlds : list S) : go unit :=
  match worlds with
  | [] => Crash Fatal
  | w :: rest => if decide (countValue v w >= nsrv) then Ret () else checkCounter v nsrv rest
  end.
End tester.
Arguments Test S : clear implicits.

(** ** Lemmas *)

Definition incs (l : list req) : Z := Z.of_nat (length (List.filter (fun r => match r with Inc => true | _ => false end) l)).

Lemma do_ops_app l1 l2 : forall rs rs1 reps1 rs2 reps2,
  do_ops l1 rs = Ret (rs1, reps1) -> do_ops l2 rs1 = Ret (rs2, reps2) ->
  do_ops (l1 ++ l2) rs = Ret (rs2, reps1 ++ reps2).
Proof.
  induction l1 as [|r l1 IH]; intros rs rs1 reps1 rs2 reps2 H1 H2; cbn [do_ops app] in *; [by injection H1 as <- <-|].
  destruct (DoOp r rs) as [[rsa rep]|]; [|done]. cbn in H1 |- *.
  destruct (do_ops l1 rsa) as [[rsb reps]|] eqn:E; [|done]. cbn in H1. injection H1 as <- <-.
  by rewrite (IH _ _ _ _ _ E H2).
Qed.

(** Only the counter matters, and it counts. *)
Lemma do_ops_counter l : forall i j c, Dec ∉ l ->
  exists c' reps, do_ops l (mkSrv i c) = Ret (mkSrv i c', reps) /\ do_ops l (mkSrv j c) = Ret (mkSrv j c', reps)
    /\ (- 2 ^ 63 <= c -> c + incs l < 2 ^ 63 -> c' = c + incs l).
Proof.
  induction l as [|r l IH]; intros i j c Hd.
  - exists c, []. split; [done|]. split; [done|]. unfold incs. simpl. lia.
  - apply not_elem_of_cons in Hd as [Hr Hd]. destruct r; [| |done]; cbn [do_ops DoOp me counter].
    + destruct (IH i j (i64 (c + 1)) Hd) as (c'&reps&E1&E2&Hc). run_go. rewrite E1, E2. run_go.
      eexists _, _. split; [done|]. split; [done|]. unfold incs in *. simpl. intros H0 Hb.
      rewrite i64_small in Hc by lia. rewrite Hc; lia.
    + destruct (IH i j c Hd) as (c'&reps&E1&E2&Hc). run_go. rewrite E1, E2. run_go. by eexists _, _.
Qed.

Section tester_lemmas.
  Context {S : Type}.
  Context (submit : nat -> req -> S -> S * Err * option reply).
  Context (connected alive : nat -> S -> bool).

Abbreviation try_servers := (try_servers submit connected alive).

(** The server is reachable for the tester and accepts the request. *)
Definition accepts (p : option (list nat)) (r : req) (w : S) (s : nat) : Prop :=
  connected s w && (alive s w && inPartition s p) = true /\ (submit s r w).1.2 = OK.

#[export] Instance accepts_dec p r w s : Decision (accepts p r w s).
Proof. unfold accepts. apply _. Defined.

(** A server that does not accept a request leaves everything as it is. *)
Definition rejection_pure (r : req) (w : S) : Prop :=
  forall s, (submit s r w).1.2 <> OK -> (submit s r w).1.1 = w.

Lemma try_servers_spec p r ts : rejection_pure r (world ts) -> forall k index, (index < NSRV)%nat ->
  (exists d, (d < k)%nat /\ accepts p r (world ts) ((index + d) mod NSRV)
     /\ (forall d', (d' < d)%nat -> ~ accepts p r (world ts) ((index + d') mod NSRV))
     /\ let s := ((index + d) mod NSRV)%nat in
        try_servers k index p r ts
        = Ret (mkTest s (i32 (ops ts + 1)) (submit s r (world ts)).1.1, Some (submit s r (world ts)).2))
  \/ (forall d, (d < k)%nat -> ~ accepts p r (world ts) ((index + d) mod NSRV))
     /\ try_servers k index p r ts = Ret (ts, None).
Proof.
  intros Hpure k. induction k as [|k IH]; intros index Hi; [right; split; [lia|done]|].
  cbn [Rsm.try_servers]. rewrite decide_False by lia.
  set (next := ((index + 1) mod NSRV)%nat). assert (next < NSRV)%nat as Hn by (apply Nat.mod_upper_bound; done).
  assert (forall d, ((next + d) mod NSRV = (index + Datatypes.S d) mod NSRV)%nat) as Hshift.
  { intros d. unfold next. rewrite Nat.Div0.add_mod_idemp_l. f_equal. lia. }
  assert (((index + 0) mod NSRV = index)%nat) as H0 by (rewrite Nat.add_0_r; by apply Nat.mod_small).
  assert (forall P : nat -> Prop, (forall d, (d < k)%nat -> P ((next + d) mod NSRV)%nat) -> P index ->
            forall d, (d < Datatypes.S k)%nat -> P ((index + d) mod NSRV)%nat) as Hall.
  { intros P HP Hx [|d] Hd; [by rewrite H0|]. rewrite <-Hshift. apply HP. lia. }
  destruct (decide (accepts p r (world ts) index)) as [Ha|Hna].
  - left. exists O. rewrite H0. split; [lia|]. split; [done|]. split; [lia|]. destruct Ha as [Hc Hok]. simpl.
    rewrite Hc. destruct (submit index r (world ts)) as [[w err] rep]. simpl in *. by rewrite decide_True.
  - replace (if connected index (world ts) && (alive index (world ts) && inPartition index p) then _ else _)
      with (try_servers k next p r ts).
    + destruct (IH next Hn) as [(d&Hd&Ha&Hmin&E)|[Hno E]].
      * left. exists (Datatypes.S d). rewrite <-Hshift. split; [lia|]. split; [done|]. split; [|done].
        intros [|d'] Hd'; [by rewrite H0|]. rewrite <-Hshift. apply Hmin. lia.
      * right. split; [|done]. by apply (Hall (fun s => ~ accepts p r (world ts) s)).
    + destruct (connected index (world ts) && _) eqn:Hc; [|done].
      pose proof (Hpure index) as Hp. unfold accepts in Hna. rewrite Hc in Hna.
      destruct (submit index r (world ts)) as [[w err] rep] eqn:Es. simpl in *.
      rewrite decide_False by tauto. rewrite Hp by tauto. by destruct ts.
Qed.

Lemma onePartition_none p r ts rounds :
  rejection_pure r (world ts) -> (leader ts < NSRV)%nat ->
  (forall s, (s < NSRV)%nat -> ~ accepts p r (world ts) s) ->
  onePartition submit connected alive rounds p r ts = Ret (ts, None).
Proof.
  intros Hpure Hl Hno. induction rounds as [|rounds IH]; [done|]. cbn [onePartition].
  destruct (try_servers_spec p r ts Hpure NSRV (leader ts) Hl) as [(d&_&Ha&_)|[_ E]].
  - exfalso. eapply Hno; [|exact Ha]. by apply Nat.mod_upper_bound.
  - rewrite E. run_go. exact IH.
Qed.
End tester_lemmas.

(** ** Properties *)

(** A snapshot stands for the operations before it.  Run some operations, take a
    snapshot, restore it on any other server and run more operations: that server ends
    with the counter and gives the replies it would have given for all operations in a
    row, and the counter is the number of [Inc]s. *)
Theorem rsm_snapshot_replay `{IntCodec} i j ops1 ops2 :
  Dec ∉ ops1 ++ ops2 ->
  exists rs1 reps1 rs1' rs2 reps2,
    do_ops ops1 (newRSMSrv i) = Ret (rs1, reps1)
    /\ Restore (Snapshot rs1) (newRSMSrv j) = Ret rs1'
    /\ do_ops ops2 rs1' = Ret (rs2, reps2)
    /\ do_ops (ops1 ++ ops2) (newRSMSrv j) = Ret (rs2, reps1 ++ reps2)
    /\ (incs (ops1 ++ ops2) < 2 ^ 63 -> GetCounter rs2 = incs (ops1 ++ ops2)).
Proof.
  intros Hd. assert (Dec ∉ ops1) as Hd1 by set_solver + Hd. assert (Dec ∉ ops2) as Hd2 by set_solver + Hd.
  destruct (do_ops_counter ops1 i j 0 Hd1) as (c1&reps1&E1&E1'&_).
  destruct (do_ops_counter ops2 j j c1 Hd2) as (c2&reps2&E2&_&_).
  pose proof (do_ops_app _ _ _ _ _ _ _ E1' E2) as E.
  destruct (do_ops_counter (ops1 ++ ops2) j j 0 Hd) as (c&reps&E3&_&Hc).
  exists (mkSrv i c1), reps1, (mkSrv j c1), (mkSrv j c2), reps2. split; [done|].
  split; [unfold Restore, Snapshot; by rewrite int_round_trip|]. split; [done|]. split; [done|].
  rewrite E in E3. injection E3 as -> _. intros Hb. unfold GetCounter. simpl. rewrite Hc by lia. lia.
Qed.

(** The tester finds the leader.  As long as rejecting servers change nothing, a request
    goes to the first server, in cyclic order from the last known leader, that is
    connected, alive, in the partition and accepts it; the request is executed there once,
    in the first round, and the server is remembered.  If there is none, the tester gives
    up with nothing changed. *)
Theorem one_partition_finds_leader {S} (submit : nat -> req -> S -> S * Err * option reply)
    connected alive p r (ts : Test S) rounds :
  rejection_pure submit r (world ts) -> (leader ts < NSRV)%nat ->
  (exists d, (d < NSRV)%nat /\ let s := ((leader ts + d) mod NSRV)%nat in
     accepts submit connected alive p r (world ts) s
     /\ (forall d', (d' < d)%nat -> ~ accepts submit connected alive p r (world ts) ((leader ts + d') mod NSRV))
     /\ onePartition submit connected alive (Datatypes.S rounds) p r ts
        = Ret (mkTest s (i32 (ops ts + 1)) (submit s r (world ts)).1.1, (submit s r (world ts)).2))
  \/ (forall s, (s < NSRV)%nat -> ~ accepts submit connected alive p r (world ts) s)
     /\ onePartition submit connected alive (Datatypes.S rounds) p r ts = Ret (ts, None).
Proof.
  intros Hpure Hl.
  destruct (try_servers_spec submit connected alive p r ts Hpure NSRV (leader ts) Hl) as [(d&Hd&Ha&Hmin&E)|[Hno E]].
  - left. exists d. split; [done|]. split; [done|]. split; [done|]. cbn [onePartition]. rewrite E. done.
  - right. assert (forall s, (s < NSRV)%nat -> ~ accepts submit connected alive p r (world ts) s) as Hall.
    { intros s Hs. specialize (Hno ((s + NSRV - leader ts) mod NSRV)%nat).
      rewrite Nat.Div0.add_mod_idemp_r in Hno.
      replace (leader ts + (s + NSRV - leader ts))%nat with (s + 1 * NSRV)%nat in Hno by (unfold NSRV in *; lia).
      rewrite Nat.Div0.mod_add, (Nat.mod_small s) in Hno by done. apply Hno. by apply Nat.mod_upper_bound. }
    split; [done|]. by apply onePartition_none.
Qed.

(** *** Concrete servers *)

Lemma bits_int_round_trip z : decode (A := Z) (of_bits (bits_of (encode z))) = Some z.
Proof. by rewrite of_bits_of, decode_encode. Qed.

#[local] Instance bits_IntCodec : IntCodec := {|
  encode_int z := bits_of (encode z);
  decode_int s := decode (of_bits s);
  int_round_trip := bits_int_round_trip;
|}.

Lemma rsm_snapshot_replay_witness :
  exists rs2 reps, do_ops ([Inc; Null; Inc] ++ [Inc]) (newRSMSrv 1) = Ret (rs2, reps) /\ GetCounter rs2 = 3.
Proof.
  destruct (rsm_snapshot_replay 0 1 [Inc; Null; Inc] [Inc]) as (rs1&reps1&rs1'&rs2&reps2&_&_&_&E&Hc).
  - apply (bool_decide_unpack _). vm_compute. exact I.
  - exists rs2, (reps1 ++ reps2). split; [exact E|]. exact (Hc ltac:(vm_compute; reflexivity)).
Defined.

(** Server 2 leads, server 1 is down. *)
Definition demo_submit (s : nat) (r : req) (w : rsmSrv) : rsmSrv * Err * option reply :=
  if decide (s = 2)%nat then
    match DoOp r w with Ret (w', rep) => (w', OK, Some rep) | Crash _ => (w, ErrWrongLeader, None) end
  else (w, ErrWrongLeader, None).

Lemma demo_rejection_pure w : rejection_pure demo_submit Inc w.
Proof. intros s. unfold demo_submit. case_decide; [simpl; by intros []|done]. Qed.

Lemma one_partition_finds_leader_witness :
  exists ts rep, onePartition demo_submit (fun _ _ => true) (fun s _ => negb (Nat.eqb s 1)) 1 None Inc
                   (mkTest 0 0 (newRSMSrv 2)) = Ret (ts, rep)
    /\ (leader ts = 2%nat \/ rep = None).
Proof.
  destruct (one_partition_finds_leader demo_submit (fun _ _ => true) (fun s _ => negb (Nat.eqb s 1)) None Inc
              (mkTest 0 0 (newRSMSrv 2)) 0 (demo_rejection_pure _) ltac:(vm_compute; lia))
    as [(d&Hd&Ha&_&E)|[_ E]].
  - eexists _, _. split; [exact E|]. left. destruct d as [|[|[|d]]]; [| |reflexivity|].
    + exfalso. vm_compute in Ha. destruct Ha as [_ Ha]. discriminate Ha.
    + exfalso. vm_compute in Ha. destruct Ha as [Ha _]. discriminate Ha.
    + exfalso. unfold NSRV in Hd. lia.
  - eexists _, _. split; [exact E|]. by right.
Defined.
