(* ===== verification/TesterConfig.v ===== *)
(** * The configuration of a test

    [src/src/tester1/config.go] with the rest of [group.go] and [clnts.go]: a test owns the
    simulated network, the groups of servers on it and the clients, starts and stops
    groups, and hands out and deletes clients.  Every end of the network has one owner, a
    pair of servers of a group or a client; the theorems say that the tester keeps it so,
    and what a started group looks like on the network.  Random names and the fates of the
    processes are arguments; a daemon may die at any time, and the tester ends when a daemon
    it needs does not answer.  A client is known by its address. *)

From S2P Require Import Prelude Labrpc RaftTest TesterGroup.
Local Open Scope Z_scope.

(** ** Groups *)

(** [rnd i j]: the random name of the end from server [i] to server [j]. *)
Abbreviation names_of rnd i n := ((rnd : nat -> nat -> string) i <$> seq 0 n).

Fixpoint make_servers (rnd : nat -> nat -> string) (gid : Z) (n : nat) (is_ : list nat) (rn : Network)
    : go (list TServer * Network) :=
  match is_ with
  | [] => Ret ([], rn)
  | i :: rest =>
      '(s, rn) ← makeServer (names_of rnd i n) gid rn;
      '(ss, rn) ← make_servers rnd gid n rest rn;
      Ret (s :: ss, rn)
  end.

Definition makeSrvGrp (rnd : nat -> nat -> string) (gid : Z) (n : nat) (rn : Network)
    : go (ServerGrp * Network) :=
  '(srvs, rn) ← make_servers rnd gid n (seq 0 n) rn;
  Ret (mkGrp gid srvs (replicate n false), rn).

Definition SrvNames (sg : ServerGrp) : list string :=
  (fun i => ServerName (g_gid sg) (Z.of_nat i)) <$> seq 0 (N sg).

(** The random end names of a start, what becomes of the daemon process, and the address of
    its server object, by server. *)
Record start_env := mkStart {
  st_rnd : nat -> nat -> string;
  st_launch : nat -> launch;
  st_ptr : nat -> nat;
}.

Definition st_ok (st : start_env) (i : nat) : bool := bool_decide (st_launch st i = Launched).

(** The error of [StartServer] is dropped. *)
Fixpoint StartSrvs (srvs : list nat) (st : start_env) (sg : ServerGrp) (rn : Network)
    : go (ServerGrp * Network) :=
  match srvs with
  | [] => Ret (sg, rn)
  | i :: rest =>
      s ← index (g_srvs sg) i;
      '(sg, rn, _) ← StartServer i (names_of (st_rnd st) i (length (endNames s))) (st_launch st i) (st_ptr st i) sg rn;
      StartSrvs rest st sg rn
  end.

Definition StartServers (st : start_env) (sg : ServerGrp) (rn : Network) : go (ServerGrp * Network) :=
  '(sg, rn) ← StartSrvs (all sg) st sg rn;
  ConnectAll sg rn.

Definition Servers (sg : ServerGrp) : list nat := all sg.

(** The loops of [RaftSize] and [SnapshotSize]. *)
Fixpoint max_size (size : TServer -> go Z) (srvs : list TServer) (acc : Z) : go Z :=
  match srvs with
  | [] => Ret acc
  | s :: rest => n ← size s; max_size size rest (if decide (n > acc) then n else acc)
  end.

Definition RaftSize (sg : ServerGrp) : go Z := max_size raftSize (g_srvs sg) 0.
Definition SnapshotSize (sg : ServerGrp) : go Z := max_size snapshotSize (g_srvs sg) 0.

(** ** The configuration *)

Definition GRP0 : Z := 0.

(** [c_clerks] is a nil map after [cleanup]; [c_failed] is [t.Failed()]. *)
Record Config := mkConfig {
  c_net : Network;
  c_grps : gmap Z ServerGrp;
  c_clerks : option (gmap nat Clnt);
  c_failed : bool;
  c_start : Z;
  c_t0 : Z;
  c_rpcs0 : Z;
  c_ops : Z;
}.

Definition set_net (rn : Network) (cfg : Config) : Config :=
  mkConfig rn (c_grps cfg) (c_clerks cfg) (c_failed cfg) (c_start cfg) (c_t0 cfg) (c_rpcs0 cfg) (c_ops cfg).

Definition set_grps (m : gmap Z ServerGrp) (cfg : Config) : Config :=
  mkConfig (c_net cfg) m (c_clerks cfg) (c_failed cfg) (c_start cfg) (c_t0 cfg) (c_rpcs0 cfg) (c_ops cfg).

Definition set_clerks (m : option (gmap nat Clnt)) (cfg : Config) : Config :=
  mkConfig (c_net cfg) (c_grps cfg) m (c_failed cfg) (c_start cfg) (c_t0 cfg) (c_rpcs0 cfg) (c_ops cfg).

Definition SetReliable (yes : bool) (cfg : Config) : Config := set_net (Reliable yes (c_net cfg)) cfg.
Definition SetLongReordering (yes : bool) (cfg : Config) : Config := set_net (LongReordering yes (c_net cfg)) cfg.
Definition SetLongDelays (yes : bool) (cfg : Config) : Config := set_net (LongDelays yes (c_net cfg)) cfg.

Definition MakeGroup (rnd : nat -> nat -> string) (gid : Z) (n : nat) (cfg : Config) : go Config :=
  '(sg, rn) ← makeSrvGrp rnd gid n (c_net cfg);
  Ret (set_grps (<[gid := sg]> (c_grps cfg)) (set_net rn cfg)).

(** [Group]: nil for an unknown group, and a method of a nil group panics. *)
Definition Group (gid : Z) (cfg : Config) : option ServerGrp := c_grps cfg !! gid.

(** A method of a group; groups are shared, so its changes are seen by everyone. *)
Definition on_group (gid : Z) (f : ServerGrp -> Network -> go (ServerGrp * Network)) (cfg : Config) : go Config :=
  match Group gid cfg with
  | None => Crash Panic
  | Some sg =>
      '(sg, rn) ← f sg (c_net cfg);
      Ret (set_grps (<[gid := sg]> (c_grps cfg)) (set_net rn cfg))
  end.

Definition MakeGroupStart (rnd : nat -> nat -> string) (st : start_env) (gid : Z) (n : nat) (cfg : Config)
    : go Config :=
  cfg ← MakeGroup rnd gid n cfg;
  on_group gid (StartServers st) cfg.

Definition ExitGroup (gid : Z) (cfg : Config) : go Config :=
  cfg ← on_group gid Shutdown cfg;
  Ret (set_grps (delete gid (c_grps cfg)) cfg).

(** The groups in the order the map is visited. *)
Fixpoint cleanup_groups (gids : list Z) (cfg : Config) : go Config :=
  match gids with
  | [] => Ret cfg
  | gid :: rest => cfg ← on_group gid Shutdown cfg; cleanup_groups rest cfg
  end.

(** [c] is the address of the new client; writing to a nil map panics. *)
Definition MakeClientTo (c : nat) (srvs : option (list string)) (cfg : Config) : go Config :=
  match c_clerks cfg with
  | None => Crash Panic
  | Some m => Ret (set_clerks (Some (<[c := makeClntTo srvs]> m)) cfg)
  end.

Definition MakeClient (c : nat) (cfg : Config) : go Config := MakeClientTo c None cfg.

(** The first part of [Clnt.Call]: the end to the server, made if there is none. *)
Definition client_end (c : nat) (name server : string) (cfg : Config) : go Config :=
  match m ← c_clerks cfg; clnt ← m !! c; Some (m, clnt) with
  | None => Crash Panic
  | Some (m, clnt) =>
      '(clnt, rn, _) ← makeEnd name server clnt (c_net cfg);
      Ret (set_clerks (Some (<[c := clnt]> m)) (set_net rn cfg))
  end.

Definition DeleteClient (c : nat) (cfg : Config) : go Config :=
  match m ← c_clerks cfg; clnt ← m !! c; Some (m, clnt) with
  | None => Ret cfg
  | Some (m, clnt) =>
      rn ← clnt_remove clnt (c_net cfg);
      Ret (set_clerks (Some (delete c m)) (set_net rn cfg))
  end.

Fixpoint remove_clients (l : list (nat * Clnt)) (rn : Network) : go Network :=
  match l with
  | [] => Ret rn
  | (_, clnt) :: rest => rn ← clnt_remove clnt rn; remove_clients rest rn
  end.

Definition clnts_cleanup (cfg : Config) : go Config :=
  rn ← remove_clients (map_to_list (default ∅ (c_clerks cfg))) (c_net cfg);
  Ret (set_clerks None (set_net rn cfg)).

(** [Config.Cleanup], up to the annotations and the socket. *)
Definition cfg_Cleanup (cfg : Config) : go Config :=
  cfg ← clnts_cleanup cfg;
  cfg ← cleanup_groups ((map_to_list (c_grps cfg)).*1) cfg;
  rn ← Labrpc.Cleanup (c_net cfg);
  Ret (set_net rn cfg).

Definition MakeConfig (rnd : nat -> nat -> string) (st : start_env) (n : nat) (rel : bool) (now : Z) : go Config :=
  cfg ← MakeGroupStart rnd st GRP0 n (mkConfig MakeNetwork ∅ (Some ∅) false 0 0 0 0);
  Ret (SetReliable rel (mkConfig (c_net cfg) (c_grps cfg) (Some ∅) false now 0 0 0)).

(** ** Statistics *)

Definition RpcTotal (cfg : Config) : Z := GetTotalCount (c_net cfg).
Definition BytesTotal (cfg : Config) : Z := GetTotalBytes (c_net cfg).

Definition Begin (now : Z) (cfg : Config) : Config :=
  mkConfig (c_net cfg) (c_grps cfg) (c_clerks cfg) (c_failed cfg) (c_start cfg) now (RpcTotal cfg) 0.

(** Two minutes, in nanoseconds. *)
Definition CheckTimeout (now : Z) (cfg : Config) : go unit :=
  if negb (c_failed cfg) && bool_decide (now - c_start cfg > 120 * 10 ^ 9) then Crash Fatal else Ret ().

(** What [End] prints of a test that did not fail: time, peers, RPCs, operations. *)
Definition End (now : Z) (cfg : Config) : go (option (Z * nat * Z * Z)) :=
  _ ← CheckTimeout now cfg;
  if c_failed cfg then Ret None else
  match Group GRP0 cfg with
  | None => Crash Panic
  | Some sg => Ret (Some (now - c_t0 cfg, N sg, i64 (RpcTotal cfg - c_rpcs0 cfg), c_ops cfg))
  end.

(** ** [random_handles] *)

(** [sa[i], sa[j] = sa[j], sa[i]] *)
Definition swap {A} (i j : nat) (sa : list A) : list A :=
  match sa !! i, sa !! j with
  | Some x, Some y => <[j := x]> (<[i := y]> sa)
  | _, _ => sa
  end.

(** Steps [i] and on of the loop; [js] are the numbers [rand.Intn(i + 1)] returns. *)
Fixpoint shuffle {A} (i : nat) (js : list nat) (sa : list A) : list A :=
  match js with
  | [] => sa
  | j :: rest => shuffle (S i) rest (swap i j sa)
  end.

Definition random_handles {A} (js : list nat) (kvh : list A) : list A := shuffle 0 js kvh.

(** ** Lemmas: shuffling *)

(** What [rand.Intn] may return in each turn. *)
Definition rolls (js : list nat) (n : nat) : Prop :=
  length js = n /\ forall i j, js !! i = Some j -> (j <= i)%nat.

Section shuffle.
  Context {A : Type}.
  Implicit Types (l p : list A).

Lemma swap_lookup i j l x y k :
  l !! i = Some x -> l !! j = Some y ->
  swap i j l !! k = if decide (k = j) then Some x else if decide (k = i) then Some y else l !! k.
Proof.
  intros Hi Hj. unfold swap. rewrite Hi, Hj. pose proof (lookup_lt_Some _ _ _ Hi). pose proof (lookup_lt_Some _ _ _ Hj).
  repeat case_decide; subst; rewrite ?list_lookup_insert_eq by (rewrite ?length_insert; lia); try done.
  - rewrite list_lookup_insert_ne by done. by rewrite list_lookup_insert_eq.
  - by rewrite !list_lookup_insert_ne.
Qed.

Lemma swap_swap i j l : swap i j (swap i j l) = l.
Proof.
  destruct (l !! i) as [x|] eqn:Hi; [|unfold swap; by rewrite ?Hi; rewrite ?Hi].
  destruct (l !! j) as [y|] eqn:Hj; [|unfold swap; by rewrite ?Hi, ?Hj; rewrite ?Hi, ?Hj].
  apply list_eq. intros k. rewrite (swap_lookup i j (swap i j l) (if decide (i = j) then x else y) x).
  - rewrite (swap_lookup i j l x y) by done. repeat case_decide; congruence.
  - rewrite (swap_lookup i j l x y) by done. repeat case_decide; congruence.
  - rewrite (swap_lookup i j l x y) by done. by rewrite decide_True.
Qed.

Lemma swap_Permutation i j l : swap i j l ≡ₚ l.
Proof.
  destruct (l !! i) as [x|] eqn:Hi; [|unfold swap; by rewrite Hi].
  destruct (l !! j) as [y|] eqn:Hj; [|unfold swap; by rewrite Hi, Hj].
  apply Permutation_inj. split; [unfold swap; by rewrite Hi, Hj, !length_insert|].
  exists (fun k => if decide (k = j) then i else if decide (k = i) then j else k). split.
  - intros a b. repeat case_decide; congruence.
  - intros k. rewrite (swap_lookup i j l x y) by done. repeat case_decide; congruence.
Qed.

Lemma swap_app i j l l' : (i < length l)%nat -> (j < length l)%nat -> swap i j (l ++ l') = swap i j l ++ l'.
Proof.
  intros Hi Hj. unfold swap. rewrite !lookup_app_l by done.
  destruct (lookup_lt_is_Some_2 l i Hi) as [x ->], (lookup_lt_is_Some_2 l j Hj) as [y ->].
  by rewrite !insert_app_l by (rewrite ?length_insert; done).
Qed.

Lemma shuffle_snoc js j : forall i l, shuffle i (js ++ [j]) l = swap (i + length js) j (shuffle i js l).
Proof.
  induction js as [|j' js IH]; intros i l; simpl; [by rewrite Nat.add_0_r|].
  rewrite IH. by rewrite Nat.add_succ_r.
Qed.

Lemma shuffle_Permutation js : forall i l, shuffle i js l ≡ₚ l.
Proof. induction js as [|j js IH]; intros i l; simpl; [done|]. by rewrite IH, swap_Permutation. Qed.

Lemma shuffle_app js : forall i l l',
  (i + length js <= length l)%nat -> (forall k j, js !! k = Some j -> (j <= i + k)%nat) ->
  shuffle i js (l ++ l') = shuffle i js l ++ l'.
Proof.
  induction js as [|j js IH]; intros i l l' Hl Hj; simpl in *; [done|].
  specialize (Hj 0%nat j eq_refl) as Hj0. rewrite swap_app by lia. apply IH.
  - rewrite swap_Permutation. lia.
  - intros k j' Hk. specialize (Hj (S k) j' Hk). lia.
Qed.

Lemma rolls_snoc js n : rolls js (S n) <-> exists js' j, js = js' ++ [j] /\ rolls js' n /\ (j <= n)%nat.
Proof.
  split.
  - intros [Hl Hj]. destruct js as [|j js' _] using rev_ind; [done|]. rewrite length_app in Hl. simpl in Hl.
    exists js', j. split; [done|]. split; [split; [lia|]|].
    + intros i j' Hi. apply Hj. by apply lookup_app_l_Some.
    + replace n with (length js') by lia. apply Hj. by rewrite list_lookup_middle.
  - intros (js'&j&->&[Hl Hj]&Hn). split; [rewrite length_app; simpl; lia|]. intros i j' Hi.
    apply lookup_app_Some in Hi as [Hi|[Hi E]]; [by apply Hj|]. apply list_lookup_singleton_Some in E as [E <-]. lia.
Qed.

(** The last turn puts the last element at position [j]. *)
Lemma shuffle_last js j l x n :
  rolls js n -> length l = n -> (j <= n)%nat ->
  random_handles (js ++ [j]) (l ++ [x]) = swap n j (random_handles js l ++ [x])
  /\ random_handles (js ++ [j]) (l ++ [x]) !! j = Some x.
Proof.
  intros [Hlen Hj] Hl Hn. unfold random_handles. rewrite shuffle_snoc, shuffle_app by (done || lia).
  rewrite Hlen. simpl. split; [done|].
  assert (length (shuffle 0 js l) = n) as Hs by (by rewrite shuffle_Permutation).
  destruct (lookup_lt_is_Some_2 (shuffle 0 js l ++ [x]) j) as [y Hy]; [rewrite length_app; simpl; lia|].
  rewrite (swap_lookup n j _ x y); [by rewrite decide_True| |done]. by rewrite <-Hs, list_lookup_middle.
Qed.

Lemma shuffle_reaches l : forall p, p ≡ₚ l -> exists js, rolls js (length l) /\ random_handles js l = p.
Proof.
  induction l as [|x l IH] using rev_ind; intros p Hp.
  - apply Permutation_nil_r in Hp as ->. exists []. by split.
  - set (n := length l). assert (length p = S n) as Hlp by (rewrite Hp, length_app; simpl; lia).
    assert (x ∈ p) as [j Hj]%list_elem_of_lookup by (rewrite Hp; set_solver +).
    pose proof (lookup_lt_Some _ _ _ Hj) as Hjn.
    destruct (lookup_lt_is_Some_2 p n) as [y Hy]; [lia|].
    assert (exists q, swap n j p = q ++ [x]) as [q Hq].
    { assert (swap n j p !! n = Some x) as Hlast.
      { rewrite (swap_lookup n j p y x) by done. repeat case_decide; congruence. }
      exists (take n (swap n j p)). rewrite <-(take_drop n (swap n j p)) at 1. f_equal.
      rewrite (drop_S _ x n Hlast). f_equal. apply drop_ge. rewrite swap_Permutation. lia. }
    assert (q ≡ₚ l) as Hql.
    { apply (Permutation_app_inv_r [x]). by rewrite <-Hq, swap_Permutation. }
    destruct (IH q Hql) as (js&Hd&Ejs). exists (js ++ [j]). split.
    + rewrite length_app, Nat.add_1_r. apply rolls_snoc. exists js, j. split; [done|]. split; [done|]. fold n. lia.
    + destruct (shuffle_last js j l x n Hd eq_refl) as [-> _]; [lia|]. by rewrite Ejs, <-Hq, swap_swap.
Qed.

Lemma shuffle_unique l : NoDup l -> forall js js',
  rolls js (length l) -> rolls js' (length l) -> random_handles js l = random_handles js' l -> js = js'.
Proof.
  induction l as [|x l IH] using rev_ind; intros Hnd js js' Hd Hd' E.
  - destruct Hd as [Hd _], Hd' as [Hd' _]. by destruct js, js'.
  - rewrite length_app, Nat.add_1_r in Hd, Hd'. apply rolls_snoc in Hd as (ks&j&->&Hd&Hj).
    apply rolls_snoc in Hd' as (ks'&j'&->&Hd'&Hj').
    destruct (shuffle_last ks j l x _ Hd eq_refl Hj) as [E1 H1].
    destruct (shuffle_last ks' j' l x _ Hd' eq_refl Hj') as [E2 H2].
    assert (j = j') as <-.
    { rewrite <-E in H2. refine (NoDup_lookup _ _ _ _ _ H1 H2). unfold random_handles. by rewrite shuffle_Permutation. }
    rewrite E1, E2 in E. apply (f_equal (swap (length l) j)) in E. rewrite !swap_swap in E.
    apply app_inj_tail in E as [E _]. f_equal. apply IH; [|done..]. by apply list.NoDup_app in Hnd as (?&_).
Qed.
End shuffle.

(** ** Lemmas: new ends *)

Definition wired (rn : Network) (e server : string) : Prop :=
  is_Some (ends rn !! e) /\ connections rn !! e = Some (Some server).

Definition fresh (names : list string) (rn : Network) : Prop :=
  NoDup names /\ forall e, e ∈ names -> ends rn !! e = None.

(** Between [rn] and [rn'] the ends [w] were made, each connected to its server. *)
Record new_ends (w : list (string * string)) (rn rn' : Network) : Prop := {
  ne_wired e t : (e, t) ∈ w -> wired rn' e t;
  ne_frame e : e ∉ w.*1 -> ends rn' !! e = ends rn !! e /\ connections rn' !! e = connections rn !! e;
  ne_enabled e : e ∉ w.*1 -> enabled rn' !! e = enabled rn !! e;
  ne_servers : servers rn' = servers rn;
  ne_done : Labrpc.done rn' = Labrpc.done rn;
}.

Lemma new_ends_nil rn : new_ends [] rn rn.
Proof. split; [|done..]. intros e t Hin. by apply elem_of_nil in Hin. Qed.

Lemma new_ends_app w1 w2 rn rn1 rn2 :
  (forall e, e ∈ w1.*1 -> e ∉ w2.*1) -> new_ends w1 rn rn1 -> new_ends w2 rn1 rn2 -> new_ends (w1 ++ w2) rn rn2.
Proof.
  intros Hd H1 H2. split.
  - intros e t [Hin|Hin]%elem_of_app; [|by apply (ne_wired _ _ _ H2)].
    destruct (ne_frame _ _ _ H2 e) as [E1 E2]; [apply Hd, list_elem_of_fmap; by exists (e, t)|].
    unfold wired. rewrite E1, E2. by apply (ne_wired _ _ _ H1).
  - intros e He. rewrite fmap_app, not_elem_of_app in He. destruct He as [He1 He2].
    destruct (ne_frame _ _ _ H2 e He2) as [-> ->]. by apply (ne_frame _ _ _ H1).
  - intros e He. rewrite fmap_app, not_elem_of_app in He. destruct He as [He1 He2].
    by rewrite (ne_enabled _ _ _ H2), (ne_enabled _ _ _ H1).
  - by rewrite (ne_servers _ _ _ H2), (ne_servers _ _ _ H1).
  - by rewrite (ne_done _ _ _ H2), (ne_done _ _ _ H1).
Qed.

Lemma fresh_new_ends w l rn rn' :
  fresh (w.*1 ++ l) rn -> new_ends w rn rn' -> fresh l rn'.
Proof.
  intros [Hnd Hf] H. apply list.NoDup_app in Hnd as (_&Hd&Hnd). split; [done|]. intros e He.
  destruct (ne_frame _ _ _ H e) as [-> _]; [intros Hw; by eapply Hd|]. apply Hf, elem_of_app. by right.
Qed.

Lemma fresh_app_l l1 l2 rn : fresh (l1 ++ l2) rn -> fresh l1 rn.
Proof.
  intros [Hnd Hf]. apply list.NoDup_app in Hnd as (Hnd&_). split; [done|]. intros e He. apply Hf, elem_of_app. by left.
Qed.

(** The ends of a server of group [gid], with the servers they lead to. *)
Definition wires (gid : Z) (j : nat) (names : list string) : list (string * string) :=
  zip names ((fun k => ServerName gid (Z.of_nat k)) <$> seq j (length names)).

Lemma wires_names gid j names : (wires gid j names).*1 = names.
Proof. unfold wires. apply fst_zip. by rewrite length_fmap, length_seq. Qed.

Lemma elem_of_wires gid names e t :
  (e, t) ∈ wires gid 0 names <-> exists j, names !! j = Some e /\ t = ServerName gid (Z.of_nat j).
Proof.
  unfold wires. rewrite list_elem_of_lookup. setoid_rewrite lookup_zip_with_Some. split.
  - intros (j&x&y&[= -> ->]&Hx&Hy). exists j. split; [done|]. rewrite list_lookup_fmap in Hy.
    rewrite lookup_seq_lt in Hy by (by eapply lookup_lt_Some). by injection Hy as <-.
  - intros (j&Hj&->). exists j, e, (ServerName gid (Z.of_nat j)). split; [done|]. split; [done|].
    rewrite list_lookup_fmap, lookup_seq_lt by (by eapply lookup_lt_Some). done.
Qed.

Lemma make_ends_spec names gid : forall j rn, fresh names rn ->
  exists rn', make_ends names gid j rn = Ret rn' /\ new_ends (wires gid j names) rn rn'.
Proof.
  induction names as [|name names IH]; intros j rn Hf; [by exists rn; split; [|apply new_ends_nil]|].
  cbn [make_ends]. unfold MakeEnd. rewrite (proj2 Hf) by (by left). run_go.
  set (rn1 := Connect name (ServerName gid (Z.of_nat j)) _).
  assert (new_ends [(name, ServerName gid (Z.of_nat j))] rn rn1) as H1.
  { split; [| | |done..].
    - intros e t [= -> ->]%list_elem_of_singleton. split; simpl; rewrite lookup_insert_eq; [by eexists|done].
    - intros e He. simpl in He. rewrite list_elem_of_singleton in He. simpl. by rewrite !lookup_insert_ne.
    - intros e He. simpl in He. rewrite list_elem_of_singleton in He. simpl. by rewrite !lookup_insert_ne. }
  destruct (IH (S j) rn1) as (rn'&E&H2).
  { eapply (fresh_new_ends [_]); [|exact H1]. exact Hf. }
  exists rn'. split; [done|]. eapply (new_ends_app [_] (wires gid (S j) names)); [|exact H1|exact H2].
  intros e He. simpl in He. apply list_elem_of_singleton in He as ->. rewrite wires_names.
  destruct Hf as [Hnd _]. by apply list.NoDup_cons in Hnd as [? _].
Qed.

(** ** Lemmas: who owns an end *)

Lemma end_of_Ret sg i j e :
  end_of sg i j = Ret e <-> exists s, g_srvs sg !! i = Some s /\ endNames s !! j = Some e.
Proof.
  unfold end_of, index. destruct (g_srvs sg !! i) as [s|]; simpl; [|naive_solver].
  destruct (endNames s !! j) as [e'|] eqn:E; naive_solver.
Qed.

Inductive owner :=
  | OGrp (gid : Z) (i j : nat)
  | OClnt (c : nat) (server : string).

Definition target (o : owner) : string :=
  match o with OGrp gid _ j => ServerName gid (Z.of_nat j) | OClnt _ server => server end.

Definition owns (cfg : Config) (o : owner) (e : string) : Prop :=
  match o with
  | OGrp gid i j => exists sg, c_grps cfg !! gid = Some sg /\ end_of sg i j = Ret e
  | OClnt c server =>
      exists m clnt, c_clerks cfg = Some m /\ m !! c = Some clnt /\ cl_ends clnt !! server = Some e
  end.

Definition shaped (gid : Z) (sg : ServerGrp) : Prop :=
  g_gid sg = gid /\ length (g_connected sg) = N sg
  /\ forall s, s ∈ g_srvs sg -> length (endNames s) = N sg.

(** No end has two owners, and every owned end exists and leads to its target. *)
Record cinv (cfg : Config) : Prop := {
  ci_done : Labrpc.done (c_net cfg) = false;
  ci_shape gid sg : c_grps cfg !! gid = Some sg -> shaped gid sg;
  ci_owner o o' e : owns cfg o e -> owns cfg o' e -> o = o';
  ci_wired o e : owns cfg o e -> wired (c_net cfg) e (target o);
}.

Lemma cinv_good cfg gid sg : cinv cfg -> c_grps cfg !! gid = Some sg -> good sg.
Proof.
  intros Hc Hg. destruct (ci_shape _ Hc _ _ Hg) as (_&Hlen&Hn). split; [done|]. split.
  - intros i j Hi Hj. destruct (lookup_lt_is_Some_2 (g_srvs sg) i Hi) as [s Hs].
    destruct (lookup_lt_is_Some_2 (endNames s) j) as [e He]; [rewrite Hn by (by eapply list_elem_of_lookup_2); done|].
    exists e. apply end_of_Ret. by exists s.
  - intros i j i' j' e E E'. enough (OGrp gid i j = OGrp gid i' j') as [= -> ->] by done.
    apply (ci_owner _ Hc _ _ e); by exists sg.
Qed.

(** The ends [F] are new, everything else that is owned was owned before and is left alone. *)
Lemma cinv_change cfg cfg' (F : owner -> string -> Prop) :
  cinv cfg -> Labrpc.done (c_net cfg') = Labrpc.done (c_net cfg) ->
  (forall gid sg, c_grps cfg' !! gid = Some sg -> shaped gid sg) ->
  (forall o e, owns cfg' o e -> F o e \/ owns cfg o e
     /\ ends (c_net cfg') !! e = ends (c_net cfg) !! e
     /\ connections (c_net cfg') !! e = connections (c_net cfg) !! e) ->
  (forall o o' e, F o e -> F o' e -> o = o') ->
  (forall o e, F o e -> ends (c_net cfg) !! e = None /\ wired (c_net cfg') e (target o)) ->
  cinv cfg'.
Proof.
  intros Hc Hd Hs Ho Hinj HF. split; [by rewrite Hd; apply ci_done|done| |].
  - assert (forall o o' e, F o e -> owns cfg o' e -> False) as Hx.
    { intros o o' e [Hf _]%HF [[x Hx] _]%(ci_wired _ Hc). by rewrite Hf in Hx. }
    intros o o' e [H1|[H1 _]]%Ho [H2|[H2 _]]%Ho; [by eapply Hinj|by destruct (Hx o o' e)|by destruct (Hx o' o e)|].
    by eapply (ci_owner _ Hc).
  - intros o e [H1|(H1&E1&E2)]%Ho; [by apply HF|]. unfold wired. rewrite E1, E2. by apply (ci_wired _ Hc).
Qed.

(** ** Lemmas: operations that make no ends *)

(** Only flags have changed, and on the network only those of the group's ends. *)
Record quiet (sg sg' : ServerGrp) (rn rn' : Network) : Prop := {
  q_gid : g_gid sg' = g_gid sg;
  q_names : endNames <$> g_srvs sg' = endNames <$> g_srvs sg;
  q_connected : length (g_connected sg') = length (g_connected sg);
  q_ends : ends rn' = ends rn;
  q_connections : connections rn' = connections rn;
  q_done : Labrpc.done rn' = Labrpc.done rn;
  q_enabled e : (forall x y, end_of sg x y <> Ret e) -> enabled rn' !! e = enabled rn !! e;
}.

Lemma quiet_refl sg rn : quiet sg sg rn rn.
Proof. done. Qed.

Lemma quiet_N sg sg' rn rn' : quiet sg sg' rn rn' -> N sg' = N sg.
Proof. intros [_ E _ _ _ _ _]. apply (f_equal length) in E. by rewrite !length_fmap in E. Qed.

Lemma quiet_end_of sg sg' rn rn' i j : quiet sg sg' rn rn' -> end_of sg' i j = end_of sg i j.
Proof.
  intros [_ E _ _ _ _ _]. apply (f_equal (.!! i)) in E. rewrite !list_lookup_fmap in E. unfold end_of, index.
  destruct (g_srvs sg !! i), (g_srvs sg' !! i); simpl in *; try done. by injection E as ->.
Qed.

Lemma quiet_trans sg1 sg2 sg3 rn1 rn2 rn3 :
  quiet sg1 sg2 rn1 rn2 -> quiet sg2 sg3 rn2 rn3 -> quiet sg1 sg3 rn1 rn3.
Proof.
  intros Q1 Q2. assert (forall x y, end_of sg2 x y = end_of sg1 x y) as He by (intros; by eapply quiet_end_of).
  destruct Q1, Q2. split; try congruence. intros e Hne. setoid_rewrite He in q_enabled1.
  by rewrite q_enabled1, q_enabled0.
Qed.

Lemma quiet_good sg sg' rn rn' : quiet sg sg' rn rn' -> good sg -> good sg'.
Proof.
  intros Hq (H1&H2&H3). split; [by rewrite (q_connected _ _ _ _ Hq), (quiet_N _ _ _ _ Hq)|].
  rewrite (quiet_N _ _ _ _ Hq). split; [intros i j; rewrite (quiet_end_of _ _ _ _ _ _ Hq); apply H2|].
  intros i j i' j' e. rewrite !(quiet_end_of _ _ _ _ _ _ Hq). apply H3.
Qed.

Lemma quiet_enable i b b' sg ps rn :
  quiet sg (with_conn i b sg) rn (enable_pairs (with_conn i b sg) b' ps rn).
Proof.
  destruct (enable_pairs_frame (with_conn i b sg) b' ps rn) as (?&?&?&?&?). split; try done.
  simpl. by rewrite length_insert.
Qed.

Lemma all_in_group sg : in_group sg (all sg).
Proof. apply list.Forall_forall. intros j Hj%elem_of_seq. unfold N. lia. Qed.

(** Whether the daemon of server [i] runs; [None] if there is no such server. *)
Definition running (sg : ServerGrp) (i : nat) : option bool :=
  (fun s => bool_decide (is_Some (dc s))) <$> g_srvs sg !! i.

(** The daemon of server [i], if it has one, answers. *)
Definition answers (sg : ServerGrp) (i : nat) : bool :=
  match s ← g_srvs sg !! i; dc s with Some Silent => false | _ => true end.

Definition all_answer (sg : ServerGrp) (l : list nat) : bool := forallb (answers sg) l.

Lemma all_answer_true sg l : all_answer sg l = true <-> forall i, i ∈ l -> answers sg i = true.
Proof. unfold all_answer. rewrite forallb_forall. by setoid_rewrite list_elem_of_In. Qed.

Lemma connect_quiet i to sg rn :
  good sg -> (i < N sg)%nat -> in_group sg to ->
  exists sg' rn', connect i to sg rn = Ret (sg', rn') /\ quiet sg sg' rn rn'.
Proof. intros Hg Hi Ht. rewrite connect_eq by done. eexists _, _. split; [done|apply quiet_enable]. Qed.

Lemma disconnect_quiet i from sg rn :
  good sg -> (i < N sg)%nat -> in_group sg from ->
  exists sg' rn', disconnect i from sg rn = Ret (sg', rn') /\ quiet sg sg' rn rn' /\ servers rn' = servers rn.
Proof.
  intros Hg Hi Ht. rewrite disconnect_eq by done. eexists _, _. split; [done|].
  split; [apply quiet_enable|]. apply enable_pairs_frame.
Qed.

Lemma in_group_quiet sg sg' rn rn' l : quiet sg sg' rn rn' -> in_group sg l -> in_group sg' l.
Proof. intros Hq. unfold in_group. by rewrite (quiet_N _ _ _ _ Hq). Qed.

Lemma isolate_quiet mine side other : forall sg rn,
  good sg -> in_group sg mine -> in_group sg side -> in_group sg other ->
  exists sg' rn', isolate mine side other sg rn = Ret (sg', rn') /\ quiet sg sg' rn rn'.
Proof.
  induction mine as [|i mine IH]; intros sg rn Hg Hm Hs Ho; [eexists _, _; split; [done|apply quiet_refl]|].
  apply list.Forall_cons in Hm as [Hi Hm]. cbn [isolate].
  destruct (disconnect_quiet i other sg rn Hg Hi Ho) as (sg1&rn1&->&Q1&_). run_go.
  destruct (connect_quiet i side sg1 rn1) as (sg2&rn2&->&Q2); [by eapply quiet_good|by rewrite (quiet_N _ _ _ _ Q1)|by eapply in_group_quiet|].
  run_go. pose proof (quiet_trans _ _ _ _ _ _ Q1 Q2) as Q.
  destruct (IH sg2 rn2) as (sg3&rn3&->&Q3); [by eapply quiet_good|by eapply in_group_quiet..|].
  eexists _, _. split; [done|]. by eapply quiet_trans.
Qed.

Lemma Partition_quiet p1 p2 sg rn :
  good sg -> in_group sg p1 -> in_group sg p2 ->
  exists sg' rn', Partition p1 p2 sg rn = Ret (sg', rn') /\ quiet sg sg' rn rn'.
Proof.
  intros Hg H1 H2. unfold Partition.
  destruct (isolate_quiet p1 p1 p2 sg rn) as (sg1&rn1&->&Q1); [done..|]. run_go.
  destruct (isolate_quiet p2 p2 p1 sg1 rn1) as (sg2&rn2&->&Q2); [by eapply quiet_good|by eapply in_group_quiet..|].
  eexists _, _. split; [done|]. by eapply quiet_trans.
Qed.

(** Connecting the servers [l] one after the other, after the servers [d]. *)
Lemma connect_each_spec l : forall sg rn d,
  good sg -> in_group sg l -> in_group sg d ->
  (forall x, x ∈ d -> is_conn sg x) -> (forall x y, x ∈ d -> y ∈ d -> link sg rn x y = true) ->
  exists sg' rn', connect_each l sg rn = Ret (sg', rn') /\ quiet sg sg' rn rn' /\ servers rn' = servers rn
    /\ g_srvs sg' = g_srvs sg
    /\ (forall x y, x ∈ d ++ l -> y ∈ d ++ l -> link sg' rn' x y = true).
Proof.
  induction l as [|i l IH]; intros sg rn d Hg Hl Hd Hc Hlk.
  { eexists _, _. split; [done|]. split; [apply quiet_refl|]. split; [done|]. split; [done|]. intros x y. rewrite app_nil_r. apply Hlk. }
  apply list.Forall_cons in Hl as [Hi Hl]. cbn [connect_each]. unfold ConnectOne.
  pose proof (connect_eq i (all sg) sg rn Hg Hi (all_in_group sg)) as E.
  destruct (connect_spec i (all sg) sg rn Hg Hi (all_in_group sg)) as (rn1&E1&H1).
  cbv zeta in E. rewrite E1 in E. injection E as Er. rewrite E1. run_go.
  set (sg1 := with_conn i true sg) in *.
  assert (quiet sg sg1 rn rn1) as Q1 by (rewrite Er; apply quiet_enable).
  assert (forall x, x ∈ d ++ [i] -> is_conn sg1 x) as Hc1.
  { intros x Hx. unfold sg1. rewrite is_conn_with_conn by done. case_decide; [done|]. set_solver + Hx Hc H. }
  unfold in_group in Hd. rewrite list.Forall_forall in Hd.
  destruct (IH sg1 rn1 (d ++ [i])) as (sg'&rn'&->&Q&Es&Eg&Hlk'); [by apply good_with_conn|done| |done| |].
  - apply list.Forall_forall. intros x [Hx| ->%list_elem_of_singleton]%elem_of_app; [by apply Hd|done].
  - assert (forall x, x ∈ d ++ [i] -> (x < N sg)%nat /\ x ∈ all sg) as Hr.
    { intros x [Hx| ->%list_elem_of_singleton]%elem_of_app; [specialize (Hd x Hx)|]; (split; [done|]);
        apply elem_of_seq; unfold N in *; lia. }
    intros x y Hx Hy. change (link sg1) with (link sg). rewrite H1 by (by apply Hr).
    case_decide as Hn; [done|]. apply Hlk; apply Stdlib.Logic.Decidable.not_or in Hn as [Hn1 Hn2].
    + apply elem_of_app in Hx as [?| ->%list_elem_of_singleton]; [done|]. destruct Hn1. split; [done|].
      split; [by apply Hr|by apply Hc1].
    + apply elem_of_app in Hy as [?| ->%list_elem_of_singleton]; [done|]. destruct Hn2. split; [done|].
      split; [by apply Hr|by apply Hc1].
  - exists sg', rn'. split; [done|]. split; [by eapply quiet_trans|]. rewrite Es, Er. split; [apply enable_pairs_frame|].
    split; [done|]. intros x y. rewrite <-app_assoc in Hlk'. apply Hlk'.
Qed.

Lemma ConnectAll_spec sg rn :
  good sg ->
  exists sg' rn', ConnectAll sg rn = Ret (sg', rn') /\ quiet sg sg' rn rn' /\ servers rn' = servers rn
    /\ g_srvs sg' = g_srvs sg
    /\ (forall x y, (x < N sg)%nat -> (y < N sg)%nat -> link sg' rn' x y = true).
Proof.
  intros Hg. destruct (connect_each_spec (all sg) sg rn []) as (sg'&rn'&E&Q&Es&Eg&Hl); [done|apply all_in_group|constructor|..].
  { intros x Hx. by apply elem_of_nil in Hx. }
  { intros x y Hx. by apply elem_of_nil in Hx. }
  exists sg', rn'. split; [done|]. split; [done|]. split; [done|]. split; [done|].
  intros x y Hx Hy. apply Hl; apply elem_of_seq; unfold N in *; lia.
Qed.

(** [ShutdownServer] up to the daemon: the group after [disconnect], and the server. *)
Lemma ShutdownServer_eq i sg rn :
  good sg -> (i < N sg)%nat ->
  exists s rn1, g_srvs sg !! i = Some s /\ quiet sg (with_conn i false sg) rn rn1 /\ servers rn1 = servers rn
    /\ ShutdownServer i sg rn
       = (s' ← shutdownServer s; Ret (set_gsrvs (<[i := s']> (g_srvs sg)) (with_conn i false sg),
                                      DeleteServer (ServerName (g_gid sg) (Z.of_nat i)) rn1)).
Proof.
  intros Hg Hi. unfold ShutdownServer. pose proof (disconnect_eq i (all sg) sg rn Hg Hi (all_in_group sg)) as Ed.
  destruct (disconnect_quiet i (all sg) sg rn Hg Hi (all_in_group sg)) as (sg1&rn1&E1&Q1&Es).
  cbv zeta in Ed. rewrite E1 in Ed. injection Ed as -> _. rewrite E1. run_go.
  destruct (lookup_lt_is_Some_2 (g_srvs sg) i Hi) as [s Hs]. unfold index. simpl. rewrite Hs. run_go. by exists s, rn1.
Qed.

Lemma ShutdownServer_quiet i sg rn :
  good sg -> (i < N sg)%nat -> answers sg i = true ->
  exists sg' rn', ShutdownServer i sg rn = Ret (sg', rn') /\ quiet sg sg' rn rn'
    /\ servers rn' = <[ServerName (g_gid sg) (Z.of_nat i) := None]> (servers rn)
    /\ (forall j, running sg' j = if decide (j = i) then Some false else running sg j)
    /\ (forall j, answers sg' j = if decide (j = i) then true else answers sg j).
Proof.
  intros Hg Hi Ha. destruct (ShutdownServer_eq i sg rn Hg Hi) as (s&rn1&Hs&Q1&Es&->).
  assert (exists s', shutdownServer s = Ret s' /\ endNames s' = endNames s /\ dc s' = None) as (s'&->&En&Ed).
  { unfold answers in Ha. rewrite Hs in Ha. simpl in Ha. unfold shutdownServer.
    destruct (dc s) as [[p|]|] eqn:Ed; [by eexists|done|by exists s]. }
  run_go. eexists _, _. split; [done|]. split; [|split; [simpl; by rewrite Es|split]].
  - eapply quiet_trans; [exact Q1|]. split; try done. simpl. apply list_eq. intros k. rewrite !list_lookup_fmap.
    destruct (decide (k = i)) as [->|Hk]; [|by rewrite list_lookup_insert_ne].
    rewrite list_lookup_insert_eq, Hs by (by eapply lookup_lt_Some). simpl. by rewrite En.
  - intros j. unfold running. simpl. case_decide as Hj; [|by rewrite list_lookup_insert_ne].
    subst j. rewrite list_lookup_insert_eq by done. simpl. by rewrite Ed.
  - intros j. unfold answers. simpl. case_decide as Hj; [|by rewrite list_lookup_insert_ne].
    subst j. rewrite list_lookup_insert_eq by done. simpl. by rewrite Ed.
Qed.

Lemma ShutdownServer_fatal i sg rn :
  good sg -> (i < N sg)%nat -> answers sg i = false -> ShutdownServer i sg rn = Crash Fatal.
Proof.
  intros Hg Hi Ha. destruct (ShutdownServer_eq i sg rn Hg Hi) as (s&rn1&Hs&_&_&->).
  unfold answers in Ha. rewrite Hs in Ha. simpl in Ha. unfold shutdownServer. by destruct (dc s) as [[]|].
Qed.

Lemma all_answer_shutdown i sg sg' l :
  answers sg i = true -> (forall j, answers sg' j = if decide (j = i) then true else answers sg j) ->
  all_answer sg' l = all_answer sg l.
Proof.
  intros Hi Ha. unfold all_answer. induction l as [|k l IH]; [done|]. cbn [forallb]. rewrite IH, Ha.
  case_decide; [subst; by rewrite Hi|done].
Qed.

Lemma Kill_quiet l : forall sg rn, good sg -> in_group sg l -> all_answer sg l = true ->
  exists sg' rn', Kill l sg rn = Ret (sg', rn') /\ quiet sg sg' rn rn'
    /\ (forall j, running sg' j = if decide (j ∈ l) then Some false else running sg j)
    /\ (forall i, i ∈ l -> lookup_server (ServerName (g_gid sg) (Z.of_nat i)) rn' = None)
    /\ (forall name, (forall i, i ∈ l -> name <> ServerName (g_gid sg) (Z.of_nat i)) ->
          servers rn' !! name = servers rn !! name)
    /\ (forall j, answers sg' j = bool_decide (j ∈ l) || answers sg j).
Proof.
  induction l as [|i l IH]; intros sg rn Hg Hl Ha.
  { eexists _, _. split; [done|]. split; [apply quiet_refl|]. split; [done|]. split; [|done].
    intros i Hi. by apply elem_of_nil in Hi. }
  apply list.Forall_cons in Hl as [Hi Hl]. pose proof Ha as [Hai Hal]%andb_prop. cbn [Kill].
  destruct (ShutdownServer_quiet i sg rn Hg Hi Hai) as (sg1&rn1&->&Q1&Es&Hr1&Ha1). run_go.
  destruct (IH sg1 rn1) as (sg2&rn2&->&Q2&Hr2&Hd&Hs&Ha2); [by eapply quiet_good|by eapply in_group_quiet| |].
  { by rewrite (all_answer_shutdown i sg). }
  rewrite (q_gid _ _ _ _ Q1) in Hd, Hs.
  eexists _, _. split; [done|]. split; [by eapply quiet_trans|]. split; [|split; [|split]].
  - intros j. rewrite Hr2, Hr1. destruct (decide (j = i)) as [->|Hj]; [rewrite (decide_True (P := i ∈ i :: l)) by (by left); by case_decide|].
    apply decide_ext. rewrite elem_of_cons. tauto.
  - intros k [->|Hk]%elem_of_cons; [|by apply Hd]. destruct (decide (i ∈ l)) as [Hin|Hin]; [by apply Hd|].
    unfold lookup_server. rewrite Hs, Es, lookup_insert_eq; [done|]. intros k Hk [_ ->]%ServerName_inj. done.
  - intros name Hn. rewrite Hs, Es, lookup_insert_ne; [done|..].
    + intros E. by apply (Hn i); [left|].
    + intros k Hk. apply Hn. by right.
  - intros j. rewrite Ha2, Ha1. case_decide as Hj.
    + subst j. rewrite orb_true_r. by rewrite (bool_decide_eq_true_2 (i ∈ i :: l)) by (by left).
    + f_equal. apply bool_decide_ext. rewrite elem_of_cons. tauto.
Qed.

(** Some daemon to be killed is gone: the tester ends. *)
Lemma Kill_fatal l : forall sg rn, good sg -> in_group sg l -> all_answer sg l = false -> Kill l sg rn = Crash Fatal.
Proof.
  induction l as [|i l IH]; intros sg rn Hg Hl Ha; [done|].
  apply list.Forall_cons in Hl as [Hi Hl]. unfold all_answer in Ha. cbn [Kill forallb] in *.
  destruct (answers sg i) eqn:Hai; [|by rewrite ShutdownServer_fatal].
  destruct (ShutdownServer_quiet i sg rn Hg Hi Hai) as (sg1&rn1&->&Q1&_&_&Ha1). run_go.
  apply IH; [by eapply quiet_good|by eapply in_group_quiet|]. by rewrite (all_answer_shutdown i sg).
Qed.

(** ** Lemmas: the configuration *)

(** Group [gid] and the network replaced. *)
Definition put (gid : Z) (sg : ServerGrp) (rn : Network) (cfg : Config) : Config :=
  set_grps (<[gid := sg]> (c_grps cfg)) (set_net rn cfg).

Lemma owns_put gid sg rn cfg o e :
  owns (put gid sg rn cfg) o e ->
  (exists i j, o = OGrp gid i j /\ end_of sg i j = Ret e) \/ owns cfg o e.
Proof.
  destruct o as [g i j|c server]; [|by right]. intros (sg'&Hg&He). simpl in Hg.
  destruct (decide (gid = g)) as [<-|Hne].
  - rewrite lookup_insert_eq in Hg. injection Hg as <-. left. by exists i, j.
  - rewrite lookup_insert_ne in Hg by done. right. by exists sg'.
Qed.

Lemma shape_put gid sg rn cfg :
  cinv cfg -> shaped gid sg -> forall g sg', c_grps (put gid sg rn cfg) !! g = Some sg' -> shaped g sg'.
Proof.
  intros Hc Hs g sg' Hg. simpl in Hg. destruct (decide (gid = g)) as [<-|Hne].
  - rewrite lookup_insert_eq in Hg. by injection Hg as <-.
  - rewrite lookup_insert_ne in Hg by done. by apply (ci_shape _ Hc).
Qed.

Lemma shaped_quiet gid sg sg' rn rn' : quiet sg sg' rn rn' -> shaped gid sg -> shaped gid sg'.
Proof.
  intros Q (H1&H2&H3). split; [by rewrite (q_gid _ _ _ _ Q)|]. rewrite (quiet_N _ _ _ _ Q).
  split; [by rewrite (q_connected _ _ _ _ Q)|]. intros s Hs.
  assert (endNames s ∈ endNames <$> g_srvs sg) as (s'&->&Hs')%list_elem_of_fmap
    by (rewrite <-(q_names _ _ _ _ Q); by apply list_elem_of_fmap_2). by apply H3.
Qed.

Lemma cinv_quiet cfg gid sg sg' rn' :
  cinv cfg -> c_grps cfg !! gid = Some sg -> quiet sg sg' (c_net cfg) rn' -> cinv (put gid sg' rn' cfg).
Proof.
  intros Hc Hg Q. apply (cinv_change cfg _ (fun _ _ => False)); try done.
  - apply Q.
  - apply shape_put; [done|]. eapply shaped_quiet; [done|]. by apply (ci_shape _ Hc).
  - intros o e Ho. right. simpl. rewrite (q_ends _ _ _ _ Q), (q_connections _ _ _ _ Q). split; [|done].
    apply owns_put in Ho as [(i&j&->&He)|Ho]; [|done]. exists sg. split; [done|].
    by rewrite <-(quiet_end_of _ _ _ _ _ _ Q).
Qed.

(** Group [g] and its links are as before. *)
Definition undisturbed (g : Z) (cfg cfg' : Config) : Prop :=
  Group g cfg' = Group g cfg
  /\ forall sg i j, Group g cfg = Some sg -> link sg (c_net cfg') i j = link sg (c_net cfg) i j.

Lemma undisturbed_trans g cfg1 cfg2 cfg3 :
  undisturbed g cfg1 cfg2 -> undisturbed g cfg2 cfg3 -> undisturbed g cfg1 cfg3.
Proof.
  intros [E1 L1] [E2 L2]. split; [congruence|]. intros sg i j Hg. rewrite L2 by congruence. by apply L1.
Qed.

(** The flags of the ends of group [g] are as before. *)
Lemma undisturbed_enabled g cfg cfg' :
  Group g cfg' = Group g cfg ->
  (forall i j e, owns cfg (OGrp g i j) e -> enabled (c_net cfg') !! e = enabled (c_net cfg) !! e) ->
  undisturbed g cfg cfg'.
Proof.
  intros E H. split; [done|]. intros sg i j Hg. unfold link. destruct (end_of sg i j) as [e|] eqn:Ee; [|done].
  rewrite (H i j); [done|]. by exists sg.
Qed.

Lemma Group_put g gid sg rn cfg : g <> gid -> Group g (put gid sg rn cfg) = Group g cfg.
Proof. intros Hne. unfold Group. simpl. by apply lookup_insert_ne. Qed.

(** New ends were made and old flags kept. *)
Lemma undisturbed_new g gid sg rn' cfg :
  cinv cfg -> g <> gid ->
  (forall e, is_Some (ends (c_net cfg) !! e) -> enabled rn' !! e = enabled (c_net cfg) !! e) ->
  undisturbed g cfg (put gid sg rn' cfg).
Proof.
  intros Hc Hne Hen. apply undisturbed_enabled; [by apply Group_put|].
  intros i j e [Ho _]%(ci_wired _ Hc). by apply Hen.
Qed.

Lemma undisturbed_quiet g cfg gid sg sg' rn' :
  cinv cfg -> c_grps cfg !! gid = Some sg -> quiet sg sg' (c_net cfg) rn' -> g <> gid ->
  undisturbed g cfg (put gid sg' rn' cfg).
Proof.
  intros Hc Hg Q Hne. apply undisturbed_enabled; [by apply Group_put|]. intros i j e Ho. simpl.
  apply (q_enabled _ _ _ _ Q). intros x y Exy.
  assert (OGrp g i j = OGrp gid x y) as [= ? _ _]; [|done]. apply (ci_owner _ Hc _ _ e); [done|]. by exists sg.
Qed.

(** A method of a group that only changes flags. *)
Lemma on_group_quiet gid f cfg sg :
  cinv cfg -> c_grps cfg !! gid = Some sg ->
  (exists sg' rn', f sg (c_net cfg) = Ret (sg', rn') /\ quiet sg sg' (c_net cfg) rn') ->
  exists cfg', on_group gid f cfg = Ret cfg' /\ cinv cfg' /\ forall g, g <> gid -> undisturbed g cfg cfg'.
Proof.
  intros Hc Hg (sg'&rn'&E&Q). unfold on_group. unfold Group at 1. rewrite Hg, E. run_go.
  eexists. split; [done|]. split; [by eapply cinv_quiet|]. intros g Hne. by eapply undisturbed_quiet.
Qed.

(** ** Lemmas: operations that make ends *)

Lemma NoDup_bind_lookup {A} (f : A -> list string) l : NoDup (l ≫= f) -> forall i i' a a' j j' e,
  l !! i = Some a -> f a !! j = Some e -> l !! i' = Some a' -> f a' !! j' = Some e -> i = i' /\ j = j'.
Proof.
  induction l as [|x l IH]; intros Hnd i i' a a' j j' e Hi Hj Hi' Hj'; [done|].
  rewrite bind_cons in Hnd. apply list.NoDup_app in Hnd as (Hx&Hd&Hl).
  assert (forall k b k', l !! k = Some b -> f b !! k' = Some e -> e ∈ l ≫= f) as Hin.
  { intros k b k' Hk Hk'. apply list_elem_of_bind. exists b.
    split; [by eapply list_elem_of_lookup_2|by eapply list_elem_of_lookup_2]. }
  destruct i as [|i], i' as [|i']; simpl in Hi, Hi'.
  - simplify_eq. split; [done|]. exact (NoDup_lookup _ _ _ _ Hx Hj Hj').
  - simplify_eq. destruct (Hd e); [exact (list_elem_of_lookup_2 _ _ _ Hj)|exact (Hin _ _ _ Hi' Hj')].
  - simplify_eq. destruct (Hd e); [exact (list_elem_of_lookup_2 _ _ _ Hj')|exact (Hin _ _ _ Hi Hj)].
  - destruct (IH Hl i i' a a' j j' e) as [-> ->]; done.
Qed.

Lemma StartServer_spec i names l ptr sg rn s :
  g_srvs sg !! i = Some s -> fresh names rn -> l <> Unreachable ->
  exists s' rn1, StartServer i names l ptr sg rn
      = Ret (set_gsrvs (<[i := s']> (g_srvs sg)) sg,
             if bool_decide (l = Launched) then AddServer (ServerName (g_gid sg) (Z.of_nat i)) ptr rn1 else rn1,
             bool_decide (l = Launched))
    /\ endNames s' = names /\ bool_decide (is_Some (dc s')) = bool_decide (l = Launched) /\ dc s' <> Some Silent
    /\ new_ends (wires (g_gid sg) 0 names) rn rn1.
Proof.
  intros Hs Hf Hl. destruct (make_ends_spec names (g_gid sg) 0 rn Hf) as (rn1&E&H1).
  unfold StartServer, startServer, makeServer, index. rewrite Hs. run_go. rewrite E. run_go.
  set (p := match saved s with None => MakePersister | Some p => p end). destruct l; [|done|].
  - by exists (mkTServer (Some p) names None), rn1.
  - exists (mkTServer (Some p) names (Some (Answering p))), rn1. split; [|done]. unfold set_gsrvs. simpl.
    by rewrite list_insert_insert_eq.
Qed.

Lemma StartServer_fatal i names ptr sg rn s :
  g_srvs sg !! i = Some s -> fresh names rn -> StartServer i names Unreachable ptr sg rn = Crash Fatal.
Proof.
  intros Hs Hf. destruct (make_ends_spec names (g_gid sg) 0 rn Hf) as (rn1&E&H1).
  unfold StartServer, startServer, makeServer, index. rewrite Hs. run_go. rewrite E. by run_go.
Qed.

Lemma cinv_StartServer cfg gid sg i s s' rn' :
  cinv cfg -> c_grps cfg !! gid = Some sg -> g_srvs sg !! i = Some s ->
  length (endNames s') = N sg -> fresh (endNames s') (c_net cfg) ->
  (forall e t, (e, t) ∈ wires gid 0 (endNames s') -> wired rn' e t) ->
  (forall e, e ∉ endNames s' -> ends rn' !! e = ends (c_net cfg) !! e
                                /\ connections rn' !! e = connections (c_net cfg) !! e) ->
  Labrpc.done rn' = Labrpc.done (c_net cfg) ->
  cinv (put gid (set_gsrvs (<[i := s']> (g_srvs sg)) sg) rn' cfg).
Proof.
  intros Hc Hg Hs Hl [Hnd Hf] Hw Hfr Hd. pose proof (lookup_lt_Some _ _ _ Hs) as Hi.
  apply (cinv_change cfg _ (fun o e => exists j, o = OGrp gid i j /\ endNames s' !! j = Some e)); try done.
  - apply shape_put; [done|]. destruct (ci_shape _ Hc _ _ Hg) as (H1&H2&H3). split; [done|].
    unfold N. simpl. rewrite length_insert. split; [done|]. intros x Hx.
    apply list_elem_of_lookup in Hx as [k Hk]. apply list_lookup_insert_Some in Hk as [(_&<-&_)|[_ Hk]]; [done|].
    apply H3. by eapply list_elem_of_lookup_2.
  - intros o e Ho. assert ((exists j, o = OGrp gid i j /\ endNames s' !! j = Some e) \/ owns cfg o e) as [?|Ho'].
    { apply owns_put in Ho as [(k&j&->&He)|Ho]; [|by right]. apply end_of_Ret in He as (x&Hx&He).
      apply list_lookup_insert_Some in Hx as [(->&->&_)|[_ Hx]]; [left; by exists j|right].
      exists sg. split; [done|]. apply end_of_Ret. by exists x. }
    { by left. }
    right. split; [done|]. apply Hfr. intros Hin%Hf. destruct (ci_wired _ Hc _ _ Ho') as [[y Hy] _].
    by rewrite Hin in Hy.
  - intros o o' e (j&->&Hj) (j'&->&Hj'). f_equal. by eapply NoDup_lookup.
  - intros o e (j&->&Hj). split; [apply Hf; by eapply list_elem_of_lookup_2|].
    apply Hw, elem_of_wires. by exists j.
Qed.

(** The names of the ends between [n] servers. *)
Definition grid (rnd : nat -> nat -> string) (l : list nat) (n : nat) : list string :=
  l ≫= (fun i => names_of rnd i n).

Lemma grid_names rnd gid l n : (l ≫= (fun i => wires gid 0 (names_of rnd i n))).*1 = grid rnd l n.
Proof.
  unfold grid. induction l as [|i l IH]; [done|]. by rewrite !bind_cons, fmap_app, wires_names, IH.
Qed.

Lemma make_servers_spec rnd gid n l : forall rn, fresh (grid rnd l n) rn ->
  exists ss rn', make_servers rnd gid n l rn = Ret (ss, rn')
    /\ endNames <$> ss = (fun i => names_of rnd i n) <$> l
    /\ new_ends (l ≫= (fun i => wires gid 0 (names_of rnd i n))) rn rn'.
Proof.
  induction l as [|i l IH]; intros rn Hf.
  { eexists _, _. split; [done|]. split; [done|apply new_ends_nil]. }
  unfold grid in Hf. rewrite bind_cons in Hf. cbn [make_servers]. unfold makeServer.
  destruct (make_ends_spec (names_of rnd i n) gid 0 rn) as (rn1&E&H1); [by eapply fresh_app_l|].
  rewrite E. run_go. destruct (IH rn1) as (ss&rn2&E2&Hn&H2).
  { eapply fresh_new_ends; [|exact H1]. by rewrite wires_names. }
  rewrite E2. run_go. eexists _, _. split; [done|]. split; [by rewrite !fmap_cons, Hn|].
  rewrite bind_cons. eapply new_ends_app; [|done..]. rewrite wires_names, grid_names.
  destruct Hf as [Hnd _]. by apply list.NoDup_app in Hnd as (_&?&_).
Qed.

Lemma MakeGroup_spec rnd gid n cfg :
  cinv cfg -> fresh (grid rnd (seq 0 n) n) (c_net cfg) ->
  exists sg rn, MakeGroup rnd gid n cfg = Ret (put gid sg rn cfg) /\ N sg = n /\ cinv (put gid sg rn cfg)
    /\ servers rn = servers (c_net cfg)
    /\ (forall l, fresh (grid rnd (seq 0 n) n ++ l) (c_net cfg) -> fresh l rn)
    /\ (forall g, g <> gid -> undisturbed g cfg (put gid sg rn cfg)).
Proof.
  intros Hc Hf. unfold MakeGroup, makeSrvGrp.
  destruct (make_servers_spec rnd gid n (seq 0 n) (c_net cfg) Hf) as (ss&rn&E&Hn&H1). rewrite E. run_go.
  set (sg := mkGrp gid ss (replicate n false)). exists sg, rn. split; [done|].
  assert (length ss = n) as Hlen by (apply (f_equal length) in Hn; by rewrite !length_fmap, length_seq in Hn).
  split; [done|].
  assert (forall i j e, end_of sg i j = Ret e -> (i < n)%nat /\ names_of rnd i n !! j = Some e) as Hend.
  { intros i j e (s&Hs&He)%end_of_Ret. pose proof (lookup_lt_Some _ _ _ Hs) as Hi. simpl in Hi.
    apply (f_equal (.!! i)) in Hn. rewrite !list_lookup_fmap, lookup_seq_lt in Hn by lia. simpl in Hs.
    rewrite Hs in Hn. injection Hn as Hn. rewrite <-Hn. split; [lia|done]. }
  assert (forall i j e, end_of sg i j = Ret e -> (e, ServerName gid (Z.of_nat j)) ∈ (seq 0 n ≫= (fun i => wires gid 0 (names_of rnd i n)))
                                                  /\ e ∈ grid rnd (seq 0 n) n) as Hin.
  { intros i j e [Hi Hj]%Hend. split; apply list_elem_of_bind; exists i; (split; [|apply elem_of_seq; lia]).
    - apply elem_of_wires. by exists j.
    - by eapply list_elem_of_lookup_2. }
  pose proof (grid_names rnd gid (seq 0 n) n) as Hw.
  split.
  2: { split; [apply (ne_servers _ _ _ H1)|]. split; [intros l; rewrite <-Hw; intros Hl; by eapply fresh_new_ends|].
       intros g Hne. apply undisturbed_new; [done..|]. intros e [x Hx]. apply (ne_enabled _ _ _ H1).
       rewrite Hw. intros He%Hf. by rewrite He in Hx. }
  apply (cinv_change cfg _ (fun o e => exists i j, o = OGrp gid i j /\ end_of sg i j = Ret e)); try done.
  - apply (ne_done _ _ _ H1).
  - apply shape_put; [done|]. split; [done|]. split; [simpl; by rewrite length_replicate|]. intros s Hs.
    assert (endNames s ∈ endNames <$> ss) as Hx by (by apply list_elem_of_fmap_2).
    rewrite Hn in Hx. apply list_elem_of_fmap in Hx as (i&->&_). rewrite length_fmap, length_seq. done.
  - intros o e [Hnew|Hold]%owns_put; [by left|]. right. split; [done|]. apply (ne_frame _ _ _ H1).
    rewrite Hw. intros He%Hf. destruct (ci_wired _ Hc _ _ Hold) as [[y Hy] _]. by rewrite He in Hy.
  - intros o o' e (i&j&->&He) (i'&j'&->&He'). destruct (Hend _ _ _ He) as [Hi Hj], (Hend _ _ _ He') as [Hi' Hj'].
    destruct (NoDup_bind_lookup (fun i => names_of rnd i n) (seq 0 n) (proj1 Hf) i i' i i' j j' e) as [-> ->];
      [by rewrite lookup_seq_lt|done|by rewrite lookup_seq_lt|done|done].
  - intros o e (i&j&->&He). destruct (Hin _ _ _ He) as [Hin1 Hin2]. split; [by apply Hf|].
    by apply (ne_wired _ _ _ H1).
Qed.

(** Every process of [l] that starts can be dialled. *)
Definition dials (st : start_env) (l : list nat) : bool :=
  forallb (fun i => bool_decide (st_launch st i <> Unreachable)) l.

Lemma st_ok_dials st l : (forall i, i ∈ l -> st_ok st i = true) -> dials st l = true.
Proof.
  intros H. apply forallb_forall. intros i Hi%list_elem_of_In%H. apply bool_decide_eq_true_1 in Hi.
  apply bool_decide_eq_true_2. by rewrite Hi.
Qed.

(** The first turn of the loop that starts servers of a group of [n]. *)
Lemma StartSrvs_cons gid st n cfg i l sg rn :
  cinv (put gid sg rn cfg) -> N sg = n -> (i < n)%nat -> fresh (grid (st_rnd st) (i :: l) n) rn ->
  st_launch st i <> Unreachable ->
  exists sg1 rn1, StartSrvs (i :: l) st sg rn = StartSrvs l st sg1 rn1
    /\ cinv (put gid sg1 rn1 cfg) /\ N sg1 = n /\ fresh (grid (st_rnd st) l n) rn1
    /\ (forall j, running sg1 j = if decide (j = i) then Some (st_ok st i) else running sg j)
    /\ (forall j, answers sg1 j = bool_decide (j = i) || answers sg j)
    /\ servers rn1 = (if st_ok st i then <[ServerName gid (Z.of_nat i) := Some (st_ptr st i)]> (servers rn) else servers rn)
    /\ (forall g, g <> gid -> undisturbed g (put gid sg rn cfg) (put gid sg1 rn1 cfg)).
Proof.
  intros Hc HN Hi Hf Hl. unfold grid in Hf. rewrite bind_cons in Hf. cbn [StartSrvs]. rewrite <-HN in Hi.
  destruct (lookup_lt_is_Some_2 (g_srvs sg) i Hi) as [s Hs]. unfold index at 1. rewrite Hs. run_go.
  pose proof (lookup_insert_eq (c_grps cfg) gid sg : c_grps (put gid sg rn cfg) !! gid = Some sg) as Hg.
  destruct (ci_shape _ Hc _ _ Hg) as (Hgid&_&Hlen).
  rewrite Hlen, HN by (by eapply list_elem_of_lookup_2).
  destruct (StartServer_spec i (names_of (st_rnd st) i n) (st_launch st i) (st_ptr st i) sg rn s Hs)
    as (s'&rn1&E&En&Hdc&Hns&H1); [by eapply fresh_app_l|done|].
  rewrite E. run_go. fold (st_ok st i). set (sg1 := set_gsrvs _ sg).
  set (rn2 := if st_ok st i then AddServer _ _ rn1 else rn1). rewrite Hgid in H1.
  assert (ends rn2 = ends rn1 /\ connections rn2 = connections rn1 /\ Labrpc.done rn2 = Labrpc.done rn1
          /\ enabled rn2 = enabled rn1) as (Ee&Ec&Ed&Een) by (unfold rn2; by destruct (st_ok st i)).
  assert (put gid sg1 rn2 (put gid sg rn cfg) = put gid sg1 rn2 cfg) as Epp
    by (unfold put, set_grps, set_net; simpl; by rewrite insert_insert_eq).
  exists sg1, rn2. split; [done|]. split_and!.
  - rewrite <-Epp. eapply cinv_StartServer; [done|done|done|..].
    + rewrite En, length_fmap, length_seq. by rewrite HN.
    + rewrite En. by eapply fresh_app_l.
    + rewrite En. intros e t Het. unfold wired. rewrite Ee, Ec. by apply (ne_wired _ _ _ H1).
    + rewrite En, Ee, Ec. intros e He. apply (ne_frame _ _ _ H1). by rewrite wires_names.
    + rewrite Ed. apply (ne_done _ _ _ H1).
  - unfold sg1, N. simpl. by rewrite length_insert.
  - unfold fresh. rewrite Ee. eapply fresh_new_ends; [|exact H1]. by rewrite wires_names.
  - intros j. unfold running, sg1. simpl. destruct (decide (j = i)) as [->|Hj]; [|by rewrite list_lookup_insert_ne].
    rewrite list_lookup_insert_eq by done. simpl. by rewrite Hdc.
  - intros j. destruct (decide (j = i)) as [->|Hj].
    + rewrite bool_decide_eq_true_2 by done. unfold answers, sg1. simpl. rewrite list_lookup_insert_eq by done.
      simpl. by destruct (dc s') as [[]|].
    + rewrite bool_decide_eq_false_2 by done. unfold answers, sg1. simpl. by rewrite list_lookup_insert_ne.
  - rewrite <-(ne_servers _ _ _ H1), <-Hgid. unfold rn2. by destruct (st_ok st i).
  - intros g Hne. rewrite <-Epp. apply undisturbed_new; [done..|]. intros e [x Hx]. rewrite Een.
    apply (ne_enabled _ _ _ H1). rewrite wires_names. intros He.
    change (ends rn !! e = Some x) in Hx. rewrite (proj2 (fresh_app_l _ _ _ Hf) e He) in Hx. done.
Qed.

(** The loop that starts the servers [l] of a group of [n]. *)
Lemma StartSrvs_spec gid st n cfg l : forall sg rn,
  cinv (put gid sg rn cfg) -> N sg = n -> in_group sg l -> NoDup l -> fresh (grid (st_rnd st) l n) rn ->
  dials st l = true ->
  exists sg' rn', StartSrvs l st sg rn = Ret (sg', rn') /\ cinv (put gid sg' rn' cfg) /\ N sg' = n
    /\ (forall j, running sg' j = if decide (j ∈ l) then Some (st_ok st j) else running sg j)
    /\ (forall i, i ∈ l -> st_ok st i = true ->
          lookup_server (ServerName gid (Z.of_nat i)) rn' = Some (st_ptr st i))
    /\ (forall name, (forall i, i ∈ l -> name <> ServerName gid (Z.of_nat i)) ->
          servers rn' !! name = servers rn !! name)
    /\ (forall g, g <> gid -> undisturbed g (put gid sg rn cfg) (put gid sg' rn' cfg))
    /\ (forall j, answers sg' j = bool_decide (j ∈ l) || answers sg j).
Proof.
  induction l as [|i l IH]; intros sg rn Hc HN Hl Hnd Hf Hdl.
  { eexists _, _. split; [done|]. split; [done|]. split; [done|]. split; [done|]. split; [|done].
    intros i Hi. by apply elem_of_nil in Hi. }
  apply list.Forall_cons in Hl as [Hi Hl]. apply list.NoDup_cons in Hnd as [Hil Hnd].
  apply andb_prop in Hdl as [Hli%bool_decide_eq_true_1 Hdl]. rewrite HN in Hi.
  destruct (StartSrvs_cons gid st n cfg i l sg rn Hc HN Hi Hf Hli) as (sg1&rn1&->&Hc1&HN1&Hf1&Hr1&Ha1&Es&Hu1).
  destruct (IH sg1 rn1 Hc1 HN1) as (sg'&rn'&->&Hc'&HN'&Hrun&Hok&Hoth&Hu&Ha); [by unfold in_group; rewrite HN1, <-HN|done..|].
  exists sg', rn'. split; [done|]. split; [done|]. split; [done|]. split_and!.
  - intros j. rewrite Hrun, Hr1. destruct (decide (j = i)) as [->|Hj].
    + by rewrite decide_False, (decide_True (P := i ∈ i :: l)) by (done || by left).
    + apply decide_ext. rewrite elem_of_cons. tauto.
  - intros k [->|Hk]%elem_of_cons Hokk; [|by apply Hok]. unfold lookup_server. rewrite Hoth, Es, Hokk, lookup_insert_eq; [done|].
    intros k Hk [_ ->]%ServerName_inj. done.
  - intros name Hn. rewrite Hoth, Es by (intros k Hk; apply Hn; by right). destruct (st_ok st i); [|done].
    apply lookup_insert_ne. intros E'. by apply (Hn i); [left|].
  - intros g Hne. eapply undisturbed_trans; [by apply Hu1|by apply Hu].
  - intros j. rewrite Ha, Ha1. destruct (decide (j = i)) as [->|Hj].
    + rewrite (bool_decide_eq_true_2 (i = i)), (bool_decide_eq_true_2 (i ∈ i :: l)) by (done || by left). apply orb_true_r.
    + rewrite (bool_decide_eq_false_2 (j = i)) by done. simpl. f_equal. apply bool_decide_ext. rewrite elem_of_cons. tauto.
Qed.

Lemma StartSrvs_fatal gid st n cfg l : forall sg rn,
  cinv (put gid sg rn cfg) -> N sg = n -> in_group sg l -> fresh (grid (st_rnd st) l n) rn ->
  dials st l = false -> StartSrvs l st sg rn = Crash Fatal.
Proof.
  induction l as [|i l IH]; intros sg rn Hc HN Hl Hf Hdl; [done|].
  apply list.Forall_cons in Hl as [Hi Hl]. unfold dials in Hdl. cbn [forallb] in Hdl.
  destruct (decide (st_launch st i = Unreachable)) as [E|Hne].
  - cbn [StartSrvs]. destruct (lookup_lt_is_Some_2 (g_srvs sg) i Hi) as [s Hs]. unfold index at 1. rewrite Hs. run_go.
    unfold grid in Hf. rewrite bind_cons in Hf.
    pose proof (lookup_insert_eq (c_grps cfg) gid sg : c_grps (put gid sg rn cfg) !! gid = Some sg) as Hg.
    destruct (ci_shape _ Hc _ _ Hg) as (_&_&Hlen). rewrite Hlen, HN by (by eapply list_elem_of_lookup_2).
    rewrite E. erewrite StartServer_fatal; [done|done|by eapply fresh_app_l].
  - rewrite bool_decide_eq_true_2 in Hdl by done. rewrite HN in Hi.
    destruct (StartSrvs_cons gid st n cfg i l sg rn Hc HN Hi Hf Hne) as (sg1&rn1&->&Hc1&HN1&Hf1&_).
    apply IH; [done..| |done|done]. by unfold in_group; rewrite HN1, <-HN.
Qed.

(** [StartServers]: all servers of the group are started and connected. *)
Lemma StartServers_put gid st cfg sg rn :
  cinv (put gid sg rn cfg) -> fresh (grid (st_rnd st) (seq 0 (N sg)) (N sg)) rn -> dials st (seq 0 (N sg)) = true ->
  exists sg' rn', StartServers st sg rn = Ret (sg', rn') /\ cinv (put gid sg' rn' cfg) /\ N sg' = N sg
    /\ (forall i, (i < N sg)%nat -> running sg' i = Some (st_ok st i) /\ answers sg' i = true)
    /\ (forall i j, (i < N sg)%nat -> (j < N sg)%nat -> link sg' rn' i j = true)
    /\ (forall i, (i < N sg)%nat -> st_ok st i = true ->
          lookup_server (ServerName gid (Z.of_nat i)) rn' = Some (st_ptr st i))
    /\ (forall g, g <> gid -> undisturbed g (put gid sg rn cfg) (put gid sg' rn' cfg)).
Proof.
  intros Hc Hf Hdl. unfold StartServers. assert (forall i, (i < N sg)%nat -> i ∈ all sg) as Hall.
  { intros i Hi. apply elem_of_seq. unfold N in Hi. lia. }
  destruct (StartSrvs_spec gid st (N sg) cfg (all sg) sg rn) as (sg2&rn2&->&Hc2&HN2&Hrun&Hok&_&Hu2&Ha);
    [done|done|apply all_in_group|apply NoDup_seq|done|done|]. run_go.
  pose proof (lookup_insert_eq (c_grps cfg) gid sg2 : c_grps (put gid sg2 rn2 cfg) !! gid = Some sg2) as Hg2.
  destruct (ConnectAll_spec sg2 rn2) as (sg3&rn3&->&Q3&Es&Eg&Hl); [by eapply cinv_good|].
  assert (put gid sg3 rn3 (put gid sg2 rn2 cfg) = put gid sg3 rn3 cfg) as Epp
    by (unfold put, set_grps, set_net; simpl; by rewrite !insert_insert_eq).
  exists sg3, rn3. split; [done|]. split; [rewrite <-Epp; by eapply cinv_quiet|].
  split; [by rewrite (quiet_N _ _ _ _ Q3)|]. split_and!.
  - intros i Hi%Hall. unfold running, answers. rewrite Eg. fold (running sg2 i) (answers sg2 i).
    by rewrite Hrun, Ha, decide_True, bool_decide_eq_true_2.
  - intros i j Hi Hj. apply Hl; by rewrite HN2.
  - intros i Hi%Hall Ho. unfold lookup_server. rewrite Es. by apply Hok.
  - intros g Hne. eapply undisturbed_trans; [by apply Hu2|]. rewrite <-Epp. by eapply undisturbed_quiet.
Qed.

Lemma StartServers_fatal gid st cfg sg rn :
  cinv (put gid sg rn cfg) -> fresh (grid (st_rnd st) (seq 0 (N sg)) (N sg)) rn -> dials st (seq 0 (N sg)) = false ->
  StartServers st sg rn = Crash Fatal.
Proof.
  intros Hc Hf Hdl. unfold StartServers.
  rewrite (StartSrvs_fatal gid st (N sg) cfg (all sg)); [done|done|done|apply all_in_group|done|done].
Qed.

Lemma MakeGroupStart_spec rnd st gid n cfg :
  cinv cfg -> fresh (grid rnd (seq 0 n) n ++ grid (st_rnd st) (seq 0 n) n) (c_net cfg) -> dials st (seq 0 n) = true ->
  exists cfg' sg, MakeGroupStart rnd st gid n cfg = Ret cfg' /\ cinv cfg'
    /\ Group gid cfg' = Some sg /\ N sg = n
    /\ (forall i, (i < n)%nat -> running sg i = Some (st_ok st i) /\ answers sg i = true)
    /\ (forall i j, (i < n)%nat -> (j < n)%nat -> link sg (c_net cfg') i j = true)
    /\ (forall i, (i < n)%nat -> st_ok st i = true ->
          lookup_server (ServerName gid (Z.of_nat i)) (c_net cfg') = Some (st_ptr st i))
    /\ (forall g, g <> gid -> undisturbed g cfg cfg').
Proof.
  intros Hc Hf Hdl. unfold MakeGroupStart.
  destruct (MakeGroup_spec rnd gid n cfg Hc) as (sg1&rn1&->&HN1&Hc1&_&Hf1&Hu1); [by eapply fresh_app_l|]. run_go.
  unfold on_group. unfold Group at 1. cbn [c_grps put set_grps]. rewrite lookup_insert_eq. cbn [c_net put set_grps set_net].
  destruct (StartServers_put gid st cfg sg1 rn1) as (sg2&rn2&->&Hc2&HN2&Hrun&Hl&Hok&Hu2);
    [done|rewrite HN1; by apply Hf1|by rewrite HN1|]. run_go. rewrite HN1 in *.
  assert (put gid sg2 rn2 (put gid sg1 rn1 cfg) = put gid sg2 rn2 cfg) as Epp
    by (unfold put, set_grps, set_net; simpl; by rewrite !insert_insert_eq).
  exists (put gid sg2 rn2 cfg), sg2. split; [by rewrite <-Epp|]. split; [done|]. split; [unfold Group; simpl; by rewrite lookup_insert_eq|]. split; [done|].
  split; [done|]. split; [done|]. split; [done|]. intros g Hne. eapply undisturbed_trans; [by apply Hu1|by apply Hu2].
Qed.

Lemma MakeGroupStart_fatal rnd st gid n cfg :
  cinv cfg -> fresh (grid rnd (seq 0 n) n ++ grid (st_rnd st) (seq 0 n) n) (c_net cfg) -> dials st (seq 0 n) = false ->
  MakeGroupStart rnd st gid n cfg = Crash Fatal.
Proof.
  intros Hc Hf Hdl. unfold MakeGroupStart.
  destruct (MakeGroup_spec rnd gid n cfg Hc) as (sg1&rn1&->&HN1&Hc1&_&Hf1&_); [by eapply fresh_app_l|]. run_go.
  unfold on_group. unfold Group at 1. cbn [c_grps put set_grps]. rewrite lookup_insert_eq. cbn [c_net put set_grps set_net].
  rewrite (StartServers_fatal gid st cfg); [done|done|rewrite HN1; by apply Hf1|by rewrite HN1].
Qed.

Lemma ExitGroup_spec gid cfg sg :
  cinv cfg -> Group gid cfg = Some sg -> all_answer sg (all sg) = true ->
  exists cfg', ExitGroup gid cfg = Ret cfg' /\ cinv cfg' /\ Group gid cfg' = None
    /\ (forall i, (i < N sg)%nat -> lookup_server (ServerName gid (Z.of_nat i)) (c_net cfg') = None)
    /\ (forall g, g <> gid -> undisturbed g cfg cfg').
Proof.
  intros Hc Hg Ha. unfold ExitGroup, on_group, Shutdown. rewrite Hg. unfold Group in Hg.
  destruct (ci_shape _ Hc _ _ Hg) as (Hgid&_).
  destruct (Kill_quiet (all sg) sg (c_net cfg)) as (sg'&rn'&->&Q&_&Hd&_); [by eapply cinv_good|apply all_in_group|done|].
  run_go. pose proof (cinv_quiet _ _ _ _ _ Hc Hg Q) as Hc1. fold (put gid sg' rn' cfg).
  eexists. split; [done|]. split.
  - apply (cinv_change (put gid sg' rn' cfg) _ (fun _ _ => False)); try done.
    + intros g sg1 Hg1. simpl in Hg1. apply lookup_delete_Some in Hg1 as [_ Hg1]. by apply (ci_shape _ Hc1).
    + intros o e Ho. right. split; [|done]. destruct o as [g i j|c server]; [|done].
      destruct Ho as (sg1&Hg1&He). simpl in Hg1. apply lookup_delete_Some in Hg1 as [_ Hg1]. by exists sg1.
  - split; [unfold Group; simpl; by rewrite lookup_delete_eq|]. split.
    + intros i Hi. rewrite <-Hgid. apply Hd, elem_of_seq. unfold N in Hi. lia.
    + intros g Hne. destruct (undisturbed_quiet g cfg gid sg sg' rn' Hc Hg Q Hne) as [E L]. split; [|done].
      rewrite <-E. unfold Group. simpl. by rewrite lookup_delete_ne.
Qed.

Lemma Shutdown_fatal gid cfg sg :
  cinv cfg -> Group gid cfg = Some sg -> all_answer sg (all sg) = false -> on_group gid Shutdown cfg = Crash Fatal.
Proof.
  intros Hc Hg Ha. unfold on_group, Shutdown. rewrite Hg. rewrite Kill_fatal; [done|by eapply cinv_good|apply all_in_group|done].
Qed.

(** ** Lemmas: clients *)

Lemma client_end_spec c name server m clnt cfg :
  cinv cfg -> c_clerks cfg = Some m -> m !! c = Some clnt -> ends (c_net cfg) !! name = None ->
  exists cfg', client_end c name server cfg = Ret cfg' /\ cinv cfg' /\ forall g, undisturbed g cfg cfg'.
Proof.
  intros Hc Hm Hcl Hf. unfold client_end. rewrite Hm. cbn [mbind option_bind]. rewrite Hcl. cbn [mbind option_bind].
  unfold makeEnd. destruct (cl_ends clnt !! server) as [e|] eqn:Ee; run_go.
  { eexists. split; [done|]. rewrite insert_id by done. rewrite <-Hm. by destruct cfg. }
  unfold MakeEnd. rewrite Hf. run_go. eexists. split; [done|].
  set (rn := if allowedL server clnt then _ else _).
  assert (ends rn = <[name := mkEnd name None]> (ends (c_net cfg))
          /\ connections rn = <[name := Some server]> (<[name := None]> (connections (c_net cfg)))
          /\ Labrpc.done rn = Labrpc.done (c_net cfg)
          /\ (forall e, e <> name -> enabled rn !! e = enabled (c_net cfg) !! e)) as (E1&E2&E3&E4).
  { unfold rn. destruct (allowedL server clnt); simpl; (split_and!; [done..|]); intros e He; by rewrite !lookup_insert_ne. }
  assert (forall o e, owns cfg o e -> e <> name) as Hne.
  { intros o e [[x Hx] _]%(ci_wired _ Hc) ->. by rewrite Hf in Hx. }
  split; [|intros g; apply undisturbed_enabled; [done|]; intros i j e Ho; apply E4; by eapply Hne].
  apply (cinv_change cfg _ (fun o e => o = OClnt c server /\ e = name)); try done.
  - apply (ci_shape _ Hc).
  - intros o e Ho. simpl. rewrite E1, E2.
    assert (o = OClnt c server /\ e = name \/ owns cfg o e) as [?|Ho'].
    { destruct o as [g i j|c' server']; [by right|]. destruct Ho as (m'&clnt'&[= <-]&Hc'&He).
      destruct (decide (c = c')) as [<-|Hc0]; [rewrite lookup_insert_eq in Hc'|rewrite lookup_insert_ne in Hc' by done].
      - injection Hc' as <-. simpl in He. destruct (decide (server = server')) as [<-|Hs].
        + rewrite lookup_insert_eq in He. left. by injection He as <-.
        + rewrite lookup_insert_ne in He by done. right. by exists m, clnt.
      - right. by exists m, clnt'. }
    { by left. }
    right. specialize (Hne _ _ Ho'). by rewrite !lookup_insert_ne.
  - by intros o o' e [-> _] [-> _].
  - intros o e [-> ->]. split; [done|]. unfold wired. simpl. rewrite E1, E2, !lookup_insert_eq. split; [by eexists|done].
Qed.

Lemma MakeClient_spec c m cfg :
  cinv cfg -> c_clerks cfg = Some m ->
  exists cfg', MakeClient c cfg = Ret cfg' /\ cinv cfg' /\ forall g, undisturbed g cfg cfg'.
Proof.
  intros Hc Hm. unfold MakeClient, MakeClientTo. rewrite Hm. eexists. split; [done|]. split; [|done].
  apply (cinv_change cfg _ (fun _ _ => False)); try done; [apply (ci_shape _ Hc)|].
  intros o e Ho. right. split; [|done]. destruct o as [g i j|c' server]; [done|].
  destruct Ho as (m'&clnt'&[= <-]&Hc'&He).
  destruct (decide (c = c')) as [<-|Hc0]; [rewrite lookup_insert_eq in Hc'; by injection Hc' as <-|].
  rewrite lookup_insert_ne in Hc' by done. by exists m, clnt'.
Qed.

Lemma delete_ends_app es es' : forall rn,
  delete_ends (es ++ es') rn = (rn ← delete_ends es rn; delete_ends es' rn).
Proof.
  induction es as [|[srv e] es IH]; intros rn; [done|]. simpl. destruct (DeleteEnd e rn); [run_go; apply IH|done].
Qed.

Lemma delete_ends_spec es : forall rn,
  NoDup es.*2 -> (forall e, e ∈ es.*2 -> is_Some (ends rn !! e)) ->
  exists rn', delete_ends es rn = Ret rn' /\ Labrpc.done rn' = Labrpc.done rn
    /\ forall e, e ∉ es.*2 -> ends rn' !! e = ends rn !! e /\ connections rn' !! e = connections rn !! e
                             /\ enabled rn' !! e = enabled rn !! e.
Proof.
  induction es as [|[srv e] es IH]; intros rn Hnd He; [by exists rn|]. simpl in *.
  apply list.NoDup_cons in Hnd as [Hn Hnd]. unfold DeleteEnd. destruct (He e) as [x ->]; [by left|]. run_go.
  set (rn1 := set_tables _ _ _ _ rn). destruct (IH rn1 Hnd) as (rn'&->&Hd&Hf).
  { intros e' He'. simpl. rewrite lookup_delete_ne by (by intros ->). apply He. by right. }
  exists rn'. split; [done|]. split; [done|]. intros e' [Hne Hni]%not_elem_of_cons.
  destruct (Hf e' Hni) as (->&->&->). simpl. by rewrite !lookup_delete_ne.
Qed.

(** The ends of the clients [l] differ and exist. *)
Lemma client_ends cfg m l :
  cinv cfg -> c_clerks cfg = Some m -> NoDup l -> (forall p, p ∈ l -> m !! p.1 = Some p.2) ->
  let names := (l ≫= (fun p : nat * Clnt => map_to_list (cl_ends p.2))).*2 in
  NoDup names /\ (forall e, e ∈ names -> exists p server, p ∈ l /\ owns cfg (OClnt p.1 server) e).
Proof.
  intros Hc Hm Hnd Hl names.
  assert (forall p server e, p ∈ l -> (server, e) ∈ map_to_list (cl_ends p.2) -> owns cfg (OClnt p.1 server) e) as Ho.
  { intros [c clnt] server e Hp He%elem_of_map_to_list. exists m, clnt. split; [done|]. split; [by apply Hl|done]. }
  split.
  - unfold names. rewrite fmap_bind_list. apply NoDup_bind; [| |done].
    + intros p p' e Hp Hp' ([s1 e1]&->&H1)%list_elem_of_fmap ([s2 e2]&E&H2)%list_elem_of_fmap. simpl in E. subst e2.
      assert (OClnt p.1 s1 = OClnt p'.1 s2) as [= E _] by (apply (ci_owner _ Hc _ _ e1); by apply Ho).
      pose proof (Hl p Hp) as L. pose proof (Hl p' Hp') as L'. rewrite E, L' in L. injection L as L.
      destruct p, p'. simpl in *. congruence.
    + intros p Hp. simpl. apply NoDup_fmap_2_strong; [|apply NoDup_map_to_list].
      intros [s1 e1] [s2 e2] H1 H2 E. simpl in E. subst e2.
      assert (OClnt p.1 s1 = OClnt p.1 s2) as [= ->] by (apply (ci_owner _ Hc _ _ e1); by apply Ho). done.
  - intros e ([s1 e1]&->&(p&H1&Hp)%list_elem_of_bind)%list_elem_of_fmap. exists p, s1. split; [done|]. by apply Ho.
Qed.

Lemma remove_clients_eq l : forall rn,
  remove_clients l rn = delete_ends (l ≫= (fun p : nat * Clnt => map_to_list (cl_ends p.2))) rn.
Proof.
  induction l as [|[c clnt] l IH]; intros rn; [done|]. rewrite bind_cons, delete_ends_app.
  cbn [remove_clients]. unfold clnt_remove. cbn [snd]. destruct (delete_ends _ rn); [run_go; apply IH|done].
Qed.

(** Deleting the ends of the clients [l], which [cfg'] no longer has. *)
Lemma remove_clients_spec cfg m l cfg' :
  cinv cfg -> c_clerks cfg = Some m -> NoDup l -> (forall p, p ∈ l -> m !! p.1 = Some p.2) ->
  c_grps cfg' = c_grps cfg -> (forall o e, owns cfg' o e -> owns cfg o e) ->
  (forall p server e, p ∈ l -> ~ owns cfg' (OClnt p.1 server) e) ->
  exists rn, remove_clients l (c_net cfg) = Ret rn /\ cinv (set_net rn cfg')
    /\ forall g, undisturbed g cfg (set_net rn cfg').
Proof.
  intros Hc Hm Hnd Hl Eg Hsub Hgone. rewrite remove_clients_eq.
  destruct (client_ends cfg m l Hc Hm Hnd Hl) as [Hnn Hown].
  destruct (delete_ends_spec (l ≫= (fun p => map_to_list (cl_ends p.2))) (c_net cfg) Hnn) as (rn&->&Hd&Hf).
  { intros e (p&server&_&Ho)%Hown. by apply (ci_wired _ Hc) in Ho as [? _]. }
  assert (forall o e, owns cfg' o e -> e ∉ (l ≫= (fun p : nat * Clnt => map_to_list (cl_ends p.2))).*2) as Hkeep.
  { intros o e Ho (p&server&Hp&Hpo)%Hown. pose proof (ci_owner _ Hc _ _ _ (Hsub _ _ Ho) Hpo) as ->. by eapply Hgone. }
  exists rn. split; [done|]. split.
  - apply (cinv_change cfg _ (fun _ _ => False)); try done.
    + simpl. rewrite Eg. apply (ci_shape _ Hc).
    + intros o e Ho. right. change (owns cfg' o e) in Ho. split; [by apply Hsub|]. simpl.
      by destruct (Hf e (Hkeep _ _ Ho)) as (->&->&_).
  - intros g. apply undisturbed_enabled; [unfold Group; simpl; by rewrite Eg|]. intros i j e Ho. simpl.
    assert (owns cfg' (OGrp g i j) e) as Ho' by (destruct Ho as (sg&Hsg&He); exists sg; by rewrite Eg).
    by destruct (Hf e (Hkeep _ _ Ho')) as (_&_&->).
Qed.

Lemma DeleteClient_spec c cfg :
  cinv cfg -> exists cfg', DeleteClient c cfg = Ret cfg' /\ cinv cfg' /\ forall g, undisturbed g cfg cfg'.
Proof.
  intros Hc. unfold DeleteClient. destruct (c_clerks cfg) as [m|] eqn:Hm; cbn [mbind option_bind]; [|by exists cfg].
  destruct (m !! c) as [clnt|] eqn:Hcl; cbn [mbind option_bind]; [|by exists cfg].
  destruct (remove_clients_spec cfg m [(c, clnt)] (set_clerks (Some (delete c m)) cfg)) as (rn&E&Hc'&Hu); try done.
  - apply NoDup_singleton.
  - by intros p ->%list_elem_of_singleton.
  - intros [g i j|c' server] e Ho; [done|]. destruct Ho as (m'&clnt'&[= <-]&Hc'&He).
    apply lookup_delete_Some in Hc' as [_ Hc']. by exists m, clnt'.
  - intros p server e ->%list_elem_of_singleton (m'&clnt'&[= <-]&Hc'&_). simpl in Hc'. by rewrite lookup_delete_eq in Hc'.
  - cbn [remove_clients] in E. destruct (clnt_remove clnt (c_net cfg)) as [rn'|]; [|done]. injection E as <-. run_go.
    eexists. split; [done|]. split; [exact Hc'|exact Hu].
Qed.

Lemma clnts_cleanup_spec cfg :
  cinv cfg -> exists cfg', clnts_cleanup cfg = Ret cfg' /\ cinv cfg' /\ c_grps cfg' = c_grps cfg.
Proof.
  intros Hc. unfold clnts_cleanup. destruct (c_clerks cfg) as [m|] eqn:Hm; simpl.
  - destruct (remove_clients_spec cfg m (map_to_list m) (set_clerks None cfg)) as (rn&->&Hc'&_); try done.
    + apply NoDup_map_to_list.
    + intros [c clnt] Hin. by apply elem_of_map_to_list in Hin.
    + intros [g i j|c' server] e Ho; [done|]. by destruct Ho as (m'&clnt'&[=]&_).
    + intros p server e _ Ho. by destruct Ho as (m'&clnt'&[=]&_).
    + run_go. eexists. split; [done|]. split; [exact Hc'|done].
  - eexists. split; [done|]. split; [|done]. replace (set_clerks None _) with cfg; [done|]. rewrite <-Hm. by destruct cfg.
Qed.

(** Every daemon of the test answers. *)
Definition all_well (cfg : Config) : bool :=
  forallb (fun p : Z * ServerGrp => all_answer p.2 (all p.2)) (map_to_list (c_grps cfg)).

Lemma all_well_true cfg :
  all_well cfg = true <-> forall gid sg, c_grps cfg !! gid = Some sg -> all_answer sg (all sg) = true.
Proof.
  unfold all_well. rewrite forallb_forall. split.
  - intros H gid sg Hg. apply (H (gid, sg)), list_elem_of_In. by apply elem_of_map_to_list.
  - intros H [gid sg] Hin%list_elem_of_In%elem_of_map_to_list. by apply (H gid).
Qed.

(** The clean-up of the groups ends the tester at the first daemon that does not answer. *)
Lemma cleanup_groups_spec l : forall cfg,
  cinv cfg -> NoDup l.*1 -> (forall g sg, (g, sg) ∈ l -> c_grps cfg !! g = Some sg) ->
  if forallb (fun p : Z * ServerGrp => all_answer p.2 (all p.2)) l
  then exists cfg', cleanup_groups l.*1 cfg = Ret cfg' /\ cinv cfg'
  else cleanup_groups l.*1 cfg = Crash Fatal.
Proof.
  induction l as [|[g sg] l IH]; intros cfg Hc Hnd Hl; [by exists cfg|]. rewrite fmap_cons. cbn [cleanup_groups forallb fst snd].
  rewrite fmap_cons in Hnd. apply list.NoDup_cons in Hnd as [Hg Hnd]. pose proof (Hl g sg ltac:(by left)) as Hsg.
  destruct (all_answer sg (all sg)) eqn:Ha; [|by rewrite (Shutdown_fatal g cfg sg)]. simpl.
  unfold on_group, Group, Shutdown. rewrite Hsg.
  destruct (Kill_quiet (all sg) sg (c_net cfg)) as (sg'&rn'&->&Q&_); [by eapply cinv_good|apply all_in_group|done|].
  run_go. apply IH; [by eapply cinv_quiet|done|]. intros g' sg1 Hg'. simpl. rewrite lookup_insert_ne; [apply Hl; by right|].
  intros ->. apply Hg, list_elem_of_fmap. by exists (g', sg1).
Qed.

Lemma cfg_Cleanup_cases cfg :
  cinv cfg -> if all_well cfg then exists cfg', cfg_Cleanup cfg = Ret cfg' else cfg_Cleanup cfg = Crash Fatal.
Proof.
  intros Hc. unfold cfg_Cleanup. destruct (clnts_cleanup_spec cfg Hc) as (cfg1&->&Hc1&Eg). run_go. unfold all_well. rewrite <-Eg.
  pose proof (cleanup_groups_spec (map_to_list (c_grps cfg1)) cfg1 Hc1) as H.
  specialize (H (NoDup_fst_map_to_list _) (fun g sg => proj1 (elem_of_map_to_list _ _ _))).
  destruct (forallb _ _); [|by rewrite H]. destruct H as (cfg2&->&Hc2). run_go. unfold Labrpc.Cleanup.
  rewrite (ci_done _ Hc2). run_go. by eexists.
Qed.

Lemma cinv_empty now : cinv (mkConfig MakeNetwork ∅ (Some ∅) false now 0 0 0).
Proof.
  assert (forall o e, ~ owns (mkConfig MakeNetwork ∅ (Some ∅) false now 0 0 0) o e) as Hno.
  { intros [g i j|c server] e Ho; [by destruct Ho as (sg&Hg&_)|]. by destruct Ho as (m&clnt&[= <-]&Hc&_). }
  split; [done|..].
  - intros g sg Hg. done.
  - intros o o' e Ho. by apply Hno in Ho.
  - intros o e Ho. by apply Hno in Ho.
Qed.

Lemma MakeConfig_spec rnd st n rel now :
  NoDup (grid rnd (seq 0 n) n ++ grid (st_rnd st) (seq 0 n) n) -> dials st (seq 0 n) = true ->
  exists cfg sg, MakeConfig rnd st n rel now = Ret cfg /\ cinv cfg
    /\ Group GRP0 cfg = Some sg /\ N sg = n
    /\ (forall i, (i < n)%nat -> running sg i = Some (st_ok st i) /\ answers sg i = true).
Proof.
  intros Hnd Hdl. unfold MakeConfig.
  destruct (MakeGroupStart_spec rnd st GRP0 n (mkConfig MakeNetwork ∅ (Some ∅) false 0 0 0 0))
    as (cfg&sg&->&Hc&Hg&HN&Hr&_).
  { apply cinv_empty. }
  { split; [done|]. intros e _. apply lookup_empty. }
  { done. }
  run_go. eexists _, sg. split; [done|]. split; [|done].
  apply (cinv_change cfg _ (fun _ _ => False)); try done; [apply (ci_shape _ Hc)|].
  intros [g i j|c server] e Ho; [by right|]. by destruct Ho as (m&clnt&[= <-]&Hcl&_).
Qed.

(** ** A test at work *)

(** What a test calls while it runs. *)
Inductive tester_op :=
  | TMakeGroupStart (rnd : nat -> nat -> string) (st : start_env) (gid : Z) (n : nat)
  | TExitGroup (gid : Z)
  | TShutdownServer (gid : Z) (i : nat)
  | TStartServers (gid : Z) (st : start_env)
  | TConnectAll (gid : Z)
  | TDisconnectAll (gid : Z) (i : nat)
  | TPartition (gid : Z) (p1 p2 : list nat)
  | TMakeClient (c : nat)
  | TClientCall (c : nat) (name server : string)
  | TDeleteClient (c : nat)
  | TSetReliable (yes : bool).

Definition do_op (op : tester_op) (cfg : Config) : go Config :=
  match op with
  | TMakeGroupStart rnd st gid n => MakeGroupStart rnd st gid n cfg
  | TExitGroup gid => ExitGroup gid cfg
  | TShutdownServer gid i => on_group gid (ShutdownServer i) cfg
  | TStartServers gid st => on_group gid (StartServers st) cfg
  | TConnectAll gid => on_group gid ConnectAll cfg
  | TDisconnectAll gid i => on_group gid (DisconnectAll i) cfg
  | TPartition gid p1 p2 => on_group gid (Partition p1 p2) cfg
  | TMakeClient c => MakeClient c cfg
  | TClientCall c name server => client_end c name server cfg
  | TDeleteClient c => DeleteClient c cfg
  | TSetReliable yes => Ret (SetReliable yes cfg)
  end.

(** The call makes sense: the group or client exists, servers are in range, and random names
    are new. *)
Definition sensible (op : tester_op) (cfg : Config) : Prop :=
  match op with
  | TMakeGroupStart rnd st gid n => fresh (grid rnd (seq 0 n) n ++ grid (st_rnd st) (seq 0 n) n) (c_net cfg)
  | TExitGroup gid | TConnectAll gid => is_Some (Group gid cfg)
  | TShutdownServer gid i | TDisconnectAll gid i => exists sg, Group gid cfg = Some sg /\ (i < N sg)%nat
  | TStartServers gid st =>
      exists sg, Group gid cfg = Some sg /\ fresh (grid (st_rnd st) (seq 0 (N sg)) (N sg)) (c_net cfg)
  | TPartition gid p1 p2 => exists sg, Group gid cfg = Some sg /\ in_group sg p1 /\ in_group sg p2
  | TMakeClient c => is_Some (c_clerks cfg)
  | TClientCall c name server =>
      (exists m, c_clerks cfg = Some m /\ is_Some (m !! c)) /\ ends (c_net cfg) !! name = None
  | TDeleteClient _ | TSetReliable _ => True
  end.

(** The daemons the call needs answer: the ones it kills, and the ones it starts can be
    dialled. *)
Definition answered (op : tester_op) (cfg : Config) : bool :=
  match op with
  | TMakeGroupStart _ st _ n => dials st (seq 0 n)
  | TStartServers gid st => match Group gid cfg with Some sg => dials st (seq 0 (N sg)) | None => true end
  | TExitGroup gid => match Group gid cfg with Some sg => all_answer sg (all sg) | None => true end
  | TShutdownServer gid i => match Group gid cfg with Some sg => answers sg i | None => true end
  | _ => true
  end.

Definition op_group (op : tester_op) : option Z :=
  match op with
  | TMakeGroupStart _ _ gid _ | TExitGroup gid | TShutdownServer gid _ | TStartServers gid _
  | TConnectAll gid | TDisconnectAll gid _ | TPartition gid _ _ => Some gid
  | _ => None
  end.

(** The daemon of server [i] dies; nobody tells the tester. *)
Definition daemon_dies (i : nat) (sg : ServerGrp) : ServerGrp :=
  set_gsrvs (alter (fun s => mkTServer (saved s) (endNames s) ((fun _ => Silent) <$> dc s)) i (g_srvs sg)) sg.

Inductive tester_step (cfg : Config) : Config -> Prop :=
  | ts_call op cfg' : sensible op cfg -> do_op op cfg = Ret cfg' -> tester_step cfg cfg'
  | ts_dies gid sg i :
      Group gid cfg = Some sg -> tester_step cfg (put gid (daemon_dies i sg) (c_net cfg) cfg).

Lemma daemon_dies_quiet i sg rn : quiet sg (daemon_dies i sg) rn rn.
Proof.
  split; try done. unfold daemon_dies. simpl. apply list_eq. intros k. rewrite !list_lookup_fmap.
  destruct (decide (k = i)) as [->|Hk]; [|by rewrite list_lookup_alter_ne].
  rewrite list_lookup_alter_eq. by destruct (g_srvs sg !! i).
Qed.

Lemma put_id gid sg cfg : Group gid cfg = Some sg -> put gid sg (c_net cfg) cfg = cfg.
Proof. intros Hg. unfold put, set_grps, set_net. simpl. rewrite insert_id by done. by destruct cfg. Qed.

Lemma StartServers_spec gid st cfg sg :
  cinv cfg -> Group gid cfg = Some sg -> fresh (grid (st_rnd st) (seq 0 (N sg)) (N sg)) (c_net cfg) ->
  dials st (seq 0 (N sg)) = true ->
  exists cfg', on_group gid (StartServers st) cfg = Ret cfg' /\ cinv cfg' /\ forall g, g <> gid -> undisturbed g cfg cfg'.
Proof.
  intros Hc Hg Hf Hdl. unfold on_group. rewrite Hg. pose proof (put_id gid sg cfg Hg) as Ep.
  destruct (StartServers_put gid st cfg sg (c_net cfg)) as (sg2&rn2&->&Hc2&_&_&_&_&Hu2); [by rewrite Ep|done..|].
  run_go. rewrite Ep in Hu2. by eexists.
Qed.

(** A call whose daemons answer returns. *)
Lemma do_op_ok op cfg :
  cinv cfg -> sensible op cfg -> answered op cfg = true ->
  exists cfg', do_op op cfg = Ret cfg' /\ cinv cfg' /\ forall g, op_group op <> Some g -> undisturbed g cfg cfg'.
Proof.
  intros Hc Hs Ha. destruct op; simpl in Hs, Ha |- *.
  - destruct (MakeGroupStart_spec rnd st gid n cfg Hc Hs Ha) as (cfg'&sg&E&Hc'&_&_&_&_&_&Hu). exists cfg'. naive_solver.
  - destruct Hs as [sg Hg]. rewrite Hg in Ha. destruct (ExitGroup_spec gid cfg sg Hc Hg Ha) as (cfg'&E&Hc'&_&_&Hu). exists cfg'. naive_solver.
  - destruct Hs as (sg&Hg&Hi). rewrite Hg in Ha. destruct (on_group_quiet gid (ShutdownServer i) cfg sg Hc Hg) as (cfg'&E&Hc'&Hu).
    { destruct (ShutdownServer_quiet i sg (c_net cfg)) as (sg'&rn'&E&Q&_); [by eapply cinv_good|done..|]. by exists sg', rn'. }
    exists cfg'. naive_solver.
  - destruct Hs as (sg&Hg&Hf). rewrite Hg in Ha. destruct (StartServers_spec gid st cfg sg Hc Hg Hf Ha) as (cfg'&E&Hc'&Hu). exists cfg'. naive_solver.
  - destruct Hs as [sg Hg]. destruct (on_group_quiet gid ConnectAll cfg sg Hc Hg) as (cfg'&E&Hc'&Hu).
    { destruct (ConnectAll_spec sg (c_net cfg)) as (sg'&rn'&E&Q&_); [by eapply cinv_good|]. by exists sg', rn'. }
    exists cfg'. naive_solver.
  - destruct Hs as (sg&Hg&Hi). destruct (on_group_quiet gid (DisconnectAll i) cfg sg Hc Hg) as (cfg'&E&Hc'&Hu).
    { destruct (disconnect_quiet i (all sg) sg (c_net cfg)) as (sg'&rn'&E&Q&_); [by eapply cinv_good|done|apply all_in_group|].
      by exists sg', rn'. }
    exists cfg'. naive_solver.
  - destruct Hs as (sg&Hg&H1&H2). destruct (on_group_quiet gid (Partition p1 p2) cfg sg Hc Hg) as (cfg'&E&Hc'&Hu).
    { apply Partition_quiet; [by eapply cinv_good|done..]. }
    exists cfg'. naive_solver.
  - destruct Hs as [m Hm]. destruct (MakeClient_spec c m cfg Hc Hm) as (cfg'&E&Hc'&Hu). exists cfg'. naive_solver.
  - destruct Hs as ((m&Hm&clnt&Hcl)&Hf).
    destruct (client_end_spec c name server m clnt cfg Hc Hm Hcl Hf) as (cfg'&E&Hc'&Hu). exists cfg'. naive_solver.
  - destruct (DeleteClient_spec c cfg Hc) as (cfg'&E&Hc'&Hu). exists cfg'. naive_solver.
  - eexists. split; [done|]. split; [|done].
    apply (cinv_change cfg _ (fun _ _ => False)); try done; [apply (ci_shape _ Hc)|]. intros o e Ho. by right.
Qed.

(** A call one of whose daemons does not answer ends the tester. *)
Lemma do_op_fatal op cfg :
  cinv cfg -> sensible op cfg -> answered op cfg = false -> do_op op cfg = Crash Fatal.
Proof.
  intros Hc Hs Ha. destruct op; simpl in Hs, Ha |- *; try done.
  - by apply MakeGroupStart_fatal.
  - destruct Hs as [sg Hg]. rewrite Hg in Ha. unfold ExitGroup. by rewrite (Shutdown_fatal gid cfg sg).
  - destruct Hs as (sg&Hg&Hi). rewrite Hg in Ha. unfold on_group. rewrite Hg.
    rewrite ShutdownServer_fatal; [done|by eapply cinv_good|done..].
  - destruct Hs as (sg&Hg&Hf). rewrite Hg in Ha. unfold on_group. rewrite Hg.
    rewrite (StartServers_fatal gid st cfg); [done|by rewrite put_id|done..].
Qed.

Lemma reachable_cinv cfg0 cfg : cinv cfg0 -> rtc tester_step cfg0 cfg -> cinv cfg.
Proof.
  intros Hc Hr. induction Hr as [|a b c Hs _ IH]; [done|]. apply IH. destruct Hs as [op b Hs E|gid sg i Hg].
  - destruct (answered op a) eqn:Ha; [|by rewrite do_op_fatal in E].
    destruct (do_op_ok op a Hc Hs Ha) as (b'&E'&Hc'&_). rewrite E in E'. by injection E' as ->.
  - eapply cinv_quiet; [done|done|apply daemon_dies_quiet].
Qed.

(** ** Properties *)

(** C25: the tester's bookkeeping is sound.  Make a configuration and call its operations in
    any sensible order with random names that are new, while daemons die at any time.  A
    call returns, and leaves the links of all groups but its own alone, if the daemons it
    kills answer and those it starts can be dialled (one that does not start at all is no
    obstacle); otherwise it ends the tester.  No end ever has two owners, and every end
    leads to the server its owner wants.  The final clean-up returns if every daemon still
    answers, and ends the tester otherwise. *)
Theorem tester_bookkeeping_sound rnd st n rel now :
  NoDup (grid rnd (seq 0 n) n ++ grid (st_rnd st) (seq 0 n) n) -> dials st (seq 0 n) = true ->
  exists cfg0, MakeConfig rnd st n rel now = Ret cfg0
    /\ forall cfg, rtc tester_step cfg0 cfg ->
         (forall op, sensible op cfg ->
            if answered op cfg
            then exists cfg', do_op op cfg = Ret cfg' /\ forall g, op_group op <> Some g -> undisturbed g cfg cfg'
            else do_op op cfg = Crash Fatal)
         /\ (forall o o' e, owns cfg o e -> owns cfg o' e -> o = o')
         /\ (forall o e, owns cfg o e -> wired (c_net cfg) e (target o))
         /\ (if all_well cfg then exists cfg', cfg_Cleanup cfg = Ret cfg' else cfg_Cleanup cfg = Crash Fatal).
Proof.
  intros Hnd Hdl. destruct (MakeConfig_spec rnd st n rel now Hnd Hdl) as (cfg0&sg0&E&Hc0&_). exists cfg0. split; [done|].
  intros cfg Hr. pose proof (reachable_cinv _ _ Hc0 Hr) as Hc. split.
  - intros op Hs. destruct (answered op cfg) eqn:Ha; [|by apply do_op_fatal].
    destruct (do_op_ok op cfg Hc Hs Ha) as (cfg'&E'&_&Hu). by exists cfg'.
  - split; [apply (ci_owner _ Hc)|]. split; [apply (ci_wired _ Hc)|by apply cfg_Cleanup_cases].
Qed.

(** A group that is started is on the network, and one that exits is off it.  In any
    state of a test, [MakeGroupStart] returns, and if the daemons start, the end between
    any two servers of the group is enabled and leads to the running server; [ExitGroup]
    then returns, removes the group, and no server of it can be reached. *)
Theorem group_start_and_exit cfg0 cfg rnd st gid n :
  cinv cfg0 -> rtc tester_step cfg0 cfg ->
  fresh (grid rnd (seq 0 n) n ++ grid (st_rnd st) (seq 0 n) n) (c_net cfg) ->
  (forall i, (i < n)%nat -> st_ok st i = true) ->
  exists cfg1 sg cfg2,
    MakeGroupStart rnd st gid n cfg = Ret cfg1 /\ Group gid cfg1 = Some sg /\ N sg = n
    /\ (forall i j, (i < n)%nat -> (j < n)%nat -> exists e, end_of sg i j = Ret e
          /\ readEndnameInfo e (c_net cfg1)
             = (true, Some (ServerName gid (Z.of_nat j)), Some (st_ptr st j),
                reliable (c_net cfg1), longReordering (c_net cfg1)))
    /\ ExitGroup gid cfg1 = Ret cfg2 /\ Group gid cfg2 = None
    /\ (forall j, (j < n)%nat -> lookup_server (ServerName gid (Z.of_nat j)) (c_net cfg2) = None)
    /\ (forall g, g <> gid -> undisturbed g cfg cfg2).
Proof.
  intros Hc0 Hr Hf Hok. pose proof (reachable_cinv _ _ Hc0 Hr) as Hc.
  destruct (MakeGroupStart_spec rnd st gid n cfg Hc Hf) as (cfg1&sg&E1&Hc1&Hg&HN&Hra&Hl&Hs&Hu1); [by apply st_ok_dials; intros i Hi%elem_of_seq; apply Hok; lia|].
  destruct (ExitGroup_spec gid cfg1 sg Hc1 Hg) as (cfg2&E2&_&Hg2&Hd&Hu2).
  { apply all_answer_true. intros i Hi%elem_of_seq. apply Hra. unfold N in HN. lia. }
  exists cfg1, sg, cfg2. split; [done|]. split; [done|]. split; [done|]. split.
  - intros i j Hi Hj. specialize (Hl i j Hi Hj). unfold link in Hl. destruct (end_of sg i j) as [e|] eqn:Ee; [|done].
    exists e. split; [done|]. destruct (ci_wired _ Hc1 (OGrp gid i j) e) as [_ Hw]; [by exists sg|].
    unfold readEndnameInfo. rewrite Hl, Hw. simpl. by rewrite (Hs j Hj (Hok j Hj)).
  - split; [done|]. split; [done|]. split; [by rewrite <-HN|].
    intros g Hne. eapply undisturbed_trans; [by apply Hu1|by apply Hu2].
Qed.

(** C38: [random_handles] shuffles without bias.  Whatever numbers [rand.Intn] returns, the
    result is a permutation of the handles, and every permutation comes from exactly one
    sequence of numbers. *)
Theorem random_handles_unbiased {A} (kvh : list A) :
  NoDup kvh ->
  (forall js, rolls js (length kvh) -> random_handles js kvh ≡ₚ kvh)
  /\ forall p, p ≡ₚ kvh -> exists! js, rolls js (length kvh) /\ random_handles js kvh = p.
Proof.
  intros Hnd. split; [intros js _; apply shuffle_Permutation|]. intros p Hp.
  destruct (shuffle_reaches kvh p Hp) as (js&Hd&E). exists js. split; [done|].
  intros js' [Hd' E']. apply (shuffle_unique kvh Hnd); [done..|congruence].
Qed.

(** *** Examples *)

(** Names made of a letter and two numbers. *)
Definition demo_rnd (tag : string) (i j : nat) : string := tag +:+ Itoa (Z.of_nat i) +:+ "-" +:+ Itoa (Z.of_nat j).

Definition demo_st (tag : string) : start_env := mkStart (demo_rnd tag) (fun _ => Launched) (fun i => i).

Definition demo_cfg : Config :=
  match MakeConfig (demo_rnd "a") (demo_st "b") 2 true 0 with
  | Ret cfg => cfg
  | Crash _ => mkConfig MakeNetwork ∅ (Some ∅) false 0 0 0 0
  end.

Lemma demo_names : NoDup (grid (demo_rnd "a") (seq 0 2) 2 ++ grid (st_rnd (demo_st "b")) (seq 0 2) 2).
Proof. apply (bool_decide_unpack _). vm_compute. exact I. Qed.

Lemma demo_cinv : cinv demo_cfg.
Proof.
  unfold demo_cfg. destruct (MakeConfig_spec (demo_rnd "a") (demo_st "b") 2 true 0 demo_names eq_refl) as (cfg&sg&->&Hc&_). exact Hc.
Qed.

Lemma demo_fresh :
  fresh (grid (demo_rnd "c") (seq 0 2) 2 ++ grid (st_rnd (demo_st "d")) (seq 0 2) 2) (c_net demo_cfg).
Proof.
  split; [apply (bool_decide_unpack _); vm_compute; exact I|]. apply list.Forall_forall.
  repeat constructor; vm_compute; reflexivity.
Qed.

(** A second group next to the first; when a daemon of it dies, the clean-up ends the tester. *)
Lemma tester_bookkeeping_sound_witness :
  exists cfg0 cfg1 sg, MakeConfig (demo_rnd "a") (demo_st "b") 2 true 0 = Ret cfg0
    /\ do_op (TMakeGroupStart (demo_rnd "c") (demo_st "d") 5 2) cfg0 = Ret cfg1
    /\ Group 5 cfg1 = Some sg
    /\ (if all_well cfg1 then exists cfg2, cfg_Cleanup cfg1 = Ret cfg2 else cfg_Cleanup cfg1 = Crash Fatal)
    /\ let cfg3 := put 5 (daemon_dies 1 sg) (c_net cfg1) cfg1 in
       if all_well cfg3 then exists cfg2, cfg_Cleanup cfg3 = Ret cfg2 else cfg_Cleanup cfg3 = Crash Fatal.
Proof.
  destruct (tester_bookkeeping_sound (demo_rnd "a") (demo_st "b") 2 true 0 demo_names eq_refl) as (cfg0&E&H).
  assert (demo_cfg = cfg0) as E0 by (unfold demo_cfg; by rewrite E).
  destruct (H cfg0 (rtc_refl _ _)) as (Hop&_). pose proof demo_fresh as Hf. rewrite E0 in Hf.
  pose proof (Hop (TMakeGroupStart (demo_rnd "c") (demo_st "d") 5 2) Hf) as Hs. simpl in Hs.
  change (dials (demo_st "d") (seq 0 2)) with true in Hs. destruct Hs as (cfg1&E1&_).
  assert (rtc tester_step cfg0 cfg1) as Hr.
  { apply rtc_once. exact (ts_call _ (TMakeGroupStart (demo_rnd "c") (demo_st "d") 5 2) _ Hf E1). }
  assert (is_Some (Group 5 cfg1)) as [sg Hg].
  { subst cfg0. clear -E1. assert (match do_op (TMakeGroupStart (demo_rnd "c") (demo_st "d") 5 2) demo_cfg with
      Ret c => bool_decide (is_Some (Group 5 c)) | Crash _ => false end = true) as Hb by (vm_compute; reflexivity).
    simpl in Hb. rewrite E1 in Hb. by apply bool_decide_eq_true_1 in Hb. }
  exists cfg0, cfg1, sg. split; [exact E|]. split; [exact E1|]. split; [exact Hg|].
  split; [exact (proj2 (proj2 (proj2 (H cfg1 Hr))))|].
  exact (proj2 (proj2 (proj2 (H _ (rtc_r _ _ _ Hr (ts_dies _ _ _ 1%nat Hg)))))).
Defined.

Lemma group_start_and_exit_witness :
  exists cfg1 sg e, MakeGroupStart (demo_rnd "c") (demo_st "d") 5 2 demo_cfg = Ret cfg1 /\ Group 5 cfg1 = Some sg
    /\ end_of sg 0 1 = Ret e
    /\ readEndnameInfo e (c_net cfg1)
       = (true, Some "server-5-1"%string, Some 1%nat, reliable (c_net cfg1), longReordering (c_net cfg1)).
Proof.
  destruct (group_start_and_exit demo_cfg demo_cfg (demo_rnd "c") (demo_st "d") 5 2) as (cfg1&sg&cfg2&E&Hg&_&Hr&_).
  - exact demo_cinv.
  - apply rtc_refl.
  - exact demo_fresh.
  - intros i _. reflexivity.
  - destruct (Hr 0%nat 1%nat) as (e&He&Hi); [lia..|]. exists cfg1, sg, e.
    split; [exact E|]. split; [exact Hg|]. split; [exact He|exact Hi].
Defined.

Lemma random_handles_unbiased_witness :
  exists js, rolls js 3 /\ random_handles js [10; 20; 30]%nat = [30; 10; 20]%nat.
Proof.
  destruct (random_handles_unbiased [10; 20; 30]%nat) as [_ H].
  - apply (bool_decide_unpack _). vm_compute. exact I.
  - destruct (H [30; 10; 20]%nat) as (js&Hjs&_); [|by exists js].
    apply (bool_decide_unpack _). vm_compute. exact I.
Defined.
