(* ===== verification/Daemon.v ===== *)
(** * Server processes

    [src/src/tester1/daemonclnt.go], [daemonsrv.go], [testsrv.go], [testclnt.go] and
    [sockrpc/rpcclnt.go], [rpcsrv.go]: a server under test runs in a process of its own.
    The tester starts it with a command line, hands it the saved persister, waits until its
    services are registered, forwards requests to it, and takes a checkpoint before it
    kills it; the server's own calls are forwarded to the tester's network.  The flags
    ([flag.Parse]) and the process itself are left to the system; dialling is taken to
    succeed once the other side listens. *)

From S2P Require Import Prelude Labrpc RaftTest TesterGroup.
Local Open Scope Z_scope.

(** ** The command line *)

(** [strconv.Atoi]: an optional sign, at least one digit, and the result an [int]. *)
Definition Atoi (s : string) : option Z :=
  let '(sign, ds) := match s with
                     | String "-" s' => (-1, s')
                     | String "+" s' => (1, s')
                     | _ => (1, s)
                     end in
  match ds with
  | EmptyString => None
  | _ => n ← digits_from 0 ds;
         let z := sign * n in if decide (- 2 ^ 63 <= z < 2 ^ 63) then Some z else None
  end.

Definition options (UseRaftStateMachine : bool) : list string :=
  if UseRaftStateMachine then ["--raft-state-machine"%string] else [].

(** The arguments [runDaemon] starts the process with. *)
Definition runDaemon_args (usrsm : bool) (pargs : list string) (endName : string) (gid srv : Z)
    (endNames : list string) : list string :=
  pargs ++ options usrsm
  ++ [Itoa gid; Itoa srv; Itoa (Z.of_nat (length endNames)); endName] ++ endNames.

(** The loop of [InitDaemon] over the optional arguments: [i] the index, [s] the start of the
    others; the first byte of an empty argument is an index out of range. *)
Fixpoint skip_options (i s : nat) (args : list string) : go nat :=
  match args with
  | [] => Ret s
  | EmptyString :: _ => Crash Panic
  | String c _ :: rest => if decide (c = "-"%char) then skip_options (S i) (S i) rest else Ret s
  end.

Record daemon_args := mkArgs {
  d_gid : Z;
  d_sid : Z;
  d_testerEndName : string;
  d_endNames : list string;
  d_endName : string;
}.

(** [args[lo : lo + n]] *)
Definition slice (args : list string) (lo : nat) (n : Z) : go (list string) :=
  if decide (0 <= n /\ Z.of_nat lo + n <= Z.of_nat (length args)) then Ret (take (Z.to_nat n) (drop lo args))
  else Crash Panic.

(** [endNames[sid]] *)
Definition index_Z (l : list string) (i : Z) : go string :=
  if decide (0 <= i) then index l (Z.to_nat i) else Crash Panic.

(** The first part of [InitDaemon]; [None] is the error it returns. *)
Definition InitDaemon_args (args : list string) : go (option daemon_args) :=
  s ← skip_options 0 0 args;
  a0 ← index args s;
  match Atoi a0 with
  | None => Ret None
  | Some gid =>
      a1 ← index args (s + 1);
      match Atoi a1 with
      | None => Ret None
      | Some sid =>
          a2 ← index args (s + 2);
          match Atoi a2 with
          | None => Ret None
          | Some nsrv =>
              testerEndName ← index args (s + 3);
              endNames ← slice args (s + 4) nsrv;
              endName ← index_Z endNames sid;
              Ret (Some (mkArgs gid sid testerEndName endNames endName))
          end
      end
  end.

(** ** Calls over a socket *)

Record RPCArgs := mkRPCArgs { r_Method : string; r_Args : bytes }.

Section sockrpc.
  Context `{Codec RPCArgs}.
  Context {St : Type}.  (* the process that serves *)

(** [RPCSrv.ServeRequest]: [dispatch] is the labrpc server's. *)
Definition ServeRequest (dispatch : St -> string -> bytes -> go (St * (bytes * bool))) (b : bytes) (st : St)
    : go (St * (bytes * bool)) :=
  match Unmarshall b with
  | None => Crash Fatal
  | Some req => dispatch st (r_Method req) (r_Args req)
  end.

(** [RPCClnt.RPC]: [up] tells whether the connection carries the request and its reply. *)
Definition RPC (up : bool) (dispatch : St -> string -> bytes -> go (St * (bytes * bool)))
    (method : string) (args : bytes) (st : St) : go (St * (bytes * bool)) :=
  if up then ServeRequest dispatch (Marshall (mkRPCArgs method args)) st else Ret (st, (""%string, false)).

(** [RPCMarshall]: [None] is false; a reply that does not decode is fatal. *)
Definition RPCMarshall {A R} `{Codec A} `{Codec R} (up : bool)
    (dispatch : St -> string -> bytes -> go (St * (bytes * bool))) (method : string) (args : A) (st : St)
    : go (St * option R) :=
  '(st, (rep, ok)) ← RPC up dispatch method (Marshall args) st;
  if negb ok then Ret (st, None)
  else match Unmarshall rep with Some r => Ret (st, Some r) | None => Crash Fatal end.
End sockrpc.

(** A server with one method, as [dispatch] presents it. *)
Definition serve_one {St A R} `{Codec A} `{Codec R} (name : string) (handler : A -> St -> go (St * R))
    (st : St) (method : string) (b : bytes) : go (St * (bytes * bool)) :=
  if decide (method = name) then
    match Unmarshall b with
    | None => Crash Fatal
    | Some args => '(st, r) ← handler args st; Ret (st, (Marshall r, true))
    end
  else Crash Fatal.

(** ** The daemon *)

(** [ds_rpcs]: [None] before the listener is made, then whether it is open. *)
Record DaemonSrv := mkDaemon {
  ds_rpcc : bool;
  ds_rpcs : option bool;
  ds_persister : option Persister;
  ds_id : Z;
}.

(** A slice in a message: the encoding does not tell a nil slice from an empty one, and [Save]
    copies both to an empty one. *)
Definition wire (b : option string) : bytes := default ""%string b.

Record InitArgs := mkInitArgs { ia_Raftstate : bytes; ia_Snapshot : bytes }.

(** The persister that the handler of [Init] sends to the main goroutine. *)
Definition init_persister (args : InitArgs) : Persister :=
  Save (Some (ia_Raftstate args)) (Some (ia_Snapshot args)) MakePersister.

(** The arguments [DaemonClnt.init] sends. *)
Definition init_args (p : Persister) : InitArgs := mkInitArgs (wire (ReadRaftState p)) (wire (ReadSnapshot p)).

Record CheckpointReply := mkCheckpoint { cr_Raftstate : bytes; cr_Snapshot : bytes }.

(** [DaemonSrv.CheckpointPersister]: closing a nil listener or reading a nil persister
    panics. *)
Definition CheckpointPersister (_ : unit) (ds : DaemonSrv) : go (DaemonSrv * CheckpointReply) :=
  match ds_rpcs ds, ds_persister ds with
  | Some _, Some p =>
      let p' := Checkpoint p in
      Ret (mkDaemon false (Some false) (Some p) (ds_id ds), 
           mkCheckpoint (wire (ReadRaftState p')) (wire (ReadSnapshot p')))
  | _, _ => Crash Panic
  end.

Definition StateSize (_ : unit) (ds : DaemonSrv) : go (DaemonSrv * (Z * Z)) :=
  match ds_persister ds with
  | Some p => Ret (ds, (RaftStateSize p, RaftTest.SnapshotSize p))
  | None => Crash Panic
  end.

(** [DaemonClnt.checkpointPersister] and [stateSize] over the control connection: no answer
    is fatal. *)
Section control.
  Context `{Codec RPCArgs} `{Codec unit} `{Codec CheckpointReply} `{Codec (Z * Z)}.

Definition checkpointPersister (up : bool) (ds : DaemonSrv) : go (DaemonSrv * Persister) :=
  '(ds, r) ← RPCMarshall up (serve_one "DaemonSrv.CheckpointPersister" CheckpointPersister)
               "DaemonSrv.CheckpointPersister" tt ds;
  match r with
  | None => Crash Fatal
  | Some reply => Ret (ds, Save (Some (cr_Raftstate reply)) (Some (cr_Snapshot reply)) MakePersister)
  end.

Definition stateSize (up : bool) (ds : DaemonSrv) : go (DaemonSrv * (Z * Z)) :=
  '(ds, r) ← RPCMarshall up (serve_one "DaemonSrv.StateSize" StateSize) "DaemonSrv.StateSize" tt ds;
  match r with
  | None => Crash Fatal
  | Some sizes => Ret (ds, sizes)
  end.
End control.

(** ** Start-up *)

(** The main goroutine of [InitDaemon] after the arguments: waiting for the persister, having
    it, listening, about to signal, waiting for the end, returned. *)
Inductive main_pc :=
  | MWaitPersister
  | MGotPersister (p : Persister)
  | MListening (p : Persister)
  | MSignal
  | MForever
  | MReturned.

(** A handler of the control connection that is blocked on the channel: [Init] sends, [InitWait]
    receives. *)
Inductive handler :=
  | HInit (p : Persister)
  | HInitWait.

(** The tester in [StartServer]: about to call [Init], waiting for its reply, dialling, about to
    call [InitWait], waiting for its reply, adding the server to the network. *)
Inductive tester_pc := TInit | TInitSent | TDial | TWait | TWaitSent | TReady.

(** [b_made]: the persister [mks] was called with, once the services are registered. *)
Record boot := mkBoot {
  b_main : main_pc;
  b_handlers : list handler;
  b_tester : tester_pc;
  b_made : option Persister;
}.

(** A reply reaches the tester if it waits for it. *)
Definition reply_init (t : tester_pc) : tester_pc := match t with TInitSent => TDial | _ => t end.
Definition reply_wait (t : tester_pc) : tester_pc := match t with TWaitSent => TReady | _ => t end.

Definition listening (m : main_pc) : bool :=
  match m with MListening _ | MSignal | MForever => true | _ => false end.

(** The channel has no buffer: a sender and a receiver move together, whoever they are. *)
Inductive bstep (saved : Persister) : boot -> boot -> Prop :=
  | b_init m hs made :
      bstep saved (mkBoot m hs TInit made)
                  (mkBoot m (HInit (init_persister (init_args saved)) :: hs) TInitSent made)
  | b_receive hs1 p hs2 t made :
      bstep saved (mkBoot MWaitPersister (hs1 ++ HInit p :: hs2) t made)
                  (mkBoot (MGotPersister p) (hs1 ++ hs2) (reply_init t) made)
  | b_listen p hs t made :
      bstep saved (mkBoot (MGotPersister p) hs t made) (mkBoot (MListening p) hs t made)
  | b_register p hs t made :
      bstep saved (mkBoot (MListening p) hs t made) (mkBoot MSignal hs t (Some p))
  | b_dial m hs made :
      listening m = true -> bstep saved (mkBoot m hs TDial made) (mkBoot m hs TWait made)
  | b_wait m hs made :
      bstep saved (mkBoot m hs TWait made) (mkBoot m (HInitWait :: hs) TWaitSent made)
  | b_signal hs1 hs2 t made :
      bstep saved (mkBoot MSignal (hs1 ++ HInitWait :: hs2) t made)
                  (mkBoot MForever (hs1 ++ hs2) (reply_wait t) made)
  | b_quit hs1 p hs2 t made :
      bstep saved (mkBoot MForever (hs1 ++ HInit p :: hs2) t made)
                  (mkBoot MReturned (hs1 ++ hs2) (reply_init t) made)
  | b_handlers_meet hs p hs' t m made :
      hs ≡ₚ HInit p :: HInitWait :: hs' ->
      bstep saved (mkBoot m hs t made) (mkBoot m hs' (reply_wait (reply_init t)) made).

Definition boot_init : boot := mkBoot MWaitPersister [] TInit None.

(** ** Forwarding *)

Record ForwardArgs := mkForward { fa_Method : string; fa_End : string; fa_Args : bytes; fa_Id : Z }.
Record ForwardReply := mkFReply { fr_Rep : bytes; fr_Ok : bool }.

Section forwarding.
  Context {App : Type}.

(** What one request meets on the tester's network, and whether the daemon's connection to
    the tester is closed while the call is in flight, as [CheckpointPersister] does. *)
Record net_env := mkNetEnv {
  ne_dice : dice;
  ne_wakes : list (wake App);
  ne_later : Network -> Network;
  ne_cut : bool;
}.
  Context `{Codec RPCArgs} `{Codec ForwardArgs} `{Codec ForwardReply}.

(** The tester's side: the network, the server objects and what is behind them. *)
Abbreviation world := (gmap nat (Server App) * App * Network)%type.

(** [TesterRPC.Forward]; a request whose wait does not end gives no reply. *)
Definition tester_Forward (env : net_env) (args : ForwardArgs) (w : world)
    : go (world * option ForwardReply * handler_fate) :=
  let '(heap, app, rn) := w in
  match LookupEnd (fa_End args) rn with
  | Crash c => Crash c
  | Ret e =>
      match Forward (ne_dice env) e (fa_Method args) (fa_Args args) rn (ne_wakes env) (ne_later env) heap app with
      | Crash c => Crash c
      | Ret (heap', app', rn', r, hf) =>
          Ret ((heap', app', rn'), (fun '(rep, ok) => mkFReply rep ok) <$> r, hf)
      end
  end.

(** [DaemonSrv.forward], which [SetCall] installs in every end of the daemon; the RPC to the
    tester fails when the connection is closed, at once or, when it is closed in flight,
    whatever the tester does with the request. *)
Definition daemon_forward (env : net_env) (endname method : string) (b : bytes) (ds : DaemonSrv) (w : world)
    : go (DaemonSrv * world * option (bytes * bool) * handler_fate) :=
  let id := i64 (ds_id ds + 1) in
  let ds := mkDaemon (ds_rpcc ds) (ds_rpcs ds) (ds_persister ds) id in
  if negb (ds_rpcc ds) then Ret (ds, w, Some (""%string, false), NotStarted) else
  match Unmarshall (Marshall (mkRPCArgs "TesterRPC.Forward" (Marshall (mkForward method endname b id)))) with
  | None => Crash Fatal
  | Some req =>
      match Unmarshall (r_Args req) with
      | None => Crash Fatal
      | Some args =>
          match tester_Forward env args w with
          | Crash c => Crash c
          | Ret (w, r, hf) =>
              if ne_cut env then Ret (mkDaemon false (ds_rpcs ds) (ds_persister ds) id, w, Some (""%string, false), hf)
              else
                match r with
                | None => Ret (ds, w, None, hf)
                | Some reply =>
                    match Unmarshall (Marshall reply) with
                    | None => Crash Fatal
                    | Some reply => Ret (ds, w, Some (fr_Rep reply, fr_Ok reply), hf)
                    end
                end
          end
      end
  end.

(** What the caller in the daemon gets: [None] while it waits, then the reply or nothing. *)
Definition forwarded_call (env : net_env) (endname method : string) (b : bytes) (ds : DaemonSrv) (w : world)
    : go (world * option (option bytes) * handler_fate) :=
  match daemon_forward env endname method b ds w with
  | Ret (_, w', r, hf) => Ret (w', (fun r => if r.2 : bool then Some r.1 else None) <$> r, hf)
  | Crash c => Crash c
  end.

(** The same call on an end of the tester. *)
Definition direct_call (env : net_env) (e : ClientEnd) (method : string) (b : bytes) (w : world)
    : go (world * option (option bytes) * handler_fate) :=
  let '(heap, app, rn) := w in
  match Call (ne_dice env) e method b rn (ne_wakes env) (ne_later env) heap app with
  | Ret (heap', app', rn', ans, hf) => Ret ((heap', app', rn'), ans, hf)
  | Crash c => Crash c
  end.

(** The same call, whose answer does not arrive. *)
Definition unanswered (r : go (world * option (option bytes) * handler_fate))
    : go (world * option (option bytes) * handler_fate) :=
  match r with
  | Ret (w, _, hf) => Ret (w, Some None, hf)
  | Crash c => Crash c
  end.
End forwarding.

(** ** Lemmas: the command line *)

Lemma Atoi_Itoa z : 0 <= z < 2 ^ 63 -> Atoi (Itoa z) = Some z.
Proof.
  intros Hz. pose proof (Itoa_no_dash z ltac:(lia)) as Hm.
  assert (has_byte "+" (Itoa z) = false) as Hp by (apply Itoa_lacks; [not_a_digit|lia]).
  pose proof (Itoa_nonempty z) as Hne.
  pose proof (digits_Itoa z ltac:(lia)) as Hd.
  unfold Atoi. destruct (Itoa z) as [|c s] eqn:E; [done|]. simpl in Hm, Hp.
  apply orb_false_iff in Hm as [Hm%bool_decide_eq_false _]. apply orb_false_iff in Hp as [Hp%bool_decide_eq_false _].
  assert (match String c s with String "-" s' => (-1, s') | String "+" s' => (1, s') | _ => (1, String c s) end = (1, String c s)) as ->.
  { destruct c as [[] [] [] [] [] [] [] []]; first [done|by destruct Hm|by destruct Hp]. }
  rewrite Hd. cbn [mbind option_bind]. rewrite Z.mul_1_l. by rewrite decide_True by lia.
Qed.

Definition is_option (a : string) : Prop := exists s, a = String "-" s.

Lemma skip_options_app opts rest : forall i,
  Forall is_option opts ->
  (match rest with [] => False | a :: _ => exists c s, a = String c s /\ c <> "-"%char end) ->
  skip_options i i (opts ++ rest) = Ret (i + length opts)%nat.
Proof.
  induction opts as [|o opts IH]; intros i Ho Hr; simpl.
  - destruct rest as [|a rest]; [done|]. destruct Hr as (c&s&->&Hc). cbn [skip_options]. rewrite decide_False by done. by rewrite Nat.add_0_r.
  - apply list.Forall_cons in Ho as [[s ->] Ho]. rewrite decide_True by done. rewrite IH by done. f_equal. lia.
Qed.

Lemma Itoa_head z : 0 <= z -> exists c s, Itoa z = String c s /\ c <> "-"%char.
Proof.
  intros Hz. pose proof (Itoa_no_dash z Hz) as Hm. pose proof (Itoa_nonempty z). destruct (Itoa z) as [|c s]; [done|].
  exists c, s. split; [done|]. simpl in Hm. by apply orb_false_iff in Hm as [Hm%bool_decide_eq_false _].
Qed.

(** ** Lemmas: start-up *)

Section start_up.
  Context (saved : Persister).
Let P := init_persister (init_args saved).

(** Where the two sides can be. *)
Definition binv (s : boot) : Prop :=
  match b_tester s with
  | TInit => s = boot_init
  | TInitSent => s = mkBoot MWaitPersister [HInit P] TInitSent None
  | TDial => b_handlers s = [] /\ (b_main s = MGotPersister P /\ b_made s = None
                                  \/ b_main s = MListening P /\ b_made s = None \/ b_main s = MSignal /\ b_made s = Some P)
  | TWait => b_handlers s = [] /\ (b_main s = MListening P /\ b_made s = None \/ b_main s = MSignal /\ b_made s = Some P)
  | TWaitSent => b_handlers s = [HInitWait]
                 /\ (b_main s = MListening P /\ b_made s = None \/ b_main s = MSignal /\ b_made s = Some P)
  | TReady => s = mkBoot MForever [] TReady (Some P)
  end.

(** How far the two sides still have to go. *)
Definition to_go (s : boot) : nat :=
  match b_main s with
  | MWaitPersister => 5 | MGotPersister _ => 4 | MListening _ => 3 | MSignal => 2 | MForever => 1 | MReturned => 0
  end + match b_tester s with TInit => 5 | TInitSent => 4 | TDial => 3 | TWait => 2 | TWaitSent => 1 | TReady => 0 end.

Lemma no_handler hs1 (h : handler) hs2 : hs1 ++ h :: hs2 <> [].
Proof. by destruct hs1. Qed.

Lemma one_handler hs1 (h h' : handler) hs2 : hs1 ++ h :: hs2 = [h'] -> h = h' /\ hs1 ++ hs2 = [].
Proof. destruct hs1 as [|x [|]]; [by intros [= -> ->]|done|done]. Qed.

Lemma binv_step s s' : binv s -> bstep saved s s' -> binv s' /\ (to_go s' < to_go s)%nat.
Proof.
  intros Hb Hs. destruct Hs as [m hs made|hs1 p hs2 t made|p hs t made|p hs t made|m hs made Hl|m hs made
    |hs1 hs2 t made|hs1 p hs2 t made|hs p hs' t m made Hp]; unfold binv, to_go in *; simpl in *.
  - injection Hb as -> -> ->. simpl. split; [done|lia].
  - destruct t; simpl in *; [by injection Hb as []%no_handler| |naive_solver..].
    injection Hb as [[= ->] ->]%one_handler ->. split; [by split; [|left]|lia].
  - destruct t; simpl in *; [done|done| |naive_solver..]. split; [|lia]. split; [apply Hb|]. naive_solver.
  - destruct t; simpl in *; [done|done| | | |done]; (split; [|lia]); split; [apply Hb|naive_solver|apply Hb|naive_solver|apply Hb|naive_solver].
  - split; [|lia]. destruct Hb as [-> [[-> ->]|[[-> ->]|[-> ->]]]]; [done|by split; [|left]|by split; [|right]].
  - split; [|lia]. destruct Hb as [-> Hb]. by split.
  - destruct t; simpl in *; [done|done|by destruct Hb as [[]%no_handler _]..| |done].
    destruct Hb as [[_ ->]%one_handler [[[=] _]|[_ ->]]]. split; [done|lia].
  - destruct t; simpl in *; [done|done|naive_solver..|]. by injection Hb as []%no_handler.
  - exfalso. apply Permutation_length in Hp. simpl in Hp.
    destruct t; simpl in *; [by injection Hb as -> -> ->|by injection Hb as -> -> ->|
      destruct Hb as [-> _]; simpl in *; lia..|by injection Hb as -> -> ->].
Qed.

Lemma binv_reach s : rtc (bstep saved) boot_init s -> binv s.
Proof.
  intros Hr. assert (binv boot_init) as Hb by done. induction Hr as [|a b c Hab _ IH]; [done|].
  apply IH. by apply (binv_step _ _ Hb Hab).
Qed.

Lemma binv_progress s : binv s -> b_tester s = TReady \/ exists s', bstep saved s s'.
Proof.
  destruct s as [m hs t made]. unfold binv. simpl. destruct t; intros Hb; simpl in *.
  - injection Hb as -> -> ->. right. eexists. apply b_init.
  - injection Hb as -> -> ->. right. eexists. apply (b_receive saved [] P []).
  - right. destruct Hb as [-> [[-> ->]|[[-> ->]|[-> ->]]]]; eexists; [apply b_listen|by apply b_dial..].
  - right. eexists. apply b_wait.
  - right. destruct Hb as [-> [[-> ->]|[-> ->]]]; eexists; [apply b_register|apply (b_signal saved [] [])].
  - by left.
Qed.
End start_up.

(** ** Properties *)

(** A daemon reads from its command line what the tester wrote there: whatever options
    come first, the group, the server's number, the tester's name and the names of all
    ends, its own among them. *)
Theorem daemon_args_round_trip usrsm pargs endName gid srv endNames e :
  Forall is_option pargs -> 0 <= gid < 2 ^ 63 -> Z.of_nat (length endNames) < 2 ^ 63 ->
  endNames !! srv = Some e ->
  InitDaemon_args (runDaemon_args usrsm pargs endName gid (Z.of_nat srv) endNames)
  = Ret (Some (mkArgs gid (Z.of_nat srv) endName endNames e)).
Proof.
  intros Hp Hg Hn He. pose proof (lookup_lt_Some _ _ _ He) as Hlt. unfold InitDaemon_args, runDaemon_args.
  rewrite app_assoc. set (opts := pargs ++ options usrsm).
  rewrite skip_options_app; [|..|by destruct (Itoa_head gid) as (c&s&->&Hc); [lia|exists c, s]].
  2: { apply Forall_app. split; [done|]. destruct usrsm; [|constructor]. constructor; [by eexists|constructor]. }
  run_go. set (args := opts ++ _). rewrite Nat.add_0_l. set (s := length opts).
  assert (forall k, index args (s + k)
    = index ([Itoa gid; Itoa (Z.of_nat srv); Itoa (Z.of_nat (length endNames)); endName] ++ endNames) k) as Hk.
  { intros k. unfold index, args, s. rewrite lookup_app_r by lia. by rewrite Nat.add_comm, Nat.add_sub. }
  rewrite <-(Nat.add_0_r s) at 1. rewrite !Hk. cbn [index lookup list_lookup app mbind go_bind].
  rewrite !Atoi_Itoa by lia. cbn [mbind go_bind].
  unfold slice. rewrite decide_True by (unfold args; rewrite !length_app; simpl; lia). run_go.
  unfold args. rewrite Nat2Z.id, <-drop_drop, drop_app_length' by lia. simpl. rewrite drop_0, firstn_all.
  unfold index_Z. rewrite decide_True by lia. unfold index. by rewrite Nat2Z.id, He.
Qed.

(** C28: the start-up hand-shake of a daemon works.  From any moment of it the two sides can go
    on until the tester adds the server to the network, and cannot go on for ever; when the
    tester does, the services of the server are registered and the server was made with a
    persister that reads the saved Raft state and snapshot. *)
Theorem daemon_start_handshake saved s :
  rtc (bstep saved) boot_init s ->
  (b_tester s = TReady ->
     b_main s = MForever /\ exists p, b_made s = Some p
       /\ ReadRaftState p = ReadRaftState saved /\ ReadSnapshot p = ReadSnapshot saved)
  /\ (b_tester s = TReady \/ exists s', bstep saved s s')
  /\ (forall s', bstep saved s s' -> (to_go s' < to_go s)%nat).
Proof.
  intros Hb%binv_reach. split; [|split].
  - intros Ht. unfold binv in Hb. rewrite Ht in Hb. rewrite Hb. split; [done|]. by eexists.
  - by apply binv_progress.
  - intros s' Hs. by eapply binv_step.
Qed.

(** C26: running servers as processes does not change what their calls do.  A call that a
    daemon makes through one of its ends travels over the socket to the tester, through the
    simulated network and back; while the connection stays open it has exactly the outcome
    of the same call made directly on the tester's end of that name, for every fate of the
    request.  When the connection is closed in flight, the network and the servers still
    do what they do for the direct call, and the caller learns nothing. *)
Theorem forwarded_call_is_direct {App} `{Codec RPCArgs} `{Codec ForwardArgs} `{Codec ForwardReply}
    env name method b ds heap (app : App) rn e :
  ds_rpcc ds = true -> LookupEnd name rn = Ret e -> callf e = None ->
  (ne_cut env = false ->
     forwarded_call env name method b ds (heap, app, rn) = direct_call env e method b (heap, app, rn))
  /\ (ne_cut env = true ->
     forwarded_call env name method b ds (heap, app, rn) = unanswered (direct_call env e method b (heap, app, rn))).
Proof.
  intros Hup He Hcf. unfold forwarded_call, direct_call, daemon_forward. cbn [ds_rpcc]. rewrite Hup. cbn [negb].
  rewrite codec_round_trip. cbn [r_Args]. rewrite codec_round_trip. unfold tester_Forward, Call, Forward.
  cbn [fa_End fa_Method fa_Args]. rewrite He, Hcf.
  destruct (Labrpc.done rn); [split; intros ->; simpl; by rewrite ?codec_round_trip|].
  destruct (processReq _ _ _ _ _ _ _) as [[[[heap' app'] [o|]] hf]|c]; simpl; split; intros Hcut; rewrite ?Hcut; simpl; by rewrite ?codec_round_trip.
Qed.

(** Stopping a daemon is final and loses nothing that was saved.  The checkpoint that the
    tester takes over the control connection is the one [shutdownServer] keeps; from then
    on no call of the server reaches the network; and a new daemon started from the
    checkpoint reads the Raft state and the snapshot that were saved last. *)
Theorem daemon_checkpoint_final {App} `{Codec RPCArgs} `{Codec unit} `{Codec CheckpointReply}
    `{Codec ForwardArgs} `{Codec ForwardReply} ds listener p :
  ds_rpcs ds = Some listener -> ds_persister ds = Some p ->
  exists ds', checkpointPersister true ds = Ret (ds', Checkpoint p)
    /\ (forall names, shutdownServer (mkTServer None names (Some (Answering p))) = Ret (mkTServer (Some (Checkpoint p)) names None))
    /\ (forall env name method b (w : gmap nat (Server App) * App * Network),
          exists ds'', daemon_forward env name method b ds' w = Ret (ds'', w, Some (""%string, false), NotStarted)
                       /\ ds_rpcc ds'' = false)
    /\ (let q := init_persister (init_args (Checkpoint p)) in
        ReadRaftState q = ReadRaftState p /\ ReadSnapshot q = ReadSnapshot p).
Proof.
  intros Hr Hp. unfold checkpointPersister, RPCMarshall, RPC, ServeRequest, serve_one.
  rewrite codec_round_trip. cbn [r_Method r_Args]. rewrite decide_True by done. rewrite codec_round_trip.
  unfold CheckpointPersister. rewrite Hr, Hp. run_go. cbn [negb]. rewrite codec_round_trip. run_go.
  eexists. split; [done|]. split; [done|]. split; [|done].
  intros env name method b w. eexists. split; [done|done].
Qed.

(** *** Examples *)

#[local] Instance RPCArgs_eq_dec : EqDecision RPCArgs.
Proof. solve_decision. Defined.

#[local] Instance RPCArgs_countable : Countable RPCArgs.
Proof. refine (inj_countable' (fun r => (r_Method r, r_Args r)) (fun '(m, a) => mkRPCArgs m a) _). by intros []. Defined.

#[local] Instance RPCArgs_codec : Codec RPCArgs := bits_codec.

#[local] Instance CheckpointReply_eq_dec : EqDecision CheckpointReply.
Proof. solve_decision. Defined.

#[local] Instance CheckpointReply_countable : Countable CheckpointReply.
Proof. refine (inj_countable' (fun r => (cr_Raftstate r, cr_Snapshot r)) (fun '(a, b) => mkCheckpoint a b) _). by intros []. Defined.

#[local] Instance CheckpointReply_codec : Codec CheckpointReply := bits_codec.

#[local] Instance unit_codec : Codec unit := bits_codec.

#[local] Instance ForwardArgs_eq_dec : EqDecision ForwardArgs.
Proof. solve_decision. Defined.

#[local] Instance ForwardArgs_countable : Countable ForwardArgs.
Proof.
  refine (inj_countable' (fun r => (fa_Method r, fa_End r, fa_Args r, fa_Id r)) (fun '(m, e, a, i) => mkForward m e a i) _).
  by intros [].
Defined.

#[local] Instance ForwardArgs_codec : Codec ForwardArgs := bits_codec.

#[local] Instance ForwardReply_eq_dec : EqDecision ForwardReply.
Proof. solve_decision. Defined.

#[local] Instance ForwardReply_countable : Countable ForwardReply.
Proof. refine (inj_countable' (fun r => (fr_Rep r, fr_Ok r)) (fun '(a, b) => mkFReply a b) _). by intros []. Defined.

#[local] Instance ForwardReply_codec : Codec ForwardReply := bits_codec.

Lemma daemon_args_round_trip_witness :
  InitDaemon_args ["--max-raft-state=1000"; "--raft-state-machine"; "7"; "1"; "2"; "tester"; "e0"; "e1"]%string
  = Ret (Some (mkArgs 7 1 "tester" ["e0"; "e1"]%string "e1")).
Proof.
  apply (daemon_args_round_trip true ["--max-raft-state=1000"%string] "tester" 7 1 ["e0"; "e1"]%string "e1").
  - constructor; [by eexists|constructor].
  - lia.
  - simpl. lia.
  - reflexivity.
Defined.

(** A negative group would be taken for an option. *)
Example negative_gid_is_an_option :
  InitDaemon_args (runDaemon_args false [] "1" (-1) 0 ["0"; "e"]%string) = Crash Panic.
Proof. vm_compute. reflexivity. Qed.

Lemma daemon_start_handshake_witness :
  let P := init_persister (init_args (mkPersister (Some "term"%string) None)) in
  to_go (mkBoot (MListening P) [HInitWait] TWaitSent None) = 4%nat
  /\ exists s', bstep (mkPersister (Some "term"%string) None) (mkBoot (MListening P) [HInitWait] TWaitSent None) s'.
Proof.
  intros P. split; [reflexivity|].
  destruct (daemon_start_handshake (mkPersister (Some "term"%string) None) (mkBoot (MListening P) [HInitWait] TWaitSent None))
    as (_&[Ht|Hs]&_); [|discriminate Ht|exact Hs].
  eapply rtc_l; [apply b_init|]. eapply rtc_l; [apply (b_receive _ [] _ [])|]. eapply rtc_l; [apply b_listen|].
  eapply rtc_l; [by apply b_dial|]. eapply rtc_l; [apply b_wait|]. apply rtc_refl.
Defined.

(** A second [Init] ends the daemon: its main goroutine takes it for the force quit. *)
Example second_init_quits saved p :
  bstep saved (mkBoot MForever [HInit p] TReady (Some p)) (mkBoot MReturned [] TReady (Some p)).
Proof. apply (b_quit saved [] p []). Qed.

Definition demo_env : net_env := mkNetEnv (App := unit) (mkDice 0 0 0 0 0) [] (fun rn => rn) false.

(** An end that is not enabled. *)
Lemma forwarded_call_is_direct_witness :
  let rn := match MakeEnd "e" MakeNetwork with Ret (rn, _) => rn | Crash _ => MakeNetwork end in
  exists rn', forwarded_call demo_env "e" "Raft.RequestVote" "x" (mkDaemon true (Some true) None 0)
                (∅ : gmap nat (Server unit), tt, rn)
              = Ret ((∅ : gmap nat (Server unit), tt, rn'), Some None, NotStarted).
Proof.
  intros rn.
  rewrite (proj1 (forwarded_call_is_direct demo_env "e" "Raft.RequestVote" "x" (mkDaemon true (Some true) None 0) ∅ tt rn
    (mkEnd "e" None) eq_refl eq_refl eq_refl) eq_refl).
  eexists. vm_compute. reflexivity.
Defined.

Lemma daemon_checkpoint_final_witness :
  exists ds', checkpointPersister true (mkDaemon true (Some true) (Some (mkPersister (Some "term"%string) None)) 3)
              = Ret (ds', mkPersister (Some "term"%string) (Some ""%string)).
Proof.
  destruct (daemon_checkpoint_final (App := unit) (mkDaemon true (Some true) (Some (mkPersister (Some "term"%string) None)) 3)
    true (mkPersister (Some "term"%string) None)) as (ds'&E&_); [reflexivity..|]. exists ds'. exact E.
Defined.
