(* ===== verification/Sock.v ===== *)
(** * Calls over sockets, from bytes to dispatch

    The two ends of a connection as [src/src/tester1/sockrpc] (rpcclnt.go, rpcsrv.go) puts them
    together from [src/src/tester1/demux] (dmxclnt.go, dmxsrv.go, transport.go): a client dials the
    socket of a server and sends a first message with its name; the server's accept loop reads that
    message, and then each connection has a reader, and a goroutine for each request.

    The two directions of a connection are byte streams here, cut anywhere when a write fails or an end
    closes.  The steps refine those of [Demux], where the directions are queues of messages; what the
    clients get is stated in terms of the server's [Dispatch], a relation. *)

From S2P Require Import Prelude Labrpc Demux Daemon.
Local Open Scope Z_scope.

(** ** Dialing *)

Definition SockName (endName : string) : string := "/tmp/6.5840-" +:+ endName.

Definition MAXRETRY : nat := 100.

(** [net.Dial] in the [i]-th try of [n]; [accepts] tells in which tries the server listens.  The
    result is the try that succeeded. *)
Fixpoint dial_from (i n : nat) (accepts : nat -> bool) : option nat :=
  match n with
  | O => None
  | S n' => if accepts i then Some i else dial_from (S i) n' accepts
  end.

Definition dial (accepts : nat -> bool) : option nat := dial_from 0 MAXRETRY accepts.

(** ** One connection *)

Record InitMsg := mkInitMsg { Clnt : string }.

(** One direction of the connection; it is not open when no byte will follow. *)
Record stream := mkStream { s_data : string; s_open : bool }.

(** Where the server's side is: before its first [ReadCall], in [reader], after it; with the
    name of the client. *)
Inductive srv_pc := SHandshake | SReading (clntEnd : string) | SStopped (clntEnd : string).

Record DemuxSrv := mkDSrv { dv_pc : srv_pc; dv_closed : bool }.

Definition setClosed (d : DemuxSrv) : DemuxSrv * bool := (mkDSrv (dv_pc d) true, dv_closed d).

Section sock.
  Context `{Codec msg} `{Codec RPCArgs} `{Codec InitMsg}.
  (* which answers [Dispatch] may give to a method and arguments from a client *)
  Context (dispatches : string -> string -> bytes -> bytes * bool -> Prop).

(** A message whose length the four bytes of a frame can say. *)
Definition fits (m : msg) : Prop := Z.of_nat (String.length (Marshall m)) < 2 ^ 32.

(** [WriteCall] puts the frame on the stream, or a part of it and no byte after that, or nothing. *)
Inductive wrote (m : msg) : stream -> stream -> Prop :=
  | w_all d : wrote m (mkStream d true) (mkStream (d +:+ WriteCall m) true)
  | w_part d p q : WriteCall m = p +:+ q -> q <> ""%string -> wrote m (mkStream d true) (mkStream (d +:+ p) false)
  | w_not d : wrote m (mkStream d false) (mkStream d false).

Definition shut (st : stream) : stream := mkStream (s_data st) false.

(** The first message of a client. *)
Definition init_msg (name : string) : msg := mkMsg 0 (Marshall (mkInitMsg name)) true.

(** The first [ReadCall] of [NewDemuxSrv]: [None] while it waits for bytes; an error is fatal. *)
Definition handshake (st : stream) : go (option (string * stream)) :=
  r ← ReadCall (s_data st);
  match r with
  | inl _ => if s_open st then Ret None else Crash Fatal
  | inr (m, rest) =>
      match Unmarshall (Data m) with
      | None => Crash Fatal
      | Some im => Ret (Some (Clnt im, mkStream rest (s_open st)))
      end
  end.

(** [RPCSrv.ServeRequest]. *)
Definition serves (clntEnd : string) (b : bytes) (r : bytes * bool) : Prop :=
  match Unmarshall b with
  | None => False
  | Some req => dispatches clntEnd (r_Method req) (r_Args req) r
  end.

(** A connection: the client [k_name], the streams to and from the server, the requests being
    served, whether the client's reader runs.  Ghost: the calls made and the replies received. *)
Record sock := mkSock {
  k_name : string;
  k_clnt : DemuxClnt;
  k_up : stream;
  k_down : stream;
  k_srv : DemuxSrv;
  k_working : list (Z * bytes);
  k_reader : bool;
  k_sent : list RPCArgs;
  k_got : list (nat * reply);
}.

(** [getDmx]: the connection is there and the client has sent its name. *)
Definition getDmx (name : string) : sock :=
  mkSock name NewDemuxClnt (mkStream (WriteCall (init_msg name)) true) (mkStream "" true) (mkDSrv SHandshake false)
    [] true [] [].

Definition set_clnt (s : sock) (dmx : DemuxClnt) (up : stream) (sent : list RPCArgs) (got : list (nat * reply)) : sock :=
  mkSock (k_name s) dmx up (k_down s) (k_srv s) (k_working s) (k_reader s) sent got.

Definition set_srv (s : sock) (up down : stream) (srv : DemuxSrv) (w : list (Z * bytes)) : sock :=
  mkSock (k_name s) (k_clnt s) up down srv w (k_reader s) (k_sent s) (k_got s).

(** [DemuxClnt.Close]. *)
Definition clnt_Close (s : sock) : sock :=
  if isClosed (callmap (k_clnt s)) then s
  else mkSock (k_name s) (mkClnt (close (callmap (k_clnt s))) (nextTag (k_clnt s))) (shut (k_up s)) (shut (k_down s))
         (k_srv s) (k_working s) (k_reader s) (k_sent s) (k_got s).

(** [DemuxSrv.Close]. *)
Definition srv_Close (s : sock) : sock :=
  let '(srv, c) := setClosed (k_srv s) in
  if c then set_srv s (k_up s) (k_down s) srv (k_working s)
  else set_srv s (shut (k_up s)) (shut (k_down s)) srv (k_working s).

(** The goroutines of the two ends.  A [ReadCall] that finds less than a message waits while the
    stream is open; when it is not, it reports the end of the stream, or, if the connection was reset,
    another error, whatever bytes there are. *)
Inductive sstep : sock -> sock -> Prop :=
  (* RPC and SendReceive *)
  | k_send s a dmx t up :
      send (length (k_sent s)) (k_clnt s) = (dmx, Some t) ->
      fits (mkMsg t (Marshall a) true) -> wrote (mkMsg t (Marshall a) true) (k_up s) up ->
      sstep s (set_clnt s dmx up (k_sent s ++ [a]) (k_got s))
  | k_send_closed s a dmx :
      send (length (k_sent s)) (k_clnt s) = (dmx, None) ->
      sstep s (set_clnt s dmx (k_up s) (k_sent s ++ [a]) (k_got s ++ [(length (k_sent s), mkReply "" false true)]))
  (* DemuxSrv.reader *)
  | k_read s e m rest :
      dv_pc (k_srv s) = SReading e -> ReadCall (s_data (k_up s)) = Ret (inr (m, rest)) ->
      sstep s (set_srv s (mkStream rest (s_open (k_up s))) (k_down s) (k_srv s) (k_working s ++ [(Tag m, Data m)]))
  | k_stop s e x :
      dv_pc (k_srv s) = SReading e -> s_open (k_up s) = false -> ReadCall (s_data (k_up s)) = Ret (inl x) ->
      sstep s (set_srv s (k_up s) (k_down s)
                 (mkDSrv (SStopped e) (match x with EOF => true | UnexpectedEOF => dv_closed (k_srv s) end)) (k_working s))
  | k_reset s e :
      dv_pc (k_srv s) = SReading e -> s_open (k_up s) = false ->
      sstep s (set_srv s (k_up s) (k_down s) (mkDSrv (SStopped e) (dv_closed (k_srv s))) (k_working s))
  (* one of its goroutines *)
  | k_answer s e t b l1 l2 r down :
      dv_pc (k_srv s) = SReading e \/ dv_pc (k_srv s) = SStopped e ->
      k_working s = l1 ++ (t, b) :: l2 -> serves e b r ->
      fits (mkMsg t r.1 r.2) -> wrote (mkMsg t r.1 r.2) (k_down s) down ->
      sstep s (set_srv s (k_up s) down (k_srv s) (l1 ++ l2))
  (* DemuxClnt.reader *)
  | k_receive s m rest dmx d :
      k_reader s = true -> ReadCall (s_data (k_down s)) = Ret (inr (m, rest)) ->
      deliver (Tag m) (mkReply (Data m) (Ok m) false) (k_clnt s) = Ret (dmx, d) ->
      sstep s (mkSock (k_name s) dmx (k_up s) (mkStream rest (s_open (k_down s))) (k_srv s) (k_working s) true
                 (k_sent s) (k_got s ++ [d]))
  | k_fail s dmx ds :
      k_reader s = true -> s_open (k_down s) = false -> reader_fails (k_clnt s) = Ret (dmx, ds) ->
      sstep s (mkSock (k_name s) dmx (k_up s) (k_down s) (k_srv s) (k_working s) false (k_sent s) (k_got s ++ ds))
  | k_clnt_close s : sstep s (clnt_Close s)
  | k_srv_close s : dv_pc (k_srv s) <> SHandshake -> sstep s (srv_Close s).

(** ** The server and its connections *)

(** [RPCSrv]: the connections in the order they were made, and how many [listen] has accepted.  It
    reads the first message of one before it accepts the next. *)
Record listener := mkListener { l_conns : list sock; l_next : nat }.

Inductive lstep : listener -> listener -> Prop :=
  | l_dial l name :
      fits (init_msg name) -> lstep l (mkListener (l_conns l ++ [getDmx name]) (l_next l))
  | l_accept l s e up :
      l_conns l !! l_next l = Some s -> handshake (k_up s) = Ret (Some (e, up)) ->
      lstep l (mkListener (<[l_next l := set_srv s up (k_down s) (mkDSrv (SReading e) (dv_closed (k_srv s))) (k_working s)]> (l_conns l))
                 (S (l_next l)))
  | l_conn l i s s' :
      l_conns l !! i = Some s -> sstep s s' -> lstep l (mkListener (<[i := s']> (l_conns l)) (l_next l)).

Definition NewRPCSrv : listener := mkListener [] 0.
End sock.

(** ** Lemmas: streams *)

Lemma read_full_short n : forall s, (String.length s < n)%nat -> read_full n s = None.
Proof.
  induction n as [|n IH]; intros [|c s] Hs; simpl in *; [lia|lia|done|]. by rewrite IH by lia.
Qed.

Section streams.
  Context `{Codec msg}.

Definition frames (ms : list msg) : string := concat_strings (WriteCall <$> ms).

Lemma frames_cons m ms : frames (m :: ms) = WriteCall m +:+ frames ms.
Proof. apply concat_strings_cons. Qed.

Lemma frames_snoc ms m : frames (ms ++ [m]) = frames ms +:+ WriteCall m.
Proof.
  induction ms as [|m' ms IH]; [unfold frames; simpl; by rewrite concat_strings_cons, string_app_nil_r|].
  change ((m' :: ms) ++ [m]) with (m' :: (ms ++ [m])). by rewrite !frames_cons, IH, string_app_assoc.
Qed.

(** A part of a frame is no message. *)
Lemma ReadCall_part m p q :
  fits m -> WriteCall m = p +:+ q -> q <> ""%string -> exists e, ReadCall p = Ret (inl e).
Proof.
  intros Hf E Hq. unfold WriteCall, put_uint32 in E. unfold fits in Hf. rewrite u32_small in E by lia.
  rewrite !string_cons_app, string_nil_app in E.
  destruct p as [|c0 [|c1 [|c2 [|c3 p]]]]; [by eexists..|].
  rewrite !string_cons_app in E. injection E as <- <- <- <- Eb. unfold ReadCall. rewrite get_put_uint32 by lia.
  rewrite Nat2Z.id, Eb, string_length_app, read_full_short; [by eexists|].
  destruct q; [done|simpl; lia].
Qed.

(** The stream holds the frames of [ms]; if it is not open, a part of a frame may follow. *)
Definition carries (st : stream) (ms : list msg) : Prop :=
  Forall fits ms
  /\ exists p, s_data st = frames ms +:+ p
       /\ (p = ""%string \/ s_open st = false /\ exists m q, fits m /\ WriteCall m = p +:+ q /\ q <> ""%string).

Lemma carries_write m st st' ms :
  fits m -> carries st ms -> wrote m st st' -> carries st' (ms ++ [m]) \/ carries st' ms.
Proof.
  intros Hm (Hms&p&E&Hp) Hw. destruct Hw as [d|d p' q Ew Hq|d]; simpl in *.
  - left. destruct Hp as [->|[? _]]; [|done]. split; [by apply Forall_app_2; [|apply Forall_singleton]|].
    exists ""%string. split; [|by left]. simpl. by rewrite E, frames_snoc, !string_app_nil_r.
  - right. destruct Hp as [->|[? _]]; [|done]. split; [done|]. exists p'. simpl.
    rewrite E, string_app_nil_r. split; [done|]. right. split; [done|]. by exists m, q.
  - right. split; [done|]. by exists p.
Qed.

Lemma carries_shut st ms : carries st ms -> carries (shut st) ms.
Proof. intros (Hms&p&E&Hp). split; [done|]. exists p. split; [done|]. naive_solver. Qed.

Lemma carries_next st m ms :
  carries st (m :: ms) ->
  exists rest, ReadCall (s_data st) = Ret (inr (m, rest)) /\ carries (mkStream rest (s_open st)) ms.
Proof.
  intros (Hms&p&E&Hp). apply list.Forall_cons in Hms as [Hm Hms]. exists (frames ms +:+ p).
  rewrite E, frames_cons, string_app_assoc, ReadCall_WriteCall by done. split; [done|]. split; [done|]. by exists p.
Qed.

Lemma carries_none st : carries st [] -> exists e, ReadCall (s_data st) = Ret (inl e).
Proof.
  intros (_&p&E&Hp). change (frames []) with ""%string in E. rewrite string_nil_app in E. rewrite E.
  destruct Hp as [->|(_&m&q&Hm&Ew&Hq)]; [by eexists|by eapply ReadCall_part].
Qed.

(** What is read was carried. *)
Lemma carries_read st ms m rest :
  carries st ms -> ReadCall (s_data st) = Ret (inr (m, rest)) ->
  exists ms', ms = m :: ms' /\ carries (mkStream rest (s_open st)) ms'.
Proof.
  intros Hc Hr. destruct ms as [|m' ms]; [destruct (carries_none _ Hc) as [e E]; congruence|].
  destruct (carries_next _ _ _ Hc) as (rest'&E&Hc'). rewrite E in Hr. injection Hr as -> ->. by exists ms.
Qed.
End streams.

(** ** Lemmas: the connection refines the queues of messages *)

Section refine.
  Context `{Codec msg} `{Codec RPCArgs} `{Codec InitMsg}.
  Context (dispatches : string -> string -> bytes -> bytes * bool -> Prop).

Definition request (q : Z * bytes) : msg := mkMsg q.1 q.2 true.
Definition response (q : Z * (bytes * bool)) : msg := mkMsg q.1 q.2.1 q.2.2.

(** The server's side of the abstraction: what is on the way to it, by where it is. *)
Definition up_carries (s : sock) (q : list (Z * bytes)) : Prop :=
  match dv_pc (k_srv s) with
  | SHandshake => carries (k_up s) (init_msg (k_name s) :: (request <$> q))
  | SReading e => e = k_name s /\ carries (k_up s) (request <$> q)
  | SStopped e => e = k_name s
  end.

Record abstracts (s : sock) (c : conn) : Prop := {
  ab_clnt : clnt c = k_clnt s;
  ab_working : working c = k_working s;
  ab_reader : reader c = k_reader s;
  ab_sent : sent c = Marshall <$> k_sent s;
  ab_got : got c = k_got s;
  ab_up : up_carries s (c2s c);
  ab_down : k_reader s = true -> carries (k_down s) (response <$> s2c c);
  ab_requests : Forall (fun q : Z * bytes => exists a : RPCArgs, q.2 = Marshall a) (c2s c ++ working c);
}.

Lemma abstracts_init name : fits (init_msg name) -> abstracts (getDmx name) conn_init.
Proof.
  intros Hf. split; simpl; [done..| | |constructor].
  - split; [by apply Forall_singleton|]. exists ""%string. split; [|by left]. simpl. unfold frames. simpl.
    by rewrite concat_strings_cons, !string_app_nil_r.
  - intros _. split; [constructor|]. exists ""%string. split; [done|by left].
Qed.

(** A request on its way. *)
Lemma up_carries_write s t b up q :
  up_carries s q -> fits (mkMsg t b true) -> wrote (mkMsg t b true) (k_up s) up ->
  exists written : bool, forall dmx sent got, up_carries (set_clnt s dmx up sent got) (if written then q ++ [(t, b)] else q).
Proof.
  unfold up_carries. simpl. intros Hc Hf Hw. destruct (dv_pc (k_srv s)) as [|e|e].
  - destruct (carries_write _ _ _ _ Hf Hc Hw) as [Hc'|Hc']; [exists true|by exists false].
    by rewrite fmap_app.
  - destruct Hc as [He Hc]. destruct (carries_write _ _ _ _ Hf Hc Hw) as [Hc'|Hc']; [exists true|by exists false].
    by rewrite fmap_app.
  - by exists true.
Qed.

Lemma up_carries_shut s dmx srv w sent got q :
  dv_pc srv = dv_pc (k_srv s) ->
  up_carries s q -> up_carries (mkSock (k_name s) dmx (shut (k_up s)) (shut (k_down s)) srv w (k_reader s) sent got) q.
Proof.
  unfold up_carries. simpl. intros ->. destruct (dv_pc (k_srv s)) as [|e|e]; [apply carries_shut| |done].
  intros [? ?]. split; [done|by apply carries_shut].
Qed.

(** One step of the connection is one step of the queues, or none. *)
Lemma sstep_refines s s' c :
  abstracts s c -> sstep dispatches s s' ->
  k_name s' = k_name s /\ exists c', rtc (dstep (serves dispatches (k_name s))) c c' /\ abstracts s' c'.
Proof.
  intros [A1 A2 A3 A4 A5 A6 A7 A8] Hs.
  destruct Hs as [s a dmx t up Hsend Hf Hw|s a dmx Hsend|s e m rest Hpc Hr|s e x Hpc Ho Hr|s e Hpc Ho
                 |s e t b l1 l2 r down Hpc Hwk Hserve Hf Hw|s m rest dmx d Hrd Hr Hd|s dmx ds Hrd Ho Hfails|s|s Hpc].
  - split; [done|]. destruct (up_carries_write _ _ _ _ _ A6 Hf Hw) as [written Hup].
    eexists. split.
    + apply rtc_once, (d_send _ c (Marshall a) written dmx t). by rewrite A1, A4, length_fmap.
    + split; simpl; [done|done|done| |done|apply Hup|done|].
      * by rewrite A4, fmap_app.
      * apply Forall_app in A8 as [Hc Hwo]. apply Forall_app_2; [|done]. destruct written; [|done].
        apply Forall_app_2; [done|]. apply Forall_singleton. by exists a.
  - split; [done|]. eexists. split.
    + apply rtc_once, (d_send_closed _ c (Marshall a) dmx). by rewrite A1, A4, length_fmap.
    + split; simpl; [done|done|done| | |done|done|done]; [by rewrite A4, fmap_app|by rewrite A5, A4, length_fmap].
  - split; [done|]. unfold up_carries in A6. rewrite Hpc in A6. destruct A6 as [-> Hc].
    destruct (carries_read _ _ _ _ Hc Hr) as (ms'&E&Hc').
    destruct (c2s c) as [|[t b] q] eqn:Eq; [done|]. injection E as <- <-. eexists. split.
    + apply rtc_once. by apply (d_serve _ c t b q).
    + split; simpl; [done|by rewrite A2|done|done|done| |done|].
      * unfold up_carries. simpl. by rewrite Hpc.
      * rewrite <-app_comm_cons, list.Forall_cons, Forall_app in A8. rewrite !Forall_app, Forall_singleton. tauto.
  - split; [done|]. exists c. split; [constructor|]. unfold up_carries in A6. rewrite Hpc in A6. destruct A6 as [-> _].
    split; [done..|done|done|done].
  - split; [done|]. exists c. split; [constructor|]. unfold up_carries in A6. rewrite Hpc in A6. destruct A6 as [-> _].
    split; [done..|done|done|done].
  - split; [done|].
    assert (e = k_name s) as ->.
    { unfold up_carries in A6. destruct Hpc as [E|E]; rewrite E in A6; [by destruct A6|done]. }
    assert (Forall (fun q : Z * bytes => exists a : RPCArgs, q.2 = Marshall a) (c2s c ++ l1 ++ l2)) as A8'.
    { rewrite A2, Hwk, !Forall_app, list.Forall_cons in A8. rewrite !Forall_app. tauto. }
    destruct (k_reader s) eqn:Erd; simpl.
    + destruct (carries_write _ _ _ _ Hf (A7 eq_refl) Hw) as [Hc'|Hc'].
      * eexists. split; [apply rtc_once, (d_answer _ c t b l1 l2 r); [by rewrite A2|done]|].
        split; simpl; [done..|by rewrite Erd|done|done|done| |done]. by rewrite fmap_app.
      * eexists. split; [apply rtc_once, (d_answer_lost _ c t b l1 l2); by rewrite A2|].
        split; simpl; [done..|by rewrite Erd|done|done|done|done|done].
    + eexists. split; [apply rtc_once, (d_answer_lost _ c t b l1 l2); by rewrite A2|].
      split; simpl; [done..|by rewrite Erd|done|done|done| |done]. by rewrite Erd.
  - split; [done|]. destruct (carries_read _ _ _ _ (A7 Hrd) Hr) as (ms'&E&Hc').
    destruct (s2c c) as [|[t r] q] eqn:Eq; [done|]. injection E as <- <-. eexists. split.
    + apply rtc_once. apply (d_receive _ c t r q dmx d); [by rewrite A3|done|by rewrite A1].
    + split; simpl; [done..|by rewrite A5|done|done|done].
  - split; [done|]. eexists. split.
    + apply rtc_once. apply (d_reader_fails _ c dmx ds); [by rewrite A3|by rewrite A1].
    + split; simpl; [done..|by rewrite A5|done|done|done].
  - unfold clnt_Close. destruct (isClosed _); [split; [done|]; exists c; split; [constructor|by split]|].
    split; [done|]. eexists. split; [apply rtc_once, d_close|].
    split; simpl; [by rewrite A1|done..| | |done]; [by apply up_carries_shut|]. intros Hrd. by apply carries_shut, A7.
  - unfold srv_Close, setClosed. simpl. split; [by destruct (dv_closed _)|]. exists c. split; [constructor|].
    destruct (dv_closed (k_srv s)).
    + split; [done..|done|done|done].
    + split; simpl; [done..|by apply up_carries_shut| |done]. intros Hrd. by apply carries_shut, A7.
Qed.

(** The server has read the name of the client. *)
Lemma accept_refines s c :
  abstracts s c -> dv_pc (k_srv s) = SHandshake ->
  exists up, handshake (k_up s) = Ret (Some (k_name s, up))
    /\ abstracts (set_srv s up (k_down s) (mkDSrv (SReading (k_name s)) (dv_closed (k_srv s))) (k_working s)) c.
Proof.
  intros [A1 A2 A3 A4 A5 A6 A7 A8] Hpc. unfold up_carries in A6. rewrite Hpc in A6.
  destruct (carries_next _ _ _ A6) as (rest&E&Hc). exists (mkStream rest (s_open (k_up s))).
  unfold handshake. rewrite E. run_go. unfold init_msg. cbn [Data]. rewrite codec_round_trip. simpl. split; [done|].
  by split.
Qed.

(** Every connection is a run of the queues of messages; those that [listen] has not accepted are
    before their first message. *)
Definition linv (l : listener) : Prop :=
  (l_next l <= length (l_conns l))%nat
  /\ forall i s, l_conns l !! i = Some s ->
    (dv_pc (k_srv s) = SHandshake <-> (l_next l <= i)%nat)
    /\ exists c, rtc (dstep (serves dispatches (k_name s))) conn_init c /\ abstracts s c.

Lemma sstep_pc s s' : sstep dispatches s s' -> dv_pc (k_srv s') = SHandshake <-> dv_pc (k_srv s) = SHandshake.
Proof.
  destruct 1 as [| |s e m rest Hpc|s e x Hpc|s e Hpc| | | |s|s]; simpl; rewrite ?Hpc; try done.
  - unfold clnt_Close. by destruct (isClosed _).
  - unfold srv_Close, setClosed. simpl. by destruct (dv_closed _).
Qed.

Lemma lst_inv_step l l' : linv l -> lstep dispatches l l' -> linv l'.
Proof.
  intros [Hn Hl] Hs. destruct Hs as [l name Hf|l s e up Hi Hh|l i s s' Hi Hs]; (split; simpl in *; [|intros j sj Hj]).
  - rewrite length_app. lia.
  - apply lookup_app_Some in Hj as [Hj|[Hlen Hj]]; [by apply Hl|].
    apply list_lookup_singleton_Some in Hj as [Hj <-].
    split; [|exists conn_init; split; [constructor|by apply abstracts_init]]. simpl. split; [intros _; lia|done].
  - rewrite length_insert. apply lookup_lt_Some in Hi. lia.
  - apply list_lookup_insert_Some in Hj as [(<-&<-&_)|[Hne Hj]].
    + destruct (Hl _ _ Hi) as [Hpc (c&Hr&Ha)]. destruct (accept_refines s c Ha) as (up'&E&Ha'); [apply Hpc; lia|].
      rewrite E in Hh. injection Hh as <- <-. split; [simpl; split; [done|lia]|]. by exists c.
    + destruct (Hl _ _ Hj) as [Hpc Hc]. split; [|done]. rewrite Hpc. lia.
  - by rewrite length_insert.
  - apply list_lookup_insert_Some in Hj as [(<-&<-&_)|[Hne Hj]]; [|by apply Hl].
    destruct (Hl _ _ Hi) as [Hpc (c&Hr&Ha)]. split; [by rewrite (sstep_pc _ _ Hs)|].
    destruct (sstep_refines _ _ _ Ha Hs) as (->&c'&Hr'&Ha'). exists c'. split; [by etrans|done].
Qed.

Lemma linv_reach l : rtc (lstep dispatches) NewRPCSrv l -> linv l.
Proof.
  intros Hr. assert (linv NewRPCSrv) as Hi by (split; [simpl; lia|done]). revert Hi.
  induction Hr as [|l1 l2 l3 Hs _ IH]; [done|]. intros Hi. apply IH. by eapply lst_inv_step.
Qed.
End refine.

(** ** Lemmas: no caller is forgotten *)

Lemma deliver_all_delivers ts r : forall dmx dmx' ds,
  deliver_all ts r dmx = Ret (dmx', ds) ->
  closed (callmap dmx') = closed (callmap dmx)
  /\ (forall t, t ∈ ts -> calls (callmap dmx') !! t = None)
  /\ forall t ch, calls (callmap dmx) !! t = Some ch -> calls (callmap dmx') !! t = Some ch \/ (ch, r) ∈ ds.
Proof.
  induction ts as [|t0 ts IH]; intros dmx dmx' ds E; simpl in E.
  { injection E as <- <-. split; [done|]. split; [by intros t Ht%elem_of_nil|auto]. }
  destruct (deliver t0 r dmx) as [[dmx1 [ch1 r1]]|] eqn:E1; [|done]. simpl in E.
  destruct (deliver_all ts r dmx1) as [[dmx2 ds2]|] eqn:E2; [|done]. simpl in E. injection E as <- <-.
  destruct (IH _ _ _ E2) as (Hcl&Hnone&Hall). destruct (deliver_all_Ret _ _ _ _ _ E2) as (_&Hsub&_).
  assert (closed (callmap dmx1) = closed (callmap dmx)) as Hcl1.
  { unfold deliver, remove in E1. destruct (calls (callmap dmx) !! t0); by simplify_eq/=. }
  destruct (deliver_Ret _ _ _ _ _ _ E1) as (->&Hch&_&Hc). split; [congruence|]. split.
  - intros t [->|Ht]%elem_of_cons; [|by apply Hnone]. destruct (calls (callmap dmx2) !! t0) eqn:Ex; [|done].
    apply (lookup_weaken _ (calls (callmap dmx1))) in Ex; [|done]. by rewrite Hc, lookup_delete_eq in Ex.
  - intros t ch Ht. destruct (decide (t = t0)) as [->|Hne]; [right; rewrite Hch in Ht; injection Ht as ->; by left|].
    destruct (Hall t ch) as [?|?]; [by rewrite Hc, lookup_delete_ne|by left|right; by right].
Qed.

(** The end of the reader never meets a missing entry. *)
Lemma deliver_all_returns ts r : forall dmx,
  NoDup ts -> (forall t, t ∈ ts -> is_Some (calls (callmap dmx) !! t)) ->
  exists dmx' ds, deliver_all ts r dmx = Ret (dmx', ds).
Proof.
  induction ts as [|t ts IH]; intros dmx Hnd Hin; [by do 2 eexists|]. apply list.NoDup_cons in Hnd as [Hn Hnd].
  destruct (Hin t ltac:(by left)) as [ch Hch]. simpl. unfold deliver, remove. rewrite Hch. run_go.
  destruct (IH (mkClnt (mkCallMap (closed (callmap dmx)) (delete t (calls (callmap dmx)))) (nextTag dmx))) as (dmx'&ds&->);
    [done| |by do 2 eexists].
  intros t' Ht'. simpl. rewrite lookup_delete_ne by (by intros ->). apply Hin. by right.
Qed.

Lemma reader_fails_returns dmx : exists dmx' ds, reader_fails dmx = Ret (dmx', ds).
Proof.
  unfold reader_fails. apply deliver_all_returns; unfold outstanding; simpl.
  - apply NoDup_fst_map_to_list.
  - intros t ([t' ch]&->&Hin)%list_elem_of_fmap. apply elem_of_map_to_list in Hin. by exists ch.
Qed.

Section waiting.
  Context (serves : bytes -> bytes * bool -> Prop).

(** Every caller waits or has its answer; none waits after the end of the reader. *)
Definition winv (c : conn) : Prop :=
  (forall ch, (ch < length (sent c))%nat -> (exists t, calls (callmap (clnt c)) !! t = Some ch) \/ exists r, (ch, r) ∈ got c)
  /\ (reader c = false -> calls (callmap (clnt c)) = ∅ /\ closed (callmap (clnt c)) = true).

(** Nothing that waits is lost when the table and the answers grow. *)
Lemma winv_step c c' :
  dinv serves c -> winv c -> dstep serves c c' -> winv c'.
Proof.
  intros (Hn&Hc&_&_) [Hw He] Hs.
  destruct Hs as [c b written dmx t Hs|c b dmx Hs|c t b rest Es|c t b l1 l2 r Ew Hsrv|c t b l1 l2 Ew
                 |c t r rest dmx [ch r'] Hr Es Hd|c dmx ds Hr Hd|c].
  - destruct (send_Some _ _ _ _ Hs) as (->&_&Ec). split; simpl.
    + intros ch Hch. rewrite Ec. rewrite length_app in Hch. simpl in Hch.
      destruct (decide (ch = length (sent c))) as [->|]; [left; eexists; apply lookup_insert_eq|].
      destruct (Hw ch ltac:(lia)) as [[t Ht]|?]; [left|by right]. exists t. destruct (Hc t ch Ht).
      by rewrite lookup_insert_ne by lia.
    + intros Hr. destruct (He Hr) as [_ Hcl]. unfold send, put in Hs. simpl in Hs. by rewrite Hcl in Hs.
  - destruct (send_None _ _ _ Hs) as [_ Ec]. split; simpl.
    + intros ch Hch. rewrite Ec. rewrite length_app in Hch. simpl in Hch.
      destruct (decide (ch = length (sent c))) as [->|]; [right; eexists; apply elem_of_app; right; by left|].
      destruct (Hw ch ltac:(lia)) as [?|[r ?]]; [by left|right; exists r; set_solver].
    + intros Hr. rewrite Ec. destruct (He Hr) as [E Hcl]. split; [done|].
      unfold send, put in Hs. simpl in Hs. rewrite Hcl in Hs. by injection Hs as <-.
  - done.
  - done.
  - done.
  - destruct (deliver_Ret _ _ _ _ _ _ Hd) as (->&Ht&_&Ec). split; simpl; [|done]. intros ch' Hch.
    destruct (Hw ch' Hch) as [[t' Ht']|[r' ?]]; [|right; exists r'; set_solver].
    destruct (decide (t' = t)) as [->|]; [right; eexists; rewrite Ht in Ht'; injection Ht' as ->; apply elem_of_app; right; by left|].
    left. exists t'. by rewrite Ec, lookup_delete_ne.
  - unfold reader_fails in Hd. destruct (deliver_all_delivers _ _ _ _ _ Hd) as (Hcl&Hnone&Hall).
    destruct (deliver_all_Ret _ _ _ _ _ Hd) as (_&Hsub&_). simpl in *.
    assert (calls (callmap dmx) = ∅) as Hemp.
    { apply map_eq. intros t. rewrite lookup_empty. destruct (calls (callmap dmx) !! t) as [ch|] eqn:Et; [|done].
      rewrite <-(Hnone t); [done|]. apply list_elem_of_fmap. exists (t, ch). split; [done|].
      apply elem_of_map_to_list. by eapply lookup_weaken. }
    split; simpl; [|done]. intros ch Hch. right.
    destruct (Hw ch Hch) as [[t Ht]|[r ?]]; [|exists r; set_solver].
    destruct (Hall t ch Ht) as [Ht'|?]; [by rewrite Hemp in Ht'|]. eexists. apply elem_of_app. by right.
  - split; simpl; [done|]. intros Hr. destruct (He Hr). done.
Qed.

Lemma winv_reach c :
  rtc (dstep serves) conn_init c -> Z.of_nat (length (sent c)) + 1 < 2 ^ 32 -> winv c.
Proof.
  intros Hr. assert (winv conn_init) as Hw by (split; simpl; [lia|done]). pose proof (dinv_init serves) as Hd. revert Hw Hd.
  induction Hr as [|c1 c2 c3 H12 H23 IH]; [done|]. intros Hw Hd Hb.
  assert (length (sent c2) <= length (sent c3))%nat.
  { clear -H23. induction H23 as [|x y z Hxy _ IH]; [done|]. apply dstep_sent in Hxy. lia. }
  apply IH; [by eapply winv_step|eapply dinv_step; [done..|lia]|done].
Qed.
End waiting.

(** ** Properties *)

Lemma dial_from_spec accepts n : forall i,
  match dial_from i n accepts with
  | Some j => (i <= j < i + n)%nat /\ accepts j = true /\ forall k, (i <= k < j)%nat -> accepts k = false
  | None => forall k, (i <= k < i + n)%nat -> accepts k = false
  end.
Proof.
  induction n as [|n IH]; intros i; simpl; [lia|]. destruct (accepts i) eqn:E.
  - split; [lia|]. split; [done|lia].
  - specialize (IH (S i)). destruct (dial_from (S i) n accepts) as [j|].
    + destruct IH as (?&?&Hk). split; [lia|]. split; [done|]. intros k Hk'.
      destruct (decide (k = i)) as [->|]; [done|]. apply Hk. lia.
    + intros k Hk. destruct (decide (k = i)) as [->|]; [done|]. apply IH. lia.
Qed.

(** Sockets of different ends have different names. *)
Lemma SockName_inj e1 e2 : SockName e1 = SockName e2 -> e1 = e2.
Proof. apply string_app_inj_l. Qed.

Section properties.
  Context `{Codec msg} `{Codec RPCArgs} `{Codec InitMsg}.
  Context (dispatches : string -> string -> bytes -> bytes * bool -> Prop).

(** C14: calls over sockets, from the bytes up.  Any number of clients dial a server, send calls
    concurrently and are answered in any order; connections are cut in the middle of a frame or closed
    at either end.  In every run, an answer without error that a client receives is one that
    [Dispatch] gave to the method and the arguments of that call, under the name the client
    gave; no request fails to decode, no response is without a request, and no first message ends
    the server. *)
Theorem socket_calls_answered l i s :
  rtc (lstep dispatches) NewRPCSrv l -> l_conns l !! i = Some s -> Z.of_nat (length (k_sent s)) + 1 < 2 ^ 32 ->
  (forall ch r, (ch, r) ∈ k_got s -> err r = false ->
     exists a, k_sent s !! ch = Some a /\ dispatches (k_name s) (r_Method a) (r_Args a) (RPC_result r))
  /\ (forall t b, (t, b) ∈ k_working s -> exists a : RPCArgs, Unmarshall b = Some a)
  /\ (k_reader s = true -> forall m rest, ReadCall (s_data (k_down s)) = Ret (inr (m, rest)) ->
        exists d, deliver (Tag m) (mkReply (Data m) (Ok m) false) (k_clnt s) = Ret d)
  /\ (i = l_next l -> exists up, handshake (k_up s) = Ret (Some (k_name s, up))).
Proof.
  intros [_ Hl]%linv_reach Hi Hb. destruct (Hl i s Hi) as [Hpc (c&Hr&Ha)].
  destruct Ha as [A1 A2 A3 A4 A5 A6 A7 A8] eqn:EA; clear EA.
  assert (dinv (serves dispatches (k_name s)) c) as (_&_&Hg&Hf).
  { apply (dinv_steps _ _ _ Hr (dinv_init _)). by rewrite A4, length_fmap. }
  split; [|split; [|split]].
  - intros ch r Hin He. rewrite <-A5 in Hin. destruct (Hg ch r Hin He) as (b&Hb'&Hs).
    rewrite A4, list_lookup_fmap in Hb'. destruct (k_sent s !! ch) as [a|]; [|done]. injection Hb' as <-.
    exists a. split; [done|]. unfold serves in Hs. rewrite codec_round_trip in Hs. unfold RPC_result. by rewrite He.
  - intros t b Hin. rewrite list.Forall_forall in A8. destruct (A8 (t, b)) as [a E]; [rewrite A2; set_solver|].
    simpl in E. exists a. rewrite E. apply codec_round_trip.
  - intros Hrd m rest Hm. destruct (carries_read _ _ _ _ (A7 Hrd) Hm) as (ms'&E&_).
    destruct (s2c c) as [|[t r] q] eqn:Eq; [done|]. injection E as <- <-. rewrite A3 in Hf.
    destruct (Hf Hrd) as (_&_&H3). destruct (H3 t r) as (b&(ch&Hch&_)&_); [set_solver +|].
    rewrite A1 in Hch. unfold deliver, remove. simpl. rewrite Hch. by eexists.
  - intros ->. destruct (accept_refines s c) as (up&E&_); [by split|by apply Hpc|]. by exists up.
Qed.

(** C29: no caller hangs on a lost connection.  When nothing will follow on the stream from
    the server, the client's reader can come to its end; after it, every call that was made has been
    answered, and each further call fails at once. *)
Theorem no_caller_hangs l i s :
  rtc (lstep dispatches) NewRPCSrv l -> l_conns l !! i = Some s -> Z.of_nat (length (k_sent s)) + 1 < 2 ^ 32 ->
  (k_reader s = true -> s_open (k_down s) = false ->
     exists s', sstep dispatches s s' /\ k_reader s' = false /\ k_sent s' = k_sent s)
  /\ (k_reader s = false ->
        (forall ch, (ch < length (k_sent s))%nat -> exists r, (ch, r) ∈ k_got s)
        /\ forall ch, (send ch (k_clnt s)).2 = None).
Proof.
  intros [_ Hl]%linv_reach Hi Hb. destruct (Hl i s Hi) as [_ (c&Hr&[A1 A2 A3 A4 A5 A6 A7 A8])]. split.
  - intros Hrd Ho. destruct (reader_fails_returns (k_clnt s)) as (dmx&ds&E). eexists. split; [by eapply k_fail|done].
  - intros Hrd. destruct (winv_reach _ c Hr) as [Hw He]; [by rewrite A4, length_fmap|].
    rewrite A3, A1 in He. destruct (He Hrd) as [Hemp Hcl]. split.
    + intros ch Hch. rewrite <-A5. rewrite A4, length_fmap, A1 in Hw. destruct (Hw ch Hch) as [[t Ht]|?]; [|done].
      by rewrite Hemp in Ht.
    + intros ch. unfold send, put. simpl. by rewrite Hcl.
Qed.

(** A client that dies while it sends its first message ends the server, with the connections of
    all others: the accept loop takes the end of the stream for fatal. *)
Theorem cut_handshake_fatal name p q :
  fits (init_msg name) -> WriteCall (init_msg name) = p +:+ q -> q <> ""%string ->
  handshake (mkStream p false) = Crash Fatal /\ handshake (mkStream p true) = Ret None.
Proof.
  intros Hf E Hq. destruct (ReadCall_part _ p q Hf E Hq) as [e Er]. unfold handshake. simpl. rewrite Er. done.
Qed.
End properties.

(** *** Concrete runs *)

#[local] Instance InitMsg_eq_dec : EqDecision InitMsg.
Proof. solve_decision. Defined.

#[local] Instance InitMsg_countable : Countable InitMsg.
Proof. refine (inj_countable' Clnt mkInitMsg _). by intros []. Defined.

#[local] Instance init_codec : Codec InitMsg := bits_codec.
#[local] Existing Instance msg_codec.
#[local] Existing Instance RPCArgs_codec.

(** A server that answers with the name of the client. *)
Definition whoami (e method : string) (args : bytes) (r : bytes * bool) : Prop := r = (e, true).

Definition hello : RPCArgs := mkRPCArgs "m" "".

Ltac run_step := vm_compute; reflexivity.

(** A client dials, calls, and is answered; another one has only dialed. *)
Definition answered_once (s : sock) : Prop :=
  k_name s = "A"%string /\ k_sent s = [hello] /\ k_got s = [(0%nat, mkReply "A" true false)].

Lemma one_call_run :
  exists l s, rtc (lstep whoami) NewRPCSrv l /\ l_conns l !! 0%nat = Some s /\ answered_once s /\ l_next l = 1%nat.
Proof.
  do 2 eexists. split_and!.
  - eapply rtc_l; [apply (l_dial _ _ "A"); run_step|].
    eapply rtc_l; [apply (l_dial _ _ "B"); run_step|].
    eapply rtc_l; [eapply l_accept; run_step|].
    eapply rtc_l; [eapply (l_conn _ _ 0); [run_step|eapply (k_send _ _ hello); [run_step|run_step|apply w_all]]|].
    eapply rtc_l; [eapply (l_conn _ _ 0); [run_step|eapply k_read; run_step]|].
    eapply rtc_l; [eapply (l_conn _ _ 0); [run_step|eapply (k_answer _ _ "A" 1 _ [] [] ("A"%string, true));
      [left; run_step|run_step|run_step|run_step|apply w_all]]|].
    eapply rtc_l; [eapply (l_conn _ _ 0); [run_step|eapply k_receive; run_step]|].
    apply rtc_refl.
  - run_step.
  - vm_compute. done.
  - run_step.
Qed.

Lemma socket_calls_answered_witness :
  exists s r, k_got s = [(0%nat, r)] /\ exists a, k_sent s !! 0%nat = Some a /\ whoami (k_name s) (r_Method a) (r_Args a) (RPC_result r).
Proof.
  destruct one_call_run as (l&s&Hr&Hi&(En&Es&Eg)&_).
  destruct (socket_calls_answered whoami l 0 s Hr Hi) as [Hg _].
  - rewrite Es. simpl. lia.
  - exists s, (mkReply "A" true false). split; [exact Eg|]. apply Hg; [|reflexivity].
    rewrite Eg. apply list_elem_of_In. left. reflexivity.
Defined.

(** The client closes its end with a call outstanding; its reader ends. *)
Definition hung_up (s : sock) : Prop := k_sent s = [hello] /\ k_reader s = false.

Lemma hang_up_run :
  exists l s, rtc (lstep whoami) NewRPCSrv l /\ l_conns l !! 0%nat = Some s /\ hung_up s.
Proof.
  do 2 eexists. split_and!.
  - eapply rtc_l; [apply (l_dial _ _ "A"); run_step|].
    eapply rtc_l; [eapply (l_conn _ _ 0); [run_step|eapply (k_send _ _ hello); [run_step|run_step|apply w_all]]|].
    eapply rtc_l; [eapply (l_conn _ _ 0); [run_step|apply k_clnt_close]|].
    eapply rtc_l; [eapply (l_conn _ _ 0); [run_step|eapply k_fail; run_step]|].
    apply rtc_refl.
  - run_step.
  - vm_compute. done.
Qed.

Lemma no_caller_hangs_witness :
  exists s r, hung_up s /\ (0%nat, r) ∈ k_got s.
Proof.
  destruct hang_up_run as (l&s&Hr&Hi&(Es&Erd)).
  destruct (no_caller_hangs whoami l 0 s Hr Hi) as [_ Hall].
  - rewrite Es. simpl. lia.
  - destruct (Hall Erd) as [Hg _]. destruct (Hg 0%nat) as [r Hin]; [rewrite Es; simpl; lia|].
    exists s, r. split; [split; [exact Es|exact Erd]|exact Hin].
Defined.
