(* ===== verification/RaftDrive.v ===== *)
(** * Driving a Raft test

    The rest of [src/src/raft1/test.go] (making a test, killing and restarting servers, waiting for a
    commit), the proxies of [src/src/raft1/proxy.go], and the crash tests of
    [src/src/kvraft1/test.go].  Here the tester's configuration, the annotations of the
    timeline and the tester's own records come together; the theorems say that they keep
    telling the same story. *)

From S2P Require Import Prelude Annotation Labrpc RaftTest TesterGroup TesterConfig.
Local Open Scope Z_scope.

(** ** Proxies *)

(** [Rfproxy]: when the call fails, the zero reply. *)
Definition proxy_GetState (reply : option (Z * bool)) : Z * bool := default (0, false) reply.
Definition proxy_Start (reply : option (Z * Z * bool)) : Z * Z * bool := default (0, 0, false) reply.

(** [TesterProxy]: calls from a server to the tester; [up] tells whether they arrive. *)
Section tester_proxy.
  Context {V : Type} `{EqDecision V}.

(** The error is a string; [None] is the empty one. *)
Inductive check_err := ErrRPC | Reported (e : apply_err V).

Definition proxy_CheckLogs (up : bool) (i : nat) (m : ApplyMsg V) (ts : Test V)
    : go (Test V * (option check_err * bool)) :=
  if up then r ← CheckLogs i m ts; Ret (r.1, (option_map Reported r.2.1, r.2.2))
  else Ret (ts, (Some ErrRPC, false)).

Definition proxy_IngestLog (up : bool) (i : nat) (log : gmap Z (option V)) (ts : Test V) : go (Test V) :=
  if up then IngestLog i log ts else Ret ts.

Definition proxy_ApplyErr (up : bool) (i : nat) (err : apply_err V) (ts : Test V) : go (Test V) :=
  if up then ApplyErr i err ts else Ret ts.

(** ** [wait] *)

(** One turn: the tester's records when it counts, and what the servers answer to [GetState]
    afterwards; [None] is a server that was killed, whose proxy is nil. *)
Record wait_turn := mkTurn { w_test : Test V; w_states : list (option (Z * bool)) }.

(** Whether a server has moved on to a later term. *)
Fixpoint moved_on (startTerm : Z) (states : list (option (Z * bool))) : go bool :=
  match states with
  | [] => Ret false
  | None :: _ => Crash Panic
  | Some (t, _) :: rest => if decide (t > startTerm) then Ret true else moved_on startTerm rest
  end.

(** The answer -1, or a command. *)
Inductive wait_result := TermChanged | Committed (cmd : option V).

(** [turns] are the (at most thirty) turns of the loop; [final] the records at the end. *)
Fixpoint wait_turns (index n startTerm : Z) (turns : list wait_turn) : go bool :=
  match turns with
  | [] => Ret false
  | w :: rest =>
      '(nd, _) ← nCommitted index (w_test w);
      if decide (nd >= n) then Ret false
      else if decide (startTerm > -1) then
        m ← moved_on startTerm (w_states w);
        if (m : bool) then Ret true else wait_turns index n startTerm rest
      else wait_turns index n startTerm rest
  end.

Definition wait (index n startTerm : Z) (turns : list wait_turn) (final : Test V) : go wait_result :=
  changed ← wait_turns index n startTerm turns;
  if (changed : bool) then Ret TermChanged
  else
    '(nd, cmd) ← nCommitted index final;
    if decide (nd < n) then Crash Fatal else Ret (Committed cmd).
End tester_proxy.
Arguments wait_turn : clear implicits.
Arguments wait_result : clear implicits.

(** ** Killing and restarting *)

(** A slot of [ts.srvs]: nil, or whether the tester has a proxy ([rfsrv] is not nil) and what it
    knows of the server. *)
Abbreviation slot V := (option (bool * raftServer V)).

Section driver.
  Context {V : Type} `{EqDecision V}.

(** The configuration, the globals of the annotations, and the servers. *)
Record raft_test := mkRT { rt_cfg : Config; rt_st : tester_state; rt_srvs : list (slot V) }.

Definition mksrv (srv : nat) (l : list (slot V)) : go (list (slot V)) :=
  s ← index l srv;
  match s with
  | None => Ret (<[srv := Some (true, newRaftServer)]> l)
  | Some (_, rs) => Ret (<[srv := Some (true, rs)]> l)
  end.

Fixpoint mksrvs (srvs : list nat) (l : list (slot V)) : go (list (slot V)) :=
  match srvs with
  | [] => Ret l
  | srv :: rest => l ← mksrv srv l; mksrvs rest l
  end.

Definition makeTest (rnd : nat -> nat -> string) (st : start_env) (n : nat) (rel : bool) (now : Z)
    (an : tester_state) : go raft_test :=
  cfg ← MakeConfig rnd st n rel now;
  let cfg := SetLongDelays true cfg in
  l ← mksrvs (seq 0 n) (replicate n None);
  Ret (mkRT cfg an l).

(** What a test calls next: [AnnotateTest]. *)
Definition begin_test (now : Z) (desp : string) (n : nat) (ts : raft_test) : raft_test :=
  mkRT (rt_cfg ts) (AnnotateTest now desp n (rt_st ts)) (rt_srvs ts).

Fixpoint drop_proxies (srvs : list nat) (l : list (slot V)) : go (list (slot V)) :=
  match srvs with
  | [] => Ret l
  | srv :: rest =>
      s ← index l srv;
      match s with
      | None => Crash Panic
      | Some (_, rs) => drop_proxies rest (<[srv := Some (false, rs)]> l)
      end
  end.

Definition kill (t : Z) (srvs : list nat) (ts : raft_test) : go raft_test :=
  cfg ← on_group GRP0 (Kill srvs) (rt_cfg ts);
  st ← AnnotateShutdown t srvs (rt_st ts);
  l ← drop_proxies srvs (rt_srvs ts);
  Ret (mkRT cfg st l).

(** The loop of [restart]: a new proxy, then the server is connected. *)
Fixpoint reattach (srvs : list nat) (cfg : Config) (l : list (slot V)) : go (Config * list (slot V)) :=
  match srvs with
  | [] => Ret (cfg, l)
  | srv :: rest =>
      l ← mksrv srv l;
      cfg ← on_group GRP0 (ConnectOne srv) cfg;
      reattach rest cfg l
  end.

Definition restart (t : Z) (env : start_env) (srvs : list nat) (ts : raft_test) : go raft_test :=
  cfg ← on_group GRP0 (StartSrvs srvs env) (rt_cfg ts);
  st ← AnnotateRestart t srvs (rt_st ts);
  '(cfg, l) ← reattach srvs cfg (rt_srvs ts);
  Ret (mkRT cfg st l).

End driver.
Arguments raft_test : clear implicits.

(** [kvraft]'s tests kill and restart the whole group. *)
Definition killall (t : Z) (cfg : Config) (st : tester_state) : go (Config * tester_state) :=
  cfg ← on_group GRP0 Shutdown cfg;
  st ← AnnotateShutdownAll t st;
  Ret (cfg, st).

Definition restartall (t : Z) (env : start_env) (cfg : Config) (st : tester_state) : go (Config * tester_state) :=
  cfg ← on_group GRP0 (StartServers env) cfg;
  st ← AnnotateRestartAll t st;
  Ret (cfg, st).

(** The title of a kvraft test. *)
Definition makeTitle (crash partitions : bool) (maxraftstate : Z) (randomkeys : bool) (nclients : Z) (part : string)
    : string :=
  "Test: "
  +:+ (if crash then "restarts, " else "")
  +:+ (if partitions then "partitions, " else "")
  +:+ (if decide (maxraftstate <> -1) then "snapshots, " else "")
  +:+ (if randomkeys then "random keys, " else "")
  +:+ (if decide (nclients > 1) then "many clients" else "one client")
  +:+ " (" +:+ part +:+ ")".

(** The tests of the replicated state machine ([kvraft1/rsm/test.go]): their [kill] leaves the
    proxies alone, and their [restart] connects all servers. *)
Definition rsm_kill (t : Z) (srvs : list nat) (cfg : Config) (st : tester_state) : go (Config * tester_state) :=
  cfg ← on_group GRP0 (Kill srvs) cfg;
  st ← AnnotateShutdown t srvs st;
  Ret (cfg, st).

(** The new proxies replace the old ones; a proxy is known by its server. *)
Definition rsm_restart (t : Z) (env : start_env) (srvs : list nat) (cfg : Config) (st : tester_state)
    : go (Config * tester_state) :=
  cfg ← on_group GRP0 (StartSrvs srvs env) cfg;
  cfg ← on_group GRP0 ConnectAll cfg;
  st ← AnnotateRestart t srvs st;
  Ret (cfg, st).

Definition disconnectLeader (leader : nat) (cfg : Config) : go (Config * nat) :=
  cfg ← on_group GRP0 (DisconnectAll leader) cfg;
  Ret (cfg, leader).

Definition rsm_connect (i : nat) (cfg : Config) : go Config := on_group GRP0 (ConnectOne i) cfg.

(** ** Lemmas *)

(** Writing [x] at [i] and then at the indices [l]. *)
Lemma lookup_insert_then {A} (l : list nat) i j (x : A) m :
  (j < length m)%nat ->
  (if decide (j ∈ l) then Some x else <[i := x]> m !! j) = if decide (j ∈ i :: l) then Some x else m !! j.
Proof.
  intros Hj. destruct (decide (j = i)) as [->|Hji].
  - rewrite list_lookup_insert_eq by done. rewrite (decide_True (P := i ∈ i :: l)) by (by left).
    by destruct (decide (i ∈ l)).
  - rewrite list_lookup_insert_ne by done. apply decide_ext. rewrite elem_of_cons. tauto.
Qed.

Lemma mark_lookup down l : forall cr ch cr' ch',
  mark down l cr ch = Ret (cr', ch') -> forall j, (j < length cr)%nat ->
  cr' !! j = if decide (j ∈ l) then Some down else cr !! j.
Proof.
  induction l as [|i l IH]; intros cr ch cr' ch' E j Hj; simpl in E; [by injection E as <- <-|].
  destruct (index cr i) as [c|] eqn:Ei; [|done]. cbn [mbind go_bind] in E.
  rewrite (IH _ _ _ _ E j) by (by rewrite length_insert). by apply lookup_insert_then.
Qed.

(** What [AnnotateShutdown] and [AnnotateRestart] do to the flags. *)
Lemma annotate_mark n t down l st :
  finfo_ok n (finfo st) -> Forall (fun i => (i < n)%nat) l ->
  exists st', (if down : bool then AnnotateShutdown t l st else AnnotateRestart t l st) = Ret st'
    /\ finfo_ok n (finfo st')
    /\ forall j, (j < n)%nat ->
         crashed (finfo st') !! j = if decide (j ∈ l) then Some down else crashed (finfo st) !! j.
Proof.
  intros [Hn Hc Hd] Hl.
  destruct (mark_ok down l (crashed (finfo st)) false) as (cr&ch&E&Hlen&_); [by rewrite Hd|].
  assert (finfo_ok n (set_crashed (finfo st) cr)) as Hf by (split; simpl; congruence).
  assert (exists st', (if ch : bool then annotateFault t (mkTester (set_crashed (finfo st) cr) (annotation st))
                       else Ret (mkTester (set_crashed (finfo st) cr) (annotation st))) = Ret st'
                      /\ finfo st' = set_crashed (finfo st) cr) as (st'&E'&Ef).
  { destruct ch; [|by eexists].
    destruct (annotateFault_ok n t _ (annotation st) Hf) as (an'&->&_). by eexists. }
  exists st'. split; [destruct down; unfold AnnotateShutdown, AnnotateRestart; rewrite E; exact E'|].
  rewrite Ef. split; [done|]. intros j Hj. simpl. eapply mark_lookup; [exact E|lia].
Qed.

Section driver_lemmas.
  Context {V : Type} `{EqDecision V}.

(** Whether there is a proxy, and what the tester knows of a server. *)
Definition proxy_of (s : slot V) : option bool := fst <$> s.
Definition rec_of (s : slot V) : raftServer V := default newRaftServer (snd <$> s).

Lemma set_proxy i b s (l : list (slot V)) :
  l !! i = Some s ->
  rec_of <$> <[i := Some (b, rec_of s)]> l = rec_of <$> l
  /\ proxy_of <$> <[i := Some (b, rec_of s)]> l = <[i := Some b]> (proxy_of <$> l).
Proof.
  intros Hi. rewrite !list_fmap_insert. split; [|done]. apply list_insert_id. by rewrite list_lookup_fmap, Hi.
Qed.

Lemma mksrv_eq i s (l : list (slot V)) : l !! i = Some s -> mksrv i l = Ret (<[i := Some (true, rec_of s)]> l).
Proof. intros Hi. unfold mksrv, index. rewrite Hi. run_go. by destruct s as [[b rs]|]. Qed.

(** The effect of making or dropping the proxies of [srvs]. *)
Definition proxies_set (b : bool) (srvs : list nat) (l l' : list (slot V)) : Prop :=
  rec_of <$> l' = rec_of <$> l
  /\ forall j, (j < length l)%nat ->
       (proxy_of <$> l') !! j = if decide (j ∈ srvs) then Some (Some b) else (proxy_of <$> l) !! j.

Lemma proxies_set_length b srvs l l' : proxies_set b srvs l l' -> length l' = length l.
Proof. intros [H _]. by rewrite <- (length_fmap rec_of l'), H, length_fmap. Qed.

Lemma proxies_set_cons b i srvs s l l' :
  l !! i = Some s -> proxies_set b srvs (<[i := Some (b, rec_of s)]> l) l' -> proxies_set b (i :: srvs) l l'.
Proof.
  intros Hi [Hr Hp]. destruct (set_proxy i b s l Hi) as [Er Ep]. rewrite Er in Hr. split; [done|]. intros j Hj.
  rewrite Hp by (by rewrite length_insert). rewrite Ep. apply lookup_insert_then. by rewrite length_fmap.
Qed.

Lemma mksrvs_spec srvs : forall l : list (slot V), Forall (fun i => (i < length l)%nat) srvs ->
  exists l', mksrvs srvs l = Ret l' /\ proxies_set true srvs l l'.
Proof.
  induction srvs as [|i srvs IH]; intros l Hl; simpl; [by exists l|]. apply list.Forall_cons in Hl as [Hi Hl].
  destruct (lookup_lt_is_Some_2 l i Hi) as [s Hs]. rewrite (mksrv_eq i s l Hs). run_go.
  destruct (IH (<[i := Some (true, rec_of s)]> l)) as (l'&->&H); [by rewrite length_insert|].
  exists l'. split; [done|by eapply proxies_set_cons].
Qed.

(** No slot is nil. *)
Definition filled (l : list (slot V)) : Prop := None ∉ l.

Lemma drop_proxies_spec srvs : forall l : list (slot V), filled l -> Forall (fun i => (i < length l)%nat) srvs ->
  exists l', drop_proxies srvs l = Ret l' /\ proxies_set false srvs l l'.
Proof.
  induction srvs as [|i srvs IH]; intros l Hf Hl; simpl; [by exists l|]. apply list.Forall_cons in Hl as [Hi Hl].
  destruct (lookup_lt_is_Some_2 l i Hi) as [[[b rs]|] Hs]; [|destruct Hf; by eapply list_elem_of_lookup_2].
  unfold index. rewrite Hs. run_go.
  destruct (IH (<[i := Some (false, rs)]> l)) as (l'&->&H); [|by rewrite length_insert|].
  - intros (j&Hj)%list_elem_of_lookup. apply list_lookup_insert_Some in Hj as [(_&?&_)|[_ Hj]]; [done|].
    by apply Hf, (list_elem_of_lookup_2 l j).
  - exists l'. split; [done|]. by apply (proxies_set_cons false i srvs (Some (b, rs))).
Qed.

(** The annotations and the proxies agree on which servers are up, and a server with a daemon
    is up; if every process started so far ([ok]), a server that is up has a daemon. *)
Record truthful (ok : bool) (n : nat) (ts : raft_test V) : Prop := {
  tr_cinv : cinv (rt_cfg ts);
  tr_finfo : finfo_ok n (finfo (rt_st ts));
  tr_proxies : length (rt_srvs ts) = n;
  tr_group : exists sg, Group GRP0 (rt_cfg ts) = Some sg /\ N sg = n
    /\ forall i, (i < n)%nat -> exists r up, running sg i = Some r
         /\ crashed (finfo (rt_st ts)) !! i = Some (negb up) /\ (proxy_of <$> rt_srvs ts) !! i = Some (Some up)
         /\ (r = true -> up = true) /\ (ok = true -> r = up);
}.

Lemma truthful_filled ok n ts : truthful ok n ts -> filled (rt_srvs ts).
Proof.
  intros [_ _ Hp (sg&_&_&Hall)] (j&Hj)%list_elem_of_lookup. pose proof (lookup_lt_Some _ _ _ Hj) as Hl.
  destruct (Hall j) as (r&up&_&_&H&_); [lia|]. by rewrite list_lookup_fmap, Hj in H.
Qed.

(** What the tester knows of the servers. *)
Definition records (ts : raft_test V) : list (raftServer V) := rec_of <$> rt_srvs ts.

(** The daemons of the group's servers [l] answer. *)
Definition servers_answer (l : list nat) (cfg : Config) : bool :=
  match Group GRP0 cfg with Some sg => all_answer sg l | None => true end.

Lemma kill_ok ok n t srvs ts :
  truthful ok n ts -> Forall (fun i => (i < n)%nat) srvs -> servers_answer srvs (rt_cfg ts) = true ->
  exists ts', kill t srvs ts = Ret ts' /\ truthful ok n ts' /\ records ts' = records ts.
Proof.
  intros Ht Hl Ha. pose proof (truthful_filled ok n ts Ht) as Hfl. destruct Ht as [Hc Hf Hp (sg&Hg&HN&Hall)].
  unfold servers_answer in Ha. unfold kill, on_group. rewrite Hg in *. unfold Group in Hg.
  destruct (Kill_quiet srvs sg (c_net (rt_cfg ts))) as (sg'&rn'&->&Q&Hr&_);
    [by eapply cinv_good|by unfold in_group; rewrite HN|done|]. run_go.
  destruct (annotate_mark n t true srvs (rt_st ts) Hf Hl) as (st'&->&Hf'&Hcr). run_go.
  destruct (drop_proxies_spec srvs (rt_srvs ts) Hfl) as (l'&->&Hset); [by rewrite Hp|]. run_go.
  pose proof (proxies_set_length _ _ _ _ Hset) as Hlen. destruct Hset as [Hrec Hlk].
  eexists. split; [done|]. split; [|done]. split; simpl; [by eapply cinv_quiet|done|congruence|].
  exists sg'. split; [unfold Group; simpl; by rewrite lookup_insert_eq|].
  split; [by rewrite (quiet_N _ _ _ _ Q)|]. intros i Hi. destruct (Hall i Hi) as (r&up&H1&H2&H3&H4).
  rewrite Hr, Hcr, Hlk by (done || lia). case_decide; [by exists false, false|by exists r, up].
Qed.

Lemma kill_fatal ok n t srvs ts :
  truthful ok n ts -> Forall (fun i => (i < n)%nat) srvs -> servers_answer srvs (rt_cfg ts) = false ->
  kill t srvs ts = Crash Fatal.
Proof.
  intros [Hc _ _ (sg&Hg&HN&_)] Hl Ha. unfold servers_answer in Ha. unfold kill, on_group. rewrite Hg in *.
  rewrite Kill_fatal; [done|by eapply cinv_good|by unfold in_group; rewrite HN|done].
Qed.

Lemma reattach_ok srvs : forall cfg sg (l : list (slot V)),
  cinv cfg -> Group GRP0 cfg = Some sg -> in_group sg srvs -> length l = N sg ->
  exists cfg' sg' l', reattach srvs cfg l = Ret (cfg', l') /\ cinv cfg' /\ Group GRP0 cfg' = Some sg'
    /\ N sg' = N sg /\ g_srvs sg' = g_srvs sg /\ mksrvs srvs l = Ret l'.
Proof.
  induction srvs as [|i srvs IH]; intros cfg sg l Hc Hg Hl Hlen; simpl; [by exists cfg, sg, l|].
  apply list.Forall_cons in Hl as [Hi Hl].
  destruct (lookup_lt_is_Some_2 l i) as [s Hls]; [lia|]. rewrite (mksrv_eq i s l Hls). run_go.
  unfold on_group, ConnectOne. rewrite Hg. unfold Group in Hg. pose proof (cinv_good _ _ _ Hc Hg) as Hgood.
  rewrite (connect_eq i (all sg) sg (c_net cfg) Hgood Hi (all_in_group sg)). run_go.
  set (sg1 := with_conn i true sg). set (rn1 := enable_pairs _ _ _ _).
  pose proof (quiet_enable i true true sg _ (c_net cfg) : quiet sg sg1 (c_net cfg) rn1) as Q.
  destruct (IH (put GRP0 sg1 rn1 cfg) sg1 (<[i := Some (true, rec_of s)]> l)) as (cfg'&sg'&l'&E&Hc'&Hg'&HN'&Hs'&Em).
  - by eapply cinv_quiet.
  - unfold Group. simpl. by rewrite lookup_insert_eq.
  - by eapply in_group_quiet.
  - by rewrite length_insert, Hlen, (quiet_N _ _ _ _ Q).
  - exists cfg', sg', l'. split; [exact E|]. split; [done|]. split; [done|].
    split; [by rewrite HN', (quiet_N _ _ _ _ Q)|]. split; [by rewrite Hs'|exact Em].
Qed.

Lemma restart_ok ok n t env srvs ts :
  truthful ok n ts -> Forall (fun i => (i < n)%nat) srvs -> NoDup srvs ->
  fresh (grid (st_rnd env) srvs n) (c_net (rt_cfg ts)) -> dials env srvs = true ->
  (ok = true -> forall i, i ∈ srvs -> st_ok env i = true) ->
  exists ts', restart t env srvs ts = Ret ts' /\ truthful ok n ts' /\ records ts' = records ts.
Proof.
  intros [Hc Hf Hp (sg&Hg&HN&Hall)] Hl Hnd Hfr Hdl Hok. unfold restart, on_group. rewrite Hg.
  pose proof (put_id GRP0 sg (rt_cfg ts) Hg) as Ep. unfold Group in Hg.
  destruct (StartSrvs_spec GRP0 env n (rt_cfg ts) srvs sg (c_net (rt_cfg ts))) as (sg2&rn2&->&Hc2&HN2&Hr&_);
    [by rewrite Ep|done|by unfold in_group; rewrite HN|done..|]. run_go.
  destruct (annotate_mark n t false srvs (rt_st ts) Hf Hl) as (st'&->&Hf'&Hcr). run_go.
  fold (put GRP0 sg2 rn2 (rt_cfg ts)).
  destruct (reattach_ok srvs (put GRP0 sg2 rn2 (rt_cfg ts)) sg2 (rt_srvs ts)) as (cfg'&sg'&l'&->&Hc'&Hg'&HN'&Hs'&Em);
    [done|unfold Group; simpl; by rewrite lookup_insert_eq|unfold in_group; by rewrite HN2|by rewrite HN2|].
  run_go. destruct (mksrvs_spec srvs (rt_srvs ts)) as (l2&E2&Hset); [by rewrite Hp|].
  rewrite Em in E2. injection E2 as <-.
  pose proof (proxies_set_length _ _ _ _ Hset) as Hlen. destruct Hset as [Hrec Hlk].
  eexists. split; [done|]. split; [|done]. split; simpl; [done|done|congruence|].
  exists sg'. split; [done|]. split; [congruence|]. intros i Hi. destruct (Hall i Hi) as (r&up&H1&H2&H3&H4).
  unfold running. rewrite Hs'. fold (running sg2 i). rewrite Hr, Hcr, Hlk by (done || lia).
  case_decide as Hin; [exists (st_ok env i), true|by exists r, up]. split_and!; try done. intros Ho. by apply Hok.
Qed.

Lemma restart_fatal ok n t env srvs ts :
  truthful ok n ts -> Forall (fun i => (i < n)%nat) srvs ->
  fresh (grid (st_rnd env) srvs n) (c_net (rt_cfg ts)) -> dials env srvs = false ->
  restart t env srvs ts = Crash Fatal.
Proof.
  intros [Hc _ _ (sg&Hg&HN&_)] Hl Hfr Hdl. unfold restart, on_group. rewrite Hg.
  rewrite (StartSrvs_fatal GRP0 env n (rt_cfg ts)); [done|by rewrite (put_id GRP0 sg)|done|by unfold in_group; rewrite HN|done..].
Qed.

Lemma makeTest_ok ok rnd env n rel now desp an :
  NoDup (grid rnd (seq 0 n) n ++ grid (st_rnd env) (seq 0 n) n) -> dials env (seq 0 n) = true ->
  (ok = true -> forall i, (i < n)%nat -> st_ok env i = true) ->
  exists ts : raft_test V, makeTest rnd env n rel now an = Ret ts /\ truthful ok n (begin_test now desp n ts)
    /\ records ts = replicate n newRaftServer.
Proof.
  intros Hnd Hdl Hok. unfold makeTest. destruct (MakeConfig_spec rnd env n rel now Hnd Hdl) as (cfg&sg&->&Hc&Hg&HN&Hr).
  run_go. destruct (mksrvs_spec (seq 0 n) (replicate n None)) as (l&->&Hset).
  { apply list.Forall_forall. intros i Hi%elem_of_seq. rewrite length_replicate. lia. }
  pose proof (proxies_set_length _ _ _ _ Hset) as Hlen. destruct Hset as [Hrec Hlk].
  rewrite length_replicate in Hlen, Hlk. run_go. eexists. split; [done|].
  split; [split; simpl|unfold records; simpl; by rewrite Hrec, fmap_replicate].
  - apply (cinv_change cfg _ (fun _ _ => False)); try done; [apply (ci_shape _ Hc)|]. intros o e Ho. by right.
  - split; simpl; by rewrite ?length_replicate.
  - done.
  - exists sg. split; [done|]. split; [done|]. intros i Hi. exists (st_ok env i), true.
    destruct (Hr i Hi) as [-> _]. rewrite Hlk, decide_True by (done || apply elem_of_seq; lia).
    split; [done|]. split; [by apply lookup_replicate_2|]. split; [done|]. split; [done|]. intros Ho. by apply Hok.
Qed.

(** What a test does to its servers, with sensible arguments, and a daemon that dies, which
    nobody notices.  With [ok], every process starts. *)
Inductive drive_step (ok : bool) (n : nat) : raft_test V -> raft_test V -> Prop :=
  | d_kill t srvs ts ts' :
      Forall (fun i => (i < n)%nat) srvs -> kill t srvs ts = Ret ts' -> drive_step ok n ts ts'
  | d_restart t env srvs ts ts' :
      Forall (fun i => (i < n)%nat) srvs -> NoDup srvs ->
      fresh (grid (st_rnd env) srvs n) (c_net (rt_cfg ts)) ->
      (ok = true -> forall i, i ∈ srvs -> st_ok env i = true) ->
      restart t env srvs ts = Ret ts' -> drive_step ok n ts ts'
  | d_dies sg i ts :
      Group GRP0 (rt_cfg ts) = Some sg ->
      drive_step ok n ts (mkRT (put GRP0 (daemon_dies i sg) (c_net (rt_cfg ts)) (rt_cfg ts)) (rt_st ts) (rt_srvs ts)).

Lemma dies_truthful ok n sg i ts :
  truthful ok n ts -> Group GRP0 (rt_cfg ts) = Some sg ->
  truthful ok n (mkRT (put GRP0 (daemon_dies i sg) (c_net (rt_cfg ts)) (rt_cfg ts)) (rt_st ts) (rt_srvs ts)).
Proof.
  intros [Hc Hf Hp (sg0&Hg0&HN&Hall)] Hg. rewrite Hg in Hg0. injection Hg0 as <-.
  pose proof (daemon_dies_quiet i sg (c_net (rt_cfg ts))) as Q.
  split; simpl; [by eapply cinv_quiet|done|done|]. exists (daemon_dies i sg).
  split; [unfold Group; simpl; by rewrite lookup_insert_eq|]. split; [by rewrite (quiet_N _ _ _ _ Q)|].
  intros k Hk. replace (running (daemon_dies i sg) k) with (running sg k); [by apply Hall|].
  unfold running, daemon_dies. simpl. destruct (decide (k = i)) as [->|Hne]; [|by rewrite list_lookup_alter_ne].
  rewrite list_lookup_alter_eq. destruct (g_srvs sg !! i) as [s|]; [|done]. simpl. by destruct (dc s).
Qed.

Lemma drive_truthful ok n ts ts' : truthful ok n ts -> rtc (drive_step ok n) ts ts' -> truthful ok n ts'.
Proof.
  intros Ht Hr. induction Hr as [|a b c Hs _ IH]; [done|]. apply IH.
  destruct Hs as [t srvs a b Hl E|t env srvs a b Hl Hnd Hf Hok E|sg i a Hg]; [| |by apply dies_truthful].
  - destruct (servers_answer srvs (rt_cfg a)) eqn:Ha; [|by rewrite (kill_fatal ok n) in E].
    destruct (kill_ok ok n t srvs a Ht Hl Ha) as (b'&E'&Ht'&_). rewrite E in E'. by injection E' as ->.
  - destruct (dials env srvs) eqn:Hd; [|by rewrite (restart_fatal ok n) in E].
    destruct (restart_ok ok n t env srvs a Ht Hl Hnd Hf Hd Hok) as (b'&E'&Ht'&_). rewrite E in E'. by injection E' as ->.
Qed.
End driver_lemmas.

(** No server has reported an error, and the logs agree. *)
Definition sane {V} `{EqDecision V} (ts : Test V) : Prop :=
  Forall (fun rs => applyErr rs = None) (srvs ts) /\ consistent (srvs ts).

Lemma sane_nCommitted {V} `{EqDecision V} (ts : Test V) index :
  sane ts -> exists c, nCommitted index ts = Ret (have index (srvs ts), c)
    /\ forall rs v, rs ∈ srvs ts -> entry rs index = Some v -> v = c.
Proof.
  intros [He Hc]. destruct (n_committed_spec index (srvs ts) 0 None He) as (c&E&Hv&_); [lia|intros; lia|intros a b; by apply Hc|].
  exists c. split; [exact E|done].
Qed.

Lemma moved_on_spec startTerm states : None ∉ states ->
  exists b, moved_on startTerm states = Ret b
    /\ (b = true -> exists t l, Some (t, l) ∈ states /\ startTerm < t).
Proof.
  induction states as [|[[t l]|] states IH]; intros Hn; [by exists false| |destruct Hn; by left].
  cbn [moved_on]. case_decide as Ht.
  - exists true. split; [done|]. intros _. exists t, l. split; [by left|lia].
  - destruct IH as (b&E&Hb); [set_solver + Hn|]. exists b. split; [done|]. intros (t'&l'&Hin&Ht')%Hb.
    exists t', l'. split; [by right|done].
Qed.

Lemma wait_turns_spec {V} `{EqDecision V} index n startTerm (turns : list (wait_turn V)) :
  (forall w, w ∈ turns -> sane (w_test w) /\ None ∉ w_states w) ->
  exists b, wait_turns index n startTerm turns = Ret b
    /\ (b = true -> -1 < startTerm /\ exists w t l, w ∈ turns /\ Some (t, l) ∈ w_states w /\ startTerm < t).
Proof.
  induction turns as [|w turns IH]; intros Hw; [by exists false|]. cbn [wait_turns].
  destruct (Hw w) as [Hs Hn]; [by left|]. destruct (sane_nCommitted (w_test w) index Hs) as (c&->&_). run_go.
  case_decide; [by exists false|].
  destruct IH as (b&E&Hb); [intros w' Hw'; apply Hw; by right|].
  assert (b = true -> -1 < startTerm /\ exists w0 t l, w0 ∈ w :: turns /\ Some (t, l) ∈ w_states w0 /\ startTerm < t) as Hb'.
  { intros (Ht&w'&t&l&Hw'&Hr)%Hb. split; [done|]. exists w', t, l. split; [by right|done]. }
  case_decide as Ht; [|by exists b].
  destruct (moved_on_spec startTerm (w_states w) Hn) as (m&->&Hm). run_go. destruct m; [|by exists b].
  exists true. split; [done|]. intros _. split; [lia|]. destruct (Hm eq_refl) as (t&l&Hin&Hlt). exists w, t, l.
  split; [by left|done].
Qed.

(** *** The replicated state machine's tests *)

(** The group and the annotations agree on which servers run, and their daemons answer. *)
Definition rsm_truthful (n : nat) (cfg : Config) (st : tester_state) : Prop :=
  cinv cfg /\ finfo_ok n (finfo st) /\ exists sg, Group GRP0 cfg = Some sg /\ N sg = n
    /\ forall i, (i < n)%nat -> answers sg i = true
         /\ exists r, running sg i = Some r /\ crashed (finfo st) !! i = Some (negb r).

Definition fully_connected (n : nat) (cfg : Config) : Prop :=
  exists sg, Group GRP0 cfg = Some sg /\ N sg = n
    /\ forall i j, (i < n)%nat -> (j < n)%nat -> link sg (c_net cfg) i j = true.

Lemma rsm_kill_ok n t srvs cfg st :
  rsm_truthful n cfg st -> Forall (fun i => (i < n)%nat) srvs ->
  exists cfg' st', rsm_kill t srvs cfg st = Ret (cfg', st') /\ rsm_truthful n cfg' st'.
Proof.
  intros (Hc&Hf&sg&Hg&HN&Hall) Hl. unfold rsm_kill, on_group. rewrite Hg. unfold Group in Hg.
  destruct (Kill_quiet srvs sg (c_net cfg)) as (sg'&rn'&->&Q&Hr&_&_&Ha);
    [by eapply cinv_good|by unfold in_group; rewrite HN| |].
  { apply all_answer_true. rewrite list.Forall_forall in Hl. intros i Hi. by apply Hall, Hl. }
  run_go.
  destruct (annotate_mark n t true srvs st Hf Hl) as (st'&->&Hf'&Hcr). run_go.
  eexists _, _. split; [done|]. split; [by eapply cinv_quiet|]. split; [done|].
  exists sg'. split; [unfold Group; simpl; by rewrite lookup_insert_eq|].
  split; [by rewrite (quiet_N _ _ _ _ Q)|]. intros i Hi. destruct (Hall i Hi) as (H0&r&H1&H2).
  rewrite Ha, H0, orb_true_r. split; [done|]. rewrite Hr, Hcr by done. case_decide; [by exists false|by exists r].
Qed.

Lemma rsm_restart_ok n t env srvs cfg st :
  rsm_truthful n cfg st -> Forall (fun i => (i < n)%nat) srvs -> NoDup srvs ->
  fresh (grid (st_rnd env) srvs n) (c_net cfg) -> (forall i, i ∈ srvs -> st_ok env i = true) ->
  exists cfg' st', rsm_restart t env srvs cfg st = Ret (cfg', st') /\ rsm_truthful n cfg' st' /\ fully_connected n cfg'.
Proof.
  intros (Hc&Hf&sg&Hg&HN&Hall) Hl Hnd Hfr Hok. unfold rsm_restart, on_group. rewrite Hg. unfold Group in Hg.
  assert (put GRP0 sg (c_net cfg) cfg = cfg) as Ep.
  { unfold put, set_grps, set_net. simpl. rewrite insert_id by done. by destruct cfg. }
  destruct (StartSrvs_spec GRP0 env n cfg srvs sg (c_net cfg)) as (sg2&rn2&->&Hc2&HN2&Hr&_&_&_&Ha);
    [by rewrite Ep|done|by unfold in_group; rewrite HN|done|done|by apply st_ok_dials|]. run_go.
  fold (put GRP0 sg2 rn2 cfg). set (cfg2 := put GRP0 sg2 rn2 cfg) in *.
  assert (c_grps cfg2 !! GRP0 = Some sg2) as Hg2 by (unfold cfg2; simpl; by rewrite lookup_insert_eq).
  destruct (ConnectAll_spec sg2 (c_net cfg2)) as (sg3&rn3&E3&Q&_&Hs3&Hlink); [by eapply cinv_good|].
  unfold Group. rewrite Hg2, E3. run_go.
  destruct (annotate_mark n t false srvs st Hf Hl) as (st'&->&Hf'&Hcr). run_go.
  assert (N sg3 = n) as HN3 by (by rewrite (quiet_N _ _ _ _ Q)).
  eexists _, _. split; [done|]. split.
  - split; [by eapply cinv_quiet|]. split; [done|]. exists sg3. split; [unfold Group; simpl; by rewrite lookup_insert_eq|].
    split; [done|]. intros i Hi. destruct (Hall i Hi) as (H0&r&H1&H2). unfold running, answers. rewrite Hs3.
    fold (running sg2 i) (answers sg2 i). rewrite Ha, H0, orb_true_r. split; [done|]. rewrite Hr, Hcr by done. case_decide as Hin; [exists true; by rewrite (Hok i Hin)|by exists r].
  - exists sg3. split; [unfold Group; simpl; by rewrite lookup_insert_eq|]. split; [done|].
    intros i j Hi Hj. simpl. apply Hlink; by rewrite HN2.
Qed.

(** ** Properties *)

(** C31: the tester, the annotations and the network tell the same story.  Make a test and kill
    and restart any servers in any order, while daemons die at any time.  At every moment a
    server's crash is annotated exactly if the tester has no proxy for it, and a server
    for which the tester runs a daemon is up by both accounts; if every process started
    ([ok]), the servers that are up are exactly those with a daemon.  (When one does not
    start, [StartSrvs] drops the error, and the server is up by both accounts without a
    daemon.)  [kill] returns if the daemons of the servers answer and ends the tester
    otherwise; [restart] returns if the processes can be dialled and ends the tester
    otherwise; neither changes what the tester knows of the servers' logs. *)
Theorem raft_test_tells_the_truth {V} `{EqDecision V} (ok : bool) rnd env n rel now desp an :
  NoDup (grid rnd (seq 0 n) n ++ grid (st_rnd env) (seq 0 n) n) -> dials env (seq 0 n) = true ->
  (ok = true -> forall i, (i < n)%nat -> st_ok env i = true) ->
  exists ts0 : raft_test V, makeTest rnd env n rel now an = Ret ts0 /\ records ts0 = replicate n newRaftServer
    /\ forall ts, rtc (drive_step ok n) (begin_test now desp n ts0) ts ->
         (exists sg, Group GRP0 (rt_cfg ts) = Some sg /\ N sg = n
            /\ forall i, (i < n)%nat -> exists r up, running sg i = Some r
                 /\ crashed (finfo (rt_st ts)) !! i = Some (negb up) /\ (proxy_of <$> rt_srvs ts) !! i = Some (Some up)
                 /\ (r = true -> up = true) /\ (ok = true -> r = up))
         /\ (forall t srvs, Forall (fun i => (i < n)%nat) srvs ->
               if servers_answer srvs (rt_cfg ts)
               then exists ts', kill t srvs ts = Ret ts' /\ records ts' = records ts
               else kill t srvs ts = Crash Fatal)
         /\ (forall t env srvs, Forall (fun i => (i < n)%nat) srvs -> NoDup srvs ->
               fresh (grid (st_rnd env) srvs n) (c_net (rt_cfg ts)) ->
               (ok = true -> forall i, i ∈ srvs -> st_ok env i = true) ->
               if dials env srvs
               then exists ts', restart t env srvs ts = Ret ts' /\ records ts' = records ts
               else restart t env srvs ts = Crash Fatal).
Proof.
  intros Hnd Hdl Hok. destruct (makeTest_ok (V := V) ok rnd env n rel now desp an Hnd Hdl Hok) as (ts0&E&Ht0&Hr0).
  exists ts0. split; [done|]. split; [done|]. intros ts Hr. pose proof (drive_truthful _ _ _ _ Ht0 Hr) as Ht.
  split; [apply (tr_group _ _ _ Ht)|]. split.
  - intros t srvs Hl. destruct (servers_answer srvs (rt_cfg ts)) eqn:Ha; [|by eapply kill_fatal].
    destruct (kill_ok ok n t srvs ts Ht Hl Ha) as (ts'&E'&_&Hrec). by exists ts'.
  - intros t env' srvs Hl Hn Hf Ho. destruct (dials env' srvs) eqn:Hd; [|by eapply restart_fatal].
    destruct (restart_ok ok n t env' srvs ts Ht Hl Hn Hf Hd Ho) as (ts'&E'&_&Hrec). by exists ts'.
Qed.

(** Killing and restarting in the tests of the replicated state machine.  Kill any
    servers and restart any: both calls return, the annotated crashes are the
    processes that are down, and after the restart every server reaches every server. *)
Theorem rsm_restart_reconnects n t t' env killed started cfg st :
  rsm_truthful n cfg st -> Forall (fun i => (i < n)%nat) killed -> Forall (fun i => (i < n)%nat) started ->
  NoDup started -> (forall i, i ∈ started -> st_ok env i = true) ->
  exists cfg1 st1, rsm_kill t killed cfg st = Ret (cfg1, st1) /\ rsm_truthful n cfg1 st1
    /\ (fresh (grid (st_rnd env) started n) (c_net cfg1) ->
        exists cfg2 st2, rsm_restart t' env started cfg1 st1 = Ret (cfg2, st2) /\ rsm_truthful n cfg2 st2
          /\ fully_connected n cfg2).
Proof.
  intros Ht Hk Hs Hnd Hok. destruct (rsm_kill_ok n t killed cfg st Ht Hk) as (cfg1&st1&E1&Ht1).
  exists cfg1, st1. split; [done|]. split; [done|]. intros Hf. by apply rsm_restart_ok.
Qed.

(** [wait] on a sane test whose servers are all alive: it answers -1 only if some server is
    past the term, returns the command that enough servers have committed at the index, or
    fails because fewer have. *)
Theorem wait_outcome {V} `{EqDecision V} index n startTerm (turns : list (wait_turn V)) (final : Test V) :
  (forall w, w ∈ turns -> sane (w_test w) /\ None ∉ w_states w) -> sane final ->
  (wait index n startTerm turns final = Ret TermChanged /\ -1 < startTerm
     /\ exists w t l, w ∈ turns /\ Some (t, l) ∈ w_states w /\ startTerm < t)
  \/ (n <= have index (srvs final) /\ exists c, wait index n startTerm turns final = Ret (Committed c)
        /\ forall rs v, rs ∈ srvs final -> entry rs index = Some v -> v = c)
  \/ (have index (srvs final) < n /\ wait index n startTerm turns final = Crash Fatal).
Proof.
  intros Hw Hf. unfold wait. destruct (wait_turns_spec index n startTerm turns Hw) as (b&->&Hb). run_go.
  destruct b; [left; split; [done|by apply Hb]|]. right.
  destruct (sane_nCommitted final index Hf) as (c&->&Hc). run_go. case_decide as Hn; [by right|].
  left. split; [lia|]. by exists c.
Qed.

(** *** Examples *)

(** A server is killed. *)
Lemma raft_test_tells_the_truth_witness :
  exists (ts0 ts1 : raft_test nat) sg,
    makeTest (demo_rnd "a") (demo_st "b") 2 true 0 (mkTester (mkFrameworkInfo 0) mkAnnotation) = Ret ts0
    /\ kill 1 [1%nat] (begin_test 0 "demo" 2 ts0) = Ret ts1 /\ Group GRP0 (rt_cfg ts1) = Some sg
    /\ running sg 1 = Some false /\ crashed (finfo (rt_st ts1)) !! 1%nat = Some true.
Proof.
  destruct (raft_test_tells_the_truth (V := nat) true (demo_rnd "a") (demo_st "b") 2 true 0 "demo"
    (mkTester (mkFrameworkInfo 0) mkAnnotation) demo_names eq_refl) as (ts0&E&_&H); [intros _ i _; reflexivity|].
  pose proof (proj1 (proj2 (H _ (rtc_refl _ _))) 1 [1%nat] ltac:(repeat constructor)) as Hk.
  assert (makeTest (demo_rnd "a") (demo_st "b") 2 true 0 (mkTester (mkFrameworkInfo 0) mkAnnotation) = Ret ts0) as E' by exact E.
  assert (servers_answer [1%nat] (rt_cfg (begin_test 0 "demo" 2 ts0)) = true) as Ha.
  { assert (match makeTest (V := nat) (demo_rnd "a") (demo_st "b") 2 true 0 (mkTester (mkFrameworkInfo 0) mkAnnotation) with
      Ret ts => servers_answer [1%nat] (rt_cfg (begin_test 0 "demo" 2 ts)) | Crash _ => false end = true) as Hb
      by (vm_compute; reflexivity). by rewrite E in Hb. }
  rewrite Ha in Hk. destruct Hk as (ts1&E1&_).
  destruct (H ts1) as ((sg&Hg&_&Hs)&_); [apply rtc_once; apply (d_kill true 2 1 [1%nat]); [repeat constructor|exact E1]|].
  destruct (Hs 1%nat) as (r&up&Hr&Hc&_&_&Heq); [lia|]. exists ts0, ts1, sg. split; [exact E|]. split; [exact E1|].
  assert (match ts ← makeTest (V := nat) (demo_rnd "a") (demo_st "b") 2 true 0 (mkTester (mkFrameworkInfo 0) mkAnnotation);
                kill 1 [1%nat] (begin_test 0 "demo" 2 ts) with
          Ret ts => bool_decide ((sg ← Group GRP0 (rt_cfg ts); running sg 1) = Some false) | Crash _ => false end = true) as Hb
    by (vm_compute; reflexivity).
  rewrite E in Hb. cbn [mbind go_bind] in Hb. rewrite E1, Hg in Hb. apply bool_decide_eq_true_1 in Hb. simpl in Hb.
  rewrite Hr in Hb. injection Hb as ->. rewrite <-(Heq eq_refl) in Hc. split; [exact Hg|]. split; [exact Hr|exact Hc].
Defined.

(** A process that does not start: the annotations and the proxies say the server is up. *)
Example failed_start_goes_unnoticed :
  let env := mkStart (demo_rnd "b") (fun i => if decide (i = 1%nat) then StartFails else Launched) (fun i => i) in
  match makeTest (V := nat) (demo_rnd "a") env 2 true 0 (mkTester (mkFrameworkInfo 0) mkAnnotation) with
  | Ret ts => let ts := begin_test 0 "demo" 2 ts in
      (sg ← Group GRP0 (rt_cfg ts); running sg 1) = Some false
      /\ crashed (finfo (rt_st ts)) !! 1%nat = Some false /\ (proxy_of <$> rt_srvs ts) !! 1%nat = Some (Some true)
  | Crash _ => False
  end.
Proof. vm_compute. split_and!; reflexivity. Qed.

Definition demo_final : Test nat :=
  mkTest [mkRaftServer None {[ 1 := Some 7%nat ]}; mkRaftServer None {[ 1 := Some 7%nat ]}] 1.

Lemma demo_final_sane : sane demo_final.
Proof.
  split; [repeat constructor|]. intros a b k v w Ha Hb Hv Hw.
  assert (forall a, a ∈ srvs demo_final -> a = mkRaftServer None {[ 1 := Some 7%nat ]}) as H
    by (intros x Hx; set_solver + Hx).
  apply H in Ha as ->. apply H in Hb as ->. congruence.
Qed.

Lemma wait_outcome_witness : wait 1 2 5 [mkTurn demo_final [Some (5, true); Some (5, false)]] demo_final
  = Ret (Committed (Some 7%nat)).
Proof.
  destruct (wait_outcome 1 2 5 [mkTurn demo_final [Some (5, true); Some (5, false)]] demo_final) as [H|[H|H]].
  - intros w ->%list_elem_of_singleton. split; [exact demo_final_sane|]. simpl. set_solver +.
  - exact demo_final_sane.
  - destruct H as [H _]. vm_compute in H. discriminate H.
  - destruct H as (_&c&Hc&_). rewrite Hc. vm_compute in Hc. injection Hc as <-. reflexivity.
  - destruct H as [_ H]. vm_compute in H. discriminate H.
Defined.

(** With a server killed, looking at the terms dereferences its nil proxy. *)
Example wait_panics_on_killed_server : wait 1 3 5 [mkTurn demo_final [Some (5, true); None]] demo_final = Crash Panic.
Proof. vm_compute. reflexivity. Qed.

Lemma demo_rsm_truthful : exists cfg, MakeConfig (demo_rnd "a") (demo_st "b") 2 true 0 = Ret cfg
  /\ rsm_truthful 2 cfg (mkTester (mkFrameworkInfo 2) mkAnnotation).
Proof.
  destruct (MakeConfig_spec (demo_rnd "a") (demo_st "b") 2 true 0 demo_names eq_refl) as (cfg&sg&E&Hc&Hg&HN&Hr).
  exists cfg. split; [exact E|]. split; [exact Hc|]. split; [by split|]. exists sg. split; [exact Hg|]. split; [exact HN|].
  intros i Hi. destruct (Hr i Hi) as [Hri Hai]. split; [exact Hai|]. exists true. split; [exact Hri|]. by apply lookup_replicate_2.
Qed.

Lemma rsm_restart_reconnects_witness :
  exists cfg cfg1 st1, MakeConfig (demo_rnd "a") (demo_st "b") 2 true 0 = Ret cfg
    /\ rsm_kill 1 [1%nat] cfg (mkTester (mkFrameworkInfo 2) mkAnnotation) = Ret (cfg1, st1) /\ rsm_truthful 2 cfg1 st1.
Proof.
  destruct demo_rsm_truthful as (cfg&E&Ht).
  destruct (rsm_restart_reconnects 2 1 2 (demo_st "c") [1%nat] [1%nat] cfg (mkTester (mkFrameworkInfo 2) mkAnnotation))
    as (cfg1&st1&E1&Ht1&_).
  - exact Ht.
  - repeat constructor.
  - repeat constructor.
  - apply NoDup_singleton.
  - intros i _. reflexivity.
  - exists cfg, cfg1, st1. split; [exact E|]. split; [exact E1|exact Ht1].
Defined.
