(* ===== verification/ControlRpc.v ===== *)
(** * The control calls between tester and servers

    The tester and the server processes talk over sockets: the tester asks a Raft server for its
    state and gives it commands, the server reports what it applies ([src/src/raft1/server.go],
    [test.go], [proxy.go]), and the same for the replicated state machine's test
    server ([src/src/kvraft1/rsm/server.go], [proxy.go]).  Here both ends of these calls are put together
    over the socket layer of [Daemon]; and the socket files of the processes
    ([src/src/tester1/daemonclnt.go], [daemonsrv.go]). *)

From S2P Require Import Prelude Rpc Labrpc Raft RaftTest RaftDrive Daemon Sock Rsm.
Local Open Scope Z_scope.

(** ** Services with several methods *)

(** A method with the codecs of its types; it may crash. *)
Record rpc_method (St : Type) := mkRM {
  rm_name : string;
  rm_Args : Type;
  rm_Reply : Type;
  rm_args : Codec rm_Args;
  rm_reply : Codec rm_Reply;
  rm_handler : rm_Args -> St -> go (St * rm_Reply);
}.
Arguments mkRM {St} _ {_ _ _ _} _.
Arguments rm_name {St}. Arguments rm_Args {St}. Arguments rm_Reply {St}.
Arguments rm_args {St}. Arguments rm_reply {St}. Arguments rm_handler {St}.

#[export] Existing Instances rm_args rm_reply.

(** The dispatch of a server with these methods; an unknown one is fatal. *)
Fixpoint serve {St} (ms : list (rpc_method St)) (st : St) (method : string) (b : bytes) : go (St * (bytes * bool)) :=
  match ms with
  | [] => Crash Fatal
  | m :: rest =>
      if decide (method = rm_name m) then
        match Unmarshall b with
        | None => Crash Fatal
        | Some args => '(st, r) ← rm_handler m args st; Ret (st, (Marshall r, true))
        end
      else serve rest st method b
  end.

(** A call over the socket is the handler's run; a call that does not arrive changes nothing. *)
Lemma remote_call {St} `{Codec RPCArgs} (ms1 : list (rpc_method St)) m ms2 (a : rm_Args m) st :
  rm_name m ∉ rm_name <$> ms1 ->
  RPCMarshall (R := rm_Reply m) true (serve (ms1 ++ m :: ms2)) (rm_name m) a st
  = ('(st, r) ← rm_handler m a st; Ret (st, Some r)).
Proof.
  intros Hn. unfold RPCMarshall, RPC, ServeRequest. rewrite codec_round_trip. cbn [r_Method r_Args].
  assert (serve (ms1 ++ m :: ms2) st (rm_name m) (Marshall a)
          = ('(st, r) ← rm_handler m a st; Ret (st, (Marshall r, true)))) as ->.
  { induction ms1 as [|m1 ms1 IH]; simpl.
    - rewrite decide_True by done. by rewrite codec_round_trip.
    - rewrite decide_False; [apply IH; set_solver|]. set_solver. }
  destruct (rm_handler m a st) as [[st' r]|]; [|done]. simpl. by rewrite codec_round_trip.
Qed.

Lemma remote_down {St A R} `{Codec RPCArgs} `{Codec A} `{Codec R} (ms : list (rpc_method St)) name (a : A) st :
  RPCMarshall (R := R) false (serve ms) name a st = Ret (st, None).
Proof. done. Qed.

(** ** The Raft server *)

Record GetStateReply := mkGSReply { gs_Term : Z; gs_Leader : bool }.
Record StartReply := mkStartReply { st_Index : Z; st_Term : Z; st_Leader : bool }.

(** [rs.raft] is nil when another Raft is plugged in. *)
Definition getraft (raft : option Raft.Raft) : option Raft.Raft := raft.

Definition rs_Start {V : Type} (command : V) (raft : option Raft.Raft) : Z * Z * bool :=
  match getraft raft with
  | None => (0, 0, false)
  | Some rf => Raft.Start rf
  end.

Definition rs_GetState (raft : option Raft.Raft) : go (Z * bool) :=
  match raft with None => Crash Panic | Some rf => Ret (Raft.GetState rf) end.

Section raft_server.
  Context {V : Type}.

Record StartArgs := mkStartArgs { sa_Command : V }.

Context `{Codec RPCArgs} `{Codec unit} `{Codec GetStateReply} `{Codec StartArgs} `{Codec StartReply}.

Definition GetStateRPC (_ : unit) (raft : option Raft.Raft) : go (option Raft.Raft * GetStateReply) :=
  '(t, l) ← rs_GetState raft; Ret (raft, mkGSReply t l).

Definition StartRPC (args : StartArgs) (raft : option Raft.Raft) : go (option Raft.Raft * StartReply) :=
  let '(i, t, l) := rs_Start (sa_Command args) raft in Ret (raft, mkStartReply i t l).

Definition rfsrv_methods : list (rpc_method (option Raft.Raft)) :=
  [mkRM "rfsrv.GetStateRPC" GetStateRPC; mkRM "rfsrv.StartRPC" StartRPC].

(** [Rfproxy], over [DaemonClnt.Call]. *)
Definition Rfproxy_GetState (up : bool) (raft : option Raft.Raft) : go (option Raft.Raft * (Z * bool)) :=
  '(raft, rep) ← RPCMarshall up (serve rfsrv_methods) "rfsrv.GetStateRPC" tt raft;
  Ret (raft, proxy_GetState ((fun r => (gs_Term r, gs_Leader r)) <$> rep)).

Definition Rfproxy_Start (up : bool) (command : V) (raft : option Raft.Raft) : go (option Raft.Raft * (Z * Z * bool)) :=
  '(raft, rep) ← RPCMarshall up (serve rfsrv_methods) "rfsrv.StartRPC" (mkStartArgs command) raft;
  Ret (raft, proxy_Start ((fun r => (st_Index r, st_Term r, st_Leader r)) <$> rep)).
End raft_server.
Arguments StartArgs : clear implicits.

(** ** The tester *)

Section tester_server.
  Context {V : Type} `{EqDecision V}.

Record CheckLogsArgs := mkCLArgs { cl_Index : nat; cl_Msg : ApplyMsg V }.
Record CheckLogsReply := mkCLReply { cl_Err : option (apply_err V); cl_Prevok : bool }.
Record IngestLogArgs := mkILArgs { il_Index : nat; il_Log : gmap Z (option V) }.
Record ApplyErrArgs := mkAEArgs { ae_Index : nat; ae_Err : apply_err V }.

Context `{Codec RPCArgs} `{Codec CheckLogsArgs} `{Codec CheckLogsReply} `{Codec IngestLogArgs} `{Codec ApplyErrArgs} `{Codec unit}.

Definition CheckLogsRPC (args : CheckLogsArgs) (ts : RaftTest.Test V) : go (RaftTest.Test V * CheckLogsReply) :=
  '(ts, (err, prevok)) ← RaftTest.CheckLogs (cl_Index args) (cl_Msg args) ts; Ret (ts, mkCLReply err prevok).

Definition IngestLogRPC (args : IngestLogArgs) (ts : RaftTest.Test V) : go (RaftTest.Test V * unit) :=
  ts ← RaftTest.IngestLog (il_Index args) (il_Log args) ts; Ret (ts, tt).

Definition ApplyErrRPC (args : ApplyErrArgs) (ts : RaftTest.Test V) : go (RaftTest.Test V * unit) :=
  ts ← RaftTest.ApplyErr (ae_Index args) (ae_Err args) ts; Ret (ts, tt).

Definition Test_methods : list (rpc_method (RaftTest.Test V)) :=
  [mkRM "Test.CheckLogsRPC" CheckLogsRPC; mkRM "Test.IngestLogRPC" IngestLogRPC; mkRM "Test.ApplyErrRPC" ApplyErrRPC].

(** [TesterProxy], over [TesterClnt.Call]. *)
Definition tp_CheckLogs (up : bool) (i : nat) (m : ApplyMsg V) (ts : RaftTest.Test V)
    : go (RaftTest.Test V * (option (apply_err V) * bool)) :=
  '(ts, rep) ← RPCMarshall up (serve Test_methods) "Test.CheckLogsRPC" (mkCLArgs i m) ts;
  Ret (ts, match rep : option CheckLogsReply with None => (Some RaftTest.ErrRPC, false) | Some r => (cl_Err r, cl_Prevok r) end).

Definition tp_IngestLog (up : bool) (i : nat) (log : gmap Z (option V)) (ts : RaftTest.Test V) : go (RaftTest.Test V) :=
  '(ts, _) ← RPCMarshall (R := unit) up (serve Test_methods) "Test.IngestLogRPC" (mkILArgs i log) ts; Ret ts.

Definition tp_ApplyErr (up : bool) (i : nat) (err : apply_err V) (ts : RaftTest.Test V) : go (RaftTest.Test V) :=
  '(ts, _) ← RPCMarshall (R := unit) up (serve Test_methods) "Test.ApplyErrRPC" (mkAEArgs i err) ts; Ret ts.

(** The server's interface to the tester, over the socket. *)
Definition proxy_Itester (up : bool) : @Itester V (RaftTest.Test V) := {|
  it_CheckLogs := tp_CheckLogs up;
  it_IngestLog := tp_IngestLog up;
  it_ApplyErr := tp_ApplyErr up;
|}.
End tester_server.

(** ** The replicated state machine's server *)

Section rsm_server.
  Context {St : Type}.
  (* [RSM.Submit] and the counter of the server *)
  Context (submit : Rsm.req -> St -> go (St * (Err * option Rsm.reply))) (get_counter : St -> Z).

Record SubmitArgs := mkSubmitArgs { sub_Req : Rsm.req }.
Record SubmitReply := mkSubmitReply { sub_Err : Err; sub_Rep : option Rsm.reply }.
Record GetCounterReply := mkGCReply { gc_Count : Z }.

Context `{Codec RPCArgs} `{Codec SubmitArgs} `{Codec SubmitReply} `{Codec unit} `{Codec GetCounterReply}.

Definition SubmitRPC (args : SubmitArgs) (st : St) : go (St * SubmitReply) :=
  '(st, (err, rep)) ← submit (sub_Req args) st; Ret (st, mkSubmitReply err rep).

Definition GetCounterRPC (_ : unit) (st : St) : go (St * GetCounterReply) := Ret (st, mkGCReply (get_counter st)).

Definition rsmSrv_methods : list (rpc_method St) :=
  [mkRM "rsmSrv.SubmitRPC" SubmitRPC; mkRM "rsmSrv.GetCounterRPC" GetCounterRPC].

(** [RSMproxy]. *)
Definition RSMproxy_Submit (up : bool) (r : Rsm.req) (st : St) : go (St * (Err * option Rsm.reply)) :=
  '(st, rep) ← RPCMarshall up (serve rsmSrv_methods) "rsmSrv.SubmitRPC" (mkSubmitArgs r) st;
  Ret (st, proxy_Submit ((fun r => (sub_Err r, sub_Rep r)) <$> rep)).

Definition RSMproxy_GetCounter (up : bool) (st : St) : go (St * Z) :=
  '(st, rep) ← RPCMarshall up (serve rsmSrv_methods) "rsmSrv.GetCounterRPC" tt st;
  Ret (st, proxy_GetCounter (gc_Count <$> rep)).
End rsm_server.

(** ** Socket files *)

Definition sockctl (sock : string) : string := sock +:+ "-ctl".

(** [net.Listen] makes the socket's file, and fails if it is there. *)
Definition listen (endName : string) (socks : gset string) : go (gset string) :=
  if decide (SockName endName ∈ socks) then Crash Fatal else Ret ({[ SockName endName ]} ∪ socks).

(** [DaemonClnt.kill], which leaves no process: the files of its two sockets are removed. *)
Definition kill_socks (endName : string) (socks : gset string) : gset string :=
  socks ∖ {[ SockName (sockctl endName) ]} ∖ {[ SockName endName ]}.

(** A process listens on its control socket first, and on the other after it has its persistent state. *)
Inductive dphase := Starting | Serving.

Record machine := mkMachine { m_socks : gset string; m_daemons : gmap string dphase }.

(** Names are random strings of length 20 ([Base64]); a name is not drawn again while it is in use. *)
Inductive mstep : machine -> machine -> Prop :=
  | m_run e m socks :
      String.length e = 20%nat -> m_daemons m !! e = None -> listen (sockctl e) (m_socks m) = Ret socks ->
      mstep m (mkMachine socks (<[e := Starting]> (m_daemons m)))
  | m_serve e m socks :
      m_daemons m !! e = Some Starting -> listen e (m_socks m) = Ret socks ->
      mstep m (mkMachine socks (<[e := Serving]> (m_daemons m)))
  | m_kill e m p :
      m_daemons m !! e = Some p -> mstep m (mkMachine (kill_socks e (m_socks m)) (delete e (m_daemons m))).

(** ** Lemmas *)

Definition minv (m : machine) : Prop :=
  (forall e p, m_daemons m !! e = Some p -> String.length e = 20%nat)
  /\ forall x, x ∈ m_socks m <->
       exists e p, m_daemons m !! e = Some p /\ (x = SockName (sockctl e) \/ p = Serving /\ x = SockName e).

Lemma ctl_not_end e e' : String.length e = 20%nat -> String.length e' = 20%nat -> SockName (sockctl e) <> SockName e'.
Proof.
  intros He He' E%SockName_inj. apply (f_equal String.length) in E. unfold sockctl in E. rewrite string_length_app in E. simpl in E. lia.
Qed.

Lemma ctl_inj e e' : SockName (sockctl e) = SockName (sockctl e') -> e = e'.
Proof. intros E%SockName_inj. by apply string_app_inj_r in E. Qed.

(** A name that is not in use can be listened on. *)
Lemma listen_ctl m e : minv m -> String.length e = 20%nat -> m_daemons m !! e = None -> SockName (sockctl e) ∉ m_socks m.
Proof.
  intros [Hl Hs] He Hn (e'&p&Hp&[E%ctl_inj|[_ E]])%Hs; [congruence|]. by apply ctl_not_end in E; [|done|by eapply Hl].
Qed.

Lemma listen_end m e : minv m -> m_daemons m !! e = Some Starting -> SockName e ∉ m_socks m.
Proof.
  intros [Hl Hs] He (e'&p&Hp&[E|[-> E%SockName_inj]])%Hs; [|congruence].
  by symmetry in E; apply ctl_not_end in E; [|by eapply Hl..].
Qed.

Lemma minv_step m m' : minv m -> mstep m m' -> minv m'.
Proof.
  intros Hm Hst. pose proof Hm as [Hl Hs]. destruct Hst as [e m socks He Hn Hli|e m socks He Hli|e m p He]; unfold listen in *; simpl.
  - rewrite decide_False in Hli by (by apply listen_ctl). injection Hli as <-. split; simpl.
    + intros e' p [[<- _]|[_ Hp]]%lookup_insert_Some; [done|by eapply Hl].
    + intros x. rewrite elem_of_union, elem_of_singleton, Hs. split.
      * intros [->|(e'&p&Hp&Hx)]; [exists e, Starting; rewrite lookup_insert_eq; auto|].
        exists e', p. rewrite lookup_insert_ne by congruence. done.
      * intros (e'&p&[[<- <-]|[_ Hp]]%lookup_insert_Some&Hx); [left; by destruct Hx as [?|[? _]]|right; by exists e', p].
  - rewrite decide_False in Hli by (by apply listen_end). injection Hli as <-. split; simpl.
    + intros e' p [[<- _]|[_ Hp]]%lookup_insert_Some; by eapply Hl.
    + intros x. rewrite elem_of_union, elem_of_singleton, Hs. split.
      * intros [->|(e'&p&Hp&Hx)]; [exists e, Serving; rewrite lookup_insert_eq; auto|].
        destruct (decide (e' = e)) as [->|Hne].
        -- exists e, Serving. rewrite lookup_insert_eq. split; [done|]. destruct Hx as [?|[-> _]]; [by left|congruence].
        -- exists e', p. by rewrite lookup_insert_ne.
      * intros (e'&p&[[<- <-]|[Hne Hp]]%lookup_insert_Some&Hx); [|right; by exists e', p].
        destruct Hx as [->|[_ ->]]; [right; exists e, Starting; auto|by left].
  - split; simpl.
    + intros e' q [_ Hp]%lookup_delete_Some. by eapply Hl.
    + intros x. unfold kill_socks. rewrite !elem_of_difference, !elem_of_singleton, Hs. split.
      * intros [[(e'&q&Hq&Hx) H1] H2]. exists e', q. rewrite lookup_delete_ne; [done|]. intros ->. naive_solver.
      * intros (e'&q&[Hne Hq]%lookup_delete_Some&Hx). split; [split; [by exists e', q|]|].
        -- intros ->. destruct Hx as [E%ctl_inj|[_ E]]; [done|]. by apply ctl_not_end in E; [|by eapply Hl..].
        -- intros ->. destruct Hx as [E|[_ E%SockName_inj]]; [|done]. by symmetry in E; apply ctl_not_end in E; [|by eapply Hl..].
Qed.

Lemma minv_reach m : rtc mstep (mkMachine ∅ ∅) m -> minv m.
Proof.
  intros Hr. assert (minv (mkMachine ∅ ∅)) as Hi.
  { split; simpl; [by intros e p; rewrite lookup_empty|]. intros x. split; [set_solver|]. intros (e&p&Hp&_). by rewrite lookup_empty in Hp. }
  revert Hi. induction Hr as [|x y z Hxy _ IH]; [done|]. intros Hi. apply IH. by eapply minv_step.
Qed.

(** Servers whose testers answer alike behave alike. *)
Section same_tester.
  Context {V : Type} `{EqDecision V} `{SnapCodec V} {T : Type} (I1 I2 : @Itester V T).
  Context (Hc : forall i m ts, it_CheckLogs (Itester := I1) i m ts = it_CheckLogs (Itester := I2) i m ts).
  Context (Hl : forall i l ts, it_IngestLog (Itester := I1) i l ts = it_IngestLog (Itester := I2) i l ts).
  Context (He : forall i e ts, it_ApplyErr (Itester := I1) i e ts = it_ApplyErr (Itester := I2) i e ts).

Lemma applier_same m rs ts : applier (H := I1) m rs ts = applier (H := I2) m rs ts.
Proof.
  unfold applier. destruct (negb (CommandValid m)); [done|]. rewrite Hc.
  destruct (it_CheckLogs (Itester := I2) (rf_me rs) m ts) as [[ts' [err prevok]]|]; [|done]. simpl.
  destruct (if decide _ then _ else _) as [e|]; [apply He|done].
Qed.

Lemma applierSnap_same m rs ts : applierSnap (H := I1) m rs ts = applierSnap (H := I2) m rs ts.
Proof.
  unfold applierSnap. destruct (SnapshotValid m).
  - destruct (ingestSnap (RaftTest.Snapshot m) (SnapshotIndex m) rs) as [rs' err]. rewrite Hl.
    destruct (it_IngestLog (Itester := I2) (rf_me rs') (rf_log rs') ts) as [ts'|]; [|done]. simpl.
    destruct err; [by rewrite He|done].
  - destruct (CommandValid m); [|done]. destruct (decide (CommandIndex m <> i64 (lastApplied rs + 1))).
    + simpl. by rewrite He.
    + rewrite Hc. destruct (it_CheckLogs (Itester := I2) (rf_me rs) m ts) as [[ts' [err prevok]]|]; [|done]. simpl.
      destruct (if decide _ then _ else _) as [e|]; [by rewrite He|done].
Qed.
End same_tester.

(** Use [remote_call] at the method after [ms1]. *)
Ltac call_method ms1 m ms2 a st :=
  let E := fresh in
  pose proof (remote_call ms1 m ms2 a st) as E;
  cbn [app rm_name rm_Args rm_Reply rm_args rm_reply rm_handler] in E; rewrite E by set_solver; clear E.

(** ** Properties *)

Section properties.
  Context {V : Type} `{EqDecision V} `{SnapCodec V}.
  Context `{Codec RPCArgs} `{Codec unit} `{Codec GetStateReply} `{Codec (StartArgs V)} `{Codec StartReply}.
  Context `{Codec (@CheckLogsArgs V)} `{Codec (@CheckLogsReply V)} `{Codec (@IngestLogArgs V)} `{Codec (@ApplyErrArgs V)}.

Lemma tp_up i (ts : RaftTest.Test V) :
  (forall m, tp_CheckLogs true i m ts = RaftTest.CheckLogs i m ts)
  /\ (forall l, tp_IngestLog true i l ts = RaftTest.IngestLog i l ts)
  /\ (forall e, tp_ApplyErr true i e ts = RaftTest.ApplyErr i e ts).
Proof.
  split; [|split].
  - intros m. unfold tp_CheckLogs, Test_methods.
    call_method (@nil (rpc_method (RaftTest.Test V))) (mkRM "Test.CheckLogsRPC" CheckLogsRPC)
      [mkRM "Test.IngestLogRPC" IngestLogRPC; mkRM "Test.ApplyErrRPC" ApplyErrRPC] (mkCLArgs i m) ts.
    simpl. unfold CheckLogsRPC. simpl. by destruct (RaftTest.CheckLogs i m ts) as [[ts' [err prevok]]|].
  - intros l. unfold tp_IngestLog, Test_methods.
    call_method [mkRM "Test.CheckLogsRPC" CheckLogsRPC] (mkRM "Test.IngestLogRPC" IngestLogRPC)
      [mkRM "Test.ApplyErrRPC" ApplyErrRPC] (mkILArgs i l) ts.
    simpl. unfold IngestLogRPC. simpl. by destruct (RaftTest.IngestLog i l ts).
  - intros e. unfold tp_ApplyErr, Test_methods.
    call_method [mkRM "Test.CheckLogsRPC" CheckLogsRPC; mkRM "Test.IngestLogRPC" IngestLogRPC]
      (mkRM "Test.ApplyErrRPC" ApplyErrRPC) (@nil (rpc_method (RaftTest.Test V))) (mkAEArgs i e) ts.
    simpl. unfold ApplyErrRPC. simpl. by destruct (RaftTest.ApplyErr i e ts).
Qed.

(** C27: the processes of a Raft test are transparent.  Over the sockets, through marshalling and dispatch by
    name, the tester's [GetState] and [Start] return what the Raft library of the server
    returns, and the appliers of a server drive the tester's checks exactly as if they called them
    directly; when the calls do not arrive, the tester sees zeros and its records stay as they are. *)
Theorem raft_processes_transparent (rf : Raft.Raft) (command : V) m (rs : rfsrv V) (ts : RaftTest.Test V) :
  Rfproxy_GetState (V := V) true (Some rf) = Ret (Some rf, Raft.GetState rf)
  /\ Rfproxy_Start true command (Some rf) = Ret (Some rf, Raft.Start rf)
  /\ Rfproxy_GetState (V := V) false (Some rf) = Ret (Some rf, (0, false))
  /\ Rfproxy_Start false command (Some rf) = Ret (Some rf, (0, 0, false))
  /\ applier (H := proxy_Itester true) m rs ts = applier m rs ts
  /\ applierSnap (H := proxy_Itester true) m rs ts = applierSnap m rs ts
  /\ applier (H := proxy_Itester false) m rs ts = Ret ts.
Proof.
  assert (forall i m ts, tp_CheckLogs true i m ts = RaftTest.CheckLogs i m ts) as Hc by (intros i m' ts'; apply (tp_up i ts')).
  assert (forall i l ts, tp_IngestLog true i l ts = RaftTest.IngestLog i l ts) as Hl by (intros i l ts'; apply (tp_up i ts')).
  assert (forall i e ts, tp_ApplyErr true i e ts = RaftTest.ApplyErr i e ts) as He by (intros i e ts'; apply (tp_up i ts')).
  split_and!.
  - unfold Rfproxy_GetState, rfsrv_methods.
    call_method (@nil (rpc_method (option Raft.Raft))) (mkRM "rfsrv.GetStateRPC" GetStateRPC)
      [mkRM "rfsrv.StartRPC" (StartRPC (V := V))] tt (Some rf).
    done.
  - unfold Rfproxy_Start, rfsrv_methods.
    call_method [mkRM "rfsrv.GetStateRPC" GetStateRPC] (mkRM "rfsrv.StartRPC" (StartRPC (V := V)))
      (@nil (rpc_method (option Raft.Raft))) (mkStartArgs command) (Some rf).
    done.
  - done.
  - done.
  - by apply applier_same.
  - by apply applierSnap_same.
  - unfold applier. destruct (negb (CommandValid m)); [done|]. simpl. by case_decide.
Qed.
End properties.

(** The same for the state machine's test server. *)
Theorem rsm_process_transparent {St} (submit : Rsm.req -> St -> go (St * (Err * option Rsm.reply))) (get_counter : St -> Z)
    `{Codec RPCArgs} `{Codec SubmitArgs} `{Codec SubmitReply} `{Codec unit} `{Codec GetCounterReply} r st :
  RSMproxy_Submit submit get_counter true r st = submit r st
  /\ RSMproxy_GetCounter submit get_counter true st = Ret (st, get_counter st)
  /\ RSMproxy_Submit submit get_counter false r st = Ret (st, (""%string, None))
  /\ RSMproxy_GetCounter submit get_counter false st = Ret (st, 0).
Proof.
  split_and!; [| |done|done].
  - unfold RSMproxy_Submit, rsmSrv_methods.
    call_method (@nil (rpc_method St)) (mkRM "rsmSrv.SubmitRPC" (SubmitRPC submit))
      [mkRM "rsmSrv.GetCounterRPC" (GetCounterRPC get_counter)] (mkSubmitArgs r) st.
    simpl. unfold SubmitRPC. simpl. by destruct (submit r st) as [[st' [err rep]]|].
  - unfold RSMproxy_GetCounter, rsmSrv_methods.
    call_method [mkRM "rsmSrv.SubmitRPC" (SubmitRPC submit)] (mkRM "rsmSrv.GetCounterRPC" (GetCounterRPC get_counter))
      (@nil (rpc_method St)) tt st. done.
Qed.

(** Sockets are free when they are needed.  However processes with random names are started,
    begin to serve and are killed, no [Listen] fails on a file that is there: neither of a new
    process on its control socket nor of a starting process on its own; and when no process is
    left, neither is a file. *)
Theorem sockets_always_free m :
  rtc mstep (mkMachine ∅ ∅) m ->
  (forall e, String.length e = 20%nat -> m_daemons m !! e = None -> exists socks, listen (sockctl e) (m_socks m) = Ret socks)
  /\ (forall e, m_daemons m !! e = Some Starting -> exists socks, listen e (m_socks m) = Ret socks)
  /\ (m_daemons m = ∅ -> m_socks m = ∅).
Proof.
  intros Hm%minv_reach. unfold listen. split; [|split].
  - intros e He Hn. rewrite decide_False by (by apply listen_ctl). by eexists.
  - intros e He. rewrite decide_False by (by apply listen_end). by eexists.
  - intros E. apply set_eq. intros x. destruct Hm as [_ Hs]. rewrite Hs, E. split; [|set_solver].
    intros (e&p&Hp&_). by rewrite lookup_empty in Hp.
Qed.

(** A process that ends by itself leaves its files, and its name could not be used again. *)
Example leftover_socket e : listen e {[ SockName e ]} = Crash Fatal.
Proof. unfold listen. by rewrite decide_True by set_solver. Qed.

(** *** A concrete run *)

Definition name_a : string := "AAAAAAAAAAAAAAAAAAAA".

Lemma sockets_always_free_witness :
  exists m socks, m_daemons m !! name_a = Some Starting /\ listen name_a (m_socks m) = Ret socks.
Proof.
  destruct (sockets_always_free (mkMachine ({[ SockName (sockctl name_a) ]} ∪ ∅) (<[name_a := Starting]> ∅))) as (_&H&_).
  - apply rtc_once. apply (m_run name_a (mkMachine ∅ ∅)); [reflexivity|reflexivity|vm_compute; reflexivity].
  - destruct (H name_a) as [socks E]; [vm_compute; reflexivity|].
    exists (mkMachine ({[ SockName (sockctl name_a) ]} ∪ ∅) (<[name_a := Starting]> ∅)), socks.
    split; [vm_compute; reflexivity|exact E].
Defined.

(** Encodings for commands that are integers. *)

#[local] Instance unit_bits : Codec unit := bits_codec.
#[local] Existing Instance RPCArgs_codec.

#[local] Instance GSReply_eq_dec : EqDecision GetStateReply.
Proof. solve_decision. Defined.
#[local] Instance GSReply_countable : Countable GetStateReply.
Proof. refine (inj_countable' (fun r => (gs_Term r, gs_Leader r)) (fun '(t, l) => mkGSReply t l) _). by intros []. Defined.
#[local] Instance GSReply_codec : Codec GetStateReply := bits_codec.

#[local] Instance StartArgs_eq_dec : EqDecision (StartArgs Z).
Proof. solve_decision. Defined.
#[local] Instance StartArgs_countable : Countable (StartArgs Z).
Proof. refine (inj_countable' sa_Command mkStartArgs _). by intros []. Defined.
#[local] Instance StartArgs_codec : Codec (StartArgs Z) := bits_codec.

#[local] Instance StartReply_eq_dec : EqDecision StartReply.
Proof. solve_decision. Defined.
#[local] Instance StartReply_countable : Countable StartReply.
Proof. refine (inj_countable' (fun r => (st_Index r, st_Term r, st_Leader r)) (fun '(i, t, l) => mkStartReply i t l) _). by intros []. Defined.
#[local] Instance StartReply_codec : Codec StartReply := bits_codec.

#[local] Instance ApplyMsg_eq_dec : EqDecision (ApplyMsg Z).
Proof. solve_decision. Defined.
#[local] Instance ApplyMsg_countable : Countable (ApplyMsg Z).
Proof.
  refine (inj_countable' (fun m => (CommandValid m, Command m, CommandIndex m, SnapshotValid m, RaftTest.Snapshot m, SnapshotIndex m))
            (fun '(a, b, c, d, e, f) => mkApplyMsg a b c d e f) _). by intros [].
Defined.

(** The errors as a sum. *)
Abbreviation err_sum := (Z * nat * option Z * nat * option Z + (nat * Z + (nat * Z * Z + (nat + nat))))%type.

Definition err_to_sum (e : apply_err Z) : err_sum :=
  match e with
  | CommitMismatch a b c d e => inl (a, b, c, d, e)
  | OutOfOrder a b => inr (inl (a, b))
  | OutOfOrderExpected a b c => inr (inr (inl (a, b, c)))
  | NilSnapshot => inr (inr (inr (inl 0%nat)))
  | DecodeFailed => inr (inr (inr (inl 1%nat)))
  | SnapshotMismatch a => inr (inr (inr (inr a)))
  | RaftTest.ErrRPC => inr (inr (inr (inl 2%nat)))
  end.

Definition sum_to_err (s : err_sum) : apply_err Z :=
  match s with
  | inl (a, b, c, d, e) => CommitMismatch a b c d e
  | inr (inl (a, b)) => OutOfOrder a b
  | inr (inr (inl (a, b, c))) => OutOfOrderExpected a b c
  | inr (inr (inr (inl 0%nat))) => NilSnapshot
  | inr (inr (inr (inl 1%nat))) => DecodeFailed
  | inr (inr (inr (inl _))) => RaftTest.ErrRPC
  | inr (inr (inr (inr a))) => SnapshotMismatch a
  end.

#[local] Instance apply_err_eq : EqDecision (apply_err Z).
Proof. solve_decision. Defined.
#[local] Instance apply_err_countable : Countable (apply_err Z).
Proof. refine (inj_countable' err_to_sum sum_to_err _). by intros []. Defined.

#[local] Instance CLArgs_eq_dec : EqDecision (@CheckLogsArgs Z).
Proof. solve_decision. Defined.
#[local] Instance CLArgs_countable : Countable (@CheckLogsArgs Z).
Proof. refine (inj_countable' (fun r => (cl_Index r, cl_Msg r)) (fun '(i, m) => mkCLArgs i m) _). by intros []. Defined.
#[local] Instance CLArgs_codec : Codec (@CheckLogsArgs Z) := bits_codec.

#[local] Instance CLReply_eq_dec : EqDecision (@CheckLogsReply Z).
Proof. solve_decision. Defined.
#[local] Instance CLReply_countable : Countable (@CheckLogsReply Z).
Proof. refine (inj_countable' (fun r => (cl_Err r, cl_Prevok r)) (fun '(i, m) => mkCLReply i m) _). by intros []. Defined.
#[local] Instance CLReply_codec : Codec (@CheckLogsReply Z) := bits_codec.

#[local] Instance ILArgs_eq_dec : EqDecision (@IngestLogArgs Z).
Proof. solve_decision. Defined.
#[local] Instance ILArgs_countable : Countable (@IngestLogArgs Z).
Proof. refine (inj_countable' (fun r => (il_Index r, il_Log r)) (fun '(i, m) => mkILArgs i m) _). by intros []. Defined.
#[local] Instance ILArgs_codec : Codec (@IngestLogArgs Z) := bits_codec.

#[local] Instance AEArgs_eq_dec : EqDecision (@ApplyErrArgs Z).
Proof. solve_decision. Defined.
#[local] Instance AEArgs_countable : Countable (@ApplyErrArgs Z).
Proof. refine (inj_countable' (fun r => (ae_Index r, ae_Err r)) (fun '(i, m) => mkAEArgs i m) _). by intros []. Defined.
#[local] Instance AEArgs_codec : Codec (@ApplyErrArgs Z) := bits_codec.
#[local] Existing Instance bits_SnapCodec.

(** A server applies its first command, and the tester has it. *)
Lemma raft_processes_transparent_witness :
  applier (H := proxy_Itester true) (mkApplyMsg true (Some 7) 1 false None 0) (mkRfsrv 0 0 ∅) (RaftTest.mkTest [newRaftServer] 0)
  = applier (mkApplyMsg true (Some 7) 1 false None 0) (mkRfsrv 0 0 ∅) (RaftTest.mkTest [newRaftServer] 0).
Proof.
  destruct (raft_processes_transparent (V := Z) (Raft.Make 3 0 0 []) 7 (mkApplyMsg true (Some 7) 1 false None 0) (mkRfsrv 0 0 ∅)
              (RaftTest.mkTest [newRaftServer] 0)) as (_&_&_&_&H&_).
  exact H.
Defined.
