(* ===== verification/KvRun.v ===== *)
(** * Running a key/value test

    The rest of [src/src/kvtest1/kvtest.go]: the clients of a test and how the test stops
    them and collects their results ([SpawnClientsAndWait], [runClient]), and the goroutine
    that keeps repartitioning the servers ([Partitioner]); and how the tests of
    [src/src/kvsrv1/test.go] and [src/src/kvraft1/test.go] make and delete clerks.

    The makers of clerks are the interface [IClerkMaker] of the source, a class with the laws
    the test relies on; the two tests discharge it on the tester's configuration.  Clients,
    the test's own goroutine and everything else (the partitioner, the network) interleave
    freely; both kinds of channel are unbuffered. *)

From S2P Require Import Prelude Annotation Labrpc RaftTest TesterGroup TesterConfig.
Local Open Scope Z_scope.

(** ** Making clerks *)

(** [a] is the address of the client that is made. *)
Class IClerkMaker (G CK : Type) := {
  MakeClerk : nat -> G -> go (G * CK);
  DeleteClerk : CK -> G -> go G;
}.

(** In a good state both return and leave a good state. *)
Class ClerkMakerLaws (G CK : Type) `{IClerkMaker G CK} (inv : G -> Prop) := {
  make_clerk_ok a g : inv g -> exists g' ck, MakeClerk a g = Ret (g', ck) /\ inv g';
  delete_clerk_ok ck g : inv g -> exists g', DeleteClerk ck g = Ret g' /\ inv g';
}.

(** [kvsrv1]: a clerk for the one server. *)
Record TestKVClerk := mkTestKVClerk { tkv_clnt : nat; tkv_server : string }.

Definition MakeTestKV (rnd : nat -> nat -> string) (st : start_env) (reliable : bool) (now : Z) : go Config :=
  MakeConfig rnd st 1 reliable now.

Definition TestKV_MakeClerk (a : nat) (cfg : Config) : go (Config * TestKVClerk) :=
  cfg ← MakeClient a cfg;
  Ret (cfg, mkTestKVClerk a (ServerName GRP0 0)).

Definition TestKV_DeleteClerk (ck : TestKVClerk) (cfg : Config) : go Config := DeleteClient (tkv_clnt ck) cfg.

#[export] Instance TestKV_maker : IClerkMaker Config TestKVClerk :=
  {| MakeClerk := TestKV_MakeClerk; DeleteClerk := TestKV_DeleteClerk |}.

(** [kvraft1]: a clerk for all servers of the group, or one whose client is told to use only
    some of them. *)
Record KVRaftClerk := mkKVRaftClerk { kvr_clnt : nat; kvr_servers : list string }.

Definition group_names (cfg : Config) : go (list string) :=
  match Group GRP0 cfg with
  | None => Crash Panic
  | Some sg => Ret (SrvNames sg)
  end.

Definition kvraft_MakeClerk (a : nat) (cfg : Config) : go (Config * KVRaftClerk) :=
  cfg ← MakeClient a cfg;
  ns ← group_names cfg;
  Ret (cfg, mkKVRaftClerk a ns).

Definition kvraft_MakeClerkTo (a : nat) (to : list nat) (cfg : Config) : go (Config * KVRaftClerk) :=
  match Group GRP0 cfg with
  | None => Crash Panic
  | Some sg =>
      ns ← SrvNamesTo to sg;
      cfg ← MakeClientTo a (Some ns) cfg;
      ns ← group_names cfg;
      Ret (cfg, mkKVRaftClerk a ns)
  end.

Definition kvraft_DeleteClerk (ck : KVRaftClerk) (cfg : Config) : go Config := DeleteClient (kvr_clnt ck) cfg.

#[export] Instance kvraft_maker : IClerkMaker Config KVRaftClerk :=
  {| MakeClerk := kvraft_MakeClerk; DeleteClerk := kvraft_DeleteClerk |}.

(** ** [Partitioner] *)

(** The servers whose entry is [side]. *)
Definition side_of (a : list Z) (side : Z) : list nat :=
  filter (fun j => a !! j = Some side) (seq 0 (length a)).

(** One turn: [rnd] are the (non-negative) numbers drawn, one for each server. *)
Definition partition_turn (gid t : Z) (rnd : nat -> Z) (cfg : Config) (st : tester_state) : go (Config * tester_state) :=
  match Group gid cfg with
  | None => Crash Panic
  | Some sg =>
      let a := (fun i => rnd i mod 2) <$> seq 0 (N sg) in
      let pa0 := side_of a 0 in
      let pa1 := side_of a 1 in
      cfg ← on_group gid (Partition pa0 pa1) cfg;
      Ret (cfg, AnnotateTwoPartitions t pa0 pa1 st)
  end.

(** The loop: the turns that are taken before the test writes to the channel. *)
Fixpoint Partitioner (gid : Z) (turns : list (Z * (nat -> Z))) (cfg : Config) (st : tester_state)
    : go (Config * tester_state) :=
  match turns with
  | [] => Ret (cfg, st)
  | (t, rnd) :: rest =>
      '(cfg, st) ← partition_turn gid t rnd cfg st;
      Partitioner gid rest cfg st
  end.

(** ** [SpawnClientsAndWait] *)

Section spawn.
  Context {G CK : Type} `{IClerkMaker G CK}.
  (** The state of a client's function, what one turn of its loop does, when a turn calls
      [Fatalf], and what the function returns; [env] is what everything else does. *)
  Context {St R : Type} (init : nat -> St) (body : nat -> CK -> G * St -> G * St -> Prop).
  Context (fails : nat -> CK -> G * St -> Prop) (result : nat -> St -> R).
  Context (env : G -> G -> Prop).

(** A client: not started; at the [select] of its loop; in a turn; returned and sending its
    result; deleting its clerk; gone; ended by [Fatalf] (which only ends the goroutine that
    calls it: nothing is sent, the clerk is not deleted). *)
Inductive client :=
  | CStart
  | CSelect (ck : CK) (st : St)
  | CBusy (ck : CK) (st : St)
  | CResult (ck : CK) (v : R)
  | CDelete (ck : CK) (v : R)
  | CGone (v : R)
  | CFailed.

(** The test: asleep; about to send on [done] for the [k]-th time; blocked in that send;
    collecting; returned. *)
Inductive spawner :=
  | MSleep
  | MNext (k : nat)
  | MSend (k : nat)
  | MCollect (rs : list R)
  | MReturn (rs : list R).

Record spawn := mkSpawn { sp_g : G; sp_main : spawner; sp_clients : list client }.

(** [select] takes [done] whenever somebody is blocked in a send, and [default] otherwise. *)
Definition blocked_in_send (m : spawner) : bool := match m with MSend _ => true | _ => false end.

(** A step of a client or of the test. *)
Inductive sp_step : spawn -> go spawn -> Prop :=
  | sp_make g m cs i a :
      cs !! i = Some CStart ->
      sp_step (mkSpawn g m cs) ('(g, ck) ← MakeClerk a g; Ret (mkSpawn g m (<[i := CSelect ck (init i)]> cs)))
  | sp_default g m cs i ck st :
      cs !! i = Some (CSelect ck st) -> blocked_in_send m = false ->
      sp_step (mkSpawn g m cs) (Ret (mkSpawn g m (<[i := CBusy ck st]> cs)))
  | sp_body g m cs i ck st g' st' :
      cs !! i = Some (CBusy ck st) -> body i ck (g, st) (g', st') ->
      sp_step (mkSpawn g m cs) (Ret (mkSpawn g' m (<[i := CSelect ck st']> cs)))
  | sp_fail g m cs i ck st :
      cs !! i = Some (CBusy ck st) -> fails i ck (g, st) ->
      sp_step (mkSpawn g m cs) (Ret (mkSpawn g m (<[i := CFailed]> cs)))
  | sp_wake g cs : sp_step (mkSpawn g MSleep cs) (Ret (mkSpawn g (MNext 0) cs))
  | sp_send g cs k :
      (k < length cs)%nat -> sp_step (mkSpawn g (MNext k) cs) (Ret (mkSpawn g (MSend k) cs))
  | sp_done g cs k i ck st :
      cs !! i = Some (CSelect ck st) ->
      sp_step (mkSpawn g (MSend k) cs) (Ret (mkSpawn g (MNext (S k)) (<[i := CResult ck (result i st)]> cs)))
  | sp_collect g cs k :
      ~ (k < length cs)%nat -> sp_step (mkSpawn g (MNext k) cs) (Ret (mkSpawn g (MCollect []) cs))
  | sp_receive g cs rs ck v :
      cs !! length rs = Some (CResult ck v) ->
      sp_step (mkSpawn g (MCollect rs) cs)
        (Ret (mkSpawn g (MCollect (rs ++ [v])) (<[length rs := CDelete ck v]> cs)))
  | sp_return g cs rs :
      length rs = length cs -> sp_step (mkSpawn g (MCollect rs) cs) (Ret (mkSpawn g (MReturn rs) cs))
  | sp_delete g m cs i ck v :
      cs !! i = Some (CDelete ck v) ->
      sp_step (mkSpawn g m cs) (g ← DeleteClerk ck g; Ret (mkSpawn g m (<[i := CGone v]> cs))).

(** All steps, with those of everything else. *)
Inductive sp_run_step : spawn -> spawn -> Prop :=
  | sp_own s s' : sp_step s (Ret s') -> sp_run_step s s'
  | sp_env g g' m cs : env g g' -> sp_run_step (mkSpawn g m cs) (mkSpawn g' m cs).

Definition sp_init (n : nat) (g : G) : spawn := mkSpawn g MSleep (replicate n CStart).
End spawn.
Arguments client : clear implicits.
Arguments spawner : clear implicits.
Arguments spawn : clear implicits.

(** ** Lemmas: the clients *)

Section spawn_lemmas.
  Context {G CK : Type} `{IClerkMaker G CK} (inv : G -> Prop) `{!ClerkMakerLaws G CK inv}.
  Context {St R : Type} (init : nat -> St) (body : nat -> CK -> G * St -> G * St -> Prop).
  Context (fails : nat -> CK -> G * St -> Prop) (result : nat -> St -> R).
  Context (env : G -> G -> Prop).
  Context (body_ok : forall i ck g st g' st', inv g -> body i ck (g, st) (g', st') -> inv g').
  Context (env_ok : forall g g', inv g -> env g g' -> inv g').

  Local Abbreviation client := (client CK St R).
  Local Abbreviation step := (sp_step init body fails result).
  Local Abbreviation run_step := (sp_run_step init body fails result env).

(** Whether a client has taken a [done]. *)
Definition left_loop (c : client) : bool :=
  match c with CStart | CSelect _ _ | CBusy _ _ | CFailed => false | _ => true end.

(** How many have. *)
Definition nleft (cs : list client) : nat := length (filter (fun c => left_loop c = true) cs).

(** A client waiting to be collected, and one that was. *)
Definition offering (c : client) : Prop := exists ck v, c = CResult ck v.
Definition collected (c : client) (v : R) : Prop := (exists ck, c = CDelete ck v) \/ c = CGone v.

Definition main_ok (m : spawner R) (cs : list client) : Prop :=
  match m with
  | MSleep => nleft cs = 0%nat
  | MNext k => nleft cs = k /\ (k <= length cs)%nat /\ forall c, c ∈ cs -> left_loop c = true -> offering c
  | MSend k => nleft cs = k /\ (k < length cs)%nat /\ forall c, c ∈ cs -> left_loop c = true -> offering c
  | MCollect rs =>
      (length rs <= length cs)%nat
      /\ (forall i c, cs !! i = Some c -> (length rs <= i)%nat -> offering c)
      /\ forall i c v, cs !! i = Some c -> rs !! i = Some v -> collected c v
  | MReturn rs => length rs = length cs /\ forall i c v, cs !! i = Some c -> rs !! i = Some v -> collected c v
  end.

Definition sinv (s : spawn G CK St R) : Prop := inv (sp_g s) /\ main_ok (sp_main s) (sp_clients s).

(** *** Counting *)

Lemma nleft_insert cs i c c' :
  cs !! i = Some c ->
  nleft (<[i := c']> cs) = (nleft cs - Nat.b2n (left_loop c) + Nat.b2n (left_loop c'))%nat
  /\ (Nat.b2n (left_loop c) <= nleft cs)%nat.
Proof.
  intros Hi. unfold nleft. rewrite insert_take_drop by (by eapply lookup_lt_Some).
  assert (length (filter (fun c => left_loop c = true) cs)
          = length (filter (fun c => left_loop c = true) (take i cs ++ c :: drop (S i) cs))) as ->
    by (by rewrite take_drop_middle).
  rewrite !list.filter_app, !list.filter_cons, !length_app.
  destruct (left_loop c), (left_loop c'); simpl; lia.
Qed.

Lemma nleft_le cs : (nleft cs <= length cs)%nat.
Proof. apply length_filter. Qed.

Lemma nleft_all cs : nleft cs = length cs -> forall c, c ∈ cs -> left_loop c = true.
Proof.
  unfold nleft. induction cs as [|c cs IH]; intros Hn d Hd; [by apply elem_of_nil in Hd|].
  pose proof (nleft_le cs) as Hle. unfold nleft in Hle.
  rewrite list.filter_cons in Hn. destruct (decide (left_loop c = true)) as [Hc|Hc]; simpl in Hn; [|lia].
  apply elem_of_cons in Hd as [->|Hd]; [done|]. apply IH; [lia|done].
Qed.

Lemma nleft_some cs : (nleft cs < length cs)%nat -> exists i c, cs !! i = Some c /\ left_loop c = false.
Proof.
  unfold nleft. induction cs as [|c cs IH]; simpl; [lia|]. rewrite list.filter_cons. intros Hn.
  destruct (decide (left_loop c = true)) as [Hc|Hc]; simpl in Hn.
  - destruct IH as (i&d&Hi&Hd); [lia|]. by exists (S i), d.
  - exists 0%nat, c. split; [done|]. by destruct (left_loop c).
Qed.

(** *** The invariant *)

Lemma main_ok_left m cs i c :
  main_ok m cs -> cs !! i = Some c -> left_loop c = true -> exists rs, m <> MSleep /\ (offering c \/
    ((m = MCollect rs \/ m = MReturn rs) /\ exists v, rs !! i = Some v /\ collected c v)).
Proof.
  intros Hm Hi Hc. destruct m as [|k|k|rs|rs]; simpl in Hm.
  - exfalso. destruct (nleft_insert cs i c c Hi) as [_ Hle]. rewrite Hc, Hm in Hle. simpl in Hle. lia.
  - exists []. split; [done|]. left. apply Hm; [by eapply list_elem_of_lookup_2|done].
  - exists []. split; [done|]. left. apply Hm; [by eapply list_elem_of_lookup_2|done].
  - exists rs. split; [done|]. destruct Hm as (Hle&Ho&Hcol).
    destruct (rs !! i) as [v|] eqn:Hv; [right; split; [by left|by eauto]|].
    left. apply (Ho i); [done|]. by apply lookup_ge_None.
  - exists rs. split; [done|]. right. split; [by right|]. destruct Hm as (Hle&Hcol).
    destruct (lookup_lt_is_Some_2 rs i) as [v Hv]; [rewrite Hle; by eapply lookup_lt_Some|]. eauto.
Qed.

(** Before the collection starts, and during it, a client in its loop. *)
Lemma main_ok_in_loop m cs i c :
  main_ok m cs -> cs !! i = Some c -> left_loop c = false ->
  m = MSleep \/ (exists k, m = MNext k) \/ (exists k, m = MSend k).
Proof.
  intros Hm Hi Hc. destruct m as [|k|k|rs|rs]; [by auto|by eauto|by eauto|exfalso|exfalso].
  - destruct Hm as (Hle&Ho&Hcol). destruct (rs !! i) as [v|] eqn:Hv.
    + by destruct (Hcol i c v Hi Hv) as [[ck ->]| ->].
    + by destruct (Ho i c Hi) as (ck&v&->); [by apply lookup_ge_None|].
  - destruct Hm as (Hle&Hcol).
    destruct (lookup_lt_is_Some_2 rs i) as [v Hv]; [rewrite Hle; by eapply lookup_lt_Some|].
    by destruct (Hcol i c v Hi Hv) as [[ck ->]| ->].
Qed.

(** Every client of a changed list is a new one or an old one. *)
Lemma offering_insert (cs : list client) i c :
  (left_loop c = true -> offering c) -> (forall d, d ∈ cs -> left_loop d = true -> offering d) ->
  forall d, d ∈ <[i := c]> cs -> left_loop d = true -> offering d.
Proof.
  intros Hc Hcs d (j&Hj)%list_elem_of_lookup. apply list_lookup_insert_Some in Hj as [(_&<-&_)|[_ Hj]]; [done|].
  apply Hcs. by eapply list_elem_of_lookup_2.
Qed.

Lemma main_ok_loop m cs i c c' :
  main_ok m cs -> cs !! i = Some c -> left_loop c = false -> left_loop c' = false -> main_ok m (<[i := c']> cs).
Proof.
  intros Hm Hi Hc Hc'. destruct (nleft_insert cs i c c' Hi) as [E _]. rewrite Hc, Hc' in E. simpl in E.
  destruct (main_ok_in_loop m cs i c Hm Hi Hc) as [->|[[k ->]|[k ->]]]; simpl in *; rewrite ?length_insert.
  - lia.
  - destruct Hm as (H1&H2&H3). split; [lia|]. split; [lia|]. apply offering_insert; [congruence|done].
  - destruct Hm as (H1&H2&H3). split; [lia|]. split; [lia|]. apply offering_insert; [congruence|done].
Qed.

Lemma main_ok_delete m cs i ck v :
  main_ok m cs -> cs !! i = Some (CDelete ck v) -> main_ok m (<[i := CGone v]> cs).
Proof.
  intros Hm Hi. destruct (main_ok_left m cs i _ Hm Hi eq_refl) as (rs&_&[(?&?&[=])|[Hm' (w&Hw&Hc)]]).
  assert (w = v) as -> by (destruct Hc as [[ck' [=]]|[=]]; done).
  assert (forall j c u, <[i := CGone v]> cs !! j = Some c -> rs !! j = Some u ->
    (forall j c u, cs !! j = Some c -> rs !! j = Some u -> collected c u) -> collected c u) as Hcol.
  { intros j c u Hj Hu Hcol. apply list_lookup_insert_Some in Hj as [(->&<-&_)|[_ Hj]]; [|by eapply Hcol].
    right. congruence. }
  destruct Hm' as [->| ->]; simpl in *; rewrite length_insert.
  - destruct Hm as (Hle&Ho&Hcs). split; [done|]. split; [|by eauto].
    intros j c Hj Hge. apply list_lookup_insert_Some in Hj as [(->&_&_)|[_ Hj]]; [|by eapply Ho].
    apply lookup_lt_Some in Hw. lia.
  - destruct Hm as (Hle&Hcs). split; [done|by eauto].
Qed.

Lemma main_ok_done k cs i ck st :
  main_ok (MSend k) cs -> cs !! i = Some (CSelect ck st) -> main_ok (MNext (S k)) (<[i := CResult ck (result i st)]> cs).
Proof.
  intros (H1&H2&H3) Hi. destruct (nleft_insert cs i _ (CResult ck (result i st)) Hi) as [E _]. simpl in *.
  rewrite length_insert. split; [lia|]. split; [lia|]. apply offering_insert; [intros _; by eexists _, _|done].
Qed.

Lemma main_ok_receive rs cs ck v :
  main_ok (MCollect rs) cs -> cs !! length rs = Some (CResult ck v) ->
  main_ok (MCollect (rs ++ [v])) (<[length rs := CDelete ck v]> cs).
Proof.
  intros (Hle&Ho&Hcol) Hi. apply lookup_lt_Some in Hi as Hlt. simpl. rewrite length_insert, length_app. simpl.
  split; [lia|]. split.
  - intros j c Hj Hge. rewrite list_lookup_insert_ne in Hj by lia. apply (Ho j); [done|lia].
  - intros j c u Hj Hu. apply list_lookup_insert_Some in Hj as [(<-&<-&_)|[Hne Hj]].
    + left. exists ck. rewrite list_lookup_middle in Hu by done. by injection Hu as ->.
    + apply lookup_app_Some in Hu as [Hu|[Hge Hu]]; [by eapply Hcol|].
      apply list_lookup_singleton_Some in Hu as [E _]. lia.
Qed.

Lemma main_ok_collect k cs : main_ok (MNext k) cs -> ~ (k < length cs)%nat -> main_ok (MCollect []) cs.
Proof.
  intros (H1&H2&H3) Hk. simpl. split; [lia|]. split; [|done]. intros i c Hi _.
  assert (c ∈ cs) as Hc by (by eapply list_elem_of_lookup_2). apply H3; [done|]. apply (nleft_all cs); [lia|done].
Qed.

Lemma spinv_step s r : sinv s -> step s r -> exists s', r = Ret s' /\ sinv s'.
Proof.
  intros [Hg Hm] Hs. destruct Hs; simpl in *.
  - destruct (make_clerk_ok a g Hg) as (g'&ck&->&Hg'). run_go. eexists. split; [done|]. split; [done|].
    by eapply main_ok_loop.
  - eexists. split; [done|]. split; [done|]. by eapply main_ok_loop.
  - eexists. split; [done|]. split; [by eapply body_ok|]. by eapply main_ok_loop.
  - eexists. split; [done|]. split; [done|]. by eapply main_ok_loop.
  - eexists. split; [done|]. split; [done|]. simpl. split; [done|]. split; [lia|]. intros c Hc Hl.
    apply list_elem_of_lookup in Hc as [i Hi]. destruct (main_ok_left MSleep cs i c Hm Hi Hl) as (_&[]&_). done.
  - eexists. split; [done|]. split; [done|]. simpl. destruct Hm as (H1&_&H3). done.
  - eexists. split; [done|]. split; [done|]. by apply main_ok_done.
  - eexists. split; [done|]. split; [done|]. by eapply main_ok_collect.
  - eexists. split; [done|]. split; [done|]. by apply main_ok_receive.
  - eexists. split; [done|]. split; [done|]. simpl. destruct Hm as (_&_&H3). done.
  - destruct (delete_clerk_ok ck g Hg) as (g'&->&Hg'). run_go. eexists. split; [done|]. split; [done|].
    by eapply main_ok_delete.
Qed.

Lemma spinv_run s s' : sinv s -> rtc run_step s s' -> sinv s'.
Proof.
  intros Hs Hr. induction Hr as [|a b c Hab _ IH]; [done|]. apply IH. destruct Hab as [a b Hab|g g' m cs Hgg].
  - destruct (spinv_step a (Ret b) Hs Hab) as (b'&[= ->]&Hb). done.
  - destruct Hs as [Hg Hm]. split; [by eapply env_ok|done].
Qed.

Lemma spinv_init n g : inv g -> sinv (sp_init n g).
Proof.
  intros Hg. split; [done|]. simpl. unfold nleft. induction n as [|n IH]; [done|].
  cbn [replicate]. by rewrite list.filter_cons, decide_False by done.
Qed.

(** *** Progress *)

(** How much is left to do: for a client and for the test. *)
Definition client_to_go (c : client) : nat :=
  match c with CStart => 7 | CBusy _ _ => 6 | CSelect _ _ => 5 | CResult _ _ => 3 | CDelete _ _ => 2 | CFailed => 1 | CGone _ => 0 end.

Definition main_to_go (n : nat) (m : spawner R) : nat :=
  match m with
  | MSleep => 2 * n + 4 | MNext k => 2 * (n - k) + 3 | MSend k => 2 * (n - k) + 2 | MCollect _ => 1 | MReturn _ => 0
  end.

Definition clients_to_go (cs : list client) : nat := sum_list (client_to_go <$> cs).

Definition to_go (s : spawn G CK St R) : nat :=
  main_to_go (length (sp_clients s)) (sp_main s) + clients_to_go (sp_clients s).

Lemma clients_to_go_insert cs i c c' :
  cs !! i = Some c ->
  (clients_to_go (<[i := c']> cs) + client_to_go c = clients_to_go cs + client_to_go c')%nat.
Proof.
  unfold clients_to_go. revert i. induction cs as [|d cs IH]; intros [|i] Hi; simplify_eq/=; [lia|].
  specialize (IH i Hi). lia.
Qed.

Lemma clients_to_go_lt cs i c c' :
  cs !! i = Some c -> (client_to_go c' < client_to_go c)%nat -> (clients_to_go (<[i := c']> cs) < clients_to_go cs)%nat.
Proof. intros Hi Hlt. pose proof (clients_to_go_insert cs i c c' Hi). lia. Qed.

Lemma clients_to_go_0 cs : clients_to_go cs = 0%nat -> forall c, c ∈ cs -> exists v, c = CGone v.
Proof.
  unfold clients_to_go. induction cs as [|d cs IH]; intros E c Hc; [by apply elem_of_nil in Hc|]. csimpl in E.
  apply elem_of_cons in Hc as [->|Hc]; [|apply IH; [lia|done]]. destruct d; simpl in E; try lia. by eexists.
Qed.

Lemma clients_to_go_some cs : (0 < clients_to_go cs)%nat -> exists i c, cs !! i = Some c /\ (0 < client_to_go c)%nat.
Proof.
  unfold clients_to_go. induction cs as [|d cs IH]; csimpl; [lia|]. intros Hlt.
  destruct (decide (0 < client_to_go d)%nat) as [Hd|Hd]; [by exists 0%nat, d|].
  destruct IH as (i&c&Hi&Hc); [lia|]. by exists (S i), c.
Qed.

(** *** When no client fails and every turn ends *)

  Context (body_total : forall i ck g st, inv g -> exists g' st', body i ck (g, st) (g', st')).
  Context (no_failure : forall i ck g st, inv g -> ~ fails i ck (g, st)).

Definition unfailed (s : spawn G CK St R) : Prop := CFailed ∉ sp_clients s.

Lemma unfailed_insert (cs : list client) i c : CFailed ∉ cs -> c <> CFailed -> CFailed ∉ <[i := c]> cs.
Proof.
  intros Hcs Hc [j Hj]%list_elem_of_lookup. apply list_lookup_insert_Some in Hj as [(_&E&_)|[_ Hj]]; [by destruct Hc|].
  apply Hcs. by eapply list_elem_of_lookup_2.
Qed.

Lemma unfailed_step s s' : sinv s -> unfailed s -> step s (Ret s') -> unfailed s'.
Proof.
  intros [Hg _] Hu Hs. unfold unfailed in *. inversion Hs; subst; simpl in *; try done; try by apply unfailed_insert.
  - destruct (MakeClerk a g) as [[g' ck]|]; [|done]. cbn [mbind go_bind] in *. simplify_eq. by apply unfailed_insert.
  - by destruct (no_failure i ck g st Hg).
  - destruct (DeleteClerk ck g) as [g'|]; [|done]. cbn [mbind go_bind] in *. simplify_eq. by apply unfailed_insert.
Qed.

Lemma unfailed_run s s' : sinv s -> unfailed s -> rtc run_step s s' -> unfailed s'.
Proof.
  intros Hs Hu Hr. induction Hr as [|a b c Hab Hbc IH]; [done|].
  assert (sinv b) as Hb by (by eapply spinv_run; [|apply rtc_once]).
  apply IH; [done|]. inversion Hab as [a' b' Hst|]; subst; [exact (unfailed_step _ _ Hs Hu Hst)|done].
Qed.

(** While the test is blocked in a send, a client that has not taken its [done] can move. *)
Lemma send_progress g k cs :
  sinv (mkSpawn g (MSend k) cs) -> unfailed (mkSpawn g (MSend k) cs) ->
  exists s', step (mkSpawn g (MSend k) cs) (Ret s') /\ (to_go s' < to_go (mkSpawn g (MSend k) cs))%nat.
Proof.
  intros [Hg (H1&H2&_)] Hu. simpl in *. destruct (nleft_some cs) as (i&c&Hi&Hc); [lia|].
  destruct c as [|ck st|ck st| | | |]; try done; [| | |destruct Hu; by eapply list_elem_of_lookup_2].
  - destruct (make_clerk_ok 0%nat g Hg) as (g'&ck&E&_).
    eexists. split; [pose proof (sp_make init body fails result g (MSend k) cs i 0%nat Hi) as Hs; rewrite E in Hs; exact Hs|].
    unfold to_go. simpl. rewrite length_insert.
    pose proof (clients_to_go_lt cs i _ (CSelect ck (init i)) Hi ltac:(simpl; lia)). lia.
  - eexists. split; [by apply sp_done|]. unfold to_go. simpl. rewrite length_insert.
    pose proof (clients_to_go_lt cs i _ (CResult ck (result i st)) Hi ltac:(simpl; lia)). lia.
  - destruct (body_total i ck g st Hg) as (g'&st'&Hb). eexists. split; [by eapply sp_body|].
    unfold to_go. simpl. rewrite length_insert.
    pose proof (clients_to_go_lt cs i _ (CSelect ck st') Hi ltac:(simpl; lia)). lia.
Qed.

Lemma sp_progress s :
  sinv s -> unfailed s -> (0 < to_go s)%nat -> exists s', step s (Ret s') /\ (to_go s' < to_go s)%nat.
Proof.
  destruct s as [g m cs]. intros Hs Hu Hpos. pose proof Hs as [Hg Hm]. destruct m as [|k|k|rs|rs]; simpl in Hm.
  - eexists. split; [apply sp_wake|]. unfold to_go. simpl. lia.
  - destruct (decide (k < length cs)%nat) as [Hk|Hk].
    + eexists. split; [by apply sp_send|]. unfold to_go. simpl. lia.
    + eexists. split; [by eapply sp_collect|]. unfold to_go. simpl. lia.
  - by apply send_progress.
  - destruct Hm as (Hle&Ho&_). destruct (decide (length rs = length cs)) as [E|Hne].
    + eexists. split; [by apply sp_return|]. unfold to_go. simpl. lia.
    + destruct (lookup_lt_is_Some_2 cs (length rs)) as [c Hc]; [lia|].
      destruct (Ho _ c Hc ltac:(lia)) as (ck&v&->). eexists. split; [by apply sp_receive|].
      unfold to_go. simpl.
      pose proof (clients_to_go_lt cs _ _ (CDelete ck v) Hc ltac:(simpl; lia)). lia.
  - destruct (clients_to_go_some cs) as (i&c&Hi&Hc); [unfold to_go in Hpos; simpl in Hpos; lia|].
    destruct Hm as [Hlen Hcol]. destruct (lookup_lt_is_Some_2 rs i) as [v Hv]; [rewrite Hlen; by eapply lookup_lt_Some|].
    destruct (Hcol i c v Hi Hv) as [[ck ->]| ->]; [|simpl in Hc; lia].
    destruct (delete_clerk_ok ck g Hg) as (g'&E&_).
    eexists. split; [pose proof (sp_delete init body fails result g (MReturn rs) cs i ck v Hi) as Hd; rewrite E in Hd; exact Hd|].
    unfold to_go. simpl. pose proof (clients_to_go_lt cs i _ (CGone v) Hi ltac:(simpl; lia)). lia.
Qed.

Lemma sp_finishes s : sinv s -> unfailed s -> exists s' rs, rtc run_step s s' /\ sp_main s' = MReturn rs
  /\ forall c, c ∈ sp_clients s' -> exists v, c = CGone v.
Proof.
  remember (to_go s) as m eqn:Hm. revert s Hm. induction (lt_wf m) as [m _ IH]. intros s -> Hs Hu.
  destruct (decide (to_go s = 0%nat)) as [E|Hne].
  - exists s. unfold to_go in E. destruct (sp_main s) as [| | | |rs] eqn:Hmain; simpl in E; try lia.
    exists rs. split; [done|]. split; [done|]. apply clients_to_go_0. lia.
  - destruct (sp_progress s Hs Hu) as (s1&H1&Hlt); [lia|].
    destruct (spinv_step s (Ret s1) Hs H1) as (s1'&[= <-]&Hs1).
    destruct (IH (to_go s1) Hlt s1 eq_refl Hs1 (unfailed_step _ _ Hs Hu H1)) as (s'&rs&Hr&Hrest). exists s', rs.
    split; [|done]. eapply rtc_l; [by apply sp_own|done].
Qed.

(** While the test is blocked in a send no client starts a turn. *)
Lemma send_step g k cs s' :
  sinv (mkSpawn g (MSend k) cs) -> step (mkSpawn g (MSend k) cs) (Ret s') ->
  sp_main s' = MNext (S k) \/ sp_main s' = MSend k /\ (clients_to_go (sp_clients s') < clients_to_go cs)%nat.
Proof.
  intros Hs Hst. inversion Hst; subst; simpl in *; try done; try (by left).
  - right. destruct (MakeClerk a g) as [[g' ck]|]; [|done]. cbn [mbind go_bind] in *. simplify_eq. simpl.
    split; [done|]. eapply clients_to_go_lt; [done|simpl; lia].
  - right. split; [done|]. eapply clients_to_go_lt; [done|simpl; lia].
  - right. split; [done|]. eapply clients_to_go_lt; [done|simpl; lia].
  - right. destruct (DeleteClerk ck g) as [g'|]; [|done]. cbn [mbind go_bind] in *. simplify_eq. simpl.
    split; [done|]. eapply clients_to_go_lt; [done|simpl; lia].
Qed.
End spawn_lemmas.

(** Nobody revives a client that failed. *)
Lemma failed_stays {G CK} `{IClerkMaker G CK} {St R} (init : nat -> St) (body : nat -> CK -> G * St -> G * St -> Prop)
    (fails : nat -> CK -> G * St -> Prop) (result : nat -> St -> R) (env : G -> G -> Prop) s s' :
  CFailed ∈ sp_clients s -> rtc (sp_run_step init body fails result env) s s' -> CFailed ∈ sp_clients s'.
Proof.
  intros Hf Hr. induction Hr as [|a b c Hab _ IH]; [done|]. apply IH. clear IH c.
  assert (forall (cs : list (client CK St R)) i c c', cs !! i = Some c -> c <> CFailed -> CFailed ∈ cs -> CFailed ∈ <[i := c']> cs) as Hins.
  { intros cs i c c' Hi Hc [j Hj]%list_elem_of_lookup. apply list_elem_of_lookup. exists j.
    rewrite list_lookup_insert_ne; [done|]. intros ->. congruence. }
  destruct Hab as [a b Hab|]; [|done]. inversion Hab; subst; simpl in *; try done; try by eapply Hins.
  - destruct (MakeClerk a0 g) as [[g' ck]|]; [|done]. cbn [mbind go_bind] in *. simplify_eq. by eapply Hins.
  - destruct (DeleteClerk ck g) as [g'|]; [|done]. cbn [mbind go_bind] in *. simplify_eq. by eapply Hins.
Qed.

(** ** Lemmas: the configuration *)

(** A configuration in use: sound, with its client table and its first group. *)
Definition cfg_ok (cfg : Config) : Prop :=
  cinv cfg /\ is_Some (c_clerks cfg) /\ is_Some (Group GRP0 cfg).

Lemma cfg_ok_MakeClient a cfg : cfg_ok cfg -> exists cfg', MakeClient a cfg = Ret cfg' /\ cfg_ok cfg'.
Proof.
  intros (Hc&[m Hm]&Hg). destruct (MakeClient_spec a m cfg Hc Hm) as (cfg'&E&Hc'&Hu). exists cfg'.
  split; [done|]. split; [done|]. destruct (Hu GRP0) as [Hgr _]. split; [|by rewrite Hgr].
  unfold MakeClient, MakeClientTo in E. rewrite Hm in E. injection E as <-. by eexists.
Qed.

Lemma cfg_ok_DeleteClient c cfg : cfg_ok cfg -> exists cfg', DeleteClient c cfg = Ret cfg' /\ cfg_ok cfg'.
Proof.
  intros (Hc&[m Hm]&Hg). destruct (DeleteClient_spec c cfg Hc) as (cfg'&E&Hc'&Hu). exists cfg'.
  split; [done|]. split; [done|]. destruct (Hu GRP0) as [Hgr _]. split; [|by rewrite Hgr].
  unfold DeleteClient in E. rewrite Hm in E. cbn in E. destruct (m !! c) as [clnt|]; cbn in E.
  - destruct (clnt_remove clnt (c_net cfg)) as [rn|]; [|done]. cbn in E. injection E as <-. by eexists.
  - injection E as <-. by eexists.
Qed.

#[export] Instance TestKV_laws : ClerkMakerLaws Config TestKVClerk cfg_ok.
Proof.
  split.
  - intros a cfg Hc. destruct (cfg_ok_MakeClient a cfg Hc) as (cfg'&E&Hc'). simpl. unfold TestKV_MakeClerk.
    rewrite E. run_go. by eexists _, _.
  - intros ck cfg Hc. by apply cfg_ok_DeleteClient.
Qed.

#[export] Instance kvraft_laws : ClerkMakerLaws Config KVRaftClerk cfg_ok.
Proof.
  split.
  - intros a cfg Hc. destruct (cfg_ok_MakeClient a cfg Hc) as (cfg'&E&Hc'). simpl. unfold kvraft_MakeClerk.
    rewrite E. run_go. destruct Hc' as (H1&H2&[sg Hg]) eqn:Hok. unfold group_names. rewrite Hg. run_go. by eexists _, _.
  - intros ck cfg Hc. by apply cfg_ok_DeleteClient.
Qed.

(** ** Lemmas: the partitioner *)

Lemma elem_of_side_of a side j : j ∈ side_of a side <-> a !! j = Some side.
Proof.
  unfold side_of. rewrite list_elem_of_filter, elem_of_seq. split; [tauto|]. intros Hj. split; [done|].
  apply lookup_lt_Some in Hj. lia.
Qed.

(** The numbers drawn, modulo 2. *)
Definition coins (n : nat) (rnd : nat -> Z) : list Z := (fun i => rnd i mod 2) <$> seq 0 n.

Lemma coins_lookup n rnd j c : coins n rnd !! j = Some c <-> (j < n)%nat /\ c = rnd j mod 2.
Proof.
  unfold coins. rewrite list_lookup_fmap_Some. setoid_rewrite lookup_seq. naive_solver lia.
Qed.

Lemma elem_of_coin_side n rnd side j : j ∈ side_of (coins n rnd) side <-> (j < n)%nat /\ side = rnd j mod 2.
Proof. by rewrite elem_of_side_of, coins_lookup. Qed.

(** What one turn of the partitioner does to a group. *)
Definition split_by (gid : Z) (rnd : nat -> Z) (n : nat) (cfg : Config) : Prop :=
  exists sg, Group gid cfg = Some sg /\ N sg = n
    /\ (forall i, (i < n)%nat -> is_conn sg i)
    /\ forall i j, (i < n)%nat -> (j < n)%nat ->
         link sg (c_net cfg) i j = bool_decide (rnd i mod 2 = rnd j mod 2).

(** The annotation that is under way for the cut. *)
Definition cut_text (p1 p2 : list nat) : string := ("partition = " +:+ show_ints p1 +:+ " " +:+ show_ints p2)%string.

Definition cut_shown (t : Z) (p1 p2 : list nat) (st : tester_state) : Prop :=
  continuous (annotation st) !! TAG_PARTITION = Some (mkCont t (cut_text p1 p2) (cut_text p1 p2) COLOR_FAULT).

Lemma AnnotateTwoPartitions_shows t p1 p2 st : cut_shown t p1 p2 (AnnotateTwoPartitions t p1 p2 st).
Proof.
  unfold cut_shown, AnnotateTwoPartitions, annotateContinuousColor, with_an. simpl.
  destruct (continuous (annotation st) !! TAG_PARTITION); simpl; by rewrite lookup_insert_eq.
Qed.

Lemma coin_cases r : r mod 2 = 0 \/ r mod 2 = 1.
Proof. pose proof (Z.mod_pos_bound r 2). lia. Qed.

Lemma partition_turn_spec gid t rnd cfg st sg :
  cinv cfg -> Group gid cfg = Some sg ->
  exists cfg' st', partition_turn gid t rnd cfg st = Ret (cfg', st') /\ cinv cfg'
    /\ split_by gid rnd (N sg) cfg' /\ c_clerks cfg' = c_clerks cfg
    /\ cut_shown t (side_of (coins (N sg) rnd) 0) (side_of (coins (N sg) rnd) 1) st'
    /\ forall g, g <> gid -> undisturbed g cfg cfg'.
Proof.
  intros Hc Hg. unfold partition_turn. rewrite Hg. fold (coins (N sg) rnd). unfold Group in Hg.
  set (p0 := side_of (coins (N sg) rnd) 0). set (p1 := side_of (coins (N sg) rnd) 1).
  assert (in_group sg p0 /\ in_group sg p1) as [H0 H1]
    by (split; apply list.Forall_forall; intros j Hj%elem_of_coin_side; tauto).
  pose proof (cinv_good _ _ _ Hc Hg) as Hgood.
  destruct (Partition_spec sg (c_net cfg) p0 p1 Hgood H0 H1) as (sg'&rn'&E&_&Hin&Hout&Hconn).
  { intros x Hx%elem_of_coin_side Hy%elem_of_coin_side. lia. }
  destruct (Partition_quiet p0 p1 sg (c_net cfg) Hgood H0 H1) as (sg''&rn''&E'&Q).
  rewrite E in E'. injection E' as <- <-. unfold on_group, Group. rewrite Hg, E. run_go.
  eexists _, _. split; [done|]. split; [by eapply cinv_quiet|]. split; [|split; [done|split]].
  - exists sg'. split; [unfold Group; simpl; by rewrite lookup_insert_eq|]. split; [by apply (quiet_N _ _ _ _ Q)|].
    assert (forall i, (i < N sg)%nat -> i ∈ p0 /\ rnd i mod 2 = 0 \/ i ∈ p1 /\ rnd i mod 2 = 1) as Hs.
    { intros i Hi. destruct (coin_cases (rnd i)) as [Er|Er]; [left|right]; split; try done; by apply elem_of_coin_side. }
    split; [intros i Hi; apply Hconn, elem_of_app; destruct (Hs i Hi); tauto|]. intros i j Hi Hj. simpl.
    destruct (Hs i Hi) as [[Hi' ->]|[Hi' ->]], (Hs j Hj) as [[Hj' ->]|[Hj' ->]];
      [rewrite Hin by (by left)|rewrite (proj1 (Hout i j Hi' Hj'))|rewrite (proj2 (Hout j i Hj' Hi'))|rewrite Hin by (by right)]; done.
  - apply AnnotateTwoPartitions_shows.
  - intros g Hne. by eapply undisturbed_quiet.
Qed.

Lemma split_by_group gid rnd n cfg : split_by gid rnd n cfg -> exists sg, Group gid cfg = Some sg /\ N sg = n.
Proof. intros (sg&Hg&HN&_). by exists sg. Qed.

Lemma undisturbed_refl g cfg : undisturbed g cfg cfg.
Proof. done. Qed.

(** The table of clients is kept and other groups are left alone. *)
Lemma Partitioner_spec gid turns : forall cfg st sg,
  cinv cfg -> Group gid cfg = Some sg ->
  exists cfg' st' sg', Partitioner gid turns cfg st = Ret (cfg', st') /\ cinv cfg'
    /\ Group gid cfg' = Some sg' /\ N sg' = N sg /\ c_clerks cfg' = c_clerks cfg
    /\ forall g, g <> gid -> undisturbed g cfg cfg'.
Proof.
  induction turns as [|[t rnd] turns IH]; intros cfg st sg Hc Hg; [by exists cfg, st, sg|].
  cbn [Partitioner]. destruct (partition_turn_spec gid t rnd cfg st sg Hc Hg) as (cfg1&st1&->&Hc1&Hs1&Hk1&_&Hu1). run_go.
  destruct (split_by_group _ _ _ _ Hs1) as (sg1&Hg1&HN1).
  destruct (IH cfg1 st1 sg1 Hc1 Hg1) as (cfg'&st'&sg'&->&Hc'&Hg'&HN'&Hk'&Hu').
  exists cfg', st', sg'. split; [done|]. split; [done|]. split; [done|]. split; [congruence|]. split; [congruence|].
  intros g Hne. eapply undisturbed_trans; eauto.
Qed.

Lemma Partitioner_app gid l1 l2 : forall cfg st,
  Partitioner gid (l1 ++ l2) cfg st = r ← Partitioner gid l1 cfg st; Partitioner gid l2 r.1 r.2.
Proof.
  induction l1 as [|[t rnd] l1 IH]; intros cfg st; [done|]. cbn [Partitioner app].
  destruct (partition_turn gid t rnd cfg st) as [[cfg' st']|]; [|done]. apply IH.
Qed.

(** ** Properties *)

(** C32: stopping the clients of a test.  Over any maker of clerks that keeps its laws, and
    whatever else happens meanwhile, [SpawnClientsAndWait] never panics, and what it returns
    is for every client the result of that client, who has left its loop for good.  While the
    test is blocked in sending [done], every step of a client brings it closer to
    taking it or to its end: no client starts another turn.  If every turn of a client ends and none calls
    [Fatalf], the test can always go on until it returns and all clients are gone.  A client whose turn
    calls [Fatalf] ends without taking its [done], and the test never returns. *)
Theorem spawn_collects_every_client {G CK} `{IClerkMaker G CK} (inv : G -> Prop) `{!ClerkMakerLaws G CK inv}
    {St R} (init : nat -> St) (body : nat -> CK -> G * St -> G * St -> Prop)
    (fails : nat -> CK -> G * St -> Prop) (result : nat -> St -> R)
    (env : G -> G -> Prop) n g s :
  (forall i ck g st g' st', inv g -> body i ck (g, st) (g', st') -> inv g') ->
  (forall g g', inv g -> env g g' -> inv g') ->
  inv g -> rtc (sp_run_step init body fails result env) (sp_init n g) s ->
  (forall r, sp_step init body fails result s r -> exists s', r = Ret s')
  /\ (forall rs, sp_main s = MReturn rs -> length rs = length (sp_clients s)
        /\ forall i c v, sp_clients s !! i = Some c -> rs !! i = Some v -> collected c v)
  /\ (forall k s', sp_main s = MSend k -> sp_step init body fails result s (Ret s') ->
        sp_main s' = MNext (S k)
        \/ sp_main s' = MSend k /\ (clients_to_go (sp_clients s') < clients_to_go (sp_clients s))%nat)
  /\ ((forall i ck g st, inv g -> exists g' st', body i ck (g, st) (g', st')) ->
      (forall i ck g st, inv g -> ~ fails i ck (g, st)) ->
      exists s' rs, rtc (sp_run_step init body fails result env) s s' /\ sp_main s' = MReturn rs
        /\ forall c, c ∈ sp_clients s' -> exists v, c = CGone v)
  /\ (CFailed ∈ sp_clients s -> forall s' rs, rtc (sp_run_step init body fails result env) s s' -> sp_main s' <> MReturn rs).
Proof.
  intros Hbody Henv Hg Hr.
  assert (sinv inv s) as Hs by (eapply (spinv_run inv init body fails result env); eauto using spinv_init).
  split_and!.
  - intros r Hst. destruct (spinv_step inv init body fails result Hbody s r Hs Hst) as (s'&->&_). by exists s'.
  - intros rs Hm. destruct Hs as [_ Hok]. rewrite Hm in Hok. exact Hok.
  - intros k s' Hm Hst. destruct s as [g1 m cs]. simpl in Hm. subst m. by apply (send_step inv init body fails result g1).
  - intros Htotal Hnf. apply (sp_finishes inv init body fails result env); [done..|].
    eapply (unfailed_run inv init body fails result env); [done..|by apply (spinv_init inv n g)| |exact Hr].
    unfold unfailed. simpl. by intros [? _]%elem_of_replicate.
  - intros Hf s' rs Hr' Hm.
    assert (sinv inv s') as [_ Hok] by (by eapply (spinv_run inv init body fails result env)).
    pose proof (failed_stays init body fails result env s s' Hf Hr') as [i Hi]%list_elem_of_lookup.
    rewrite Hm in Hok. by destruct (main_ok_in_loop _ _ _ _ Hok Hi eq_refl) as [?|[[??]|[??]]].
Qed.

(** C33: the partitioner cuts the group in two.  However many turns it takes, it returns; after
    its last turn two servers reach each other exactly if they drew the same number, the
    cut is the failure that is annotated, and the tester's clients and all other groups
    are as before. *)
Theorem partitioner_splits gid turns t rnd cfg st sg :
  cinv cfg -> Group gid cfg = Some sg ->
  exists cfg' st', Partitioner gid (turns ++ [(t, rnd)]) cfg st = Ret (cfg', st') /\ cinv cfg'
    /\ split_by gid rnd (N sg) cfg' /\ c_clerks cfg' = c_clerks cfg
    /\ cut_shown t (side_of (coins (N sg) rnd) 0) (side_of (coins (N sg) rnd) 1) st'
    /\ forall g, g <> gid -> undisturbed g cfg cfg'.
Proof.
  intros Hc Hg. destruct (Partitioner_spec gid turns cfg st sg Hc Hg) as (cfg1&st1&sg1&E1&Hc1&Hg1&HN1&Hk1&Hu1).
  destruct (partition_turn_spec gid t rnd cfg1 st1 sg1 Hc1 Hg1) as (cfg2&st2&E2&Hc2&Hs2&Hk2&Hcut&Hu2).
  rewrite HN1 in Hs2, Hcut. exists cfg2, st2. rewrite Partitioner_app, E1. run_go. simpl. rewrite E2. run_go.
  split; [done|]. split; [done|]. split; [done|]. split; [congruence|]. split; [done|].
  intros g Hne. eapply undisturbed_trans; eauto.
Qed.

(** *** Examples *)

(** Two clients that count their turns, while the partitioner runs. *)
Definition demo_body (i : nat) (ck : TestKVClerk) (s s' : Config * nat) : Prop := s'.1 = s.1 /\ s'.2 = S s.2.

Definition demo_env (cfg cfg' : Config) : Prop :=
  exists turns st st', Partitioner GRP0 turns cfg st = Ret (cfg', st').

Lemma demo_env_ok cfg cfg' : cfg_ok cfg -> demo_env cfg cfg' -> cfg_ok cfg'.
Proof.
  intros (Hc&Hk&[sg Hg]) (turns&st&st'&E).
  destruct (Partitioner_spec GRP0 turns cfg st sg Hc Hg) as (cfg2&st2&sg2&E2&Hc2&Hg2&_&Hk2&_).
  rewrite E in E2. injection E2 as <- <-. split; [done|]. split; [by rewrite Hk2|by exists sg2].
Qed.

Lemma demo_cfg_ok : cfg_ok demo_cfg.
Proof. split; [exact demo_cinv|]. split; by eexists. Qed.

Lemma spawn_collects_every_client_witness :
  exists (s' : spawn Config TestKVClerk nat nat) rs,
    rtc (sp_run_step (fun _ => 0%nat) demo_body (fun _ _ _ => False) (fun _ st => st) demo_env) (sp_init 2 demo_cfg) s'
    /\ sp_main s' = MReturn rs /\ forall c, c ∈ sp_clients s' -> exists v, c = CGone v.
Proof.
  destruct (spawn_collects_every_client (CK := TestKVClerk) cfg_ok (fun _ => 0%nat) demo_body (fun _ _ _ => False)
    (fun _ st => st) demo_env 2 demo_cfg (sp_init 2 demo_cfg)) as (_&_&_&H&_).
  - intros i ck g st g' st' Hg [E _]. simpl in E. rewrite E. exact Hg.
  - exact demo_env_ok.
  - exact demo_cfg_ok.
  - apply rtc_refl.
  - apply H.
    + intros i ck g st Hg. exists g, (S st). split; reflexivity.
    + intros i ck g st _ Hf. exact Hf.
Defined.

Lemma partitioner_splits_witness :
  exists cfg' st', Partitioner GRP0 ([] ++ [(5, Z.of_nat)]) demo_cfg (mkTester (mkFrameworkInfo 2) mkAnnotation) = Ret (cfg', st')
    /\ split_by GRP0 Z.of_nat 2 cfg' /\ cut_shown 5 [0%nat] [1%nat] st'.
Proof.
  assert (exists sg, Group GRP0 demo_cfg = Some sg /\ N sg = 2%nat) as (sg&Hg&HN).
  { eexists. split; [vm_compute; reflexivity|vm_compute; reflexivity]. }
  destruct (partitioner_splits GRP0 [] 5 Z.of_nat demo_cfg (mkTester (mkFrameworkInfo 2) mkAnnotation) sg demo_cinv Hg)
    as (cfg'&st'&E&_&Hs&_&Hcut&_).
  rewrite HN in Hs, Hcut. exists cfg', st'. split; [exact E|]. split; [exact Hs|]. vm_compute in Hcut. vm_compute. exact Hcut.
Defined.
