(* ===== verification/Timeline.v ===== *)
(** * The timeline of a test

    The public interface of [src/src/tester1/annotation.go] and the calls with which server
    processes annotate from afar ([src/src/tester1/annotator.go]).  A whole session is a
    list of calls with the times the clock reads; the theorem says that what is recorded
    makes sense as a timeline as long as that clock, the wall clock, is not set back. *)

From S2P Require Import Prelude Annotation.
Local Open Scope Z_scope.
Local Open Scope string_scope.
Local Open Scope list_scope.

(** ** The public interface *)

Definition AnnotatePointColor (t : Z) (tag desp details bgcolor : string) (st : tester_state) : tester_state :=
  with_an (annotatePointColor t tag desp details bgcolor) st.

Definition AnnotateIntervalColor (t : Z) (tag : string) (start : Z) (desp details bgcolor : string)
    (st : tester_state) : tester_state :=
  with_an (annotateIntervalColor t tag start desp details bgcolor) st.

Definition AnnotateContinuousColor (t : Z) (tag desp details bgcolor : string) (st : tester_state) : tester_state :=
  with_an (annotateContinuousColor t tag desp details bgcolor) st.

Definition AnnotateContinuousEnd (t : Z) (tag : string) (st : tester_state) : tester_state :=
  with_an (annotateContinuousEnd t tag) st.

(** What users call. *)
Definition AnnotatePoint (t : Z) (tag desp details : string) (st : tester_state) : tester_state :=
  AnnotatePointColor t tag desp details COLOR_USER st.

Definition AnnotateInterval (t : Z) (tag : string) (start : Z) (desp details : string) (st : tester_state) : tester_state :=
  AnnotateIntervalColor t tag start desp details COLOR_USER st.

Definition AnnotateContinuous (t : Z) (tag desp details : string) (st : tester_state) : tester_state :=
  AnnotateContinuousColor t tag desp details COLOR_USER st.

Definition AnnotateInfoInterval (t start : Z) (desp details : string) (st : tester_state) : tester_state :=
  AnnotateIntervalColor t TAG_INFO start desp details COLOR_INFO st.

(** The three results of a check. *)
Definition AnnotateCheckerSuccess (t : Z) (desp details : string) (st : tester_state) : tester_state :=
  AnnotateCheckerEnd t desp details COLOR_SUCCESS st.

Definition AnnotateCheckerFailure (t : Z) (desp details : string) (st : tester_state) : tester_state :=
  AnnotateCheckerEnd t desp details COLOR_FAILURE st.

Definition AnnotateCheckerNeutral (t : Z) (desp details : string) (st : tester_state) : tester_state :=
  AnnotateCheckerEnd t desp details COLOR_NEUTRAL st.

(** ** The visualization *)

(** Which file [cleanup] writes: [vis_file] is the environment variable VIS_FILE. *)
Inductive vis_target := TempFile | NamedFile (path : string).

Definition vis_path (vis_file : string) : vis_target :=
  if decide (vis_file = "") then TempFile else NamedFile vis_file.

(** [cleanup] with the file: what is written where, if the file can be opened. *)
Definition cleanup_file order (t t' : Z) (enabled vis_file : string) (open_ok : vis_target -> bool) (failed : bool)
    (end_ : string) (an : Annotation) : option (vis_target * list annot) * Annotation :=
  let '(l, an) := cleanup order t t' enabled failed end_ an in
  match l with
  | None => (None, an)
  | Some l => (if open_ok (vis_path vis_file) then Some (vis_path vis_file, l) else None, an)
  end.

(** Before [log.Fatalf]: the clock is read for the annotation, then twice by [cleanup]. *)
Definition AnnotateCheckerFailureBeforeExit order (t t' t'' : Z) (enabled vis_file : string)
    (open_ok : vis_target -> bool) (desp details : string) (st : tester_state)
    : option (vis_target * list annot) * tester_state :=
  let st := AnnotateCheckerFailure t desp details st in
  let '(out, an) := cleanup_file order t' t'' enabled vis_file open_ok true "test failed" (annotation st) in
  (out, mkTester (finfo st) an).

(** On SIGINT, before [os.Exit]. *)
Definition captureSignal order (t t' : Z) (enabled vis_file : string) (open_ok : vis_target -> bool)
    (st : tester_state) : option (vis_target * list annot) * tester_state :=
  let '(out, an) := cleanup_file order t t' enabled vis_file open_ok true "interrupted" (annotation st) in
  (out, mkTester (finfo st) an).

(** ** Annotations from server processes *)

(** The handlers of the tester. *)
Definition PostAnnotatorPoint (t : Z) (tag desp details : string) (st : tester_state) : tester_state :=
  AnnotatePoint t tag desp details st.

Definition rpc_GetAnnotatorTimestamp (t : Z) : Z := t.

Definition rpc_PostAnnotatorInfoInterval (t start : Z) (desp details : string) (st : tester_state) : tester_state :=
  AnnotateInfoInterval t start desp details st.

(** The calls of a server process; [up]: the call is answered. *)
Definition Annotate (up : bool) (t : Z) (tag desp details : string) (st : tester_state) : tester_state :=
  if up then PostAnnotatorPoint t tag desp details st else st.

Definition GetAnnotatorTimestamp (up : bool) (t : Z) : Z := if up then rpc_GetAnnotatorTimestamp t else 0.

Definition PostAnnotatorInfoInterval (up : bool) (t start : Z) (desp details : string) (st : tester_state) : tester_state :=
  if up then rpc_PostAnnotatorInfoInterval t start desp details st else st.

(** ** Sessions *)

(** Calls of the interface, of the framework ([Annotation.tcall] and the two partitions), and
    from afar. *)
Inductive acall :=
  | APoint (tag desp details : string)
  | AInterval (tag : string) (start : Z) (desp details : string)
  | AContinuous (tag desp details : string)
  | AContinuousEnd (tag : string)
  | AInfo (desp details : string)
  | AInfoInterval (start : Z) (desp details : string)
  | ASuccess (desp details : string)
  | AFailure (desp details : string)
  | ANeutral (desp details : string)
  | ATwoPartitions (p1 p2 : list nat)
  | AFault (c : tcall)
  | ARemote (up : bool) (tag desp details : string)
  | ARemoteInterval (up : bool) (start : Z) (desp details : string).

Definition do_acall (t : Z) (c : acall) (st : tester_state) : go tester_state :=
  match c with
  | APoint tag desp details => Ret (AnnotatePoint t tag desp details st)
  | AInterval tag start desp details => Ret (AnnotateInterval t tag start desp details st)
  | AContinuous tag desp details => Ret (AnnotateContinuous t tag desp details st)
  | AContinuousEnd tag => Ret (AnnotateContinuousEnd t tag st)
  | AInfo desp details => Ret (with_an (AnnotateInfo t desp details) st)
  | AInfoInterval start desp details => Ret (AnnotateInfoInterval t start desp details st)
  | ASuccess desp details => Ret (AnnotateCheckerSuccess t desp details st)
  | AFailure desp details => Ret (AnnotateCheckerFailure t desp details st)
  | ANeutral desp details => Ret (AnnotateCheckerNeutral t desp details st)
  | ATwoPartitions p1 p2 => Ret (AnnotateTwoPartitions t p1 p2 st)
  | AFault c => do_call t c st
  | ARemote up tag desp details => Ret (Annotate up t tag desp details st)
  | ARemoteInterval up start desp details => Ret (PostAnnotatorInfoInterval up t start desp details st)
  end.

Fixpoint do_acalls (cs : list (Z * acall)) (st : tester_state) : go tester_state :=
  match cs with
  | [] => Ret st
  | (t, c) :: cs' => st ← do_acall t c st; do_acalls cs' st
  end.

(** The start of an interval is a time read before, or the 0 of a lost call; points and
    intervals keep off the tag [p], which is for continuous annotations. *)
Definition acall_ok (n : nat) (p : string) (t : Z) (c : acall) : Prop :=
  match c with
  | APoint tag _ _ | ARemote _ tag _ _ => tag <> p
  | AInterval tag start _ _ => tag <> p /\ 0 <= start <= t
  | AInfo _ _ => TAG_INFO <> p
  | AInfoInterval start _ _ | ARemoteInterval _ start _ _ => TAG_INFO <> p /\ 0 <= start <= t
  | ASuccess _ _ | AFailure _ _ | ANeutral _ _ => TAG_CHECKER <> p
  | AContinuous _ _ _ | AContinuousEnd _ | ATwoPartitions _ _ => True
  | AFault c =>
      match c with
      | CPoint tag _ _ _ => tag <> p
      | CInterval tag start _ _ _ => tag <> p /\ 0 <= start <= t
      | CCheckerEnd _ _ _ => TAG_CHECKER <> p
      | CShutdown l | CRestart l => Forall (fun i => (i < n)%nat) l
      | _ => True
      end
  end.

(** ** What a timeline is *)

(** A point in time, or an interval, up to the present. *)
Definition well_formed (now : Z) (a : annot) : Prop :=
  (End a = 0 /\ 0 < Start a <= now) \/ (0 <= Start a <= End a /\ End a <= now).

(** The intervals of a tag that were begun.  The others start at 0: [annotateContinuousEnd]
    records one when there is nothing to end. *)
Definition spans (p : string) (an : Annotation) : list annot :=
  filter (fun a => Tag a = p /\ Start a <> 0) (annotations an).

(** What [annotateContinuousEnd] records for a tag that is not under way. *)
Definition unbegun (p : string) (a : annot) : Prop := a = concretize p (End a) (mkCont 0 "" "" "").

Record timeline (p : string) (now : Z) (an : Annotation) : Prop := {
  tl_wf : Forall (well_formed now) (annotations an);
  tl_open tag c : continuous an !! tag = Some c -> 0 < start c <= now;
  tl_order : StronglySorted (fun a b => End a <= Start b) (spans p an);
  tl_span a : a ∈ spans p an -> End a <= now;
  tl_last c a : continuous an !! p = Some c -> a ∈ spans p an -> End a <= start c;
  tl_unbegun a : a ∈ annotations an -> Tag a = p -> a ∈ spans p an \/ unbegun p a;
}.

(** ** Lemmas *)

(** What a call does to the recorder. *)
Inductive effect (p : string) (t : Z) (an : Annotation) : Annotation -> Prop :=
  | e_none : effect p t an an
  | e_point tag d1 d2 bg : tag <> p -> effect p t an (annotatePointColor t tag d1 d2 bg an)
  | e_interval tag start d1 d2 bg :
      tag <> p -> 0 <= start <= t -> effect p t an (annotateIntervalColor t tag start d1 d2 bg an)
  | e_color tag d1 d2 bg : effect p t an (annotateContinuousColor t tag d1 d2 bg an)
  | e_end tag : effect p t an (annotateContinuousEnd t tag an).

Lemma well_formed_mono now now' a : now <= now' -> well_formed now a -> well_formed now' a.
Proof. unfold well_formed. lia. Qed.

Lemma timeline_mono p now now' an : now <= now' -> timeline p now an -> timeline p now' an.
Proof.
  intros Hle [H1 H2 H3 H4 H5 H6]. split; [| |done| |done|done].
  - eapply Forall_impl; [|exact H1]. intros a. by apply well_formed_mono.
  - intros tag c Hc. specialize (H2 tag c Hc). lia.
  - intros a Ha. specialize (H4 a Ha). lia.
Qed.

Lemma spans_record p a an :
  spans p (record a an) = spans p an ++ (if decide (Tag a = p /\ Start a <> 0) then [a] else []).
Proof. unfold spans. simpl. rewrite list.filter_app, list.filter_cons. by case_decide. Qed.

(** An annotation under another tag. *)
Lemma timeline_record_other p now a an :
  timeline p now an -> well_formed now a -> Tag a <> p -> timeline p now (record a an).
Proof.
  intros [H1 H2 H3 H4 H5 H6] Ha Ht.
  assert (spans p (record a an) = spans p an) as E by (rewrite spans_record, decide_False, app_nil_r by tauto; done).
  split; rewrite ?E; simpl; [|done..|].
  - apply Forall_app. split; [done|by apply Forall_singleton].
  - intros b [Hb|Hb]%elem_of_app Htb; [by apply H6|]. by apply list_elem_of_singleton in Hb as ->.
Qed.

Lemma StronglySorted_snoc {A} (R : A -> A -> Prop) l x :
  StronglySorted R l -> (forall y, y ∈ l -> R y x) -> StronglySorted R (l ++ [x]).
Proof.
  induction 1 as [|y l Hl IH Hy]; intros Hx; simpl; [by repeat constructor|]. constructor.
  - apply IH. intros z Hz. apply Hx. by right.
  - apply Forall_app. split; [done|]. apply Forall_singleton, Hx. by left.
Qed.

(** A continuous annotation that comes to its end. *)
Lemma timeline_concretize p now tag c an cont' :
  timeline p now an -> 0 < now -> (c = mkCont 0 "" "" "" \/ continuous an !! tag = Some c) ->
  (forall tag' c', cont' !! tag' = Some c' -> 0 < start c' <= now /\ (tag' = p -> tag' = tag \/ continuous an !! tag' = Some c')) ->
  (forall c', cont' !! tag = Some c' -> start c' = now) ->
  timeline p now (mkAnnotation_ (annotations an ++ [concretize tag now c]) cont' (finalized an)).
Proof.
  intros [H1 H2 H3 H4 H5 H6] Hnow Hc Hcont Htag. set (a := concretize tag now c).
  assert (well_formed now a) as Ha.
  { right. unfold a. simpl. destruct Hc as [->|Hc%H2]; simpl; lia. }
  assert (spans p (mkAnnotation_ (annotations an ++ [a]) cont' (finalized an))
          = spans p an ++ (if decide (Tag a = p /\ Start a <> 0) then [a] else [])) as E by apply (spans_record p a an).
  split; rewrite ?E; simpl.
  - apply Forall_app. split; [done|by apply Forall_singleton].
  - intros tag' c' Hc'. by apply (Hcont tag').
  - destruct (decide (tag = p /\ start c <> 0)) as [Hp|Hp]; [|by rewrite app_nil_r]. apply StronglySorted_snoc; [done|]. intros y Hy. simpl.
    destruct Hp as [Hp Hs]. simpl in Hp, Hs. destruct Hc as [->|Hc]; [done|]. subst tag. by apply H5.
  - intros b [Hb|Hb]%elem_of_app; [by apply H4|]. destruct (decide (tag = p /\ start c <> 0)) as [Hp|Hp]; [|by apply elem_of_nil in Hb].
    apply list_elem_of_singleton in Hb as ->. simpl. lia.
  - intros c' b Hc' Hb. destruct (decide (p = tag)) as [->|Hne].
    + rewrite (Htag c' Hc'). apply elem_of_app in Hb as [Hb|Hb]; [by apply H4|].
      destruct (decide (tag = tag /\ start c <> 0)); [|by apply elem_of_nil in Hb]. apply list_elem_of_singleton in Hb as ->. simpl. lia.
    + rewrite decide_False, app_nil_r in Hb by (simpl; naive_solver).
      destruct (Hcont p c' Hc') as (_&[->|Ho]); [done|done|]. by apply (H5 c').
  - intros b [Hb|Hb]%elem_of_app Htb.
    + destruct (H6 b Hb Htb) as [?|?]; [left; apply elem_of_app; by left|by right].
    + apply list_elem_of_singleton in Hb as ->. simpl in Htb. subst tag. destruct Hc as [->|Hc%H2]; [by right|].
      left. apply elem_of_app. right. rewrite decide_True by (split; [done|simpl; lia]). by left.
Qed.

Lemma timeline_effect p now an an' :
  timeline p now an -> 0 < now -> effect p now an an' -> timeline p now an'.
Proof.
  intros Ht Hnow He. destruct He as [|tag d1 d2 bg Hne|tag st d1 d2 bg Hne Hst|tag d1 d2 bg|tag].
  - done.
  - apply timeline_record_other; [done|left; simpl; lia|done].
  - apply timeline_record_other; [done|right; simpl; lia|done].
  - pose proof (tl_open _ _ _ Ht) as Ho. unfold annotateContinuousColor. destruct (continuous an !! tag) as [c|] eqn:Hc.
    + apply timeline_concretize; [done|done|by right| |].
      * intros tag' c' Hc'. destruct (decide (tag' = tag)) as [->|Hne].
        -- rewrite lookup_insert_eq in Hc'. injection Hc' as <-. simpl. split; [lia|by left].
        -- rewrite lookup_insert_ne in Hc' by done. split; [by eapply Ho|by right].
      * intros c' Hc'. rewrite lookup_insert_eq in Hc'. by injection Hc' as <-.
    + destruct Ht as [H1 H2 H3 H4 H5 H6]. split; simpl; [done| |done|done| |done].
      * intros tag' c' Hc'. apply lookup_insert_Some in Hc' as [[_ <-]|[_ Hc']]; [simpl; lia|by eapply H2].
      * intros c' a Hc' Ha. apply lookup_insert_Some in Hc' as [[_ <-]|[_ Hc']]; [by apply H4|by apply H5].
  - pose proof (tl_open _ _ _ Ht) as Ho. unfold annotateContinuousEnd. apply timeline_concretize; [done|done| | |].
    + destruct (continuous an !! tag) as [c|] eqn:Hc; [by right|by left].
    + intros tag' c' Hc'. apply lookup_delete_Some in Hc' as [_ Hc']. split; [by eapply Ho|by right].
    + intros c' Hc'. by rewrite lookup_delete_eq in Hc'.
Qed.

(** The fault state in a session: what [classify] and [mark] need, and the time a check began. *)
Definition tester_ok (n : nat) (now : Z) (st : tester_state) : Prop :=
  finfo_ok n (finfo st) /\ 0 <= ts (ckbegin (finfo st)) <= now.

Lemma annotateFault_effect n p t fi an :
  finfo_ok n fi -> exists an', annotateFault t (mkTester fi an) = Ret (mkTester fi an') /\ effect p t an an'.
Proof.
  intros [Hn Hc Hd]. unfold annotateFault. simpl. destruct (healthy fi).
  - eexists. split; [done|]. apply e_end.
  - destruct (classify_spec (crashed fi) (connected fi) 0) as (al&co&cr&->&_); [lia|].
    run_go. eexists. split; [done|]. apply e_color.
Qed.

Lemma mark_effect n p t down l st :
  tester_ok n t st -> Forall (fun i => (i < n)%nat) l ->
  exists st', ('(cr, changed) ← mark down l (crashed (finfo st)) false;
    let st := mkTester (set_crashed (finfo st) cr) (annotation st) in
    if changed : bool then annotateFault t st else Ret st) = Ret st'
    /\ tester_ok n t st' /\ effect p t (annotation st) (annotation st').
Proof.
  intros [[Hn Hc Hd] Hck] Hl.
  destruct (mark_ok down l (crashed (finfo st)) false) as (cr&ch&->&Hlen&_); [by rewrite Hd|].
  run_go. assert (finfo_ok n (set_crashed (finfo st) cr)) as Hf by (split; simpl; congruence).
  destruct ch; [|eexists; split; [done|]; split; [done|apply e_none]].
  destruct (annotateFault_effect n p t _ (annotation st) Hf) as (an'&->&He). by eexists.
Qed.

Lemma checker_end_effect n p t d1 d2 color st :
  tester_ok n t st -> TAG_CHECKER <> p ->
  tester_ok n t (AnnotateCheckerEnd t d1 d2 color st)
  /\ effect p t (annotation st) (annotation (AnnotateCheckerEnd t d1 d2 color st)).
Proof.
  intros [Hf Hck] Hp. unfold AnnotateCheckerEnd. case_decide; (split; [done|]); simpl; [by apply e_point|by apply e_interval].
Qed.

Lemma do_call_effect n p t c st :
  tester_ok n t st -> 0 < t -> acall_ok n p t (AFault c) ->
  exists st', do_call t c st = Ret st' /\ tester_ok n t st' /\ effect p t (annotation st) (annotation st').
Proof.
  intros Hok Ht Hc. pose proof Hok as [[Hn Hco Hcr] Hck]. destruct c; simpl in *; try (eexists; split; [done|]).
  - split; [done|by apply e_point].
  - split; [done|]. destruct Hc. by apply e_interval.
  - split; [done|apply e_color].
  - split; [done|apply e_end].
  - split; [split; [done|simpl; lia]|apply e_none].
  - by apply checker_end_effect.
  - unfold AnnotateConnection. case_decide; [eexists; split; [done|]; split; [done|apply e_none]|].
    assert (finfo_ok n (set_connected (finfo st) (copy (connected (finfo st)) connection))) as Hf
      by (split; simpl; [done|by rewrite length_copy|done]).
    destruct (annotateFault_effect n p t _ (annotation st) Hf) as (an'&->&He). by eexists.
  - split; [split; [split; simpl; by rewrite ?length_fmap|done]|apply e_end].
  - by apply mark_effect.
  - apply mark_effect; [done|]. rewrite Hn. apply list.Forall_forall. intros i Hi%elem_of_seq. lia.
  - by apply mark_effect.
  - apply mark_effect; [done|]. rewrite Hn. apply list.Forall_forall. intros i Hi%elem_of_seq. lia.
Qed.

Lemma do_acall_effect n p t c st :
  tester_ok n t st -> 0 < t -> acall_ok n p t c ->
  exists st', do_acall t c st = Ret st' /\ tester_ok n t st' /\ effect p t (annotation st) (annotation st').
Proof.
  intros Hok Ht Hc. destruct c as [| | | | | | | | | |c|up|up]; try (by apply do_call_effect); simpl in *;
    (eexists; split; [done|]).
  - split; [done|by apply e_point].
  - split; [done|]. destruct Hc. by apply e_interval.
  - split; [done|apply e_color].
  - split; [done|apply e_end].
  - split; [done|by apply e_point].
  - split; [done|]. destruct Hc. by apply e_interval.
  - by apply checker_end_effect.
  - by apply checker_end_effect.
  - by apply checker_end_effect.
  - split; [done|apply e_color].
  - destruct up; (split; [done|]); [by apply e_point|apply e_none].
  - destruct up; (split; [done|]); [destruct Hc; by apply e_interval|apply e_none].
Qed.

(** The clock does not run backwards. *)
Fixpoint clock_ok (now : Z) (cs : list (Z * acall)) : Prop :=
  match cs with
  | [] => True
  | (t, _) :: cs' => now <= t /\ clock_ok t cs'
  end.

Fixpoint last_time (now : Z) (cs : list (Z * acall)) : Z :=
  match cs with
  | [] => now
  | (t, _) :: cs' => last_time t cs'
  end.

Lemma do_acalls_timeline n p cs : forall now st,
  0 < now -> clock_ok now cs -> Forall (fun tc => acall_ok n p tc.1 tc.2) cs ->
  tester_ok n now st -> timeline p now (annotation st) ->
  exists st', do_acalls cs st = Ret st' /\ now <= last_time now cs /\ timeline p (last_time now cs) (annotation st').
Proof.
  induction cs as [|[t c] cs IH]; intros now st Hnow Hcl Hcs Hok Htl.
  { exists st. split; [done|]. simpl. split; [lia|done]. }
  destruct Hcl as [Hle Hcl]. apply list.Forall_cons in Hcs as [Hc Hcs]. cbn [do_acalls last_time].
  assert (tester_ok n t st) as Hok' by (destruct Hok as [? ?]; split; [done|lia]).
  destruct (do_acall_effect n p t c st Hok' ltac:(lia) Hc) as (st1&->&Hok1&He). run_go.
  destruct (IH t st1) as (st'&->&Hle'&Htl'); [lia|done|done|done| |].
  - eapply timeline_effect; [by eapply timeline_mono|lia|done].
  - exists st'. split; [done|]. split; [lia|done].
Qed.

Lemma timeline_init p n t d st :
  0 < t -> TAG_INFO <> p -> timeline p t (annotation (AnnotateTest t d n st)) /\ tester_ok n t (AnnotateTest t d n st).
Proof.
  intros Ht Hp. split.
  - apply (timeline_record_other p t _ (clear (annotation st))); [|left; simpl; lia|done].
    split; simpl; [constructor|intros tag c Hc; by rewrite lookup_empty in Hc|constructor|intros a Ha; by apply elem_of_nil in Ha| |].
    + intros c a Hc. by rewrite lookup_empty in Hc.
    + intros a Ha. by apply elem_of_nil in Ha.
  - split; [split; simpl; by rewrite ?length_replicate|simpl; lia].
Qed.

(** ** Properties *)

(** C34: the record of a test is a timeline, as long as the wall clock is not set back
    ([clock_ok]).  From the start of a test, after any calls of the annotation interface by the
    test and, over calls that may be lost, by server processes, none of which panics: every
    annotation is a point in the past or an interval that ends no later than now and not
    before it starts.  Of the intervals of a tag used for continuous annotations (such as
    failures), those that were begun follow each other in order without overlapping, and
    the one under way starts after all of them; every other interval of the tag is the empty one
    from time 0 that [annotateContinuousEnd] records when there is nothing to end, which
    may overlap the rest.  The list that is finally shown is well formed too. *)
Theorem record_is_timeline n p t0 d st0 cs order t t' end_ :
  0 < t0 -> p <> TAG_INFO -> clock_ok t0 cs -> Forall (fun tc => acall_ok n p tc.1 tc.2) cs ->
  last_time t0 cs <= t -> t <= t' -> (forall m, order m ≡ₚ map_to_list m) ->
  exists st, do_acalls cs (AnnotateTest t0 d n st0) = Ret st
    /\ Forall (well_formed (last_time t0 cs)) (annotations (annotation st))
    /\ StronglySorted (fun a b => End a <= Start b) (spans p (annotation st))
    /\ (forall c a, continuous (annotation st) !! p = Some c -> a ∈ spans p (annotation st) -> End a <= start c)
    /\ (forall a, a ∈ annotations (annotation st) -> Tag a = p -> a ∈ spans p (annotation st) \/ unbegun p a)
    /\ Forall (well_formed t') (FinalizeAnnotations order t t' end_ (annotation st)).1.
Proof.
  intros H0 Hp Hcl Hcs Ht Ht' Hord. destruct (timeline_init p n t0 d st0 H0 (not_eq_sym Hp)) as [Htl Hok].
  destruct (do_acalls_timeline n p cs t0 _ H0 Hcl Hcs Hok Htl) as (st&E&Hle&[H1 H2 H3 H4 H5 H6]).
  exists st. do 5 (split; [done|]). simpl.
  apply Forall_app. split; [apply Forall_app; split|apply Forall_singleton; left; simpl; lia].
  - eapply Forall_impl; [|exact H1]. intros a. apply well_formed_mono. lia.
  - apply list.Forall_forall. intros a Ha. apply list_elem_of_fmap in Ha as ([tag c]&->&Hin).
    rewrite Hord in Hin. apply elem_of_map_to_list in Hin. specialize (H2 tag c Hin). right. simpl. lia.
Qed.

(** *** Examples *)

Lemma record_is_timeline_witness :
  exists st, do_acalls [(5, AFault (CShutdown [1%nat])); (7, AFault (CConnection [true; false; true]));
                        (8, ARemote true "raft" "elected" "term 1"); (9, ARemoteInterval false 8 "lost" "");
                        (9, AFault CRestartAll); (11, AFault (CConnection [true; true; true]))]
      (AnnotateTest 1 "t" 3 (mkTester (mkFrameworkInfo 0) mkAnnotation)) = Ret st
    /\ (fun a => (Start a, End a)) <$> spans TAG_PARTITION (annotation st) = [(5, 7); (7, 9); (9, 11)].
Proof.
  edestruct (record_is_timeline 3 TAG_PARTITION 1 "t" (mkTester (mkFrameworkInfo 0) mkAnnotation)
    [(5, AFault (CShutdown [1%nat])); (7, AFault (CConnection [true; false; true]));
     (8, ARemote true "raft" "elected" "term 1"); (9, ARemoteInterval false 8 "lost" "");
     (9, AFault CRestartAll); (11, AFault (CConnection [true; true; true]))] map_to_list 20 20 "") as (st&E&_).
  - reflexivity.
  - discriminate.
  - simpl. lia.
  - repeat constructor; simpl; try discriminate; lia.
  - vm_compute. discriminate.
  - lia.
  - reflexivity.
  - exists st. split; [exact E|]. vm_compute in E. injection E as <-. vm_compute. reflexivity.
Defined.

(** When the call for the time is lost, the interval that is posted later starts at 0. *)
Example lost_timestamp :
  annotations (annotation (PostAnnotatorInfoInterval true 9 (GetAnnotatorTimestamp false 5) "op" ""
    (mkTester (mkFrameworkInfo 3) mkAnnotation))) = [mkAnnot TAG_INFO 0 9 "op" "" COLOR_INFO].
Proof. reflexivity. Qed.
