(* ===== verification/MRTiming.v ===== *)
(** * The MapReduce timing applications

    [src/map_reduce/mrapps/mtiming.go], [rtiming.go] and [jobcount.go]: pseudo-applications
    with which the tests find out how many tasks run at the same time and how often tasks
    run.  They leave files with process ids in the common directory.  Workers here are
    processes that start, run [nparallel] step by step and may die at any moment; process
    ids are not used again. *)

From S2P Require Import Prelude MRWorker MRApps.
Local Open Scope Z_scope.

(** ** Names *)

Inductive phase := PMap | PReduce.

#[export] Instance phase_eq_dec : EqDecision phase.
Proof. solve_decision. Defined.

Definition phase_name (ph : phase) : string := match ph with PMap => "map" | PReduce => "reduce" end.

Definition worker_prefix (ph : phase) : string := ("mr-worker-" +:+ phase_name ph +:+ "-")%string.

Definition myfilename (ph : phase) (pid : Z) : string := (worker_prefix ph +:+ Itoa pid)%string.

Fixpoint strip_prefix (p s : string) : option string :=
  match p, s with
  | EmptyString, _ => Some s
  | String a p', String b s' => if decide (a = b) then strip_prefix p' s' else None
  | String _ _, EmptyString => None
  end.

(** [Sscanf] with [%d]: blanks, a sign, then as many digits as there are; text after them is
    left alone. *)
Fixpoint skip_blanks (s : string) : string :=
  match s with
  | String " " s' => skip_blanks s'
  | _ => s
  end.

Fixpoint lead_digits (acc : Z) (s : string) : Z :=
  match s with
  | EmptyString => acc
  | String c s' => match digit c with Some d => lead_digits (10 * acc + d) s' | None => acc end
  end.

Definition scan_int (s : string) : option Z :=
  let '(sign, ds) := match skip_blanks s with
                     | String "-" s' => (-1, s')
                     | String "+" s' => (1, s')
                     | s' => (1, s')
                     end in
  match ds with
  | EmptyString => None
  | String c _ =>
      _ ← digit c;
      let z := sign * lead_digits 0 ds in
      if decide (- 2 ^ 63 <= z < 2 ^ 63) then Some z else None
  end.

(** The process id in a name, if the name matches. *)
Definition scan_pid (ph : phase) (name : string) : option Z :=
  rest ← strip_prefix (worker_prefix ph) name; scan_int rest.

(** ** [nparallel] *)

(** A worker: outside; its file is written; it has read the directory and looks at the
    names one by one; it has counted and sleeps.  [in0] is kept for the statements: the live workers that
    were inside when the directory was read. *)
Inductive worker :=
  | Outside
  | Wrote (ph : phase)
  | Reading (ph : phase) (in0 : gset Z) (names : list string) (ret : Z)
  | Counted (ph : phase) (in0 : gset Z) (ret : Z).

Definition in_phase (ph : phase) (w : worker) : bool :=
  match w with
  | Outside => false
  | Wrote ph' | Reading ph' _ _ _ | Counted ph' _ _ => bool_decide (ph = ph')
  end.

(** The directory, the live processes and the workers, dead ones included. *)
Record tsys := mkT { t_files : files; t_alive : gset Z; t_workers : gmap Z worker }.

(** The live workers inside. *)
Definition inside (ph : phase) (s : tsys) : gset Z :=
  filter (fun pid => pid ∈ t_alive s) (dom (filter (fun pw => in_phase ph pw.2 = true) (t_workers s))).

(** The effect of one turn of the loop over the names: [Kill(xpid, 0)] succeeds for a live
    process. *)
Definition look_at (ph : phase) (alive : gset Z) (name : string) (ret : Z) : Z :=
  match scan_pid ph name with
  | Some xpid => if decide (xpid ∈ alive) then i64 (ret + 1) else ret
  | None => ret
  end.

(** The limit of [Readdirnames]. *)
Definition max_names : Z := 1000000.

Inductive tstep : tsys -> tsys -> Prop :=
  | t_start f al ws pid :
      0 < pid < 2 ^ 31 -> ws !! pid = None -> tstep (mkT f al ws) (mkT f ({[ pid ]} ∪ al) (<[pid := Outside]> ws))
  | t_die f al ws pid : tstep (mkT f al ws) (mkT f (al ∖ {[ pid ]}) ws)
  | t_other f al ws name (c : option string) :
      (forall ph, scan_pid ph name = None) -> tstep (mkT f al ws) (mkT (partial_alter (fun _ => c) name f) al ws)
  | t_write f al ws pid ph :
      pid ∈ al -> ws !! pid = Some Outside ->
      tstep (mkT f al ws) (mkT (<[myfilename ph pid := "x"%string]> f) al (<[pid := Wrote ph]> ws))
  | t_read f al ws pid ph names :
      pid ∈ al -> ws !! pid = Some (Wrote ph) -> names ≡ₚ (map_to_list f).*1 -> Z.of_nat (length names) <= max_names ->
      tstep (mkT f al ws) (mkT f al (<[pid := Reading ph (inside ph (mkT f al ws)) names 0]> ws))
  | t_look f al ws pid ph in0 name names ret :
      pid ∈ al -> ws !! pid = Some (Reading ph in0 (name :: names) ret) ->
      tstep (mkT f al ws) (mkT f al (<[pid := Reading ph in0 names (look_at ph al name ret)]> ws))
  | t_counted f al ws pid ph in0 ret :
      pid ∈ al -> ws !! pid = Some (Reading ph in0 [] ret) ->
      tstep (mkT f al ws) (mkT f al (<[pid := Counted ph in0 ret]> ws))
  | t_remove f al ws pid ph in0 ret :
      pid ∈ al -> ws !! pid = Some (Counted ph in0 ret) ->
      tstep (mkT f al ws) (mkT (delete (myfilename ph pid) f) al (<[pid := Outside]> ws)).

(** [nparallel] of [rtiming.go] is the same text as that of [mtiming.go]. *)
Definition rtiming_nparallel : tsys -> tsys -> Prop := tstep.

(** ** The applications *)

(** [ts] is the time as [%.1f] prints it, [n] what [nparallel] returned. *)
Definition mtiming_Map (pid : Z) (ts : string) (n : Z) : list KeyValue :=
  [] ++ [mkKV ("times-" +:+ Itoa pid) ts] ++ [mkKV ("parallel-" +:+ Itoa pid) (Itoa n)].

Definition mtiming_Reduce (key : string) (values : list string) : string := Join (sort_Strings values) " ".

Definition rtiming_Map (filename contents : string) : list KeyValue :=
  (fun k => mkKV k "1") <$> ["a"; "b"; "c"; "d"; "e"; "f"; "g"; "h"; "i"; "j"]%string.

Definition rtiming_Reduce (n : Z) (key : string) (values : list string) : string := Itoa n.

(** [jobcount]: [count] is a global of the process. *)
Definition jobcount_file (me count : Z) : string := ("mr-worker-jobcount-" +:+ Itoa me +:+ "-" +:+ Itoa count)%string.

Definition jobcount_Map (me count : Z) (f : files) : files * Z * list KeyValue :=
  (<[jobcount_file me count := "x"%string]> f, i64 (count + 1), [mkKV "a" "x"]).

Definition is_jobcount (name : string) : bool := bool_decide (is_Some (strip_prefix "mr-worker-jobcount" name)).

Definition jobcount_Reduce (f : files) (key : string) (values : list string) : string :=
  Itoa (Z.of_nat (length (filter (fun name => is_jobcount name = true) (map_to_list f).*1))).

(** Map tasks of jobcount in the order in which they write, and what else happens to the
    directory; a process starts with [count] 0. *)
Inductive jevent := JMap (me : Z) | JOther (name : string) (c : option string).

Fixpoint jobcount_run (evs : list jevent) (f : files) (counts : gmap Z Z) : files * gmap Z Z :=
  match evs with
  | [] => (f, counts)
  | JMap me :: evs' =>
      let '(f, count, _) := jobcount_Map me (default 0 (counts !! me)) f in
      jobcount_run evs' f (<[me := count]> counts)
  | JOther name c :: evs' => jobcount_run evs' (partial_alter (fun _ => c) name f) counts
  end.

Definition is_map_event (e : jevent) : bool := match e with JMap _ => true | JOther _ _ => false end.

(** ** Lemmas: names *)

Lemma strip_prefix_app p s : strip_prefix p (p +:+ s) = Some s.
Proof. induction p as [|a p IH]; [done|]. rewrite string_cons_app. simpl. by rewrite decide_True. Qed.

Lemma strip_prefix_Some p s r : strip_prefix p s = Some r -> s = (p +:+ r)%string.
Proof.
  revert s. induction p as [|a p IH]; intros [|b s] E; simplify_eq/=; [done|done|]. case_decide; [|done]. subst b.
  rewrite string_cons_app. f_equal. by apply IH.
Qed.

Lemma lead_digits_all s : forall acc z, digits_from acc s = Some z -> lead_digits acc s = z.
Proof.
  induction s as [|c s IH]; intros acc z E; simpl in *; [by injection E|].
  destruct (digit c) as [d|]; [|done]. by apply IH.
Qed.

Lemma digits_head z : 0 <= z -> exists c s d, Itoa z = String c s /\ digit c = Some d.
Proof.
  intros Hz. pose proof (digits_Itoa z Hz) as Hd. pose proof (Itoa_nonempty z) as Hne.
  destruct (Itoa z) as [|c s]; [done|]. simpl in Hd. destruct (digit c) as [d|] eqn:E; [|done]. by exists c, s, d.
Qed.

Lemma scan_int_Itoa z : 0 <= z < 2 ^ 63 -> scan_int (Itoa z) = Some z.
Proof.
  intros Hz. destruct (digits_head z ltac:(lia)) as (c&s&d&E&Hc). pose proof (digits_Itoa z ltac:(lia)) as Hd.
  rewrite E in Hd |- *.
  assert (scan_int (String c s) = (_ ← digit c; let r := 1 * lead_digits 0 (String c s) in
            if decide (- 2 ^ 63 <= r < 2 ^ 63) then Some r else None)) as ->.
  { destruct c as [[] [] [] [] [] [] [] []]; first [done|by vm_compute in Hc]. }
  rewrite Hc. cbn [mbind option_bind]. rewrite (lead_digits_all _ _ _ Hd), Z.mul_1_l. by rewrite decide_True by lia.
Qed.

Lemma scan_pid_own ph pid : 0 < pid < 2 ^ 31 -> scan_pid ph (myfilename ph pid) = Some pid.
Proof.
  intros Hp. unfold scan_pid, myfilename. rewrite strip_prefix_app. cbn [mbind option_bind]. apply scan_int_Itoa. lia.
Qed.

Lemma scan_pid_other ph ph' pid : ph <> ph' -> scan_pid ph (myfilename ph' pid) = None.
Proof. by destruct ph, ph'. Qed.

Lemma myfilename_inj ph ph' pid pid' : myfilename ph pid = myfilename ph' pid' -> ph = ph' /\ pid = pid'.
Proof.
  intros E. destruct ph, ph'; try done; (split; [done|]); by apply string_app_inj_l, Itoa_inj in E.
Qed.

(** ** Lemmas: [nparallel] *)

Lemma elem_of_inside ph s pid :
  pid ∈ inside ph s <-> pid ∈ t_alive s /\ exists w, t_workers s !! pid = Some w /\ in_phase ph w = true.
Proof.
  unfold inside. rewrite elem_of_filter, elem_of_dom. apply and_iff_compat_l. split.
  - intros [w [Hw Hp]%map_lookup_filter_Some]. by exists w.
  - intros (w&Hw&Hp). exists w. by apply map_lookup_filter_Some.
Qed.

(** The processes whose names are still to be looked at. *)
Definition pids_of (ph : phase) (names : list string) : list Z := omap (scan_pid ph) names.

(** What a worker has counted so far. *)
Record progress (al : gset Z) (ws : gmap Z worker) (ph : phase) (in0 : gset Z) (names : list string) (ret : Z)
    (counted : gset Z) : Prop := {
  pr_ret : ret = Z.of_nat (size counted);
  pr_counted : counted ⊆ in0;
  pr_known x : x ∈ in0 -> is_Some (ws !! x);
  pr_bound : Z.of_nat (size counted + length names) <= max_names;
  pr_NoDup : NoDup (pids_of ph names);
  pr_fresh x : x ∈ pids_of ph names -> is_Some (ws !! x) /\ (x ∉ counted) /\ (x ∈ al -> x ∈ in0);
  pr_all x : x ∈ in0 -> x ∈ al -> x ∈ counted \/ x ∈ pids_of ph names;
}.

Definition worker_ok (al : gset Z) (ws : gmap Z worker) (pid : Z) (w : worker) : Prop :=
  match w with
  | Outside | Wrote _ => True
  | Reading ph in0 names ret => pid ∈ in0 /\ exists counted, progress al ws ph in0 names ret counted
  | Counted ph in0 ret => pid ∈ in0 /\ exists counted, progress al ws ph in0 [] ret counted
  end.

Record tinv (s : tsys) : Prop := {
  ti_alive pid : pid ∈ t_alive s -> is_Some (t_workers s !! pid);
  ti_pid pid : is_Some (t_workers s !! pid) -> 0 < pid < 2 ^ 31;
  ti_names ph name x : is_Some (t_files s !! name) -> scan_pid ph name = Some x ->
    name = myfilename ph x /\ exists w, t_workers s !! x = Some w /\ in_phase ph w = true;
  ti_files ph pid w : t_workers s !! pid = Some w -> in_phase ph w = true -> is_Some (t_files s !! myfilename ph pid);
  ti_workers pid w : t_workers s !! pid = Some w -> worker_ok (t_alive s) (t_workers s) pid w;
}.

(** Processes that die, start or move on do not disturb a count. *)
Definition later (al al' : gset Z) (ws ws' : gmap Z worker) : Prop :=
  (forall x, is_Some (ws !! x) -> is_Some (ws' !! x)) /\ (forall x, x ∈ al' -> is_Some (ws !! x) -> x ∈ al).

Lemma later_insert al ws pid w w' : ws !! pid = Some w -> later al al ws (<[pid := w']> ws).
Proof.
  intros Hw. split; [|done]. intros x Hx. destruct (decide (x = pid)) as [->|Hne].
  - rewrite lookup_insert_eq. by eexists.
  - by rewrite lookup_insert_ne.
Qed.

Lemma progress_later al al' ws ws' ph in0 names ret counted :
  later al al' ws ws' -> progress al ws ph in0 names ret counted -> progress al' ws' ph in0 names ret counted.
Proof.
  intros [Hws Hal] [H1 H2 H7 H3 H4 H5 H6]. split; [done|done|auto|done|done| |].
  - intros x Hx. destruct (H5 x Hx) as (Ha&Hb&Hc). split; [by apply Hws|]. split; [done|]. auto.
  - intros x Hx Hx'. apply H6; [done|]. auto.
Qed.

Lemma worker_ok_later al al' ws ws' pid w : later al al' ws ws' -> worker_ok al ws pid w -> worker_ok al' ws' pid w.
Proof.
  intros Hl Hw. destruct w as [|ph|ph in0 names ret|ph in0 ret]; simpl in *; [done|done| |];
    (destruct Hw as (Hp&c&Hc); split; [done|]; exists c; by eapply progress_later).
Qed.

(** A worker moves on, and with it perhaps its own file. *)
Lemma tinv_move f f' al ws pid w w' :
  tinv (mkT f al ws) -> ws !! pid = Some w ->
  (forall ph name x, is_Some (f' !! name) -> scan_pid ph name = Some x ->
     (x = pid -> name = myfilename ph x /\ in_phase ph w' = true) /\ (x <> pid -> is_Some (f !! name))) ->
  (forall ph, in_phase ph w' = true -> is_Some (f' !! myfilename ph pid)) ->
  (forall ph x, x <> pid -> is_Some (f !! myfilename ph x) -> is_Some (f' !! myfilename ph x)) ->
  worker_ok al ws pid w' -> tinv (mkT f' al (<[pid := w']> ws)).
Proof.
  intros [H1 H2 H3 H4 H5] Hw Hn Hf Ho Hok. pose proof (later_insert al ws pid w w' Hw) as Hl. split; simpl in *.
  - intros x Hx. apply Hl. by apply H1.
  - intros x Hx. destruct (decide (x = pid)) as [->|Hne]; [apply H2; by eexists|].
    rewrite lookup_insert_ne in Hx by done. by apply H2.
  - intros ph name x Hx Hs. destruct (Hn ph name x Hx Hs) as [Ha Hb]. destruct (decide (x = pid)) as [->|Hne].
    + destruct (Ha eq_refl). split; [done|]. exists w'. by rewrite lookup_insert_eq.
    + rewrite lookup_insert_ne by done. apply H3; [by apply Hb|done].
  - intros ph x v Hv Hp. destruct (decide (x = pid)) as [->|Hne].
    + rewrite lookup_insert_eq in Hv. injection Hv as <-. by apply Hf.
    + rewrite lookup_insert_ne in Hv by done. apply Ho; [done|]. by eapply H4.
  - intros x v Hv. apply (worker_ok_later al al ws); [done|]. destruct (decide (x = pid)) as [->|Hne].
    + rewrite lookup_insert_eq in Hv. by injection Hv as <-.
    + rewrite lookup_insert_ne in Hv by done. by apply H5.
Qed.

(** ... without changing phase. *)
Lemma tinv_stay f al ws pid w w' :
  tinv (mkT f al ws) -> ws !! pid = Some w -> (forall ph, in_phase ph w' = in_phase ph w) ->
  worker_ok al ws pid w' -> tinv (mkT f al (<[pid := w']> ws)).
Proof.
  intros Hi Hw Hp Hok. pose proof Hi as [_ _ H3 H4 _]. simpl in *. apply (tinv_move f f al ws pid w w'); [done..| | |done|done].
  - intros ph name x Hx Hs. destruct (H3 ph name x Hx Hs) as (->&v&Hv&Hpv). split; [|done]. intros ->.
    split; [done|]. rewrite Hp. congruence.
  - intros ph Hp'. rewrite Hp in Hp'. by eapply H4.
Qed.

(** The processes may change as long as the workers stay and nobody comes back to life. *)
Lemma tinv_alive f al al' ws :
  tinv (mkT f al ws) -> (forall x, x ∈ al' -> x ∈ al) -> tinv (mkT f al' ws).
Proof.
  intros [H1 H2 H3 H4 H5] Hal. split; simpl in *; [auto|done|done|done|].
  intros pid w Hw. apply (worker_ok_later al al' ws ws); [split; [done|auto]|auto].
Qed.

Lemma tinv_start f al ws pid :
  tinv (mkT f al ws) -> 0 < pid < 2 ^ 31 -> ws !! pid = None -> tinv (mkT f ({[ pid ]} ∪ al) (<[pid := Outside]> ws)).
Proof.
  intros [H1 H2 H3 H4 H5] Hp Hn. simpl in *.
  assert (later al ({[ pid ]} ∪ al) ws (<[pid := Outside]> ws)) as Hl.
  { split.
    - intros x [v Hv]. rewrite lookup_insert_ne by congruence. by eexists.
    - intros x [->%elem_of_singleton|Hx]%elem_of_union [v Hv]; [congruence|done]. }
  split; simpl.
  - intros x [->%elem_of_singleton|Hx]%elem_of_union; [rewrite lookup_insert_eq; by eexists|]. apply Hl. auto.
  - intros x Hx. destruct (decide (x = pid)) as [->|Hne]; [done|]. rewrite lookup_insert_ne in Hx by done. auto.
  - intros ph name x Hx Hs. destruct (H3 ph name x Hx Hs) as (E&v&Hv&Hpv). split; [done|]. exists v.
    rewrite lookup_insert_ne by congruence. done.
  - intros ph x v Hv Hpv. apply lookup_insert_Some in Hv as [[_ <-]|[_ Hv]]; [done|]. by eapply H4.
  - intros x v Hv. apply lookup_insert_Some in Hv as [[_ <-]|[_ Hv]]; [done|].
    apply (worker_ok_later al _ ws); [done|auto].
Qed.

Lemma tinv_other f al ws name c :
  tinv (mkT f al ws) -> (forall ph, scan_pid ph name = None) -> tinv (mkT (partial_alter (fun _ => c) name f) al ws).
Proof.
  intros [H1 H2 H3 H4 H5] Hn. split; simpl in *; [done|done| | |done].
  - intros ph name' x Hx Hs. apply H3; [|done]. rewrite lookup_partial_alter_ne in Hx; [done|]. intros <-. by rewrite Hn in Hs.
  - intros ph pid w Hw Hp. rewrite lookup_partial_alter_ne; [by eapply H4|]. intros ->.
    pose proof (Hn ph) as Hph. rewrite scan_pid_own in Hph; [done|]. apply H2. by eexists.
Qed.

Lemma elem_of_pids_of ph names x : x ∈ pids_of ph names <-> exists name, name ∈ names /\ scan_pid ph name = Some x.
Proof. unfold pids_of. by rewrite list_elem_of_omap. Qed.

(** No process has two names. *)
Lemma pids_of_NoDup ph names :
  NoDup names -> (forall name x, name ∈ names -> scan_pid ph name = Some x -> name = myfilename ph x) ->
  NoDup (pids_of ph names).
Proof.
  induction 1 as [|name names Hnot Hnd IH]; intros Hs; [constructor|]. unfold pids_of. simpl. fold (pids_of ph names).
  assert (NoDup (pids_of ph names)) as Hrest by (apply IH; intros n x Hn; apply Hs; by right).
  destruct (scan_pid ph name) as [x|] eqn:E; [|done]. constructor; [|done].
  intros (name'&Hn'&E')%elem_of_pids_of. rewrite (Hs name x) in Hnot by (done || by left).
  rewrite (Hs name' x) in Hn' by (done || by right). done.
Qed.

Lemma elem_of_names (f : files) names name : names ≡ₚ (map_to_list f).*1 -> name ∈ names <-> is_Some (f !! name).
Proof.
  intros ->. rewrite list_elem_of_fmap. split.
  - intros ([n v]&->&Hv%elem_of_map_to_list). by exists v.
  - intros [v Hv]. exists (name, v). by split; [|apply elem_of_map_to_list].
Qed.

Lemma progress_read f al ws ph names :
  tinv (mkT f al ws) -> names ≡ₚ (map_to_list f).*1 -> Z.of_nat (length names) <= max_names ->
  progress al ws ph (inside ph (mkT f al ws)) names 0 ∅.
Proof.
  intros [H1 H2 H3 H4 H5] Hperm Hlen. simpl in *.
  assert (NoDup names) as Hnd by (rewrite Hperm; apply NoDup_fst_map_to_list).
  assert (forall name x, name ∈ names -> scan_pid ph name = Some x ->
            name = myfilename ph x /\ exists w, ws !! x = Some w /\ in_phase ph w = true) as Hs.
  { intros name x Hn Hx. apply H3; [|done]. by apply (elem_of_names f names). }
  split.
  - by rewrite size_empty.
  - set_solver +.
  - intros x (_&w&Hw&_)%elem_of_inside. by exists w.
  - rewrite size_empty. done.
  - apply pids_of_NoDup; [done|]. intros name x Hn Hx. by apply (Hs name x).
  - intros x (name&Hn&Hx)%elem_of_pids_of. destruct (Hs name x Hn Hx) as (_&w&Hw&Hp).
    split; [by exists w|]. split; [set_solver +|]. intros Hal. apply elem_of_inside. split; [done|by exists w].
  - intros x (Hal&w&Hw&Hp)%elem_of_inside _. right. apply elem_of_pids_of. exists (myfilename ph x).
    split; [apply (elem_of_names f names); [done|by eapply H4]|]. apply scan_pid_own, H2. by exists w.
Qed.

Lemma progress_look al ws ph in0 name names ret counted :
  progress al ws ph in0 (name :: names) ret counted ->
  exists counted', progress al ws ph in0 names (look_at ph al name ret) counted'.
Proof.
  intros [H1 H2 H3 H4 H5 H6 H7]. unfold pids_of in H5, H6, H7. simpl in H4, H5, H6, H7.
  fold (pids_of ph names) in H5, H6, H7. unfold look_at.
  destruct (scan_pid ph name) as [x|]; [|exists counted; split; [done|done|done|lia|done..]].
  apply list.NoDup_cons in H5 as [Hx Hnd]. destruct (H6 x) as (Hw&Hxc&Hxin); [by left|].
  destruct (decide (x ∈ al)) as [Hal|Hal].
  - exists ({[ x ]} ∪ counted).
    assert (size ({[ x ]} ∪ counted) = S (size counted)) as Hsz by (rewrite size_union, size_singleton by set_solver + Hxc; lia).
    split; [|set_solver + H2 Hxin Hal|done|lia|done| |].
    + rewrite Hsz, H1. unfold max_names in H4. rewrite i64_small by lia. lia.
    + intros y Hy. destruct (H6 y) as (Ha&Hb&Hc); [by right|]. split; [done|]. split; [|done].
      intros [->%elem_of_singleton|?]%elem_of_union; done.
    + intros y Hy Hy'. destruct (H7 y Hy Hy') as [?|[->|?]%elem_of_cons]; set_solver.
  - exists counted. split; [done|done|done|lia|done| |].
    + intros y Hy. apply H6. by right.
    + intros y Hy Hy'. destruct (H7 y Hy Hy') as [?|[->|?]%elem_of_cons]; [by left|done|by right].
Qed.

Lemma tinv_step s s' : tinv s -> tstep s s' -> tinv s'.
Proof.
  intros Hi Hs. destruct Hs as [f al ws pid Hp Hn|f al ws pid|f al ws name c Hn|f al ws pid ph Hal Hw
    |f al ws pid ph names Hal Hw Hperm Hlen|f al ws pid ph in0 name names ret Hal Hw|f al ws pid ph in0 ret Hal Hw
    |f al ws pid ph in0 ret Hal Hw].
  - by apply tinv_start.
  - apply (tinv_alive f al); [done|]. set_solver +.
  - by apply tinv_other.
  - pose proof Hi as [_ H2 H3 _ _]. simpl in *.
    assert (0 < pid < 2 ^ 31) as Hpid by (apply H2; by eexists).
    apply (tinv_move f _ al ws pid Outside); [done|done| | | |done].
    + intros ph' name x [v Hv] Hx. apply lookup_insert_Some in Hv as [[<- _]|[Hne Hv]].
      * destruct (decide (ph' = ph)) as [->|Hph]; [|by rewrite scan_pid_other in Hx].
        rewrite scan_pid_own in Hx by done. injection Hx as <-. simpl. by rewrite bool_decide_eq_true_2.
      * split; [|by exists v]. intros ->. destruct (H3 ph' name pid) as (_&w&Hw'&Hp'); [by exists v|done|].
        rewrite Hw in Hw'. by injection Hw' as <-.
    + intros ph' Hp'%bool_decide_eq_true. subst ph'. rewrite lookup_insert_eq. by eexists.
    + intros ph' x Hne Hx. rewrite lookup_insert_ne; [done|]. intros [_ ->]%myfilename_inj. done.
  - apply (tinv_stay f al ws pid (Wrote ph)); [done|done|done|]. split.
    + apply elem_of_inside. split; [done|]. exists (Wrote ph). split; [done|]. simpl. by rewrite bool_decide_eq_true_2.
    + exists ∅. by apply progress_read.
  - apply (tinv_stay f al ws pid (Reading ph in0 (name :: names) ret)); [done|done|done|].
    destruct (ti_workers _ Hi pid _ Hw) as (Hin&c&Hc). split; [done|]. by eapply progress_look.
  - apply (tinv_stay f al ws pid (Reading ph in0 [] ret)); [done|done|done|]. exact (ti_workers _ Hi pid _ Hw).
  - pose proof Hi as [_ H2 H3 H4 _]. simpl in *.
    apply (tinv_move f _ al ws pid (Counted ph in0 ret)); [done|done| |done| |done].
    + intros ph' name x [v Hv] Hx. apply lookup_delete_Some in Hv as [Hne Hv]. split; [|by exists v]. intros ->.
      destruct (H3 ph' name pid) as (->&w&Hw'&Hp'); [by exists v|done|]. rewrite Hw in Hw'. injection Hw' as <-.
      apply bool_decide_eq_true in Hp'. by subst ph'.
    + intros ph' x Hne Hx. rewrite lookup_delete_ne; [done|]. intros [_ ->]%myfilename_inj. done.
Qed.

Lemma tinv_steps s s' : tinv s -> rtc tstep s s' -> tinv s'.
Proof. intros Hs Hr. induction Hr as [|a b c Hab _ IH]; [done|]. apply IH. by eapply tinv_step. Qed.

Lemma tinv_init f : (forall ph name, is_Some (f !! name) -> scan_pid ph name = None) -> tinv (mkT f ∅ ∅).
Proof.
  intros Hf. split; simpl.
  - set_solver +.
  - intros pid [w Hw]. by rewrite lookup_empty in Hw.
  - intros ph name x Hx Hs. by rewrite Hf in Hs.
  - intros ph pid w Hw. by rewrite lookup_empty in Hw.
  - intros pid w Hw. by rewrite lookup_empty in Hw.
Qed.

(** ** Lemmas: [jobcount] *)

Definition jobs (f : files) : gset string := filter (fun name => is_jobcount name = true) (dom f).

Lemma elem_of_job_files f name : name ∈ jobs f <-> is_jobcount name = true /\ is_Some (f !! name).
Proof. unfold jobs. by rewrite elem_of_filter, elem_of_dom. Qed.

Lemma jobcount_Reduce_size f key values : jobcount_Reduce f key values = Itoa (Z.of_nat (size (jobs f))).
Proof.
  unfold jobcount_Reduce. do 2 f_equal. set (l := filter _ _).
  assert (NoDup l) as Hnd by (apply list.NoDup_filter, NoDup_fst_map_to_list).
  rewrite <- (size_list_to_set (C := gset string) l Hnd). f_equal. apply set_eq. intros name.
  rewrite elem_of_list_to_set. unfold l. rewrite list_elem_of_filter, elem_of_job_files. apply and_iff_compat_l.
  rewrite list_elem_of_fmap. split.
  - intros ([n v]&->&Hv%elem_of_map_to_list). by exists v.
  - intros [v Hv]. exists (name, v). by split; [|apply elem_of_map_to_list].
Qed.

Lemma jobcount_file_inj me me' c c' :
  0 <= c -> 0 <= c' -> jobcount_file me c = jobcount_file me' c' -> me = me' /\ c = c'.
Proof.
  unfold jobcount_file. intros Hc Hc' E%string_app_inj_l.
  destruct (last_sep_unique "-" (Itoa me) (Itoa me') (Itoa c) (Itoa c')) as [Hg Hi];
    [by apply Itoa_no_dash..|exact E|]. by apply Itoa_inj in Hg, Hi.
Qed.

Lemma is_jobcount_file me c : is_jobcount (jobcount_file me c) = true.
Proof.
  unfold is_jobcount, jobcount_file. apply bool_decide_eq_true_2.
  change ("mr-worker-jobcount-" +:+ ?s)%string with ("mr-worker-jobcount" +:+ ("-" +:+ s))%string.
  rewrite strip_prefix_app. by eexists.
Qed.

(** Every job file is one that a process has written; [k] bounds the counters. *)
Definition jinv (f : files) (counts : gmap Z Z) (k : Z) : Prop :=
  0 <= k /\ (forall me c, counts !! me = Some c -> 0 <= c <= k)
  /\ forall name, name ∈ jobs f -> exists me c, name = jobcount_file me c /\ 0 <= c < default 0 (counts !! me).

Lemma jobs_JMap f me c : jobs (<[jobcount_file me c := "x"%string]> f) = {[ jobcount_file me c ]} ∪ jobs f.
Proof.
  apply set_eq. intros name. rewrite elem_of_union, elem_of_singleton, !elem_of_job_files.
  destruct (decide (name = jobcount_file me c)) as [->|Hne].
  - rewrite is_jobcount_file, lookup_insert_eq. split; [by left|]. intros _. split; [done|by eexists].
  - rewrite lookup_insert_ne by done. tauto.
Qed.

Lemma jobs_JOther f name c : is_jobcount name = false -> jobs (partial_alter (fun _ => c) name f) = jobs f.
Proof.
  intros Hn. apply set_eq. intros x. rewrite !elem_of_job_files. destruct (decide (x = name)) as [->|Hne]; [rewrite Hn; by split; intros []|].
  by rewrite lookup_partial_alter_ne by done.
Qed.

Lemma jinv_JMap f counts k me :
  jinv f counts k -> k < 2 ^ 62 ->
  jinv (<[jobcount_file me (default 0 (counts !! me)) := "x"%string]> f)
       (<[me := i64 (default 0 (counts !! me) + 1)]> counts) (k + 1)
  /\ jobcount_file me (default 0 (counts !! me)) ∉ jobs f.
Proof.
  intros (Hk0&Hc&Hj) Hk. set (c := default 0 (counts !! me)).
  assert (0 <= c <= k) as Hck.
  { unfold c. destruct (counts !! me) as [c'|] eqn:E; simpl; [|lia]. specialize (Hc me c' E). lia. }
  rewrite i64_small by lia. split; [split; [lia|split]|].
  - intros x y [[_ <-]|[_ Hy]]%lookup_insert_Some; [lia|apply Hc in Hy; lia].
  - intros name. rewrite jobs_JMap, elem_of_union, elem_of_singleton. intros [->|Hn].
    + exists me, c. split; [done|]. rewrite lookup_insert_eq. simpl. lia.
    + destruct (Hj name Hn) as (x&y&->&Hy). exists x, y. split; [done|]. destruct (decide (x = me)) as [->|Hne].
      * rewrite lookup_insert_eq. simpl. fold c in Hy. lia.
      * by rewrite lookup_insert_ne.
  - intros (x&y&E&Hy)%Hj. apply jobcount_file_inj in E as [<- <-]; [|lia..]. fold c in Hy. lia.
Qed.

Lemma jobcount_run_spec evs : forall f counts k,
  jinv f counts k -> k + Z.of_nat (length evs) < 2 ^ 62 ->
  (forall name c, JOther name c ∈ evs -> is_jobcount name = false) ->
  size (jobs (jobcount_run evs f counts).1)
  = (size (jobs f) + length (filter (fun e => is_map_event e = true) evs))%nat.
Proof.
  induction evs as [|e evs IH]; intros f counts k Hj Hk Ho; [simpl; lia|]. simpl in Hk.
  assert (forall name c, JOther name c ∈ evs -> is_jobcount name = false) as Ho' by (intros n c Hin; apply (Ho n c); by right).
  rewrite list.filter_cons. destruct e as [me|name c]; simpl.
  - destruct (jinv_JMap f counts k me Hj ltac:(lia)) as [Hj' Hnew]. rewrite (IH _ _ (k + 1)) by (done || lia).
    rewrite jobs_JMap, size_union, size_singleton by set_solver + Hnew. simpl. lia.
  - assert (jobs (partial_alter (fun _ => c) name f) = jobs f) as E by (apply jobs_JOther, (Ho name c); by left).
    rewrite (IH _ _ k); [by rewrite E| |lia|done]. destruct Hj as (H1&H2&H3). split; [done|]. split; [done|].
    by rewrite E.
Qed.

(** ** Properties *)

(** C35: [nparallel] counts the workers that run in parallel.  However the workers interleave
    and die, the number it returns is at most the number of live workers that were inside when it
    read the directory, and at least the number of those that are alive when it has
    counted; the worker counts itself, and the file it removes is there. *)
Theorem nparallel_bounds f s pid ph in0 ret :
  (forall ph name, is_Some (f !! name) -> scan_pid ph name = None) ->
  rtc tstep (mkT f ∅ ∅) s -> t_workers s !! pid = Some (Counted ph in0 ret) ->
  Z.of_nat (size (in0 ∩ t_alive s)) <= ret <= Z.of_nat (size in0)
  /\ pid ∈ in0 /\ (pid ∈ t_alive s -> 1 <= ret) /\ is_Some (t_files s !! myfilename ph pid).
Proof.
  intros Hf Hr Hw. pose proof (tinv_steps _ _ (tinv_init f Hf) Hr) as Hi.
  destruct (ti_workers _ Hi pid _ Hw) as (Hin&counted&[H1 H2 _ _ _ _ H7]).
  assert (in0 ∩ t_alive s ⊆ counted) as Hsub.
  { intros x [Hx Hal]%elem_of_intersection. destruct (H7 x Hx Hal) as [|Hn]; [done|by apply elem_of_nil in Hn]. }
  pose proof (subseteq_size _ _ Hsub) as Hlo. pose proof (subseteq_size _ _ H2) as Hhi.
  split; [lia|]. split; [done|]. split.
  - intros Hal. assert ({[ pid ]} ⊆ counted) as Hone%subseteq_size by (apply singleton_subseteq_l, Hsub; set_solver + Hin Hal).
    rewrite size_singleton in Hone. lia.
  - apply (ti_files _ Hi ph pid _ Hw). simpl. by rewrite bool_decide_eq_true_2.
Qed.

(** [jobcount]'s [Reduce] returns the number of times [Map] ran, whichever processes ran
    it, however often each, and whatever else happens in the directory. *)
Theorem jobcount_counts_map_runs f evs key values :
  (forall name, is_Some (f !! name) -> is_jobcount name = false) ->
  (forall name c, JOther name c ∈ evs -> is_jobcount name = false) -> Z.of_nat (length evs) < 2 ^ 62 ->
  jobcount_Reduce (jobcount_run evs f ∅).1 key values
  = Itoa (Z.of_nat (length (filter (fun e => is_map_event e = true) evs))).
Proof.
  intros Hf Ho Hlen. rewrite jobcount_Reduce_size.
  assert (forall name, name ∉ jobs f) as Hnone by (intros name [Hj Hs]%elem_of_job_files; by rewrite Hf in Hj).
  rewrite (jobcount_run_spec evs f ∅ 0); [|split; [lia|split]|lia|done].
  - assert (jobs f = ∅) as -> by (apply set_eq; set_solver + Hnone). by rewrite size_empty.
  - intros me c Hc. by rewrite lookup_empty in Hc.
  - intros name Hn. by destruct (Hnone name).
Qed.

(** *** Examples *)

(** Two workers: the second reads the directory after the first has died, whose file is still
    there. *)
Definition timing_demo : tsys :=
  mkT (<[myfilename PMap 8 := "x"%string]> (<[myfilename PMap 7 := "x"%string]> ∅)) ({[ 8 ]} ∪ ({[ 7 ]} ∪ ∅) ∖ {[ 7 ]})
    (<[8 := Wrote PMap]> (<[8 := Outside]> (<[7 := Wrote PMap]> (<[7 := Outside]> ∅)))).

Lemma timing_demo_run : rtc tstep (mkT ∅ ∅ ∅) timing_demo.
Proof.
  eapply rtc_l; [apply (t_start _ _ _ 7); [lia|done]|].
  eapply rtc_l; [apply (t_write _ _ _ 7 PMap); [set_solver +|done]|].
  eapply rtc_l; [apply (t_die _ _ _ 7)|].
  eapply rtc_l; [apply (t_start _ _ _ 8); [lia|done]|].
  eapply rtc_l; [apply (t_write _ _ _ 8 PMap); [set_solver +|done]|].
  apply rtc_refl.
Qed.

Definition timing_names : list string := [myfilename PMap 7; myfilename PMap 8].

Definition timing_counted : tsys :=
  mkT (t_files timing_demo) (t_alive timing_demo)
    (<[8 := Counted PMap (inside PMap timing_demo) 1]>
      (<[8 := Reading PMap (inside PMap timing_demo) [] 1]>
        (<[8 := Reading PMap (inside PMap timing_demo) [myfilename PMap 8] 0]>
          (<[8 := Reading PMap (inside PMap timing_demo) timing_names 0]> (t_workers timing_demo))))).

Lemma timing_counted_run : rtc tstep timing_demo timing_counted.
Proof.
  assert (8 ∈ t_alive timing_demo) as Hal by set_solver +.
  eapply rtc_l; [apply (t_read _ _ _ 8 PMap timing_names); [exact Hal|done| |vm_compute; discriminate]|].
  { apply NoDup_Permutation; [apply (bool_decide_unpack _); vm_compute; exact I|apply NoDup_fst_map_to_list|].
    intros name. rewrite (elem_of_names (t_files timing_demo) (map_to_list (t_files timing_demo)).*1) by done.
    unfold timing_names. simpl. rewrite lookup_insert_is_Some, lookup_insert_is_Some, lookup_empty.
    rewrite !elem_of_cons, elem_of_nil. split; [intros [->|[->|[]]]|].
    - right. split; [discriminate|by left].
    - by left.
    - intros [<-|[_ [<-|[_ [? [=]]]]]]; auto. }
  eapply rtc_l; [eapply (t_look _ _ _ 8 PMap _ (myfilename PMap 7) [myfilename PMap 8] 0); [exact Hal|done]|].
  eapply rtc_l; [eapply (t_look _ _ _ 8 PMap _ (myfilename PMap 8) [] 0); [exact Hal|done]|].
  eapply rtc_l; [eapply (t_counted _ _ _ 8 PMap _ 1); [exact Hal|done]|].
  apply rtc_refl.
Qed.

Lemma nparallel_bounds_witness :
  rtc tstep (mkT ∅ ∅ ∅) timing_counted /\ 1 <= 1 <= Z.of_nat (size (inside PMap timing_demo)).
Proof.
  assert (rtc tstep (mkT ∅ ∅ ∅) timing_counted) as Hr.
  { etransitivity; [exact timing_demo_run|exact timing_counted_run]. }
  destruct (nparallel_bounds ∅ timing_counted 8 PMap (inside PMap timing_demo) 1) as ([_ H]&_&H1&_).
  - intros ph name [v Hv]. discriminate Hv.
  - exact Hr.
  - reflexivity.
  - split; [exact Hr|]. split; [apply H1; set_solver +|exact H].
Defined.

(** Process 7 runs two maps and process 8 one, and an output file is written. *)
Lemma jobcount_counts_map_runs_witness :
  jobcount_Reduce (jobcount_run [JMap 7; JOther "mr-0-0" (Some "[]"%string); JMap 8; JMap 7] ∅ ∅).1 "a" ["x"; "x"; "x"]%string = "3"%string.
Proof.
  rewrite (jobcount_counts_map_runs ∅ [JMap 7; JOther "mr-0-0" (Some "[]"%string); JMap 8; JMap 7]).
  - reflexivity.
  - intros name [v Hv]. discriminate Hv.
  - intros name c Hin. set_unfold in Hin. naive_solver.
  - simpl. lia.
Defined.

(** The two functions of [mtiming] in one job: what the test looks for is in the output also when
    only one worker ran at a time. *)
Example parallel_seen_alone :
  (fun kv => (Key kv, mtiming_Reduce (Key kv) [Value kv])) <$> mtiming_Map 7 "0.5" 1
  = [("times-7", "0.5"); ("parallel-7", "1")]%string.
Proof. vm_compute. reflexivity. Qed.
