(* ===== verification/MRHarness.v ===== *)
(** * The checks and the processes of the MapReduce tests

    The rest of [src/map_reduce/mr/util.go], as [src/map_reduce/mr/mr_test.go] uses it: counting the
    matches of a regular expression in the output files, the directory of a test, and the
    processes of a test with the channel on which their exits are announced. *)

From S2P Require Import Prelude Base64 Coordinator MRWorker MRJob MRApps MRTest MRTiming.
Local Open Scope Z_scope.

(** ** Regular expressions *)

(** What the patterns of the tests are made of: a byte, a range in brackets or a dot, repeated with a
    star or not. *)
Inductive cset := Chr (c : ascii) | Range (lo hi : ascii) | Dot.

Inductive item := One (s : cset) | Many (s : cset).

Definition in_cset (s : cset) (c : ascii) : bool :=
  match s with
  | Chr d => bool_decide (c = d)
  | Range lo hi => Nat.leb (nat_of_ascii lo) (nat_of_ascii c) && Nat.leb (nat_of_ascii c) (nat_of_ascii hi)
  | Dot => bool_decide (c <> nl)
  end.

(** Bytes with a meaning of their own. *)
Definition is_meta (c : ascii) : bool := has_byte c "\.+*?()|[]{}^$".

Definition parse_cset (s : string) : option (cset * string) :=
  match s with
  | String "[" (String lo (String "-" (String hi (String "]" rest)))) => Some (Range lo hi, rest)
  | String "." rest => Some (Dot, rest)
  | String c rest => if is_meta c then None else Some (Chr c, rest)
  | EmptyString => None
  end.

Fixpoint parse_items (fuel : nat) (s : string) : option (list item) :=
  match fuel, s with
  | _, EmptyString => Some []
  | O, _ => None
  | S fuel', _ =>
      '(cs, rest) ← parse_cset s;
      match rest with
      | String "*" rest' => cons (Many cs) <$> parse_items fuel' rest'
      | _ => cons (One cs) <$> parse_items fuel' rest
      end
  end.

(** [regexp.Compile]: [None] for a pattern of another form, or one that could match nothing. *)
Definition Compile (p : string) : option (list item) :=
  match parse_items (String.length p) p with
  | Some (One cs :: its) => Some (One cs :: its)
  | _ => None
  end.

(** The match at the beginning of the text, and what follows it: a star takes as much as it can. *)
Fixpoint match_here (its : list item) (s : string) : option string :=
  match its with
  | [] => Some s
  | One cs :: its' =>
      match s with
      | String c s' => if in_cset cs c then match_here its' s' else None
      | EmptyString => None
      end
  | Many cs :: its' =>
      (fix many (s : string) : option string :=
         match s with
         | String c s' =>
             if in_cset cs c then match many s' with Some r => Some r | None => match_here its' s end
             else match_here its' s
         | EmptyString => match_here its' s
         end) s
  end.

(** The number of matches [FindAllString] returns: from the left, without overlap. *)
Fixpoint find_all (fuel : nat) (its : list item) (s : string) : Z :=
  match fuel, s with
  | S fuel', String _ s' =>
      match match_here its s with
      | Some r => 1 + find_all fuel' its r
      | None => find_all fuel' its s'
      end
  | _, _ => 0
  end.

Definition countPatternFile (f p : string) (fs : files) : go Z :=
  match fs !! f with
  | None => Crash Fatal
  | Some data =>
      match Compile p with
      | None => Crash Fatal
      | Some its => Ret (find_all (String.length data) its data)
      end
  end.

Fixpoint count_files (names : list string) (p : string) (fs : files) (n : Z) : go Z :=
  match names with
  | [] => Ret n
  | f :: rest => m ← countPatternFile f p fs; count_files rest p fs (i64 (n + m))
  end.

Definition countPattern (names : list string) (p : string) (fs : files) : go Z := count_files names p fs 0.

Example compiled :
  Compile "times-" = Some (One <$> [Chr "t"; Chr "i"; Chr "m"; Chr "e"; Chr "s"; Chr "-"])
  /\ Compile "parallel.*" = Some ((One <$> [Chr "p"; Chr "a"; Chr "r"; Chr "a"; Chr "l"; Chr "l"; Chr "e"; Chr "l"]) ++ [Many Dot])
  /\ Compile "[a-z] 2" = Some (One <$> [Range "a" "z"; Chr " "; Chr "2"])
  /\ Compile "a 8" = Some (One <$> [Chr "a"; Chr " "; Chr "8"]).
Proof. done. Qed.

(** ** Lemmas: matching *)

(** The texts an item, and a pattern, stand for. *)
Inductive denotes : list item -> string -> Prop :=
  | d_nil : denotes [] ""
  | d_one cs its c s : in_cset cs c = true -> denotes its s -> denotes (One cs :: its) (String c s)
  | d_stop cs its s : denotes its s -> denotes (Many cs :: its) s
  | d_more cs its c s : in_cset cs c = true -> denotes (Many cs :: its) s -> denotes (Many cs :: its) (String c s).

Lemma match_here_many cs its s :
  match_here (Many cs :: its) s
  = match s with
    | String c s' =>
        if in_cset cs c then match match_here (Many cs :: its) s' with Some r => Some r | None => match_here its s end
        else match_here its s
    | EmptyString => match_here its s
    end.
Proof. by destruct s. Qed.

(** What [match_here] takes is a text of the pattern, and it finds one if there is one. *)
Lemma match_here_sound its : forall s r, match_here its s = Some r -> exists m, s = m +:+ r /\ denotes its m.
Proof.
  induction its as [|[cs|cs] its IH]; intros s r.
  - intros [= ->]. exists ""%string. split; [done|constructor].
  - destruct s as [|c s]; [done|]. simpl. destruct (in_cset cs c) eqn:Hc; [|done].
    intros (m&->&Hm)%IH. exists (String c m). split; [done|by constructor].
  - induction s as [|c s IHs]; rewrite match_here_many.
    + intros (m&->&Hm)%IH. exists m. split; [done|by constructor].
    + assert (match_here its (String c s) = Some r -> exists m, String c s = m +:+ r /\ denotes (Many cs :: its) m) as Hstop.
      { intros (m&->&Hm)%IH. exists m. split; [done|by constructor]. }
      destruct (in_cset cs c) eqn:Hc; [|exact Hstop].
      destruct (match_here (Many cs :: its) s) as [r'|]; [|exact Hstop].
      intros [= ->]. destruct (IHs eq_refl) as (m&->&Hm). exists (String c m). split; [done|by constructor].
Qed.

Lemma match_here_complete its m : denotes its m -> forall t, is_Some (match_here its (m +:+ t)).
Proof.
  induction 1 as [|cs its c s Hc _ IH|cs its s _ IH|cs its c s Hc _ IH]; intros t.
  - by eexists.
  - rewrite string_cons_app. simpl. rewrite Hc. apply IH.
  - rewrite match_here_many. specialize (IH t). destruct (s +:+ t) as [|d u]; [done|].
    destruct (in_cset cs d); [|done]. destruct (match_here (Many cs :: its) u); [by eexists|done].
  - rewrite string_cons_app, match_here_many, Hc. destruct (IH t) as [r ->]. by eexists.
Qed.

(** A pattern none of whose items takes a newline. *)
Definition in_line (its : list item) : bool :=
  forallb (fun it => match it with One cs | Many cs => negb (in_cset cs nl) end) its.

(** Such a pattern sees the line it is in, and nothing behind it. *)
Lemma match_here_line its : in_line its = true -> forall l t,
  match_here its (l +:+ String nl t) = (fun r => r +:+ String nl t) <$> match_here its l.
Proof.
  induction its as [|[cs|cs] its IH]; intros Hin l t; [done| |];
    simpl in Hin; apply andb_true_iff in Hin as [Hc%negb_true_iff Hin].
  - destruct l as [|c l]; [rewrite string_nil_app; simpl; by rewrite Hc|]. rewrite string_cons_app. simpl.
    destruct (in_cset cs c); [by apply IH|done].
  - induction l as [|c l IHl].
    + rewrite string_nil_app, match_here_many, Hc. rewrite match_here_many. by rewrite <-(IH Hin ""%string t).
    + rewrite string_cons_app, (match_here_many cs its (String c (_ +:+ _))), (match_here_many cs its (String c l)), IHl,
        <-string_cons_app, IH by done.
      destruct (in_cset cs c); [|done]. by destruct (match_here (Many cs :: its) l).
Qed.

(** A match takes at least a byte. *)
Lemma match_here_shorter cs its s r :
  match_here (One cs :: its) s = Some r -> (String.length r < String.length s)%nat.
Proof.
  intros (m&->&Hm)%match_here_sound. inversion Hm; subst. rewrite string_length_app. simpl. lia.
Qed.

(** The fuel of [find_all] is enough, and its value does not matter. *)
Lemma find_all_fuel cs its : forall f1 f2 s, (String.length s <= f1)%nat -> (String.length s <= f2)%nat ->
  find_all f1 (One cs :: its) s = find_all f2 (One cs :: its) s.
Proof.
  induction f1 as [|f1 IH]; intros f2 s H1 H2; destruct s as [|c s]; simpl in H1; [by destruct f2|lia|by destruct f2|].
  destruct f2 as [|f2]; simpl in H2; [lia|]. cbn [find_all].
  destruct (match_here (One cs :: its) (String c s)) as [r|] eqn:E; [|apply IH; lia].
  apply match_here_shorter in E. simpl in E. f_equal. apply IH; lia.
Qed.

(** The number of matches in a text. *)
Definition matches (its : list item) (s : string) : Z := find_all (String.length s) its s.

Lemma matches_cons cs its c s :
  matches (One cs :: its) (String c s)
  = match match_here (One cs :: its) (String c s) with
    | Some r => 1 + matches (One cs :: its) r
    | None => matches (One cs :: its) s
    end.
Proof.
  unfold matches. cbn [String.length find_all].
  destruct (match_here (One cs :: its) (String c s)) as [r|] eqn:E; [|done].
  apply match_here_shorter in E. simpl in E. f_equal. apply find_all_fuel; lia.
Qed.

(** Lines are searched one by one. *)
Lemma matches_line cs its l t :
  in_line (One cs :: its) = true -> matches (One cs :: its) (l +:+ String nl t) = matches (One cs :: its) l + matches (One cs :: its) t.
Proof.
  intros Hin. remember (String.length l) as n eqn:En. revert l En. induction n as [n IH] using lt_wf_ind. intros l ->.
  destruct l as [|c l].
  - rewrite string_nil_app, matches_cons. replace (String nl t) with ("" +:+ String nl t) by done.
    by rewrite match_here_line.
  - rewrite string_cons_app, !matches_cons, <-string_cons_app, match_here_line by done.
    destruct (match_here (One cs :: its) (String c l)) as [r|] eqn:E; simpl.
    + apply match_here_shorter in E. rewrite (IH _ E r eq_refl). lia.
    + by apply (IH (String.length l)); [simpl; lia|].
Qed.

(** ** Lemmas: counting in output files *)

Definition sum_Z (l : list Z) : Z := foldr Z.add 0 l.

Lemma sum_Z_app l l' : sum_Z (l ++ l') = sum_Z l + sum_Z l'.
Proof. induction l as [|x l IH]; simpl; [done|]. rewrite IH. lia. Qed.

#[export] Instance sum_Z_Proper : Proper ((≡ₚ) ==> (=)) sum_Z.
Proof. induction 1; simpl; lia. Qed.

Lemma sum_Z_const {A} (f : A -> Z) (c : Z) l : (forall x, x ∈ l -> f x = c) -> sum_Z (f <$> l) = c * Z.of_nat (length l).
Proof.
  induction l as [|x l IH]; intros Hl; [simpl; lia|]. rewrite fmap_cons. cbn [sum_Z foldr length].
  change (foldr Z.add 0 (f <$> l)) with (sum_Z (f <$> l)). rewrite IH by (intros y Hy; apply Hl; by right).
  rewrite (Hl x) by (by left). lia.
Qed.

Lemma sum_Z_nonneg l : Forall (fun x => 0 <= x) l -> 0 <= sum_Z l.
Proof. induction 1; simpl; lia. Qed.

Lemma find_all_nonneg its : forall fuel s, 0 <= find_all fuel its s.
Proof.
  induction fuel as [|fuel IH]; intros [|c s]; simpl; try lia. destruct (match_here its (String c s)) as [r|]; [|apply IH].
  specialize (IH r). lia.
Qed.

(** A text with lines [xs]. *)
Definition lines_text (xs : list string) : string := concat_strings ((fun x => x +:+ String nl "") <$> xs).

Lemma matches_lines cs its xs :
  in_line (One cs :: its) = true -> matches (One cs :: its) (lines_text xs) = sum_Z (matches (One cs :: its) <$> xs).
Proof.
  intros Hin. unfold lines_text. induction xs as [|x xs IH]; [done|]. rewrite !fmap_cons, concat_strings_cons.
  rewrite string_app_assoc, string_cons_app, string_nil_app, matches_line, IH by done. done.
Qed.

(** Counting in files whose lines are known. *)
Lemma count_files_spec p cs its fs names xss :
  Compile p = Some (One cs :: its) -> in_line (One cs :: its) = true ->
  Forall2 (fun name xs => fs !! name = Some (lines_text xs)) names xss -> forall n,
  0 <= n -> n + sum_Z (matches (One cs :: its) <$> concat xss) < 2 ^ 63 ->
  count_files names p fs n = Ret (n + sum_Z (matches (One cs :: its) <$> concat xss)).
Proof.
  intros Hc Hin Hfs. induction Hfs as [|name xs names xss Hx _ IH]; intros n Hn Hb; [simpl; f_equal; lia|].
  cbn [count_files concat]. unfold countPatternFile. rewrite Hx, Hc. run_go.
  cbn [concat] in Hb. rewrite fmap_app, sum_Z_app in Hb |- *.
  change (find_all (String.length (lines_text xs)) (One cs :: its) (lines_text xs)) with (matches (One cs :: its) (lines_text xs)).
  rewrite matches_lines by done.
  assert (forall ys, 0 <= sum_Z (matches (One cs :: its) <$> ys)) as Hpos.
  { intros ys. apply sum_Z_nonneg, Forall_fmap, list.Forall_forall. intros y _. apply find_all_nonneg. }
  pose proof (Hpos xs). pose proof (Hpos (concat xss)).
  rewrite i64_small by lia. rewrite IH by lia. f_equal. lia.
Qed.

Lemma size_list_to_set_le (l : list Z) : (size (list_to_set l : gset Z) <= length l)%nat.
Proof.
  induction l as [|x l IH]; [done|]. cbn [list_to_set length]. rewrite size_union_alt, size_singleton.
  pose proof (subseteq_size (list_to_set l ∖ {[ x ]}) (list_to_set l : gset Z) ltac:(set_solver +)). lia.
Qed.

(** No match without a byte that the first item takes. *)
Fixpoint lacks (cs : cset) (s : string) : bool :=
  match s with EmptyString => true | String c s' => negb (in_cset cs c) && lacks cs s' end.

Lemma lacks_app cs s t : lacks cs (s +:+ t) = lacks cs s && lacks cs t.
Proof. induction s as [|c s IH]; [done|]. rewrite string_cons_app. simpl. by rewrite IH, andb_assoc. Qed.

Lemma matches_lacks cs its s : lacks cs s = true -> matches (One cs :: its) s = 0.
Proof.
  induction s as [|c s IH]; [done|]. simpl. intros [Hc%negb_true_iff Hs]%andb_true_iff.
  rewrite matches_cons. cbn [match_here]. rewrite Hc. by apply IH.
Qed.

(** One match, at the beginning. *)
Lemma matches_once cs its c s r :
  match_here (One cs :: its) (String c s) = Some r -> lacks cs r = true -> matches (One cs :: its) (String c s) = 1.
Proof. intros E Hr. by rewrite matches_cons, E, matches_lacks. Qed.

Lemma lacks_digits cs s : (forall c, is_Some (digit c) -> in_cset cs c = false) -> forall acc z, digits_from acc s = Some z -> lacks cs s = true.
Proof.
  intros Hd. induction s as [|c s IH]; intros acc z; [done|]. simpl. destruct (digit c) as [d|] eqn:E; [|done].
  simpl. intros Hs. rewrite Hd by (by eexists). simpl. by eapply IH.
Qed.

Lemma lacks_Itoa cs z : (forall c, is_Some (digit c) -> in_cset cs c = false) -> 0 <= z -> lacks cs (Itoa z) = true.
Proof. intros Hd Hz. by eapply lacks_digits, digits_Itoa. Qed.

Lemma lacks_Join cs l : in_cset cs " " = false -> Forall (fun s => lacks cs s = true) l -> lacks cs (Join l " ") = true.
Proof.
  intros Hc. induction 1 as [|s l Hs Hl IH]; [done|]. destruct l as [|s' l]; [done|].
  cbn [Join]. rewrite !lacks_app, Hs. cbn [Join] in IH. rewrite IH. simpl. by rewrite Hc.
Qed.

(** Letters are no digits. *)
Lemma digit_not_letter c : is_Some (digit c) -> in_cset (Range "a" "z") c = false.
Proof.
  intros [d Hd]. unfold digit in Hd. destruct c as [[] [] [] [] [] [] [] []]; try done.
Qed.

Lemma digit_not_chr b c : in_cset (Range "a" "z") b = true -> is_Some (digit c) -> in_cset (Chr b) c = false.
Proof.
  intros Hb Hc. apply bool_decide_eq_false. intros ->. by rewrite digit_not_letter in Hb.
Qed.

(** ** The checks of the tests *)

(** The output files [names] hold one line for each key of the pairs [l], as they do when a job
    is done. *)
Definition outputs (reducefn : string -> list string -> string) (l : list KeyValue) (names : list string) (fs : files) : Prop :=
  exists kss, Forall2 (fun name ks => fs !! name = Some (concat_strings (line_of reducefn l <$> ks))) names kss
    /\ NoDup (concat kss) /\ forall k, k ∈ concat kss <-> k ∈ Key <$> l.

(** A line without its newline. *)
Definition body (reducefn : string -> list string -> string) (l : list KeyValue) (k : string) : string :=
  k +:+ " " +:+ reducefn k (values k l).

Lemma line_of_body reducefn l ks : concat_strings (line_of reducefn l <$> ks) = lines_text (body reducefn l <$> ks).
Proof.
  unfold lines_text. rewrite <-list_fmap_compose. f_equal. apply list_fmap_ext. intros i k _.
  unfold line_of, format_line, body. simpl. by rewrite !string_app_assoc.
Qed.

(** Counting a pattern that matches at most once in the line of each key. *)
Lemma count_outputs reducefn l names fs p cs its (hits : string -> bool) keys :
  Compile p = Some (One cs :: its) -> in_line (One cs :: its) = true ->
  outputs reducefn l names fs -> NoDup keys -> (forall k, k ∈ keys <-> k ∈ Key <$> l) ->
  (forall k, k ∈ Key <$> l -> matches (One cs :: its) (body reducefn l k) = if hits k then 1 else 0) ->
  Z.of_nat (length keys) < 2 ^ 63 ->
  countPattern names p fs = Ret (Z.of_nat (length (filter (fun k => hits k = true) keys))).
Proof.
  intros Hc Hin (kss&Hf&Hnd&Hk) Hnd' Hkeys Hhits Hb.
  assert (concat kss ≡ₚ keys) as Hp by (apply list.NoDup_Permutation; [done..|]; intros k; by rewrite Hk, Hkeys).
  assert (sum_Z (matches (One cs :: its) <$> concat ((fun ks : list string => body reducefn l <$> ks) <$> kss))
          = Z.of_nat (length (filter (fun k => hits k = true) keys))) as Hsum.
  { assert (concat ((fun ks : list string => body reducefn l <$> ks) <$> kss) = body reducefn l <$> concat kss) as ->.
    { clear. induction kss as [|ks kss IH]; [done|]. rewrite fmap_cons. cbn [concat]. by rewrite fmap_app, IH. }
    rewrite Hp, <-list_fmap_compose. clear -Hkeys Hhits.
    assert (forall k, k ∈ keys -> matches (One cs :: its) (body reducefn l k) = if hits k then 1 else 0) as Hh
      by (intros k Hk; by apply Hhits, Hkeys).
    clear Hkeys Hhits. induction keys as [|k keys IH]; [done|]. rewrite fmap_cons, filter_cons. simpl.
    change (foldr Z.add 0) with sum_Z. rewrite IH by (intros k' Hk'; apply Hh; by right). rewrite Hh by (by left).
    destruct (hits k) eqn:E; [rewrite decide_True by done; simpl; lia|rewrite decide_False by done; lia]. }
  unfold countPattern. erewrite (count_files_spec p cs its fs names ((fun ks : list string => body reducefn l <$> ks) <$> kss)); [by rewrite Hsum|done..| | |].
  - clear -Hf. induction Hf as [|name ks names kss Hx _ IH]; [constructor|]. rewrite fmap_cons. constructor; [|done].
    by rewrite Hx, line_of_body.
  - done.
  - rewrite Hsum. pose proof (length_filter (fun k => hits k = true) keys). lia.
Qed.

(** A time as [%.1f] prints it. *)
Definition stamp (ts : string) : Prop := lacks (Range "a" "z") ts = true /\ lacks (Chr nl) ts = true.

Lemma lacks_letter b s : in_cset (Range "a" "z") b = true -> lacks (Range "a" "z") s = true -> lacks (Chr b) s = true.
Proof.
  intros Hb. induction s as [|c s IH]; [done|]. cbn [lacks]. intros [Hc%negb_true_iff Hs]%andb_true_iff.
  rewrite IH by done. rewrite andb_true_r. apply negb_true_iff, bool_decide_eq_false. intros ->. congruence.
Qed.

Definition timing_pairs (runs : list (Z * string * Z)) : list KeyValue :=
  runs ≫= fun '(pid, ts, n) => mtiming_Map pid ts n.

(** The processes that ran map tasks. *)
Definition map_pids (runs : list (Z * string * Z)) : gset Z := list_to_set (runs.*1.*1).

Definition times_key (pid : Z) : string := "times-" +:+ Itoa pid.
Definition parallel_key (pid : Z) : string := "parallel-" +:+ Itoa pid.

Lemma timing_keys runs k :
  k ∈ Key <$> timing_pairs runs
  <-> exists pid, pid ∈ map_pids runs /\ (k = times_key pid \/ k = parallel_key pid).
Proof.
  unfold timing_pairs, map_pids. split.
  - intros (kv&->&([[pid ts] n]&Hkv&Hin)%list_elem_of_bind)%list_elem_of_fmap. exists pid. split.
    + rewrite elem_of_list_to_set. apply list_elem_of_fmap. exists (pid, ts). split; [done|].
      apply list_elem_of_fmap. by exists (pid, ts, n).
    + unfold mtiming_Map in Hkv. simpl in Hkv. apply elem_of_cons in Hkv as [->|[->|[]%elem_of_nil]%elem_of_cons]; auto.
  - rewrite elem_of_list_to_set || setoid_rewrite elem_of_list_to_set.
    intros (pid&([pid' ts]&->&([[p t] n]&E&Hin)%list_elem_of_fmap)%list_elem_of_fmap&Hk). injection E as -> ->.
    apply list_elem_of_fmap. destruct Hk as [->| ->].
    + exists (mkKV (times_key p) t). split; [done|]. apply list_elem_of_bind. exists (p, t, n). split; [by left|done].
    + exists (mkKV (parallel_key p) (Itoa n)). split; [done|]. apply list_elem_of_bind. exists (p, t, n). split; [by right; left|done].
Qed.

Definition timing_key_list (pids : gset Z) : list string := (times_key <$> elements pids) ++ (parallel_key <$> elements pids).

Lemma timing_key_list_NoDup pids : NoDup (timing_key_list pids).
Proof.
  apply list.NoDup_app. split_and!.
  - apply NoDup_fmap_2; [|apply NoDup_elements]. intros x y E. by apply string_app_inj_l, Itoa_inj in E.
  - intros k (x&->&_)%list_elem_of_fmap (y&E&_)%list_elem_of_fmap. done.
  - apply NoDup_fmap_2; [|apply NoDup_elements]. intros x y E. by apply string_app_inj_l, Itoa_inj in E.
Qed.

(** The values that reach the reducer are times and numbers. *)
Lemma timing_value cs runs k :
  (forall c, is_Some (digit c) -> in_cset cs c = false) -> in_cset cs " " = false ->
  Forall (fun '(pid, ts, n) => lacks cs ts = true /\ 0 <= n) runs ->
  lacks cs (mtiming_Reduce k (values k (timing_pairs runs))) = true.
Proof.
  intros Hd Hsp Hr. unfold mtiming_Reduce. apply lacks_Join; [done|]. unfold sort_Strings.
  rewrite merge_sort_Permutation. apply list.Forall_forall. intros v Hv. unfold values in Hv.
  apply list_elem_of_fmap in Hv as (kv&->&[_ Hkv]%list_elem_of_filter).
  apply list_elem_of_bind in Hkv as ([[pid ts] n]&Hkv&Hin). rewrite list.Forall_forall in Hr.
  destruct (Hr _ Hin) as (Hts&Hn). unfold mtiming_Map in Hkv. simpl in Hkv.
  apply elem_of_cons in Hkv as [->|[->|[]%elem_of_nil]%elem_of_cons]; [done|]. simpl. by apply lacks_Itoa.
Qed.

Definition times_pat : list item := One <$> [Chr "t"; Chr "i"; Chr "m"; Chr "e"; Chr "s"; Chr "-"].
Definition parallel_pat : list item :=
  (One <$> [Chr "p"; Chr "a"; Chr "r"; Chr "a"; Chr "l"; Chr "l"; Chr "e"; Chr "l"]) ++ [Many Dot].

Lemma match_all_dots s : lacks (Chr nl) s = true -> match_here [Many Dot] s = Some ""%string.
Proof.
  induction s as [|c s IH]; [done|]. cbn [lacks]. intros [Hc%negb_true_iff Hs]%andb_true_iff.
  apply bool_decide_eq_false in Hc. rewrite match_here_many. cbn [in_cset]. by rewrite bool_decide_true, IH.
Qed.

Lemma digit_not_nl c : is_Some (digit c) -> in_cset (Chr nl) c = false.
Proof. intros Hc. apply bool_decide_eq_false. intros ->. by destruct Hc. Qed.

(** What the two patterns find in the lines of [mtiming]. *)
Lemma timing_matches runs pid :
  0 <= pid -> Forall (fun '(_, ts, n) => stamp ts /\ 0 <= n) runs ->
  let b := body mtiming_Reduce (timing_pairs runs) in
  matches times_pat (b (times_key pid)) = 1 /\ matches times_pat (b (parallel_key pid)) = 0
  /\ matches parallel_pat (b (times_key pid)) = 0 /\ matches parallel_pat (b (parallel_key pid)) = 1.
Proof.
  intros Hp Hr b.
  assert (forall k, lacks (Range "a" "z") (Itoa pid +:+ " " +:+ mtiming_Reduce k (values k (timing_pairs runs))) = true) as Hl.
  { intros k. rewrite !lacks_app, lacks_Itoa by (done || apply digit_not_letter). rewrite timing_value; [done| |done|].
    - apply digit_not_letter.
    - eapply Forall_impl; [|exact Hr]. intros [[p' ts] n] [[? ?] ?]. done. }
  assert (forall k, lacks (Chr nl) (Itoa pid +:+ " " +:+ mtiming_Reduce k (values k (timing_pairs runs))) = true) as Hn.
  { intros k. rewrite !lacks_app, lacks_Itoa by (done || apply digit_not_nl). rewrite timing_value; [done| |done|].
    - apply digit_not_nl.
    - eapply Forall_impl; [|exact Hr]. intros [[p' ts] n] [[? ?] ?]. done. }
  unfold b, body, times_key, parallel_key. rewrite !string_app_assoc.
  split_and!.
  - eapply matches_once; [reflexivity|]. apply lacks_letter; [done|apply Hl].
  - apply matches_lacks. rewrite lacks_app, andb_true_iff. split; [done|]. apply lacks_letter; [done|apply Hl].
  - apply matches_lacks. rewrite lacks_app, andb_true_iff. split; [done|]. apply lacks_letter; [done|apply Hl].
  - apply (matches_once _ _ _ _ ""); [|done].
    change (match_here [Many Dot] (String "-" (Itoa pid +:+ " " +:+ mtiming_Reduce (parallel_key pid) (values (parallel_key pid) (timing_pairs runs)))) = Some ""%string).
    apply match_all_dots. cbn [lacks]. by rewrite Hn.
Qed.

(** The keys of [mtiming]'s output. *)
Definition is_times (k : string) : bool := bool_decide (is_Some (strip_prefix "times-" k)).

Lemma is_times_key pid : is_times (times_key pid) = true.
Proof. unfold is_times, times_key. rewrite strip_prefix_app. by apply bool_decide_eq_true. Qed.

Lemma elem_of_timing_key_list runs k : k ∈ timing_key_list (map_pids runs) <-> k ∈ Key <$> timing_pairs runs.
Proof.
  rewrite timing_keys. unfold timing_key_list. rewrite elem_of_app, !list_elem_of_fmap.
  setoid_rewrite elem_of_elements. naive_solver.
Qed.

Lemma timing_key_filter (pids : gset Z) (h : string -> bool) (b : bool) :
  (forall pid, h (times_key pid) = b) -> (forall pid, h (parallel_key pid) = negb b) ->
  length (filter (fun k => h k = true) (timing_key_list pids)) = size pids.
Proof.
  intros Ht Hp. unfold timing_key_list, size, set_size. simpl. rewrite list.filter_app, length_app.
  induction (elements pids) as [|x l IH]; [done|]. rewrite !fmap_cons, !list.filter_cons, Ht, Hp.
  destruct b; simpl; lia.
Qed.

Lemma map_pids_bounds runs :
  Forall (fun '(pid, _, _) => 0 <= pid) runs ->
  (forall pid, pid ∈ map_pids runs -> 0 <= pid) /\ Z.of_nat (length (timing_key_list (map_pids runs))) <= 2 * Z.of_nat (length runs).
Proof.
  intros Hr. split.
  - intros pid. unfold map_pids. rewrite elem_of_list_to_set.
    intros ([p t]&->&([[p' t'] n]&[= -> ->]&Hin)%list_elem_of_fmap)%list_elem_of_fmap.
    rewrite list.Forall_forall in Hr. by apply (Hr _ Hin).
  - unfold timing_key_list. rewrite length_app, !length_fmap. pose proof (size_list_to_set_le (runs.*1.*1)) as Hs.
    rewrite !length_fmap in Hs. change (length (elements (map_pids runs))) with (size (map_pids runs)). unfold map_pids. lia.
Qed.

(** C36: what [TestMapParallel] checks.  When a job of [mtiming] is done, the number of matches of
    [times-] in the output files is the number of processes that ran map tasks, and so is the number
    of matches of [parallel.*]: the test passes exactly when two processes ran map tasks, at the same
    time or not. *)
Theorem map_parallel_counts runs names fs :
  outputs mtiming_Reduce (timing_pairs runs) names fs ->
  Forall (fun '(pid, ts, n) => 0 <= pid /\ stamp ts /\ 0 <= n) runs -> Z.of_nat (length runs) < 2 ^ 61 ->
  countPattern names "times-" fs = Ret (Z.of_nat (size (map_pids runs)))
  /\ countPattern names "parallel.*" fs = Ret (Z.of_nat (size (map_pids runs))).
Proof.
  intros Ho Hr Hb.
  destruct (map_pids_bounds runs) as [Hpos Hlen]; [eapply Forall_impl; [|exact Hr]; by intros [[p t] n] (?&?&?)|].
  assert (Forall (fun '(_, ts, n) => stamp ts /\ 0 <= n) runs) as Hr'.
  { eapply Forall_impl; [|exact Hr]. by intros [[p t] n] (?&?&?). }
  split.
  - rewrite (count_outputs _ _ _ _ _ _ _ is_times _ (proj1 compiled) eq_refl Ho (timing_key_list_NoDup _)
               (elem_of_timing_key_list runs)); [|..|lia].
    + by rewrite (timing_key_filter _ _ true is_times_key).
    + intros k (pid&Hpid&[->| ->])%timing_keys; destruct (timing_matches runs pid (Hpos _ Hpid) Hr') as (H1&H2&_);
        [by rewrite is_times_key|done].
  - rewrite (count_outputs _ _ _ _ _ _ _ (fun k => negb (is_times k)) _ (proj1 (proj2 compiled)) eq_refl Ho
               (timing_key_list_NoDup _) (elem_of_timing_key_list runs)); [|..|lia].
    + rewrite (timing_key_filter _ _ false); [done| |done]. intros pid. by rewrite is_times_key.
    + intros k (pid&Hpid&[->| ->])%timing_keys; destruct (timing_matches runs pid (Hpos _ Hpid) Hr') as (_&_&H1&H2);
        [by rewrite is_times_key|done].
Qed.

(** The first byte of a text. *)
Definition starts (b : ascii) (s : string) : bool := match s with String c _ => bool_decide (c = b) | EmptyString => false end.

(** A line that consists of a letter and a number. *)
Lemma letter_matches cs b c z :
  in_cset cs c = true -> (forall d, is_Some (digit d) -> in_cset cs d = false) -> in_cset cs " " = false -> 0 <= z ->
  matches (One <$> [cs; Chr " "; Chr b]) (String c (" " +:+ Itoa z)) = if starts b (Itoa z) then 1 else 0.
Proof.
  intros Hc Hd Hsp Hz. pose proof (lacks_Itoa cs z Hd Hz) as Hl.
  rewrite string_cons_app, string_nil_app. unfold starts. destruct (Itoa z) as [|d s] eqn:E; [by apply Itoa_nonempty in E|].
  cbn [lacks] in Hl. apply andb_true_iff in Hl as [Hd0 Hl].
  change (One <$> [cs; Chr " "; Chr b]) with (One cs :: [One (Chr " "); One (Chr b)]).
  rewrite matches_cons. cbn [match_here]. rewrite Hc. cbn [in_cset]. rewrite bool_decide_true by done.
  destruct (bool_decide (d = b)); [by rewrite matches_lacks|]. apply matches_lacks. cbn [lacks]. by rewrite Hsp, Hd0, Hl.
Qed.

(** What [TestJobCount] checks: that the number of map runs starts with the digit 8. *)
Theorem job_count_check f l names fs :
  outputs (jobcount_Reduce f) l names fs -> l <> [] -> Forall (fun kv => Key kv = "a"%string) l ->
  countPattern names "a 8" fs = Ret (if starts "8" (Itoa (Z.of_nat (size (MRTiming.jobs f)))) then 1 else 0).
Proof.
  intros Ho Hne Hl.
  rewrite (count_outputs _ _ _ _ _ _ _ (fun _ => starts "8" (Itoa (Z.of_nat (size (MRTiming.jobs f))))) ["a"%string]
             (proj2 (proj2 (proj2 compiled))) eq_refl Ho (NoDup_singleton _)); [|..|simpl; lia].
  - unfold filter. simpl. by destruct (starts _ _).
  - intros k. rewrite list_elem_of_singleton, list_elem_of_fmap. rewrite list.Forall_forall in Hl. split.
    + intros ->. destruct l as [|kv l]; [done|]. exists kv. split; [symmetry; apply Hl; by left|by left].
    + intros (kv&->&Hin). by apply Hl.
  - intros k (kv&->&Hin)%list_elem_of_fmap. rewrite list.Forall_forall in Hl. rewrite (Hl kv Hin).
    unfold body. rewrite jobcount_Reduce_size. apply (letter_matches (Chr "a")); [done| |done|lia].
    intros d Hd. by apply digit_not_chr.
Qed.

(** Up to a hundred runs: eight, or eighty and some. *)
Lemma starts_with_8 n : 0 <= n < 100 -> starts "8" (Itoa n) = true <-> n = 8 \/ 80 <= n < 90.
Proof.
  intros Hn. assert (forallb (fun k => eqb (starts "8" (Itoa k)) ((k =? 8) || ((80 <=? k) && (k <? 90)))) (seqZ 0 100) = true) as Hall
    by (vm_compute; reflexivity).
  rewrite forallb_forall in Hall. specialize (Hall n). rewrite <-list_elem_of_In, elem_of_seqZ in Hall.
  specialize (Hall ltac:(lia)). apply eqb_prop in Hall. rewrite Hall, orb_true_iff, andb_true_iff, Z.eqb_eq, Z.leb_le, Z.ltb_lt. lia.
Qed.

Definition letters : list string := ["a"; "b"; "c"; "d"; "e"; "f"; "g"; "h"; "i"; "j"]%string.

(** What [TestReduceParallel] counts, when [nparallel] returned [ns k] to the reduce of key [k]. *)
Theorem reduce_parallel_counts (ns : string -> Z) inputs names fs :
  outputs (fun k vs => rtiming_Reduce (ns k) k vs) (inputs ≫= fun '(f, c) => rtiming_Map f c) names fs ->
  inputs <> [] -> (forall k, 0 <= ns k) ->
  countPattern names "[a-z] 2" fs = Ret (Z.of_nat (length (filter (fun k => starts "2" (Itoa (ns k)) = true) letters))).
Proof.
  intros Ho Hne Hns.
  assert (forall k, k ∈ letters <-> k ∈ Key <$> (inputs ≫= fun '(f, c) => rtiming_Map f c)) as Hk.
  { intros k. rewrite list_elem_of_fmap. split.
    - intros Hk. destruct inputs as [|[f c] inputs]; [done|]. exists (mkKV k "1"). split; [done|]. apply list_elem_of_bind.
      exists (f, c). split; [|by left]. unfold rtiming_Map. apply list_elem_of_fmap. by exists k.
    - intros (kv&->&([f c]&Hkv&_)%list_elem_of_bind). unfold rtiming_Map in Hkv. by apply list_elem_of_fmap in Hkv as (k&->&Hk). }
  apply (count_outputs _ _ _ _ _ _ _ (fun k => starts "2" (Itoa (ns k))) letters
           (proj1 (proj2 (proj2 compiled))) eq_refl Ho); [|done| |simpl; lia].
  - apply (bool_decide_unpack _). vm_compute. exact I.
  - intros k Hin%Hk. unfold body, rtiming_Reduce.
    assert (exists c, k = String c "" /\ in_cset (Range "a" "z") c = true) as (c&E&Hc).
    { unfold letters in Hin. repeat (apply elem_of_cons in Hin as [->|Hin]; [by eexists|]). by apply elem_of_nil in Hin. }
    rewrite E at 1. rewrite string_cons_app, string_nil_app.
    apply (letter_matches (Range "a" "z")); [done|apply digit_not_letter|done|done].
Qed.

(** ** Early exits *)

Section early.
  Context `{Json} `{SortByKey} `{TempFile} `{Shell}.
  Context (mapfn : string -> string -> list KeyValue).
  Context (reducefn : string -> list string -> string).
  Context (visit : gmap string (list string) -> list (string * list string)).
  Context (Hvisit : forall m, visit m ≡ₚ map_to_list m).
  Context (Hperm : forall k vs vs', vs ≡ₚ vs' -> reducefn k vs = reducefn k vs').

(** A worker that has exited was told to. *)
Definition exit_done (s : sys) : Prop :=
  forall w, s_ws s !! w = Some WExit -> Coordinator.phase (coord (s_job s)) = JobPhaseDone.

Lemma done_stays j j' :
  job_inv j -> job_inv j' -> evolves (tasks (coord j)) (tasks (coord j')) ->
  Coordinator.phase (coord j) = JobPhaseDone -> Coordinator.phase (coord j') = JobPhaseDone.
Proof.
  intros (_&[[[_ Hp'] _]|[[Hp' _]|(_&Hm&Hr)]]&_) (_&[[_ Hm']|[(_&_&Hr')|[? _]]]&_) He Hp; try done.
  all: try by rewrite Hp in Hp'.
  - by rewrite (evolves_all_done _ _ _ He Hm) in Hm'.
  - by rewrite (evolves_all_done _ _ _ He Hr) in Hr'.
Qed.

Lemma wstep_evolves s s' :
  wstep mapfn reducefn visit s s' -> evolves (tasks (coord (s_job s))) (tasks (coord (s_job s'))).
Proof. destruct 1; cbn [s_job]; try apply handle_evolves; by apply Forall_Forall2_diag, Forall_true. Qed.

Lemma exit_answer w now j : job_inv j -> after_getTask (answer w now j) = WExit -> Coordinator.phase (coord j) = JobPhaseDone.
Proof.
  intros (Ht&_&_). unfold answer.
  destruct (GetTask_cases (mkGetTaskIn w) GetTaskOut0 now (gen j) (coord j))
    as [[Hp ->]|[(_&_&->)|(_&k&u&Hu&_&_&_&->)]]; [done|done|].
  unfold after_getTask. simpl. apply list_elem_of_lookup_2 in Hu. rewrite list.Forall_forall in Ht.
  destruct (Ht u Hu) as [[->| ->] _]; done.
Qed.

Lemma done_step s s' :
  job_inv (s_job s) -> job_inv (s_job s') -> wstep mapfn reducefn visit s s' ->
  Coordinator.phase (coord (s_job s)) = JobPhaseDone -> Coordinator.phase (coord (s_job s')) = JobPhaseDone.
Proof. intros ?? Hst. by apply done_stays, wstep_evolves. Qed.

(** Whoever has exited after a step had exited before it, or is told to in it. *)
Lemma exit_step_cases s s' w :
  job_inv (s_job s) -> wstep mapfn reducefn visit s s' -> s_ws s' !! w = Some WExit ->
  s_ws s !! w = Some WExit \/ Coordinator.phase (coord (s_job s)) = JobPhaseDone.
Proof.
  intros Hj Hst Hw'. destruct Hst; cbn [s_ws s_job getTask fst snd] in *; try by left.
  all: try (apply lookup_delete_Some in Hw' as [_ Hw']; by left).
  all: apply lookup_insert_Some in Hw' as [[_ E]|[_ Hw']]; [|by left]; try done.
  right. by eapply exit_answer.
Qed.

(** Both along a run. *)
Lemma steps_done inputs n fs0 s s' es :
  setup mapfn inputs n fs0 -> sinv mapfn reducefn inputs n fs0 s es -> late (s_job s) = false ->
  rtc (prompt_step mapfn reducefn visit) s s' ->
  (exists es', sinv mapfn reducefn inputs n fs0 s' es')
  /\ (exit_done s -> exit_done s')
  /\ (Coordinator.phase (coord (s_job s)) = JobPhaseDone -> Coordinator.phase (coord (s_job s')) = JobPhaseDone).
Proof.
  intros [Hne Hn Hb Hf Hfresh] Hs Hl Hr. revert es Hs Hl. induction Hr as [s|s s1 s2 Hst Hr IH]; intros es Hs Hl; [by eauto|].
  destruct (sinv_step mapfn reducefn visit inputs n fs0 Hn Hf Hfresh Hvisit Hperm _ _ _ Hs Hl Hst) as [es1 Hs1].
  destruct Hst as [Hst Hpr]. destruct (IH es1 Hs1 (pr_phase _ _ Hpr)) as (He&Hx&Hd).
  pose proof (done_step _ _ (si_job _ _ _ _ _ _ _ Hs) (si_job _ _ _ _ _ _ _ Hs1) Hst) as Hdone.
  split; [done|]. split; [|by auto]. intros Hx0. apply Hx. intros w Hw. apply Hdone.
  destruct (exit_step_cases _ _ w (si_job _ _ _ _ _ _ _ Hs) Hst Hw) as [Hw0|?]; [by apply (Hx0 w)|done].
Qed.

(** A file of the harness's own appears in the directory. *)
Lemma content_insert (inputs : list string) (fs0 : files) name c f : name ∉ inputs -> f ∈ inputs -> content (<[name := c]> fs0) f = content fs0 f.
Proof. intros Hn Hf. unfold content. rewrite lookup_insert_ne; [done|]. by intros ->. Qed.

Lemma jobs_insert (inputs : list string) (fs0 : files) name c : name ∉ inputs -> MRJob.jobs inputs (<[name := c]> fs0) = MRJob.jobs inputs fs0.
Proof.
  intros Hn. unfold MRJob.jobs. apply imap_ext. intros i f Hf. rewrite content_insert with (inputs := inputs); [done..|].
  by eapply list_elem_of_lookup_2.
Qed.

Lemma setup_insert inputs n fs0 name c :
  setup mapfn inputs n fs0 -> own_name inputs n name -> setup mapfn inputs n (<[name := c]> fs0).
Proof.
  intros [Hne Hn Hb Hf Hfresh] (Hfo&Hout&Hnin). split; [done..| |].
  - intros f Hfi. rewrite (content_insert inputs) by done. destruct (Hf f Hfi). rewrite lookup_insert_ne; [done|]. by intros ->.
  - intros i x Hi Hm. rewrite lookup_insert_ne; [by eapply Hfresh|]. intros <-. destruct (Hfo i Hi). congruence.
Qed.

Lemma sinv_insert inputs n fs0 s es fs' name c :
  sinv mapfn reducefn inputs n fs0 s es -> own_name inputs n name ->
  fs' !! name = Some c -> (forall x, x <> name -> fs' !! x = s_fs s !! x) ->
  sinv mapfn reducefn inputs n (<[name := c]> fs0) (mkSys (s_job s) fs' (s_ws s)) es.
Proof.
  intros [I1 I2 I3 I4 I5 I6 I7 I8 I9 I10 I11 I12] (Hfo&Hout&Hnin) Hc Hsame.
  assert (MRJob.jobs inputs (<[name := c]> fs0) = MRJob.jobs inputs fs0) as Ej by (by apply jobs_insert).
  assert (forall f, f ∈ inputs -> content (<[name := c]> fs0) f = content fs0 f) as Ec by (intros f; by apply content_insert).
  split; simpl; try done.
  - intros i y Hy. rewrite Ej. by eapply I7.
  - intros k t f i Hf. rewrite Ec by (by eapply list_elem_of_lookup_2). by apply I8.
  - intros i t Hi Ht He. destruct (I9 i t Hi Ht He) as [R1 R2]. split.
    + intros x Hm Hx. apply R1; [done|]. rewrite <-Hsame; [done|]. intros ->. destruct (Hfo i Hi). congruence.
    + intros x f c' Hy. destruct (R2 x f c' Hy) as (z&Hz&Hu). exists z. split; [|done]. rewrite Hsame; [done|].
      intros E. destruct (Hfo i Hi) as [Hm _]. rewrite <-E in Hm. apply not_true_iff_false in Hm. apply Hm.
      apply bucket_pattern_match. exists x. split; [|done].
      pose proof (jobs_no_slash inputs fs0) as Hns. rewrite list.Forall_forall in Hns. exact (Hns _ (I7 _ _ Hy)).
  - intros i t Hi Ht He. destruct (I10 i t Hi Ht He) as (ks&Hnd&Hk&Hx). exists ks. unfold written. rewrite Ej.
    split; [done|]. split; [done|]. rewrite Hsame; [done|]. apply not_eq_sym, Hout.
  - intros f Hd Hf. rewrite Ec by done. rewrite Hsame; [by apply I11|]. by intros ->.
  - intros x Hx. destruct (decide (x = name)) as [->|Hne]; [by rewrite Hc, lookup_insert_eq|].
    rewrite Hsame, lookup_insert_ne by (done || by apply not_eq_sym). by apply I12.
Qed.

(** The merged output of a job that is done. *)
Lemma merge_done inputs n fs0 s es out :
  setup mapfn inputs n fs0 -> n <= 10 -> (forall i, fs0 !! out_file i = None) -> own_name inputs n out ->
  sinv mapfn reducefn inputs n fs0 s es -> Coordinator.phase (coord (s_job s)) = JobPhaseDone ->
  exists fsS seqout fs', mrsequential mapfn reducefn inputs fs0 = Ret (Some fsS) /\ fsS !! out_file 0 = Some seqout
    /\ mergeOutput out (s_fs s) = Ret fs' /\ fs' !! out = Some (sort [seqout])
    /\ forall name, name <> out -> fs' !! name = s_fs s !! name.
Proof.
  intros Hset Hn10 Hno (_&Hout&_) Hs Hp.
  destruct (inv_done_spec mapfn reducefn inputs n fs0 s es Hperm Hset Hs) as (lines&fsS&slines&Hl&Hseq&HoutS&Hpm&Hnl&Hframe);
    [unfold Done; by rewrite Hp|].
  destruct Hset as [_ Hn _ _ _].
  destruct (mergeOutput_spec (Z.to_nat n) (s_fs s) out lines slines) as (fs'&Em&Ho&Hsame); [lia|done| |done..|].
  - intros i Hi. split; [|intros Hlt; rewrite Hl by done; by eexists]. intros [c Hci].
    destruct (decide (i < Z.to_nat n)%nat) as [|Hge]; [done|exfalso]. rewrite Hframe, Hno in Hci; [done|].
    intros j Hj. split; [|intros ?%out_file_inj; lia]. apply not_true_is_false.
    intros (x&_&Hx)%bucket_pattern_match. by eapply out_file_not_bucket.
  - by exists fsS, (concat_strings slines), fs'.
Qed.

(** The moment of the first value on the channel of [TestEarlyExit]: a worker has left its loop, or the
    coordinator's [main] has seen [Done]. *)
Definition some_process_exited (s : sys) : Prop :=
  (exists w, s_ws s !! w = Some WExit) \/ Done (coord (s_job s)) = true.

(** C17: [TestEarlyExit] passes.  When the first process of a run exits, be it a worker or the
    coordinator, the output is final: the outputs merged at that moment, while the other
    processes go on, and those merged after all of them have exited are the same, and the comparison
    succeeds.  The run is one of prompt steps ([MRJob.prompt]). *)
Theorem early_exit_passes inputs n fs0 s0 initial final :
  setup mapfn inputs n fs0 -> n <= 10 -> (forall i, fs0 !! out_file i = None) ->
  own_name inputs n initial -> own_name inputs n final -> initial <> final ->
  rtc (prompt_step mapfn reducefn visit) (sys_init inputs n fs0) s0 ->
  some_process_exited s0 ->
  exists fs1, mergeOutput initial (s_fs s0) = Ret fs1
    /\ forall s1, rtc (prompt_step mapfn reducefn visit) (mkSys (s_job s0) fs1 (s_ws s0)) s1 ->
         exists fs2, mergeOutput final (s_fs s1) = Ret fs2 /\ runCmp initial final fs2 = Ret ().
Proof.
  intros Hset Hn10 Hno Hi Hf Hne Hr Hexit.
  destruct (job_reach_inv mapfn reducefn visit inputs n fs0 s0 Hvisit Hperm Hset Hr) as (es&Hs&Hl).
  assert (Coordinator.phase (coord (s_job s0)) = JobPhaseDone) as Hp.
  { destruct Hexit as [[w Hw]|Hd]; [|unfold Done in Hd; by apply bool_decide_eq_true in Hd].
    pose proof Hset as [Hne0 Hn Hb Hfi Hfresh].
    destruct (steps_done inputs n fs0 _ s0 _ Hset (sinv_init mapfn reducefn inputs n fs0 Hfi Hfresh Hne0 Hb) (job_init_not_late _ _ Hne0) Hr) as (_&Hx&_).
    apply (fun H => Hx H w Hw). intros w'. simpl. by rewrite lookup_empty. }
  destruct (merge_done inputs n fs0 s0 es initial Hset Hn10 Hno Hi Hs Hp) as (fsS&seqout&fs1&Hseq&HoutS&Em&Hini&Hsame).
  exists fs1. split; [done|]. intros s1 Hr1.
  pose proof (sinv_insert inputs n fs0 s0 es fs1 initial _ Hs Hi Hini Hsame) as Hs'.
  pose proof (setup_insert inputs n fs0 initial (sort [seqout]) Hset Hi) as Hset'.
  destruct (steps_done inputs n _ _ s1 es Hset' Hs' Hl Hr1) as ((es1&Hs1)&_&Hd1). specialize (Hd1 Hp).
  destruct (merge_done inputs n _ s1 es1 final Hset' Hn10) as (fsS'&seqout'&fs2&Hseq'&HoutS'&Em'&Hfin&Hsame'); [|done..|].
  { intros i. rewrite lookup_insert_ne by apply Hi. apply Hno. }
  exists fs2. split; [done|]. unfold runCmp. rewrite Hsame' by done.
  rewrite (si_frame _ _ _ _ _ _ _ Hs1 initial) by apply Hi. rewrite lookup_insert_eq, Hfin.
  rewrite decide_True; [done|]. f_equal. f_equal.
  destruct (mrsequential_same mapfn reducefn inputs fs0 (<[initial := sort [seqout]]> fs0) fsS) as (o&->&Eo); [|done|].
  { intros f Hfi. rewrite lookup_insert_ne; [done|]. intros <-. by apply Hi. }
  rewrite Eo in Hseq'. injection Hseq' as <-. change "mr-out-0"%string with (out_file 0) in *.
  rewrite lookup_insert_eq in HoutS, HoutS'. congruence.
Qed.
End early.

(** ** The processes of a test *)

(** A worker that [startWorker] started: it runs, has exited and its goroutine sends on the
    channel, or has been received. *)
Inductive wproc := Running | Exited | Announced.

(** [runMRchan]: in [coord.Wait()], sending [n], waiting for what the test waits for, returned. *)
Inductive mrpc := CWait | CSend | CAfter | CDone.

(** The goroutine that receives: of [TestEarlyExit], after [k] values; of [TestCrashWorker]; returned. *)
Inductive receiver := RCount (k : nat) | RRestart | REnd.

Record procs := mkProcs { p_ws : list wproc; p_main : mrpc; p_rcv : receiver }.

(** The channel has no buffer: a value is sent when it is received. *)
Inductive pstep (N : nat) : procs -> procs -> Prop :=
  | p_exit ws m r i :
      ws !! i = Some Running -> pstep N (mkProcs ws m r) (mkProcs (<[i := Exited]> ws) m r)
  | p_coord_exit ws r : pstep N (mkProcs ws CWait r) (mkProcs ws CSend r)
  | p_count ws m k i :
      ws !! i = Some Exited -> (k < N + 1)%nat ->
      pstep N (mkProcs ws m (RCount k)) (mkProcs (<[i := Announced]> ws) m (RCount (S k)))
  | p_count_coord ws k :
      (k < N + 1)%nat -> pstep N (mkProcs ws CSend (RCount k)) (mkProcs ws CAfter (RCount (S k)))
  | p_counted ws : pstep N (mkProcs ws CAfter (RCount (N + 1))) (mkProcs ws CDone REnd)
  | p_restart ws m i :
      ws !! i = Some Exited -> pstep N (mkProcs ws m RRestart) (mkProcs (<[i := Running]> ws) m RRestart)
  | p_coord_done ws : pstep N (mkProcs ws CSend RRestart) (mkProcs ws CDone REnd).

Definition procs_init (N : nat) (r : receiver) : procs := mkProcs (replicate N Running) CWait r.

(** Steps still to come. *)
Definition wproc_todo (w : wproc) : nat := match w with Running => 2 | Exited => 1 | Announced => 0 end.
Definition mrpc_todo (m : mrpc) : nat := match m with CWait => 3 | CSend => 2 | CAfter => 1 | CDone => 0 end.
Definition todo (s : procs) : nat := sum_list (wproc_todo <$> p_ws s) + mrpc_todo (p_main s).

(** How many values have been sent. *)
Definition wproc_sent (w : wproc) : nat := match w with Announced => 1 | _ => 0 end.
Definition announced (ws : list wproc) : nat := sum_list (wproc_sent <$> ws).
Definition coord_sent (m : mrpc) : nat := match m with CWait | CSend => 0 | CAfter | CDone => 1 end.

Lemma sum_insert (f : wproc -> nat) ws i w x :
  ws !! i = Some w -> (sum_list (f <$> <[i := x]> ws) + f w = sum_list (f <$> ws) + f x)%nat.
Proof.
  revert i. induction ws as [|y ws IH]; intros [|i] Hi; simpl in *; [done..| |].
  - injection Hi as ->. lia.
  - specialize (IH i Hi). unfold fmap in IH. lia.
Qed.

Lemma announced_le ws : (announced ws <= length ws)%nat.
Proof. unfold announced. induction ws as [|w ws IH]; simpl in *; [done|]. unfold fmap in IH. destruct w; simpl; lia. Qed.

Lemma announced_replicate N : announced (replicate N Running) = 0%nat.
Proof. unfold announced. induction N as [|N IH]; [done|exact IH]. Qed.

Lemma announced_all ws : Forall (fun w => w = Announced) ws -> announced ws = length ws.
Proof. unfold announced. induction 1 as [|w ws -> _ IH]; [done|]. rewrite fmap_cons. simpl. by rewrite IH. Qed.

(** All have been received, or one has not. *)
Lemma announced_cases ws :
  Forall (fun w => w = Announced) ws
  \/ (announced ws < length ws)%nat /\ exists i w, ws !! i = Some w /\ w <> Announced.
Proof.
  induction ws as [|w ws IH]; [left; constructor|]. pose proof (announced_le ws) as Hle. unfold announced in *. unfold fmap in *. simpl.
  destruct (decide (wproc_sent w = 1%nat)) as [Hw|Hw].
  - destruct IH as [IH|(Hlt&i&x&Hi&Hx)]; [left; by constructor; [destruct w|]|].
    right. split; [lia|]. by exists (S i), x.
  - right. split; [destruct w; simpl in *; lia|]. exists O, w. split; [done|by intros ->].
Qed.

(** The receiver of [TestEarlyExit] has what was sent. *)
Definition early_inv (N : nat) (s : procs) : Prop :=
  length (p_ws s) = N
  /\ ((p_main s <> CDone /\ p_rcv s = RCount (announced (p_ws s) + coord_sent (p_main s)))
      \/ (p_main s = CDone /\ p_rcv s = REnd /\ announced (p_ws s) = N)).

Lemma early_inv_step N s s' : early_inv N s -> pstep N s s' -> early_inv N s' /\ (todo s' < todo s)%nat.
Proof.
  unfold early_inv, todo, announced. intros [Hn Hi] Hs.
  destruct Hs as [ws m r i Hw|ws r|ws m k i Hw Hk|ws k Hk|ws|ws m i Hw|ws]; simpl in *; rewrite ?length_insert.
  - pose proof (sum_insert wproc_sent ws i _ Exited Hw) as E1. pose proof (sum_insert wproc_todo ws i _ Exited Hw) as E2.
    simpl in E1, E2. split; [split; [done|]|lia]. replace (sum_list (wproc_sent <$> <[i := Exited]> ws)) with (sum_list (wproc_sent <$> ws)) by lia.
    done.
  - destruct Hi as [[_ ->]|[? _]]; [|done]. split; [|lia]. split; [done|]. by left.
  - pose proof (sum_insert wproc_sent ws i _ Announced Hw) as E1. pose proof (sum_insert wproc_todo ws i _ Announced Hw) as E2.
    simpl in E1, E2. destruct Hi as [[Hm [= ->]]|(_&?&_)]; [|done]. split; [|lia]. split; [done|]. left. split; [done|]. f_equal. lia.
  - destruct Hi as [[Hm [= ->]]|[? _]]; [|done]. split; [|lia]. split; [done|]. left. split; [done|]. f_equal. lia.
  - destruct Hi as [[Hm [= E]]|[? _]]; [|done]. split; [|lia]. split; [done|]. right. split_and!; [done..|lia].
  - by destruct Hi as [[_ ?]|(_&?&_)].
  - by destruct Hi as [[_ ?]|(?&_)].
Qed.

(** The exits of [TestEarlyExit] are collected.  The coordinator and the [N] workers exit in any
    order and each exit is sent on a channel without buffer: every step brings the test
    closer to its end, it cannot stop before, and when it ends every worker's exit has
    been received. *)
Theorem early_exit_collects N s :
  rtc (pstep N) (procs_init N (RCount 0)) s ->
  (forall s', pstep N s s' -> (todo s' < todo s)%nat)
  /\ (p_main s = CDone \/ exists s', pstep N s s')
  /\ (p_main s = CDone -> Forall (fun w => w = Announced) (p_ws s)).
Proof.
  intros Hr. assert (early_inv N s) as Hi.
  { assert (early_inv N (procs_init N (RCount 0))) as H0.
    { split; [apply length_replicate|]. left. split; [done|]. simpl. f_equal.
      by rewrite announced_replicate. }
    clear -H0 Hr. induction Hr as [|x y z Hxy _ IH]; [done|]. apply IH. by apply (early_inv_step N x). }
  split; [|split].
  - intros s' Hs. by apply (early_inv_step N s).
  - destruct s as [ws m r]. destruct Hi as [Hn [[Hm Hrc]|[Hm _]]]; simpl in *; [right|by left]. subst r.
    pose proof (announced_le ws) as Hle.
    destruct m; simpl; [eexists; apply p_coord_exit|eexists; apply p_count_coord; lia| |done].
    destruct (announced_cases ws) as [Hall|(Hlt&i&w&Hw&Hne)].
    + rewrite (announced_all ws Hall), Hn. eexists. apply p_counted.
    + destruct w; [eexists; by apply (p_exit N _ _ _ i)|eexists; apply (p_count N _ _ _ i); [done|lia]|done].
  - intros Hm. destruct Hi as [Hn [[Hm' _]|(_&_&Ha)]]; [done|]. destruct (announced_cases (p_ws s)) as [?|(Hlt&_)]; [done|lia].
Qed.

(** [TestCrashWorker]: the receiver starts workers again until the coordinator is done; then
    the main goroutine, which cannot be kept waiting, goes on, and no worker is started any more. *)
Theorem crash_test_ends N s :
  rtc (pstep N) (procs_init N RRestart) s ->
  (p_main s = CDone \/ exists s', rtc (pstep N) s s' /\ p_main s' = CDone)
  /\ (p_main s = CDone -> forall s' i, pstep N s s' -> p_ws s' !! i = Some Running -> p_ws s !! i = Some Running).
Proof.
  intros Hr. assert ((p_main s = CWait \/ p_main s = CSend) /\ p_rcv s = RRestart \/ p_main s = CDone /\ p_rcv s = REnd) as Hi.
  { assert ((p_main (procs_init N RRestart) = CWait \/ p_main (procs_init N RRestart) = CSend) /\ p_rcv (procs_init N RRestart) = RRestart
            \/ p_main (procs_init N RRestart) = CDone /\ p_rcv (procs_init N RRestart) = REnd) as H0 by (left; simpl; auto).
    revert H0. induction Hr as [|x y z Hxy _ IH]; [done|]. intros H0. apply IH. clear IH.
    destruct Hxy; simpl in *; naive_solver. }
  destruct s as [ws m r]. simpl in *. split.
  - destruct Hi as [[[->| ->] ->]|[-> _]]; [| |by left]; right; eexists.
    + split; [eapply rtc_l; [apply p_coord_exit|apply rtc_once, p_coord_done]|done].
    + split; [apply rtc_once, p_coord_done|done].
  - intros -> s' i Hs Hw. destruct Hi as [[[?|?] _]|[_ ->]]; [done..|]. inversion Hs; subst; simpl in *.
    by apply list_lookup_insert_Some in Hw as [(_&?&_)|[_ ?]].
Qed.

(** ** The directory of a test *)

(** [filepath.Clean] on the elements of a relative path; [out] is what it has so far, last element first. *)
Fixpoint clean (out comps : list string) : list string :=
  match comps with
  | [] => out
  | c :: rest =>
      if decide (c = ""%string \/ c = "."%string) then clean out rest
      else if decide (c = ".."%string) then
        match out with
        | x :: out' => if decide (x = ".."%string) then clean (".."%string :: out) rest else clean out' rest
        | [] => clean [".."%string] rest
        end
      else clean (c :: out) rest
  end.

Definition Clean (path : string) : string :=
  let out := rev (clean [] (split_on "/" path)) in
  if decide (out = []) then "." else Join out "/".

(** [filepath.Join("..", f)]. *)
Definition Join_up (f : string) : string := if decide (f = ""%string) then Clean ".." else Clean (".." +:+ "/" +:+ f).

(** The directory or file a path leads to, from a directory given by its elements, last element first. *)
Fixpoint resolve (cwd comps : list string) : list string :=
  match comps with
  | [] => cwd
  | c :: rest =>
      if decide (c = ""%string \/ c = "."%string) then resolve cwd rest
      else if decide (c = ".."%string) then resolve (tail cwd) rest
      else resolve (c :: cwd) rest
  end.

Section directory.
  Context `{Shell}.

(** [fs] are the files of [dir], by their names there; [find] prints their paths.  The argument [pre] is not used. *)
Definition findFilesPre (dir pat pre : string) (fs : files) : list string :=
  (fun name => Join_up (dir +:+ "/" +:+ name)) <$> findFiles pat fs.

(** [mkOut]: the name of the directory. *)
Definition mkOut (b : list Z) : go string := s ← RandString 8 b; Ret ("mr-tmp-" +:+ s).

(** The files that are left and whether the directory is gone: [os.Remove] fails on one that is not empty. *)
Definition cleanup (fs : files) : files * bool :=
  let fs' := foldl (fun fs f => delete f fs) fs (findFiles "mr-*" fs) in (fs', bool_decide (fs' = ∅)).
End directory.

(** ** Lemmas: paths *)

Lemma resolve_app cwd l l' : resolve cwd (l ++ l') = resolve (resolve cwd l) l'.
Proof.
  revert cwd. induction l as [|c l IH]; intros cwd; [done|]. simpl. repeat case_decide; apply IH.
Qed.

(** Cleaning a path does not change where it leads. *)
Lemma clean_resolve comps : forall out cwd,
  Forall (fun c => c <> ""%string /\ c <> "."%string) out ->
  resolve cwd (rev (clean out comps)) = resolve (resolve cwd (rev out)) comps
  /\ Forall (fun c => c <> ""%string /\ c <> "."%string /\ (c ∈ out \/ c ∈ comps \/ c = ".."%string)) (clean out comps).
Proof.
  induction comps as [|c comps IH]; intros out cwd Hout; simpl.
  { split; [done|]. apply list.Forall_forall. intros c Hc. rewrite list.Forall_forall in Hout. destruct (Hout c Hc). auto. }
  assert (forall out', (forall x, x ∈ out' -> x ∈ out \/ x = c \/ x = ".."%string) ->
    Forall (fun c => c <> ""%string /\ c <> "."%string /\ (c ∈ out' \/ c ∈ comps \/ c = ".."%string)) (clean out' comps) ->
    Forall (fun x => x <> ""%string /\ x <> "."%string /\ (x ∈ out \/ x ∈ c :: comps \/ x = ".."%string)) (clean out' comps)) as Hw.
  { intros out' Ho Hf. eapply Forall_impl; [|exact Hf]. intros x (?&?&Hx). split; [done|]. split; [done|].
    rewrite elem_of_cons. destruct Hx as [Hx%Ho|[?|?]]; naive_solver. }
  case_decide as Hc; [destruct (IH out cwd Hout) as [E Hf]; split; [done|apply Hw; [auto|done]]|].
  apply Decidable.not_or in Hc as [Hc1 Hc2]. case_decide as Hd.
  - destruct out as [|x out].
    + destruct (IH [".."%string] cwd) as [E Hf]; [by apply Forall_singleton|]. split; [by rewrite E|].
      apply Hw; [intros x ->%list_elem_of_singleton; auto|done].
    + case_decide as Hx.
      * destruct (IH (".."%string :: x :: out) cwd) as [E Hf]; [by constructor|]. split.
        -- rewrite E. cbn [rev]. rewrite (resolve_app _ (rev out ++ [x])). done.
        -- apply Hw; [|done]. intros y [->|Hy]%elem_of_cons; auto.
      * apply list.Forall_cons in Hout as [[Hx1 Hx2] Hout]. destruct (IH out cwd Hout) as [E Hf]. split.
        -- rewrite E. cbn [rev]. rewrite resolve_app. cbn [resolve]. by rewrite decide_False, decide_False by naive_solver.
        -- apply Hw; [|done]. intros y Hy. left. by right.
  - destruct (IH (c :: out) cwd) as [E Hf]; [by constructor|]. split.
    + rewrite E. cbn [rev]. rewrite resolve_app. cbn [resolve]. by rewrite decide_False, decide_False by naive_solver.
    + apply Hw; [|done]. intros y [->|Hy]%elem_of_cons; auto.
Qed.

Lemma split_Join l : l <> [] -> Forall (fun c => has_byte "/" c = false) l -> split_on "/" (Join l "/") = l.
Proof.
  intros Hne Hl. induction Hl as [|c l Hc Hl IH]; [done|]. destruct l as [|d l]; [by apply split_on_absent|].
  change (Join (c :: d :: l) "/") with (c +:+ String "/" (Join (d :: l) "/")). rewrite split_on_app, IH by done. done.
Qed.

Lemma split_no_sep sep s : Forall (fun c => has_byte sep c = false) (split_on sep s).
Proof.
  induction s as [|c s IH]; [by apply Forall_singleton|]. simpl. case_decide as Hc; [by constructor|].
  destruct (split_on sep s) as [|w ws]; [apply Forall_singleton; simpl; by rewrite bool_decide_false|].
  apply list.Forall_cons in IH as [Hw Hws]. constructor; [|done]. simpl. by rewrite Hw, bool_decide_false.
Qed.

Lemma Clean_resolve cwd path : resolve cwd (split_on "/" (Clean path)) = resolve cwd (split_on "/" path).
Proof.
  unfold Clean. destruct (clean_resolve (split_on "/" path) [] cwd) as [E Hf]; [constructor|]. simpl in E.
  case_decide as Ho; [by rewrite <-E, Ho|]. rewrite split_Join, E; [done..|].
  apply list.Forall_forall. intros c Hc. rewrite list_elem_of_In, <-in_rev, <-list_elem_of_In in Hc.
  rewrite list.Forall_forall in Hf. destruct (Hf c Hc) as (_&_&Hin).
  pose proof (split_no_sep "/" path) as Hs. rewrite list.Forall_forall in Hs.
  destruct Hin as [[]%elem_of_nil|[Hin| ->]]; [by apply Hs|done].
Qed.

Lemma Join_up_resolve cwd tmp f : f <> ""%string -> resolve (tmp :: cwd) (split_on "/" (Join_up f)) = resolve cwd (split_on "/" f).
Proof.
  intros Hf. unfold Join_up. rewrite decide_False, Clean_resolve by done.
  change (".." +:+ "/" +:+ f) with (".." +:+ String "/" f). by rewrite split_on_app.
Qed.

Lemma foldl_delete names : forall (fs : files) x, foldl (fun fs f => delete f fs) fs names !! x = if decide (x ∈ names) then None else fs !! x.
Proof.
  induction names as [|y names IH]; intros fs x; simpl; [done|]. rewrite IH. destruct (decide (x ∈ names)) as [Hx|Hx].
  - by rewrite decide_True by (by right).
  - destruct (decide (x = y)) as [->|Hne]; [by rewrite lookup_delete_eq, decide_True by (by left)|].
    rewrite lookup_delete_ne by done. rewrite decide_False; [done|]. by intros [->|?]%elem_of_cons.
Qed.

Section directory_theorems.
  Context `{Shell}.

(** Workers and tests name the same files.  The paths that [findFilesPre] makes, which are used
    from the directory of a test, lead to the files that [find] found from the directory above,
    whatever dots the path has; and [cleanup] leaves exactly the files whose names do not start with
    [mr-], and the directory only if there are some. *)
Theorem test_directory cwd tmp dir pat pre fs :
  (forall name, is_Some (fs !! name) -> solid name = true /\ name <> ""%string) ->
  (forall name, name ∈ find pat fs ->
     exists path, path ∈ findFilesPre dir pat pre fs
       /\ resolve (tmp :: cwd) (split_on "/" path) = resolve cwd (split_on "/" (dir +:+ "/" +:+ name)))
  /\ (forall name, (cleanup fs).1 !! name = if fnmatch "mr-*" name then None else fs !! name)
  /\ ((cleanup fs).2 = true <-> forall name, is_Some (fs !! name) -> fnmatch "mr-*" name = true).
Proof.
  intros Hsolid.
  assert (forall p, findFiles p fs = find p fs) as Hff.
  { intros p. unfold findFiles, find_output. apply find_round_trip. apply list.Forall_forall. intros name [Hn _]%find_spec. by apply Hsolid. }
  assert (forall name, (cleanup fs).1 !! name = if fnmatch "mr-*" name then None else fs !! name) as Hcl.
  { intros name. unfold cleanup. cbn [fst]. rewrite foldl_delete, Hff. destruct (fnmatch "mr-*" name) eqn:Em.
    - destruct (fs !! name) as [c|] eqn:Ef; [|by case_decide]. rewrite decide_True; [done|]. apply find_spec. split; [by exists c|done].
    - rewrite decide_False; [done|]. rewrite find_spec. intros [_ ?]. congruence. }
  split; [|split; [done|]].
  - intros name Hn. exists (Join_up (dir +:+ "/" +:+ name)). split.
    + unfold findFilesPre. rewrite Hff. apply list_elem_of_fmap. by exists name.
    + apply Join_up_resolve. intros E. apply (f_equal String.length) in E. rewrite !string_length_app in E. simpl in E. lia.
  - unfold cleanup in *. cbn [fst snd] in *. rewrite bool_decide_eq_true. split.
    + intros E name Hn. specialize (Hcl name). rewrite E, lookup_empty in Hcl. destruct (fnmatch "mr-*" name); [done|].
      rewrite <-Hcl in Hn. by destruct Hn.
    + intros Hall. apply map_eq. intros name. rewrite Hcl, lookup_empty. destruct (fs !! name) as [c|] eqn:Ef; [|by destruct (fnmatch _ _)].
      by rewrite Hall by (by exists c).
Qed.
End directory_theorems.

(** *** Concrete runs *)

#[local] Existing Instances bytes_Shell bits_Json merge_SortByKey fresh_TempFile.

Lemma test_directory_witness :
  exists path, path ∈ findFilesPre "../main" "pg*txt" ".." (<["pg-x.txt"%string := "a"%string]> ∅)
    /\ resolve ["mr-tmp-1"; "mr"]%string (split_on "/" path) = ["pg-x.txt"; "main"]%string.
Proof.
  destruct (test_directory ["mr"%string] "mr-tmp-1" "../main" "pg*txt" ".." (<["pg-x.txt"%string := "a"%string]> ∅)) as [Hp _].
  - intros name [c Hc]. apply lookup_insert_Some in Hc as [[<- _]|[_ Hc]]; [split; [reflexivity|discriminate]|].
    rewrite lookup_empty in Hc. discriminate.
  - destruct (Hp "pg-x.txt"%string) as (path&Hin&E).
    + apply find_map_spec. split; [eexists; reflexivity|reflexivity].
    + exists path. split; [exact Hin|]. rewrite E. vm_compute. reflexivity.
Defined.

(** Two processes, one after the other: the test is content. *)
Definition two_runs : list (Z * string * Z) := [(7, "1.5"%string, 1); (8, "3.0"%string, 1)].

Definition timing_kss : list (list string) :=
  [["times-7"; "parallel-8"]; ["times-8"; "parallel-7"]]%string.

Definition timing_fs : files :=
  list_to_map (zip ["mr-out-0"; "mr-out-1"]%string
    ((fun ks => concat_strings (line_of mtiming_Reduce (timing_pairs two_runs) <$> ks)) <$> timing_kss)).

Lemma timing_outputs : outputs mtiming_Reduce (timing_pairs two_runs) ["mr-out-0"; "mr-out-1"]%string timing_fs.
Proof.
  exists timing_kss. split; [repeat constructor|]. split; [apply (bool_decide_unpack _); vm_compute; exact I|].
  intros k. unfold timing_kss. simpl. rewrite !elem_of_cons. tauto.
Qed.

Lemma map_parallel_counts_witness :
  countPattern ["mr-out-0"; "mr-out-1"]%string "times-" timing_fs = Ret 2
  /\ countPattern ["mr-out-0"; "mr-out-1"]%string "parallel.*" timing_fs = Ret 2.
Proof.
  apply (map_parallel_counts two_runs _ _ timing_outputs).
  - repeat (apply list.Forall_cons; split; [split; [lia|split; [split; reflexivity|lia]]|]). apply list.Forall_nil. exact I.
  - simpl. lia.
Defined.

(** Eighty map runs pass for eight. *)
Example eighty_runs_pass : find_all 5 (One <$> [Chr "a"; Chr " "; Chr "8"]) ("a 80" +:+ String nl "") = 1.
Proof. done. Qed.

Lemma early_exit_passes_witness :
  exists s0 fs1, Done (coord (s_job s0)) = true /\ mergeOutput "initial" (s_fs s0) = Ret fs1
    /\ exists fs2, mergeOutput "final" fs1 = Ret fs2 /\ runCmp "initial" "final" fs2 = Ret ().
Proof.
  destruct demo_run as (s0&Hr&Hd).
  destruct (early_exit_passes count_mapfn count_reducefn map_to_list (fun m => reflexivity (map_to_list m)) count_order_free
    ["a.txt"; "b.txt"]%string 2 demo_fs s0 "initial" "final" demo_setup ltac:(lia) demo_no_outputs
    ltac:(apply demo_own; [discriminate|set_solver]) ltac:(apply demo_own; [discriminate|set_solver]) ltac:(discriminate)
    Hr (or_intror Hd)) as (fs1&Em&Hall).
  exists s0, fs1. split; [exact Hd|]. split; [exact Em|]. apply (Hall (mkSys (s_job s0) fs1 (s_ws s0))). apply rtc_refl.
Defined.

Lemma early_exit_collects_witness :
  exists s', pstep 1 (mkProcs [Exited] CAfter (RCount 1)) s' /\ (todo s' < todo (mkProcs [Exited] CAfter (RCount 1)))%nat.
Proof.
  destruct (early_exit_collects 1 (mkProcs [Exited] CAfter (RCount 1))) as (Hdec&[Hm|(s'&Hs)]&_).
  - eapply rtc_l; [apply (p_exit 1 _ _ _ 0); reflexivity|]. eapply rtc_l; [apply p_coord_exit|].
    eapply rtc_l; [apply p_count_coord; lia|]. apply rtc_refl.
  - discriminate Hm.
  - exists s'. split; [exact Hs|apply Hdec; exact Hs].
Defined.
