(* ===== verification/Programs.v ===== *)
(** * Main programs

    What the programs of [src/map_reduce/main] and [src/src/main] do with their arguments: the
    MapReduce coordinator and worker, the server processes the tester starts, and the programs of
    services that are not in the repository (lock service, primary/backup, view service, [diskv]),
    whose calls are results of the model. *)

From S2P Require Import Prelude Coordinator Daemon.
Local Open Scope Z_scope.

(** ** MapReduce *)

(** [mrcoordinator]: the socket, the inputs and the number of reduce tasks; [None] is the usage
    message and [os.Exit(1)].  The program's name is the first argument. *)
Definition mrcoordinator_args (args : list string) : option (string * list string * Z) :=
  match args with
  | _ :: sock :: f :: files => Some (sock, f :: files, 10)
  | _ => None
  end.

(** The loop of [main]: [cs] is the coordinator at the times when [Done] is called, a second apart.
    The result is how often the loop slept; [None] says that it is still running. *)
Fixpoint mrcoordinator_loop {C} (Done : C -> bool) (cs : list C) : option nat :=
  match cs with
  | [] => None
  | c :: rest => if Done c then Some O else S <$> mrcoordinator_loop Done rest
  end.

(** What [Lookup] finds in a plugin: nothing, a function of the expected type, or something else. *)
Inductive symbol (A : Type) := Absent | Other | Func (f : A).
Arguments Absent {A}. Arguments Other {A}. Arguments Func {A} f.

Record plugin (M R : Type) := mkPlugin { sym_Map : symbol M; sym_Reduce : symbol R }.
Arguments sym_Map {M R}. Arguments sym_Reduce {M R}. Arguments mkPlugin {M R}.

(** [log.Fatalf] when the symbol is missing; the type assertion panics. *)
Definition Lookup {A} (x : symbol A) : go A :=
  match x with Absent => Crash Fatal | Other => Crash Panic | Func f => Ret f end.

Definition loadPlugin {M R} (open : string -> option (plugin M R)) (filename : string) : go (M * R) :=
  match open filename with
  | None => Crash Fatal
  | Some p => mapf ← Lookup (sym_Map p); reducef ← Lookup (sym_Reduce p); Ret (mapf, reducef)
  end.

(** [mrworker]: the socket and the functions [mr.Worker] is called with. *)
Definition mrworker_main {M R} (open : string -> option (plugin M R)) (args : list string) : go (option (string * M * R)) :=
  match args with
  | [_; app; sock] => '(mapf, reducef) ← loadPlugin open app; Ret (Some (sock, mapf, reducef))
  | _ => Ret None
  end.

(** [mrsequential]: the functions and the input files, at least one. *)
Definition mrsequential_loadPlugin {M R} : (string -> option (plugin M R)) -> string -> go (M * R) := loadPlugin.

Definition mrsequential_args {M R} (open : string -> option (plugin M R)) (args : list string)
    : go (option (M * R * list string)) :=
  match args with
  | _ :: app :: f :: files => '(mapf, reducef) ← mrsequential_loadPlugin open app; Ret (Some (mapf, reducef, f :: files))
  | _ => Ret None
  end.

(** ** Server processes *)

(** The server that a daemon program starts. *)
Inductive server_kind := StartKVServer | KVRaftServer | NewRfsrv | NewRSMSrv | ShardGrpServer.

(** [main] of the daemons: [InitDaemon] on the arguments after the program's name; an error is [os.Exit(1)]. *)
Definition daemon_main (k : server_kind) (args : list string) : go (option (server_kind * daemon_args)) :=
  match InitDaemon_args (tail args) with
  | Ret r => Ret (option_map (fun a => (k, a)) r)
  | Crash c => Crash c
  end.

Definition kvsrv1d : list string -> go (option (server_kind * daemon_args)) := daemon_main StartKVServer.
Definition kvraft1d : list string -> go (option (server_kind * daemon_args)) := daemon_main KVRaftServer.
Definition raft1d : list string -> go (option (server_kind * daemon_args)) := daemon_main NewRfsrv.
Definition rsm1d : list string -> go (option (server_kind * daemon_args)) := daemon_main NewRSMSrv.
Definition shardgrp1d : list string -> go (option (server_kind * daemon_args)) := daemon_main ShardGrpServer.

(** ** Programs of services that are not in the repository *)

(** What they do with their services; [None] is the usage message. *)
Inductive lock_call := LockCall (name : string) | UnlockCall (name : string).

Definition lockc_main (args : list string) : option (string * string * lock_call) :=
  match args with
  | [_; op; primary; backup; name] =>
      if decide (op = "-l"%string) then Some (primary, backup, LockCall name)
      else if decide (op = "-u"%string) then Some (primary, backup, UnlockCall name)
      else None
  | _ => None
  end.

(** The two ports and whether this is the primary. *)
Definition lockd_main (args : list string) : option (string * string * bool) :=
  match args with
  | [_; role; primary; backup] =>
      if decide (role = "-p"%string) then Some (primary, backup, true)
      else if decide (role = "-b"%string) then Some (primary, backup, false)
      else None
  | _ => None
  end.

Inductive pb_call := PbGet (key : string) | PbPut (key value : string).

Definition pbc_main (args : list string) : option (string * pb_call) :=
  match args with
  | [_; view; key] => Some (view, PbGet key)
  | [_; view; key; value] => Some (view, PbPut key value)
  | _ => None
  end.

Definition pbd_main (args : list string) : option (string * string) :=
  match args with [_; view; me] => Some (view, me) | _ => None end.

Definition viewd_main (args : list string) : option string :=
  match args with [_; port] => Some port | _ => None end.

(** *** diskvd *)

(** The digits of [strconv.ParseUint]: [None] is a syntax error; a number that is too large ends the
    loop with the greatest value. *)
Fixpoint parse_uint (acc : Z) (s : string) : option Z :=
  match s with
  | EmptyString => Some acc
  | String c s' =>
      d ← digit c;
      let n := 10 * acc + d in if decide (2 ^ 64 <= n) then Some (2 ^ 64 - 1) else parse_uint n s'
  end.

(** The value that [ParseInt] and [Atoi] return, whatever the error, which is ignored. *)
Definition ParseInt (s : string) : Z :=
  let '(neg, ds) := match s with
                    | String "-" s' => (true, s')
                    | String "+" s' => (false, s')
                    | _ => (false, s)
                    end in
  match ds with
  | EmptyString => 0
  | _ =>
      match parse_uint 0 ds with
      | None => 0
      | Some un => if (neg : bool) then Z.max (- 2 ^ 63) (- un) else Z.min (2 ^ 63 - 1) un
      end
  end.

(** [strconv.ParseBool], likewise. *)
Definition ParseBool (s : string) : bool :=
  bool_decide (s ∈ ["1"; "t"; "T"; "true"; "TRUE"; "True"]%string).

Record diskv := mkDiskv {
  dk_gid : Z; dk_masters : list string; dk_replicas : list string; dk_me : Z;
  dk_unreliable : bool; dk_dir : string; dk_restart : bool;
}.

(** The loop over pairs of arguments; a last argument without a value is not looked at. *)
Fixpoint diskvd_flags (args : list string) (c : diskv) : option diskv :=
  match args with
  | a0 :: a1 :: rest =>
      let 'mkDiskv gid masters replicas me unreliable dir restart := c in
      if decide (a0 = "-g"%string) then diskvd_flags rest (mkDiskv (ParseInt a1) masters replicas me unreliable dir restart)
      else if decide (a0 = "-m"%string) then diskvd_flags rest (mkDiskv gid (masters ++ [a1]) replicas me unreliable dir restart)
      else if decide (a0 = "-s"%string) then diskvd_flags rest (mkDiskv gid masters (replicas ++ [a1]) me unreliable dir restart)
      else if decide (a0 = "-i"%string) then diskvd_flags rest (mkDiskv gid masters replicas (ParseInt a1) unreliable dir restart)
      else if decide (a0 = "-u"%string) then diskvd_flags rest (mkDiskv gid masters replicas me (ParseBool a1) dir restart)
      else if decide (a0 = "-d"%string) then diskvd_flags rest (mkDiskv gid masters replicas me unreliable a1 restart)
      else if decide (a0 = "-r"%string) then diskvd_flags rest (mkDiskv gid masters replicas me unreliable dir (ParseBool a1))
      else None
  | _ => Some c
  end.

Definition diskvd_main (args : list string) : option diskv :=
  c ← diskvd_flags (tail args) (mkDiskv (-1) [] [] (-1) false "" false);
  if decide (dk_gid c < 0 \/ dk_me c < 0 \/ (length (dk_masters c) < 1)%nat \/ dk_me c >= Z.of_nat (length (dk_replicas c))
             \/ dk_dir c = ""%string)
  then None else Some c.

(** ** Lemmas *)

Lemma mrcoordinator_loop_spec {C} (Done : C -> bool) cs k :
  mrcoordinator_loop Done cs = Some k
  <-> (exists c, cs !! k = Some c /\ Done c = true) /\ forall i c, (i < k)%nat -> cs !! i = Some c -> Done c = false.
Proof.
  revert k. induction cs as [|c cs IH]; intros k; cbn [mrcoordinator_loop].
  - split; [done|]. by intros [(c&E&_) _].
  - destruct (Done c) eqn:Ec.
    + split; [intros [= <-]; split; [by exists c|lia]|]. intros [_ Hk]. destruct k as [|k]; [done|].
      specialize (Hk O c ltac:(lia) eq_refl). congruence.
    + rewrite fmap_Some. split.
      * intros (k'&Ek%IH&->). destruct Ek as [(d&Ed&Hd) Hk]. split; [by exists d|].
        intros [|i] x Hi; cbn; [by intros [= <-]|]. apply Hk. lia.
      * intros [(d&Ed&Hd) Hk]. destruct k as [|k]; cbn in Ed; [simplify_eq; congruence|]. exists k. split; [|done].
        apply IH. split; [by exists d|]. intros i x Hi. apply (Hk (S i) x). lia.
Qed.

(** A string of digits below [2^64] is read as it stands. *)
Lemma parse_uint_digits s : forall acc z, 0 <= acc -> digits_from acc s = Some z -> z < 2 ^ 64 ->
  parse_uint acc s = Some z /\ acc <= z.
Proof.
  induction s as [|c s IH]; intros acc z Hacc; cbn [digits_from parse_uint]; [intros [= ->]; by split|].
  destruct (digit c) as [d|] eqn:Ed; cbn [mbind option_bind]; [|done]. intros E Hz.
  assert (0 <= d) by (unfold digit in Ed; case_decide; simplify_eq; lia).
  destruct (IH (10 * acc + d) z ltac:(lia) E Hz) as [-> Hle]. rewrite decide_False by lia. split; [done|lia].
Qed.

Lemma ParseInt_Itoa z : 0 <= z < 2 ^ 63 -> ParseInt (Itoa z) = z.
Proof.
  intros Hz. destruct (parse_uint_digits (Itoa z) 0 z ltac:(lia) (digits_Itoa z ltac:(lia)) ltac:(lia)) as [E _].
  assert (has_byte "+" (Itoa z) = false) as Hp by (apply Itoa_lacks; [not_a_digit|lia]).
  pose proof (Itoa_no_dash z ltac:(lia)) as Hm. pose proof (Itoa_nonempty z) as Hne. unfold ParseInt.
  destruct (Itoa z) as [|c s]; [done|]. simpl in Hm, Hp.
  apply orb_false_iff in Hm as [Hm%bool_decide_eq_false _]. apply orb_false_iff in Hp as [Hp%bool_decide_eq_false _].
  assert (match String c s with String "-" s' => (true, s') | String "+" s' => (false, s') | _ => (false, String c s) end
          = (false, String c s)) as ->.
  { destruct c as [[] [] [] [] [] [] [] []]; first [done|by destruct Hm|by destruct Hp]. }
  rewrite E. lia.
Qed.

(** ** Properties *)

(** The command line for a configuration of [diskvd]. *)
Definition bool_text (b : bool) : string := if b then "true" else "false".

Definition diskvd_line (c : diskv) : list string :=
  ["-g"; Itoa (dk_gid c)]%string ++ (dk_masters c ≫= fun m => ["-m"; m]%string)
  ++ (dk_replicas c ≫= fun s => ["-s"; s]%string)
  ++ ["-i"; Itoa (dk_me c); "-u"; bool_text (dk_unreliable c); "-d"; dk_dir c; "-r"; bool_text (dk_restart c)]%string.

(** What [main] asks of a configuration before it starts a server. *)
Definition diskvd_ok (c : diskv) : Prop :=
  0 <= dk_gid c /\ 0 <= dk_me c < Z.of_nat (length (dk_replicas c)) /\ dk_masters c <> [] /\ dk_dir c <> ""%string.

Lemma masters_flags ms : forall rest gid masters replicas me u dir r,
  diskvd_flags ((ms ≫= fun m => ["-m"; m]%string) ++ rest) (mkDiskv gid masters replicas me u dir r)
  = diskvd_flags rest (mkDiskv gid (masters ++ ms) replicas me u dir r).
Proof.
  induction ms as [|m ms IH]; intros; [by rewrite app_nil_r|]. rewrite bind_cons, <-app_assoc. cbn [app diskvd_flags].
  rewrite decide_False, decide_True by done. rewrite IH. by rewrite <-app_assoc.
Qed.

Lemma replicas_flags rs : forall rest gid masters replicas me u dir r,
  diskvd_flags ((rs ≫= fun s => ["-s"; s]%string) ++ rest) (mkDiskv gid masters replicas me u dir r)
  = diskvd_flags rest (mkDiskv gid masters (replicas ++ rs) me u dir r).
Proof.
  induction rs as [|m rs IH]; intros; [by rewrite app_nil_r|]. rewrite bind_cons, <-app_assoc. cbn [app diskvd_flags].
  rewrite !decide_False, decide_True by done. rewrite IH. by rewrite <-app_assoc.
Qed.

Lemma ParseBool_text b : ParseBool (bool_text b) = b.
Proof. by destruct b. Qed.

(** [diskvd] starts exactly the servers it should.  Whatever the arguments, a server that is
    started has a group, an index into its list of replicas, a shard master and a directory; and
    every such configuration whose numbers fit in 64 bits is started from its command line, with all
    of its fields, the replicas and the masters in their order. *)
Theorem diskvd_starts :
  (forall args c, diskvd_main args = Some c -> diskvd_ok c)
  /\ forall prog c, diskvd_ok c -> dk_gid c < 2 ^ 63 -> Z.of_nat (length (dk_replicas c)) < 2 ^ 63 ->
       diskvd_main (prog :: diskvd_line c) = Some c.
Proof.
  split.
  - intros args c. unfold diskvd_main. destruct (diskvd_flags _ _) as [c'|]; [|done]. cbn [mbind option_bind].
    case_decide as Hd; [done|]. intros [= ->]. unfold diskvd_ok. repeat split; [lia..| |].
    + intros E. rewrite E in Hd. cbn in Hd. lia.
    + tauto.
  - intros prog [gid masters replicas me u dir r] (Hg&Hm&Hne&Hd) Hg' Hr. cbn in *.
    unfold diskvd_main, diskvd_line. cbn [tail dk_gid dk_masters dk_replicas dk_me dk_unreliable dk_dir dk_restart app].
    cbn [diskvd_flags]. rewrite decide_True by done. rewrite masters_flags, replicas_flags. cbn [diskvd_flags app].
    repeat match goal with
           | |- context [decide (String "-" ?a = String "-" ?b)] =>
               first [rewrite (decide_True (P := String "-" a = String "-" b)) by reflexivity
                     |rewrite (decide_False (P := String "-" a = String "-" b)) by discriminate]
           end.
    cbn [mbind option_bind dk_gid dk_masters dk_replicas dk_me dk_dir].
    rewrite !ParseInt_Itoa, !ParseBool_text by lia. rewrite decide_False; [done|].
    destruct masters; [done|]. cbn. intuition lia.
Qed.

(** The error of [ParseInt] is not looked at: a group that is not a number is group 0. *)
Example bad_group_is_zero :
  diskvd_main ["diskvd"; "-g"; "7x"; "-m"; "m"; "-s"; "s"; "-i"; "0"; "-d"; "/tmp"]%string
  = Some (mkDiskv 0 ["m"]%string ["s"]%string 0 false "/tmp" false).
Proof. vm_compute. reflexivity. Qed.

Lemma diskvd_starts_witness :
  diskvd_main ["diskvd"; "-g"; "7"; "-m"; "m"; "-s"; "a"; "-s"; "b"; "-i"; "1"; "-u"; "true"; "-d"; "/tmp"; "-r"; "false"]%string
  = Some (mkDiskv 7 ["m"] ["a"; "b"] 1 true "/tmp" false)%string.
Proof.
  apply (proj2 diskvd_starts "diskvd"%string (mkDiskv 7 ["m"] ["a"; "b"] 1 true "/tmp" false)%string).
  - unfold diskvd_ok. cbn. split_and!; [lia|lia|lia|done|done].
  - cbn. lia.
  - cbn. lia.
Defined.
