(* ===== verification/Stubs.v ===== *)
(** * Unimplemented parts

    What the repository holds of the parts that are not written yet: the clerk and server of
    [src/src/kvraft1], [RSM] of [src/src/kvraft1/rsm/rsm.go], the clerks and servers of
    [src/src/shardkv1], and the version of MapReduce in [src/src/mr] from which
    [src/map_reduce/mr] started.  The theorems say what the tests make of them.  The sequential
    program, the applications and the test harness of that version are the same text as in
    [src/map_reduce]; module [Starter] names their models. *)

From S2P Require Import Prelude Base64 Rpc KVServer KVClerk Raft ShardCfg Coordinator MRWorker MRApps.
From S2P Require Import MRTest MRTiming MRHarness KvTest Rsm Programs.
Local Open Scope Z_scope.

(** ** Replicated state machine *)

Record RSM (SM : Type) := mkRSM { rsm_me : Z; rf : option Raft; maxraftstate : Z; sm : SM }.
Arguments mkRSM {SM}. Arguments rsm_me {SM}. Arguments rf {SM}. Arguments maxraftstate {SM}. Arguments sm {SM}.

(** [use] is [tester.UseRaftStateMachine]; the arguments after it are those of [raft.Make]. *)
Definition MakeRSM {SM} (use : bool) (npeers : nat) (me now : Z) (raftstate : list Z) (maxraftstate : Z) (sm : SM) : RSM SM :=
  mkRSM me (if use then None else Some (Raft.Make npeers me now raftstate)) maxraftstate sm.

(** [RSM.Raft]. *)
Definition rsm_Raft {SM} (r : RSM SM) : option Raft := rf r.

Definition Submit {SM Req} (rs : RSM SM) (r : Req) : Err * option reply := (ErrWrongLeader, None).

(** [Submit] at server [s] of a test, as the tester sees it. *)
Definition submit_at {W} (s : nat) (r : req) (w : W) : W * Err * option reply :=
  let '(err, rep) := Submit (mkRSM (Z.of_nat s) None 0 tt) r in (w, err, rep).

(** ** kvraft *)

Module KVRaft.

Record KVServer := mkServer { kv_me : Z }.

Definition DoOp (kv : KVServer) (req : PutArgs + GetArgs) : option (PutReply + GetReply) := None.
Definition Snapshot (kv : KVServer) : list Z := [].
Definition Restore (kv : KVServer) (data : list Z) : KVServer := kv.
Definition Get (kv : KVServer) (args : GetArgs) (reply : GetReply) : GetReply := reply.
Definition Put (kv : KVServer) (args : PutArgs) (reply : PutReply) : PutReply := reply.

(** The services of a server: the store, with its state machine, and Raft. *)
Definition StartKVServer (use : bool) (npeers : nat) (me now : Z) (raftstate : list Z) (max : Z)
    : RSM KVServer * option Raft :=
  let rsm := MakeRSM use npeers me now raftstate max (mkServer me) in (rsm, rsm_Raft rsm).

Definition clerk_Get (key : string) : string * Tversion * Err := (""%string, 0, ""%string).
Definition clerk_Put (key value : string) (version : Tversion) : Err := ""%string.

End KVRaft.

(** ** Shard groups *)

Module ShardGrp.

Record FreezeShardArgs := mkFreezeArgs { fr_Shard : Z; fr_Num : Z }.
Record FreezeShardReply := mkFreezeReply { frr_State : list Z; frr_Num : Z; frr_Err : Err }.
Record InstallShardArgs := mkInstallArgs { in_Shard : Z; in_State : list Z; in_Num : Z }.
Record InstallShardReply := mkInstallReply { inr_Err : Err }.
Record DeleteShardArgs := mkDeleteArgs { de_Shard : Z; de_Num : Z }.
Record DeleteShardReply := mkDeleteReply { der_Err : Err }.

Record KVServer := mkServer { kv_me : Z; kv_gid : Z }.

Definition DoOp {Req Rep} (kv : KVServer) (req : Req) : option Rep := None.
Definition Snapshot (kv : KVServer) : list Z := [].
Definition Restore (kv : KVServer) (data : list Z) : KVServer := kv.
Definition Get (kv : KVServer) (args : GetArgs) (reply : GetReply) : KVServer * GetReply := (kv, reply).
Definition Put (kv : KVServer) (args : PutArgs) (reply : PutReply) : KVServer * PutReply := (kv, reply).
Definition FreezeShard (kv : KVServer) (args : FreezeShardArgs) (reply : FreezeShardReply) : KVServer * FreezeShardReply := (kv, reply).
Definition InstallShard (kv : KVServer) (args : InstallShardArgs) (reply : InstallShardReply) : KVServer * InstallShardReply := (kv, reply).
Definition DeleteShard (kv : KVServer) (args : DeleteShardArgs) (reply : DeleteShardReply) : KVServer * DeleteShardReply := (kv, reply).

Definition StartServerShardGrp (use : bool) (npeers : nat) (gid me now : Z) (raftstate : list Z) (max : Z)
    : RSM KVServer * option Raft :=
  let rsm := MakeRSM use npeers me now raftstate max (mkServer me gid) in (rsm, rsm_Raft rsm).

Record Clerk := mkClerk { servers : list string; leader : Z }.

Definition MakeClerk (servers : list string) : Clerk := mkClerk servers 0.
Definition Leader (ck : Clerk) : Z := leader ck.
Definition clerk_Get (ck : Clerk) (key : string) : string * Tversion * Err := (""%string, 0, ""%string).
Definition clerk_Put (ck : Clerk) (key value : string) (version : Tversion) : Err := ""%string.
Definition clerk_FreezeShard (ck : Clerk) (s num : Z) : list Z * Err := ([], ""%string).
Definition clerk_InstallShard (ck : Clerk) (s : Z) (state : list Z) (num : Z) : Err := ""%string.
Definition clerk_DeleteShard (ck : Clerk) (s num : Z) : Err := ""%string.

End ShardGrp.

(** ** The clerk of the sharded service *)

Module ShardKV.

Record Clerk := mkClerk { rcks : gmap Z ShardGrp.Clerk }.

Definition MakeClerk : Clerk := mkClerk ∅.
(** The clerk of a group and whether there is one. *)
Definition GetClerk (ck : Clerk) (gid : Z) : option ShardGrp.Clerk := rcks ck !! gid.
Definition Get (ck : Clerk) (key : string) : string * Tversion * Err := (""%string, 0, ""%string).
Definition Put (ck : Clerk) (key value : string) (version : Tversion) : Err := ""%string.

End ShardKV.

(** A test program run over a clerk whose calls return at once. *)
Fixpoint run_on {R} (get : string -> string * Tversion * Err) (put : PutArgs -> Err) (p : kprog R) : kprog R :=
  match p with
  | KGet key k => run_on get put (k (get key))
  | KPut a k => run_on get put (k (put a))
  | p => p
  end.

(** The two clerks under test. *)
Definition kvraft_run {R} : kprog R -> kprog R :=
  run_on KVRaft.clerk_Get (fun a => KVRaft.clerk_Put (put_Key a) (put_Value a) (put_Version a)).
Definition shardkv_run {R} (ck : ShardKV.Clerk) : kprog R -> kprog R :=
  run_on (ShardKV.Get ck) (fun a => ShardKV.Put ck (put_Key a) (put_Value a) (put_Version a)).

(** ** MapReduce *)

Module Starter.

Record Coordinator := mkCoordinator {}.

Definition Coordinator_Example (c : Coordinator) (X : Z) : Z := i64 (X + 1).
Definition Done (c : Coordinator) : bool := false.
Definition MakeCoordinator (sockname : string) (files : list string) (nReduce : Z) : Coordinator := mkCoordinator.

(** The value [coordSockName] gets; the worker does nothing else. *)
Definition Worker {M R} (sockname : string) (mapf : M) (reducef : R) : string := sockname.

(** [answer] is [None] when nobody listens on the socket, [Some None] when the call returns an error. *)
Definition call {R} (answer : option (option R)) : go (option R) :=
  match answer with None => Crash Fatal | Some r => Ret r end.

(** What is printed. *)
Definition CallExample (answer : Z -> option (option Z)) : go string :=
  reply ← call (answer 99);
  Ret match reply with
      | Some Y => "reply.Y " +:+ Itoa Y +:+ String "010" ""
      | None => "call failed!" +:+ String "010" ""
      end%string.

Definition ihash : string -> Z := MRWorker.ihash.

(** *** Programs that are the same text as in [src/map_reduce] *)

Definition mrsequential := @MRWorker.mrsequential.
Definition main_loadPlugin := @loadPlugin.
Definition mrcoordinator := @mrcoordinator_args.
Definition mrcoordinator_wait := @mrcoordinator_loop.
Definition mrworker := @mrworker_main.

Definition wc_Map := @MRApps.wc_Map.
Definition wc_Reduce := @MRApps.wc_Reduce.
Definition indexer_Map := @MRApps.indexer_Map.
Definition indexer_Reduce := @MRApps.indexer_Reduce.
Definition crash_maybeCrash := @MRApps.maybeCrash.
Definition crash_Map := @MRApps.crash_Map.
Definition crash_Reduce := @MRApps.crash_Reduce.
Definition nocrash_maybeCrash := @MRApps.nocrash_maybeCrash.
Definition nocrash_Map := @MRApps.nocrash_Map.
Definition nocrash_Reduce := @MRApps.nocrash_Reduce.
Definition early_exit_Map := @MRApps.early_exit_Map.
Definition early_exit_Reduce := @MRApps.early_exit_Reduce.
Definition mtiming_nparallel := @MRTiming.tstep.
Definition rtiming_nparallel := @MRTiming.rtiming_nparallel.
Definition mtiming_Map := @MRTiming.mtiming_Map.
Definition mtiming_Reduce := @MRTiming.mtiming_Reduce.
Definition rtiming_Map := @MRTiming.rtiming_Map.
Definition rtiming_Reduce := @MRTiming.rtiming_Reduce.
Definition jobcount_Map := @MRTiming.jobcount_Map.
Definition jobcount_Reduce := @MRTiming.jobcount_Reduce.

Definition harness_step := @pstep.
Definition RandString := @Base64.RandString.
Definition coordinatorSock := @Base64.coordinatorSock.
Definition mkCorrectOutput := @MRTest.mkCorrectOutput.
Definition mergeOutput := @MRTest.mergeOutput.
Definition findFiles := @MRTest.findFiles.
Definition findFilesPre := @MRHarness.findFilesPre.
Definition mkOut := @MRHarness.mkOut.
Definition cleanup := @MRHarness.cleanup.
Definition runCmp := @MRTest.runCmp.
Definition countPatternFile := @MRHarness.countPatternFile.
Definition countPattern := @MRHarness.countPattern.

End Starter.

(** ** What the tests make of them *)

(** A [Put] at version 0 that must happen is tried again and again. *)
Lemma put_forever get put key value : (forall a, put a = ""%string) -> forall fuel,
  run_on get put (PutAtLeastOnce fuel key value 0) = KFuel.
Proof.
  intros Hput fuel. induction fuel as [|fuel IH]; [done|]. cbn [PutAtLeastOnce run_on]. rewrite Hput.
  rewrite decide_False by done. rewrite decide_False by (by intros [?|?]). by rewrite decide_False by lia.
Qed.

Lemma one_put_fails `{Json EntryV} get put fuel me key ver : (forall a, put a = ""%string) ->
  run_on get put (OnePut (S fuel) me key ver) = KCrash Fatal.
Proof.
  intros Hput. cbn [OnePut]. unfold PutJson. destruct (Marshal_total (mkEntryV me ver)) as [b ->].
  cbn [kbind run_on]. rewrite Hput. rewrite decide_False; [done|]. intros [?|[?|?]]; done.
Qed.

(** The answers of the stubs are not those of any clerk that keeps the contract of the key/value service. *)
Theorem stub_breaks_contract {S} `{IKVClerk S} s s' key a ck :
  ~ ck_get s key (KVRaft.clerk_Get key) /\ ~ ck_get s key (ShardKV.Get ck key)
  /\ ~ ck_put s a (KVRaft.clerk_Put (put_Key a) (put_Value a) (put_Version a)) s'.
Proof.
  assert (~ ck_get s key (""%string, 0, ""%string)) as Hg.
  { intros E%ck_get_law. by destruct (entry s key), E as (_&_&E). }
  split; [exact Hg|]. split; [exact Hg|]. intros E%ck_put_law. unfold KVRaft.clerk_Put in E.
  destruct E as [(_&[E|E]&_)|(_&_&[E|E])]; [done..|]. by destruct (entry s (put_Key a)).
Qed.

(** No test of the key/value service passes over the stubs.  A [Put] that must happen is tried for
    ever, and the first read, the first put of a contending client and the first append of a client
    end the test. *)
Theorem stub_fails_tests `{Json EntryV} `{Json (list EntryN)} fuel me key value ver st ck :
  let fails {R} (p : kprog R) (e : kprog R) := kvraft_run p = e /\ shardkv_run ck p = e in
  fails (PutAtLeastOnce fuel key value 0) KFuel
  /\ fails (CheckGet key value ver) (KCrash Fatal)
  /\ fails (OnePut (S fuel) me key ver) (KCrash Fatal)
  /\ fails (OneClientAppend me (S fuel) st) (KCrash Fatal).
Proof.
  intros fails. unfold fails. split_and!; try reflexivity; unfold kvraft_run, shardkv_run; first [by apply put_forever|by apply one_put_fails].
Qed.

(** Over the [Submit] of the repository the tester of the replicated state machine finds no leader, whatever
    the servers' connections: it gives up with nothing changed, and an increment reads as 0. *)
Theorem stub_submit_no_leader {W} connected alive rounds p r (ts : Rsm.Test W) :
  (Rsm.leader ts < Rsm.NSRV)%nat ->
  onePartition submit_at connected alive rounds p r ts = Ret (ts, None)
  /\ oneInc submit_at connected alive rounds ts = Ret (ts, IncRep 0).
Proof.
  intros Hl. assert (forall p r, onePartition submit_at connected alive rounds p r ts = Ret (ts, None)) as E.
  { intros p' r'. apply onePartition_none; [done|done|]. intros s _ [_ E]. done. }
  split; [apply E|]. unfold oneInc. by rewrite E.
Qed.

(** The coordinator process of the starter never ends; its only RPC adds one. *)
Theorem starter_never_ends cs c :
  Starter.mrcoordinator_wait _ Starter.Done cs = None
  /\ Starter.CallExample (fun X => Some (Some (Starter.Coordinator_Example c X)))
     = Ret ("reply.Y 100" +:+ String "010" "")%string.
Proof. split; [|vm_compute; reflexivity]. induction cs as [|x cs IH]; [done|]. cbn in *. by rewrite IH. Qed.
