(* ===== verification/ShardDrive.v ===== *)
(** * Clerks, leaders and the sharding check of the shard tests

    The rest of [src/src/shardkv1/test.go]: the makers of clerks and controllers over the
    tester's configuration, [shutdownLeader], and [checkShutdownSharding] with its goroutines and its
    unbuffered channel. *)

From S2P Require Import Prelude Rpc Labrpc TesterGroup TesterConfig KVClerk KvRun ShardCfg Stubs.
Local Open Scope Z_scope.

(** ** Clients *)

(** The clients, by their addresses: of a test's clerk and of the controller made for it. *)
Record shard_clerk := mkShardClerk { sk_clnt : nat; sk_ctrl : nat; sk_clerk : ShardKV.Clerk }.

(** [MakeTestMaxRaft]: one key/value server for the controllers. *)
Definition shard_MakeTest (rnd : nat -> nat -> string) (st : start_env) (reliable : bool) (now : Z) : go Config :=
  cfg ← MakeConfig rnd st 1 reliable now; Ret (Begin now cfg).

(** The controller's client and the server it uses. *)
Definition makeShardCtrlerClnt (a : nat) (cfg : Config) : go (Config * (nat * string)) :=
  cfg ← MakeClient a cfg; Ret (cfg, (a, ServerName GRP0 0)).

Definition makeShardCtrler (a : nat) (cfg : Config) : go Config :=
  match makeShardCtrlerClnt a cfg with Ret (cfg', _) => Ret cfg' | Crash c => Crash c end.

(** [MakeClerk]: the client of the clerk is made first. *)
Definition shard_MakeClerk (a ctrl : nat) (cfg : Config) : go (Config * shard_clerk) :=
  cfg ← MakeClient a cfg;
  cfg ← makeShardCtrler ctrl cfg;
  Ret (cfg, mkShardClerk a ctrl ShardKV.MakeClerk).

Definition shard_DeleteClerk (ck : shard_clerk) (cfg : Config) : go Config := DeleteClient (sk_clnt ck) cfg.

(** The server that the clerk believes to be the leader is shut down. *)
Definition shutdownLeader (ck : shard_clerk) (gid : Z) (cfg : Config) : go (Config * Z) :=
  match ShardKV.GetClerk (sk_clerk ck) gid with
  | None => Crash Fatal
  | Some c =>
      let l := ShardGrp.Leader c in
      if decide (0 <= l) then cfg ← on_group gid (ShutdownServer (Z.to_nat l)) cfg; Ret (cfg, l)
      else Crash Panic
  end.

Definition clients (cfg : Config) : gset nat := from_option dom ∅ (c_clerks cfg).

Lemma clients_DeleteClient c cfg cfg' : DeleteClient c cfg = Ret cfg' -> clients cfg' = clients cfg ∖ {[ c ]}.
Proof.
  unfold DeleteClient, clients. destruct (c_clerks cfg) as [m|] eqn:Em; cbn.
  - destruct (m !! c) as [clnt|] eqn:Ec; cbn.
    + destruct (clnt_remove clnt (c_net cfg)); [|done]. cbn. intros [= <-]. cbn. apply dom_delete_L.
    + intros [= <-]. rewrite Em. cbn. apply not_elem_of_dom in Ec. set_solver.
  - intros [= <-]. rewrite Em. cbn. set_solver.
Qed.

Lemma clients_MakeClient c cfg cfg' : MakeClient c cfg = Ret cfg' -> clients cfg' = {[ c ]} ∪ clients cfg.
Proof.
  unfold MakeClient, MakeClientTo, clients. destruct (c_clerks cfg) as [m|]; [|done]. intros [= <-]. cbn. apply dom_insert_L.
Qed.

(** Making and deleting a clerk leaves the client of its controller behind. *)
Theorem shard_clerk_leaks a ctrl cfg :
  cfg_ok cfg -> a ∉ clients cfg -> a <> ctrl ->
  exists cfg1 ck cfg2, shard_MakeClerk a ctrl cfg = Ret (cfg1, ck) /\ shard_DeleteClerk ck cfg1 = Ret cfg2
    /\ clients cfg2 = {[ ctrl ]} ∪ clients cfg /\ cfg_ok cfg2.
Proof.
  intros Hok Ha Hne. destruct (cfg_ok_MakeClient a cfg Hok) as (c1&E1&H1). destruct (cfg_ok_MakeClient ctrl c1 H1) as (c2&E2&H2).
  destruct (cfg_ok_DeleteClient a c2 H2) as (c3&E3&H3).
  exists c2, (mkShardClerk a ctrl ShardKV.MakeClerk), c3. split.
  - unfold shard_MakeClerk. rewrite E1. run_go. unfold makeShardCtrler, makeShardCtrlerClnt. by rewrite E2.
  - split; [done|]. split; [|done]. rewrite (clients_DeleteClient _ _ _ E3), (clients_MakeClient _ _ _ E2), (clients_MakeClient _ _ _ E1).
    set_solver.
Qed.

(** [shutdownLeader] shuts down one server of the group, if its daemon answers, and leaves the other groups alone;
    if it does not answer, or without a clerk for the group, it ends the test, and the clerk of the repository never has one. *)
Theorem shutdown_leader_outcome ck gid cfg :
  cinv cfg ->
  match ShardKV.GetClerk (sk_clerk ck) gid with
  | None => shutdownLeader ck gid cfg = Crash Fatal
  | Some c => forall sg, c_grps cfg !! gid = Some sg -> 0 <= ShardGrp.Leader c < Z.of_nat (N sg) ->
      if TesterConfig.answers sg (Z.to_nat (ShardGrp.Leader c)) then
      exists cfg', shutdownLeader ck gid cfg = Ret (cfg', ShardGrp.Leader c) /\ cinv cfg'
        /\ forall g, g <> gid -> undisturbed g cfg cfg'
      else shutdownLeader ck gid cfg = Crash Fatal
  end.
Proof.
  intros Hc. unfold shutdownLeader. destruct (ShardKV.GetClerk (sk_clerk ck) gid) as [c|]; [|done].
  intros sg Hg Hl. rewrite decide_True by lia. destruct (TesterConfig.answers sg _) eqn:Ha.
  2: { unfold on_group, Group. rewrite Hg. rewrite ShutdownServer_fatal; [done|by eapply cinv_good|lia|done]. }
  destruct (on_group_quiet gid (ShutdownServer (Z.to_nat (ShardGrp.Leader c))) cfg sg Hc Hg) as (cfg'&E&Hc'&Hu).
  - destruct (ShutdownServer_quiet (Z.to_nat (ShardGrp.Leader c)) sg (c_net cfg)) as (sg'&rn'&E&Q&_); [by eapply cinv_good|lia|done|].
    by exists sg', rn'.
  - rewrite E. run_go. by exists cfg'.
Qed.

(** ** [checkShutdownSharding] *)

(** A goroutine: in its [Get]; with a value, before it looks at [done]; sending; it has sent; it has returned
    without. *)
Inductive gpc := GGet | GGot (v : string) | GSend (msg : string) | GSent | GQuit.

(** The test: in its [select], or after the loop. *)
Inductive smain := SSelect | SReturned.

Record ssys := mkS { s_clients : list gpc; s_done : bool; s_ndone : Z; s_main : smain }.

Definition complaint (key expected received : string) : string :=
  ("Get(" +:+ key +:+ "): expected:" +:+ String "010" expected +:+ String "010" ("received:" +:+ String "010" received))%string.

Section sharding.
  Context (ka va : list string).
  (* which values [Get] of the [i]-th key may return; none if its servers are down *)
  Context (answers : nat -> string -> Prop).

(** What a goroutine does with its value. *)
Definition look (i : nat) (v : string) (done : bool) : go gpc :=
  if done then Ret GQuit
  else
    want ← index va i; key ← index ka i;
    Ret (GSend (if decide (v <> want) then complaint key want v else ""%string)).

Definition set_client (i : nat) (g : gpc) (s : ssys) : ssys := mkS (<[i := g]> (s_clients s)) (s_done s) (s_ndone s) (s_main s).

(** The message of goroutine [i] arrives. *)
Definition receive (i : nat) (msg : string) (s : ssys) : go ssys :=
  if decide (msg <> ""%string) then Crash Fatal
  else Ret (mkS (<[i := GSent]> (s_clients s)) (s_done s) (i64 (s_ndone s + 1)) SSelect).

(** Two seconds have passed without a message. *)
Definition timeout (s : ssys) : go ssys :=
  if decide (s_ndone s >= Z.of_nat (length ka)) then Crash Fatal
  else Ret (mkS (s_clients s) true (s_ndone s) SReturned).

Inductive shstep : ssys -> go ssys -> Prop :=
  | sh_get s i v : s_clients s !! i = Some GGet -> answers i v -> shstep s (Ret (set_client i (GGot v) s))
  | sh_look s i v : s_clients s !! i = Some (GGot v) -> shstep s (g ← look i v (s_done s); Ret (set_client i g s))
  | sh_receive s i msg : s_main s = SSelect -> s_clients s !! i = Some (GSend msg) -> shstep s (receive i msg s)
  | sh_timeout s : s_main s = SSelect -> shstep s (timeout s).

Definition sh_init : ssys := mkS (replicate (length ka) GGet) false 0 SSelect.

Definition shmove (s s' : ssys) : Prop := shstep s (Ret s').

(** *** The invariant *)

#[export] Instance gpc_eq_dec : EqDecision gpc.
Proof. solve_decision. Defined.

(** Every answer is the value that was stored, and goroutine [i0] gets none. *)
Definition correct_but (i0 : nat) : Prop :=
  (forall i v, answers i v -> va !! i = Some v) /\ forall v, ~ answers i0 v.

Record shinv (i0 : nat) (s : ssys) : Prop := {
  shi_length : length (s_clients s) = length ka;
  shi_waits : s_clients s !! i0 = Some GGet;
  shi_count : s_ndone s = occ GSent (s_clients s);
  shi_got i v : s_clients s !! i = Some (GGot v) -> va !! i = Some v;
  shi_send i msg : s_clients s !! i = Some (GSend msg) -> msg = ""%string;
}.

Lemma shinv_insert i0 s i g g' n done m :
  shinv i0 s -> s_clients s !! i = Some g -> i <> i0 ->
  n = s_ndone s + (if decide (g' = GSent) then 1 else 0) - (if decide (g = GSent) then 1 else 0) ->
  (forall v, g' = GGot v -> va !! i = Some v) -> (forall msg, g' = GSend msg -> msg = ""%string) ->
  shinv i0 (mkS (<[i := g']> (s_clients s)) done n m).
Proof.
  intros [H1 H2 H3 H4 H5] Hi Hne -> Hgot Hsend. split; simpl.
  - by rewrite length_insert.
  - by rewrite list_lookup_insert_ne.
  - rewrite (occ_insert GSent g) by done. rewrite H3. repeat case_decide; congruence || lia.
  - intros j v [(<-&E&_)|[_ Hj]]%list_lookup_insert_Some; [by apply Hgot|by eapply H4].
  - intros j msg [(<-&E&_)|[_ Hj]]%list_lookup_insert_Some; [by apply Hsend|by eapply H5].
Qed.

Lemma shinv_step i0 s r :
  correct_but i0 -> length va = length ka -> (i0 < length ka)%nat -> Z.of_nat (length ka) < 2 ^ 63 ->
  shinv i0 s -> shstep s r -> exists s', r = Ret s' /\ shinv i0 s'.
Proof.
  intros [Hright Hdown] Hlen Hi0 Hn Hi Hs. pose proof Hi as [H1 H2 H3 H4 H5].
  assert (0 <= s_ndone s < Z.of_nat (length ka)) as Hless.
  { rewrite H3. split; [apply occ_nonneg|]. pose proof (occ_insert GSent GGet GSent _ i0 H2) as Ho.
    pose proof (occ_le_length GSent (<[i0 := GSent]> (s_clients s))) as Hle. rewrite length_insert, H1, Ho in Hle.
    rewrite (decide_False (P := GSent = GGet)), (decide_True (P := GSent = GSent)) in Hle by done. lia. }
  destruct Hs as [s i v Hc Ha|s i v Hc|s i msg Hm Hc|s Hm].
  - eexists. split; [done|]. eapply shinv_insert; [done|exact Hc| | | |done].
    + intros ->. by destruct (Hdown v).
    + rewrite !decide_False by done. lia.
    + intros w [= <-]. by apply Hright.
  - pose proof (H4 i v Hc) as Hv. destruct (lookup_lt_is_Some_2 ka i) as [key Hk]; [rewrite <-H1; by eapply lookup_lt_Some|].
    assert (i <> i0) as Hne by (intros ->; congruence).
    unfold look. destruct (s_done s); [|unfold index; rewrite Hv, Hk]; run_go.
    + eexists. split; [done|]. eapply shinv_insert; [done|exact Hc|done| |done|done]. rewrite !decide_False by done. lia.
    + eexists. split; [done|]. eapply shinv_insert; [done|exact Hc|done| |done|].
      * rewrite !(decide_False (P := _ = GSent)) by done. lia.
      * intros msg [= <-]. by rewrite decide_False by (intros E; by apply E).
  - rewrite (H5 i msg Hc) in *. unfold receive. rewrite decide_False by (intros E; by apply E). eexists. split; [done|].
    eapply shinv_insert; [done|exact Hc|intros ->; congruence| |done|done].
    rewrite (decide_True (P := GSent = GSent)), (decide_False (P := GSend _ = GSent)) by done.
    rewrite i64_small by lia. lia.
  - unfold timeout. rewrite decide_False by lia. eexists. split; [done|]. by split.
Qed.

Lemma shinv_init i0 : (i0 < length ka)%nat -> shinv i0 sh_init.
Proof.
  intros Hi0. split; simpl.
  - apply length_replicate.
  - by apply lookup_replicate_2.
  - symmetry. pose proof (occ_nonneg GSent (replicate (length ka) GGet)).
    destruct (decide (0 < occ GSent (replicate (length ka) GGet))) as [Hp%occ_pos|]; [|lia]. by apply elem_of_replicate in Hp as [??].
  - intros i v [? _]%lookup_replicate. done.
  - intros i msg [? _]%lookup_replicate. done.
Qed.

(** How many messages may still come. *)
Definition sh_left (s : ssys) : Z := Z.of_nat (length ka) - occ GSent (s_clients s).

(** C15: the sharding check passes on a sharded service.  When the clerks return the values that were stored,
    or nothing, and the key of at least one goroutine is in the group that is down: in every
    interleaving of the goroutines with the test, no step ends the test; the test can always go on,
    and each message it receives leaves fewer to come, so that it returns. *)
Theorem sharding_check_passes i0 s :
  correct_but i0 -> length va = length ka -> (i0 < length ka)%nat -> Z.of_nat (length ka) < 2 ^ 63 ->
  rtc shmove sh_init s ->
  (forall r, shstep s r -> exists s', r = Ret s')
  /\ (s_main s = SSelect -> exists s', shmove s s' /\ s_main s' = SReturned)
  /\ forall i msg s', s_clients s !! i = Some (GSend msg) -> receive i msg s = Ret s' -> 0 <= sh_left s' < sh_left s.
Proof.
  intros Hok Hlen Hi0 Hn Hr.
  assert (shinv i0 s) as Hi.
  { pose proof (shinv_init i0 Hi0) as Hi. clear -Hok Hlen Hi0 Hn Hr Hi. induction Hr as [|s0 s1 s2 Hs _ IH]; [done|].
    apply IH. destruct (shinv_step i0 s0 _ Hok Hlen Hi0 Hn Hi Hs) as (s'&[= <-]&Hi'). exact Hi'. }
  split; [|split].
  - intros r Hs. destruct (shinv_step i0 s r Hok Hlen Hi0 Hn Hi Hs) as (s'&->&_). by exists s'.
  - intros Hm. destruct (shinv_step i0 s _ Hok Hlen Hi0 Hn Hi (sh_timeout s Hm)) as (s'&E&_).
    exists s'. unfold shmove. rewrite <-E. split; [by constructor|]. unfold timeout in E. case_decide; [done|]. by injection E as <-.
  - intros i msg s' Hc. unfold receive. case_decide; [done|]. intros [= <-]. unfold sh_left. simpl.
    rewrite (occ_insert GSent (GSend msg)) by done.
    rewrite (decide_False (P := GSent = GSend _)), (decide_True (P := GSent = GSent)) by done.
    pose proof (occ_le_length GSent (<[i := GSent]> (s_clients s))) as Hle. rewrite length_insert, (shi_length _ _ Hi) in Hle.
    rewrite (occ_insert GSent (GSend msg)) in Hle by done.
    rewrite (decide_False (P := GSent = GSend _)), (decide_True (P := GSent = GSent)) in Hle by done. lia.
Qed.

(** The channel has no buffer: a goroutine that looked at [done] before the test set it is left in its send
    for ever. *)
Theorem sharding_sender_leaks s i msg :
  s_main s = SReturned -> s_clients s !! i = Some (GSend msg) ->
  forall s', rtc shmove s s' -> s_main s' = SReturned /\ s_clients s' !! i = Some (GSend msg).
Proof.
  intros Hm Hi s' Hr. induction Hr as [|s0 s1 s2 Hs _ IH]; [done|].
  assert (forall j g g', s_clients s0 !! j = Some g -> g <> GSend msg -> s_clients (set_client j g' s0) !! i = Some (GSend msg)) as Hother.
  { intros j g g' Hj Hg. simpl. rewrite list_lookup_insert_ne; [done|]. intros ->. congruence. }
  unfold shmove in Hs. remember (Ret s1) as r eqn:Er.
  destruct Hs as [s3 j v Hj Ha|s3 j v Hj|s3 j m Hm' Hj|s3 Hm']; [| |congruence..].
  - injection Er as <-. apply IH; [done|by eapply Hother].
  - destruct (look j v (s_done s3)) as [g|]; [|done]. cbn in Er. injection Er as <-. apply IH; [done|by eapply Hother].
Qed.
End sharding.

(** *** A concrete run *)

(** The second of two keys is in the group that is down. *)
Definition one_down (i : nat) (v : string) : Prop := i = 0%nat /\ v = "x"%string.

Lemma sharding_check_passes_witness :
  correct_but ["x"; "y"]%string one_down 1
  /\ forall r, shstep ["a"; "b"]%string ["x"; "y"]%string one_down (sh_init ["a"; "b"]%string) r -> exists s', r = Ret s'.
Proof.
  assert (correct_but ["x"; "y"]%string one_down 1) as Hok.
  { split; [by intros i v [-> ->]|]. by intros v [? _]. }
  split; [exact Hok|].
  apply (sharding_check_passes ["a"; "b"]%string ["x"; "y"]%string one_down 1 (sh_init ["a"; "b"]%string) Hok eq_refl).
  - simpl. lia.
  - simpl. lia.
  - apply rtc_refl.
Defined.

(** If every key answers, the data is not sharded, and the test says so. *)
Example unsharded_found :
  timeout ["a"]%string (mkS [GSent] false 1 SSelect) = Crash Fatal.
Proof. reflexivity. Qed.
