(* ===== verification/Setup.v ===== *)
(** * Setting up tests and processes

    Small parts around the others: where the program of a server process is found and what the
    tester makes when it starts one ([src/src/tester1/daemonclnt.go], [runDaemon]), the
    memory statistics of a group ([group.go], [srv.go], [daemonsrv.go]), the clerk that counts its calls
    and the random values of [src/src/kvtest1/kvtest.go], the set-up and clean-up of the tests of [kvtest1], [kvraft1] and
    [kvraft1/rsm], the log entries of a Raft server ([pork], [raft1/raft.go]), and the two ends of the
    MapReduce socket ([map_reduce/mr/coordinator.go], [server], and [worker.go], [call]). *)

From S2P Require Import Prelude Rpc Logs OpLog MRApps MRTest MRHarness Labrpc RaftTest TesterGroup TesterConfig Annotation Timeline Daemon KvRun.
Local Open Scope Z_scope.

(** ** The program of a process *)

(** [strings.LastIndex]: the last position at which [sub] occurs, -1 if there is none. *)
Fixpoint last_sub (sub s : string) (i found : Z) : Z :=
  let found := if String.prefix sub s then i else found in
  match s with
  | EmptyString => found
  | String _ s' => last_sub sub s' (i + 1) found
  end.

Definition LastIndexOf (s sub : string) : Z := last_sub sub s 0 (-1).

(** [filepath.Clean] on the elements of a path from the root, last element first. *)
Fixpoint clean_rooted (out comps : list string) : list string :=
  match comps with
  | [] => out
  | c :: rest =>
      if decide (c = ""%string \/ c = "."%string) then clean_rooted out rest
      else if decide (c = ".."%string) then clean_rooted (tail out) rest
      else clean_rooted (c :: out) rest
  end.

Definition filepath_Clean (p : string) : string :=
  match p with
  | String "/" _ => "/" +:+ Join (rev (clean_rooted [] (split_on "/" p))) "/"
  | _ => Clean p
  end.

(** [filepath.Join]: from the first element that is not empty. *)
Fixpoint filepath_Join (elems : list string) : string :=
  match elems with
  | [] => ""
  | e :: rest => if decide (e = ""%string) then filepath_Join rest else filepath_Clean (Join elems "/")
  end.

(** [path]: slicing at -1 panics. *)
Definition path (prog cwd : string) : go string :=
  let i := LastIndexOf cwd "src" in
  if decide (i < 0) then Crash Panic
  else Ret (filepath_Join [substring 0 (Z.to_nat i) cwd; "src/main"; prog]%string).

(** What [runDaemon] knows of the process it has started. *)
Record DaemonClnt := mkDC { dc_srv : Z; dc_server : string; dc_endName : string; dc_cmd : string * list string; dc_clnt : Clnt }.

(** [cwd]: [None] if [os.Getwd] fails; [starts]: whether [cmd.Start] succeeds.  [None] is an error that is
    returned. *)
Definition runDaemon (cwd : option string) (starts : string -> list string -> bool) (usrsm : bool) (prog : string)
    (pargs : list string) (endName : string) (gid srv : Z) (endNames : list string) : go (option DaemonClnt) :=
  match cwd with
  | None => Ret None
  | Some cwd =>
      let args := runDaemon_args usrsm pargs endName gid srv endNames in
      prog ← path prog cwd;
      if negb (starts prog args) then Ret None
      else
        e ← index_Z endNames srv;
        Ret (Some (mkDC srv (ServerName gid srv) e (prog, args) (makeClntTo None)))
  end.

(** ** Statistics of a group *)

(** [Server.memSize] and [DaemonClnt.memSize]: [alloc] is [st.HeapAlloc] in the reply of
    [DaemonSrv.MemSize], if there is one. *)
Definition memSize (alloc : Z) (s : TServer) : go Z :=
  match dc s with
  | None => Crash Panic
  | Some d => daemon_call (fun _ => u64 alloc) d
  end.

Fixpoint max_mem (alloc : nat -> Z) (i : nat) (srvs : list TServer) (memsize : Z) : go Z :=
  match srvs with
  | [] => Ret memsize
  | s :: rest => n ← memSize (alloc i) s; max_mem alloc (S i) rest (if decide (n > memsize) then n else memsize)
  end.

Definition MemSize (alloc : nat -> Z) (sg : ServerGrp) : go Z := max_mem alloc 0 (g_srvs sg) 0.

Definition group_DaemonClnt (i : nat) (sg : ServerGrp) : go (option daemon) := s ← index (g_srvs sg) i; Ret (dc s).

Definition RpcCount {App} (heap : gmap nat (Server App)) (server : Z) (sg : ServerGrp) (rn : Network) : go Z :=
  GetCount heap (ServerName (g_gid sg) server) rn.

(** ** Key/value tests *)

Definition letterBytes : string := "abcdefghijklmnopqrstuvwxyzABCDEFGHIJKLMNOPQRSTUVWXYZ".

(** [RandValue]: [rs] are the numbers [rand.Int63] returns, one per byte. *)
Definition RandValue (rs : list Z) : string :=
  string_of_list_ascii
    ((fun r => default "a"%char (String.get (Z.to_nat (r `rem` Z.of_nat (String.length letterBytes))) letterBytes)) <$> rs).

Section test_clerk.
  Context {S : Type} (get : string -> S -> S * (string * Tversion * Err)) (put : string -> string -> Tversion -> S -> S * Err).

Definition OpInc (cfg : Config) : Config :=
  mkConfig (c_net cfg) (c_grps cfg) (c_clerks cfg) (c_failed cfg) (c_start cfg) (c_t0 cfg) (c_rpcs0 cfg) (OpLog.OpInc (c_ops cfg)).

(** [TestClerk]: the clerk it embeds, and the configuration that counts. *)
Definition TestClerk_Put (key value : string) (version : Tversion) (w : Config * S) : Config * S * Err :=
  let '(s, err) := put key value version w.2 in (OpInc w.1, s, err).

Definition TestClerk_Get (key : string) (w : Config * S) : Config * S * (string * Tversion * Err) :=
  let '(s, r) := get key w.2 in (OpInc w.1, s, r).

Inductive clerk_call := KGet (key : string) | KPut (key value : string) (version : Tversion).

Definition do_clerk (c : clerk_call) (w : Config * S) : Config * S * (string * Tversion * Err + Err) :=
  match c with
  | KGet key => let '(w, r) := TestClerk_Get key w in (w, inl r)
  | KPut key value version => let '(w, e) := TestClerk_Put key value version w in (w, inr e)
  end.

Fixpoint do_clerks (cs : list clerk_call) (w : Config * S) : Config * S * list (string * Tversion * Err + Err) :=
  match cs with
  | [] => (w, [])
  | c :: rest => let '(w, r) := do_clerk c w in let '(w, rs) := do_clerks rest w in (w, r :: rs)
  end.

(** The same calls of the clerk itself. *)
Fixpoint plain_calls (cs : list clerk_call) (s : S) : S * list (string * Tversion * Err + Err) :=
  match cs with
  | [] => (s, [])
  | KGet key :: rest => let '(s, r) := get key s in let '(s, rs) := plain_calls rest s in (s, inl r :: rs)
  | KPut key value version :: rest => let '(s, e) := put key value version s in let '(s, rs) := plain_calls rest s in (s, inr e :: rs)
  end.
End test_clerk.

(** [ConnectClnts]: the clients by their addresses; a client that was deleted keeps its ends, which the network does not
    know any more. *)
Fixpoint ConnectClnts (clnts : list Clnt) (rn : Network) : Network :=
  match clnts with
  | [] => rn
  | c :: rest => ConnectClnts rest (clnt_ConnectAll c rn).2
  end.

(** [kvtest.Test.Cleanup]. *)
Definition kvtest_Cleanup (now : Z) (cfg : Config) : go Config := _ ← TesterConfig.End now cfg; cfg_Cleanup cfg.

(** [kvraft1]: the parameters of a test. *)
Record kvraft_Test := mkKVRaft {
  kr_cfg : Config; kr_part : string; kr_nclients : Z; kr_nservers : nat; kr_crash : bool; kr_partitions : bool;
  kr_maxraftstate : Z; kr_randomkeys : bool;
}.

(** The argument for the servers: [fmt.Sprintf("--max-raft-state=%d", maxraftstate)]. *)
Definition max_raft_state_arg (maxraftstate : Z) : string := "--max-raft-state=" +:+ Itoa maxraftstate.

(** [MakeTest]; the servers' program and arguments do not matter to the configuration. *)
Definition kvraft_MakeTest (rnd : nat -> nat -> string) (st : start_env) (part : string) (nclients : Z) (nservers : nat)
    (reliable crash partitions : bool) (maxraftstate : Z) (randomkeys : bool) (now t0 : Z) : go kvraft_Test :=
  cfg ← MakeConfig rnd st nservers reliable now;
  Ret (mkKVRaft (Begin t0 cfg) part nclients nservers crash partitions maxraftstate randomkeys).

Definition kvraft_cleanup (now : Z) (ts : kvraft_Test) : go Config := kvtest_Cleanup now (kr_cfg ts).

(** ** Tests of the replicated state machine *)

(** [rsmServer]: the proxy, which holds the daemon it calls; [None] after [Kill]. *)
Record rsmServer := mkRsm { rsm : option (option daemon) }.

Definition newRSMServer (p : option daemon) : rsmServer := mkRsm (Some p).
Definition getRSM (rs : rsmServer) : option (option daemon) := rsm rs.
Definition rsm_Kill (rs : rsmServer) : rsmServer := mkRsm None.

Record rsm_Test := mkRsmTest { rt_config : Config; rt_servers : list (option rsmServer); rt_leader : nat; rt_maxraftstate : Z }.

Definition rsm_mksrv (srv : nat) (p : option daemon) (ts : rsm_Test) : go rsm_Test :=
  if decide (srv < length (rt_servers ts))%nat
  then Ret (mkRsmTest (rt_config ts) (<[srv := Some (newRSMServer p)]> (rt_servers ts)) (rt_leader ts) (rt_maxraftstate ts))
  else Crash Panic.

Definition getLeader (ts : rsm_Test) : nat := rt_leader ts.

(** The loop of [makeTest] and of [restart]. *)
Fixpoint rsm_mksrvs (srvs : list nat) (sg : ServerGrp) (ts : rsm_Test) : go rsm_Test :=
  match srvs with
  | [] => Ret ts
  | i :: rest => p ← group_DaemonClnt i sg; ts ← rsm_mksrv i p ts; rsm_mksrvs rest sg ts
  end.

Definition rsm_makeTest (nsrv : nat) (rnd : nat -> nat -> string) (st : start_env) (maxraftstate now : Z) : go rsm_Test :=
  cfg ← MakeConfig rnd st nsrv true now;
  match Group GRP0 cfg with
  | None => Crash Panic
  | Some sg => rsm_mksrvs (seq 0 nsrv) sg (mkRsmTest cfg (replicate nsrv None) 0 maxraftstate)
  end.

Definition rsm_cleanup (now now' : Z) (ts : rsm_Test) : go Config :=
  _ ← TesterConfig.End now (rt_config ts); cfg ← cfg_Cleanup (rt_config ts); _ ← CheckTimeout now' cfg; Ret cfg.

(** ** The log of a Raft server *)

Section pork.
  Context {V : Type} (Sprintf : string -> list V -> string) (as_string : V -> option string).

(** [pork]: [clock] is the formatted time; the first of [details] must be a string, the format of
    the others.  The line goes to the log file, the event to the tester if the call is answered. *)
Definition pork (up : bool) (t me : Z) (clock ev : string) (details : list V) (o : Logs.outcome)
    (l : Logs.Logger) (app_log : string) (ts : tester_state) : go (string * tester_state) :=
  let det := "[" +:+ clock +:+ "]" in
  det ← match details with
        | [] => Ret det
        | d :: rest => match as_string d with Some format => Ret (det +:+ " " +:+ Sprintf format rest) | None => Crash Panic end
        end;
  app_log ← Logs.Info Sprintf (ev +:+ " " +:+ det) [] o l app_log;
  Ret (app_log, Annotate up t ("[Server " +:+ Itoa me +:+ "]") ev det ts).
End pork.

(** ** The socket of MapReduce *)

(** [Coordinator.server]: an old socket file is removed; when [net.Listen] fails the error is logged, and [http.Serve]
    is given a nil listener.  The result is the sockets one can dial. *)
Definition coordinator_server (sockname : string) (listens : bool) (socks : gset string) : go (gset string) :=
  if listens then Ret ({[ sockname ]} ∪ socks) else Crash Panic.

(** [worker.call]: [answer] is the coordinator's reply, if the call succeeds.  A worker that cannot dial exits with status 0. *)
Inductive call_result (R : Type) := Exited (code : Z) | Returned (ok : bool) (reply : option R).
Arguments Exited {R} code.
Arguments Returned {R} ok reply.

Definition worker_call {R} (coordSockName : string) (socks : gset string) (answer : option R) : call_result R :=
  if decide (coordSockName ∉ socks) then Exited 0 else match answer with Some r => Returned true (Some r) | None => Returned false None end.

(** ** Lemmas: paths *)

Fixpoint occurs (sub s : string) : bool :=
  String.prefix sub s || match s with EmptyString => false | String _ s' => occurs sub s' end.

Lemma last_sub_none sub s i found : occurs sub s = false -> last_sub sub s i found = found.
Proof.
  revert i found. induction s as [|c s IH]; intros i found; cbn -[String.prefix]; intros [Hp Hs]%orb_false_iff; rewrite Hp; [done|].
  by apply IH.
Qed.

(** The occurrence after which there is no other one. *)
Lemma last_sub_at root c sub rest : forall i found,
  occurs (String c sub) (sub +:+ rest) = false ->
  last_sub (String c sub) (root +:+ String c sub +:+ rest) i found = i + Z.of_nat (String.length root).
Proof.
  induction root as [|d root IH]; intros i found Hno.
  - assert (forall a b, String.prefix a (a +:+ b) = true) as Hp.
    { induction a as [|x a IHa]; intros b; [by destruct b|]. rewrite string_cons_app. cbn -[ascii_dec]. by destruct (ascii_dec x x). }
    rewrite string_nil_app. pose proof (Hp (String c sub) rest) as Hp'. rewrite string_cons_app in *. cbn -[String.prefix].
    rewrite Hp', last_sub_none by done. lia.
  - rewrite string_cons_app. cbn -[String.prefix]. rewrite IH by done. lia.
Qed.

Lemma occurs_last_sub sub s i found : occurs sub s = true -> i <= last_sub sub s i found.
Proof.
  revert i found. induction s as [|c s IH]; intros i found; cbn -[String.prefix].
  - rewrite orb_false_r. intros ->. lia.
  - destruct (occurs sub s) eqn:Es; [intros _; specialize (IH (i + 1) (if String.prefix sub (String c s) then i else found) eq_refl); lia|].
    rewrite orb_false_r, last_sub_none by done. intros ->. lia.
Qed.

Lemma substring_prefix a b : substring 0 (String.length a) (a +:+ b) = a.
Proof. induction a as [|c a IH]; simpl; [by destruct b|]. by rewrite IH. Qed.

(** An element of a path. *)
Definition proper (c : string) : Prop := c <> ""%string /\ c <> "."%string /\ c <> ".."%string /\ has_byte "/" c = false.

Lemma clean_rooted_proper cs : forall out, Forall (fun c => c = ""%string \/ proper c) cs ->
  clean_rooted out cs = rev (filter (fun c => c <> ""%string) cs) ++ out.
Proof.
  induction cs as [|c cs IH]; intros out Hcs; [done|]. apply list.Forall_cons in Hcs as [Hc Hcs]. simpl. destruct Hc as [->|(H1&H2&H3&H4)].
  - rewrite decide_True by by left. rewrite IH by done. by rewrite filter_cons_False by naive_solver.
  - rewrite !decide_False by naive_solver. rewrite IH, filter_cons_True by done. simpl. by rewrite <-app_assoc.
Qed.

Lemma filter_proper cs : Forall proper cs -> filter (fun c => c <> ""%string) cs = cs.
Proof. induction 1 as [|c cs Hc _ IH]; [done|]. rewrite filter_cons_True by apply Hc. by rewrite IH. Qed.

(** A directory, from the root, with a slash at its end. *)
Definition abs (dirs : list string) : string := foldr (fun d s => "/" +:+ d +:+ s) "/"%string dirs.

Lemma split_abs dirs :
  Forall proper dirs -> exists y, abs dirs = String "/" y /\ split_on "/" y = dirs ++ [""%string].
Proof.
  induction 1 as [|d dirs (_&_&_&Hd) _ (y&E&Hy)]; [by exists ""%string|]. exists (d +:+ String "/" y). split.
  - unfold abs in *. simpl. by rewrite E.
  - by rewrite split_on_app, Hy.
Qed.

Lemma filepath_Join_abs dirs prog :
  Forall proper dirs -> proper prog ->
  filepath_Join [abs dirs; "src/main"; prog]%string = "/" +:+ Join (dirs ++ ["src"; "main"; prog]%string) "/".
Proof.
  intros Hd Hp. destruct (split_abs dirs Hd) as (y&E&Hy). cbn [filepath_Join]. rewrite decide_False by by rewrite E.
  change (Join [abs dirs; "src/main"%string; prog] "/") with (abs dirs +:+ "/" +:+ "src/main" +:+ "/" +:+ prog).
  rewrite E. unfold filepath_Clean. rewrite string_cons_app. f_equal.
  rewrite split_on_cons_sep. change (y +:+ "/" +:+ "src/main" +:+ "/" +:+ prog) with (y +:+ String "/" ("src/main" +:+ String "/" prog)).
  rewrite !split_on_app_sep, Hy, (split_on_absent _ prog) by apply Hp.
  change (split_on "/" "src/main") with ["src"; "main"]%string.
  rewrite clean_rooted_proper.
  - rewrite app_nil_r, rev_involutive. f_equal. rewrite filter_cons_False by naive_solver.
    rewrite !list.filter_app, filter_proper by done. rewrite filter_cons_False by naive_solver. simpl.
    rewrite app_nil_r. f_equal. rewrite !filter_cons_True; [done|apply Hp|done..].
  - constructor; [by left|]. rewrite !Forall_app. split_and!; [|apply list.Forall_singleton; by left|constructor; [by right|apply list.Forall_singleton; by right]|].
    + eapply Forall_impl; [|exact Hd]. by right.
    + constructor; [by right|constructor].
Qed.

(** ** Lemmas: set-up *)

Lemma max_mem_max alloc : forall srvs i acc,
  0 <= acc -> (forall j s, srvs !! j = Some s -> (exists p, dc s = Some (Answering p)) /\ 0 <= alloc (i + j)%nat < 2 ^ 64) ->
  exists m, max_mem alloc i srvs acc = Ret m /\ acc <= m
    /\ (forall j, (j < length srvs)%nat -> alloc (i + j)%nat <= m)
    /\ (m = acc \/ exists j, (j < length srvs)%nat /\ alloc (i + j)%nat = m).
Proof.
  induction srvs as [|s srvs IH]; intros i acc Hacc Hs; simpl; [exists acc; split_and!; [done|lia|intros; lia|by left]|].
  destruct (Hs 0%nat s eq_refl) as ([p Hp]&Hr). rewrite Nat.add_0_r in Hr. unfold memSize. rewrite Hp. simpl.
  unfold u64. rewrite Z.mod_small by lia. set (a := alloc i) in *.
  destruct (IH (S i) (if decide (a > acc) then a else acc)) as (m&E&Hm&Hall&Hatt).
  { case_decide; lia. }
  { intros j s' Hj. destruct (Hs (S j) s' Hj) as [? H]. by rewrite Nat.add_succ_r in H. }
  exists m. split; [done|]. split; [case_decide; lia|]. split.
  - intros [|j] Hj; [rewrite Nat.add_0_r; fold a; case_decide; lia|]. rewrite Nat.add_succ_r. apply (Hall j). lia.
  - destruct Hatt as [->|(j&Hj&Hmj)].
    + case_decide; [right; exists 0%nat; rewrite Nat.add_0_r; split; [lia|done]|by left].
    + right. exists (S j). rewrite Nat.add_succ_r. split; [lia|done].
Qed.

Definition ops_counted (n : nat) (cfg : Config) : Config := Nat.iter n OpInc cfg.

Lemma counted_ops n cfg : 0 <= c_ops cfg -> c_ops cfg + Z.of_nat n < 2 ^ 31 -> c_ops (ops_counted n cfg) = c_ops cfg + Z.of_nat n.
Proof.
  intros H0 Hn. induction n as [|n IH]; simpl; [lia|]. rewrite IH by lia. unfold OpLog.OpInc. rewrite i32_small by lia. lia.
Qed.

Lemma do_clerks_plain {S} get put cs : forall cfg (s : S),
  do_clerks get put cs (cfg, s) = (ops_counted (length cs) cfg, (plain_calls get put cs s).1, (plain_calls get put cs s).2).
Proof.
  induction cs as [|c cs IH]; intros cfg s; [done|]. cbn [do_clerks plain_calls].
  assert (forall cfg', ops_counted (length cs) (OpInc cfg') = ops_counted (length (c :: cs)) cfg') as Hc by (intros; symmetry; apply Nat.iter_succ_r).
  destruct c as [key|key value version]; simpl.
  - unfold TestClerk_Get. simpl. destruct (get key s) as [s1 r]. rewrite IH, Hc. by destruct (plain_calls get put cs s1).
  - unfold TestClerk_Put. simpl. destruct (put key value version s) as [s1 r]. rewrite IH, Hc. by destruct (plain_calls get put cs s1).
Qed.

(** The loop of [makeTest] gives every server its proxy. *)
Lemma rsm_mksrvs_ok sg : forall is_ ts,
  Forall (fun i => (i < N sg)%nat) is_ -> N sg = length (rt_servers ts) ->
  exists ts', rsm_mksrvs is_ sg ts = Ret ts' /\ rt_config ts' = rt_config ts /\ rt_leader ts' = rt_leader ts
    /\ length (rt_servers ts') = length (rt_servers ts)
    /\ forall i s, g_srvs sg !! i = Some s ->
         rt_servers ts' !! i = if decide (i ∈ is_) then Some (Some (newRSMServer (dc s))) else rt_servers ts !! i.
Proof.
  induction is_ as [|i is_ IH]; intros ts His Hlen; simpl; [by eexists|]. apply list.Forall_cons in His as [Hi His].
  destruct (lookup_lt_is_Some_2 (g_srvs sg) i Hi) as [s Hs]. unfold group_DaemonClnt, index. rewrite Hs. simpl.
  unfold rsm_mksrv. rewrite decide_True by lia. simpl.
  edestruct (IH (mkRsmTest (rt_config ts) (<[i := Some (newRSMServer (dc s))]> (rt_servers ts)) (rt_leader ts) (rt_maxraftstate ts)))
    as (ts'&E&Hc&Hl&Hn&Hall); [done|simpl; by rewrite length_insert|].
  exists ts'. simpl in *. rewrite length_insert in Hn. split_and!; [done..|]. intros j s' Hj. rewrite (Hall j s' Hj).
  destruct (decide (j ∈ is_)); [by rewrite decide_True by set_solver|]. destruct (decide (j = i)) as [->|Hne].
  - rewrite decide_True by set_solver. simplify_eq. apply list_lookup_insert_eq. lia.
  - rewrite decide_False by set_solver. by rewrite list_lookup_insert_ne.
Qed.

Lemma letter_of r : 0 <= r ->
  exists c, String.get (Z.to_nat (r `rem` Z.of_nat (String.length letterBytes))) letterBytes = Some c /\ has_byte c letterBytes = true.
Proof.
  intros Hr. assert (forall i, (i < 52)%nat -> exists c, String.get i letterBytes = Some c /\ has_byte c letterBytes = true) as Hall.
  { intros i Hi. do 52 (destruct i as [|i]; [eexists; split; reflexivity|]). lia. }
  apply Hall. change (Z.of_nat (String.length letterBytes)) with 52. pose proof (Z.rem_bound_pos r 52). lia.
Qed.

(** ** Properties *)

(** Where the daemons' programs are.  From a package directory below the directory [src] of the module, if no name after it
    contains [src], [path] is the program's file in [src/main]; a test started in a directory whose
    path does not contain [src] panics. *)
Theorem daemon_path_found prog dirs pkg cwd :
  Forall proper dirs -> proper prog -> occurs "src" ("rc" +:+ pkg) = false ->
  path prog (abs dirs +:+ "src" +:+ pkg) = Ret ("/" +:+ Join (dirs ++ ["src"; "main"; prog]%string) "/")
  /\ (path prog cwd = Crash Panic <-> occurs "src" cwd = false).
Proof.
  intros Hd Hp Hno. split.
  - unfold path, LastIndexOf. rewrite (last_sub_at (abs dirs) "s" "rc" pkg 0 (-1) Hno). rewrite decide_False by lia.
    rewrite Z.add_0_l, Nat2Z.id, substring_prefix. by rewrite filepath_Join_abs.
  - unfold path, LastIndexOf. destruct (occurs "src" cwd) eqn:E.
    + pose proof (occurs_last_sub _ _ 0 (-1) E). by rewrite decide_False by lia.
    + by rewrite last_sub_none.
Qed.

(** If all servers have a daemon that answers, [MemSize] is the largest of the answers. *)
Theorem mem_size_is_max alloc sg :
  (forall i s, g_srvs sg !! i = Some s -> (exists p, dc s = Some (Answering p)) /\ 0 <= alloc i < 2 ^ 64) ->
  exists m, MemSize alloc sg = Ret m /\ (forall i, (i < N sg)%nat -> alloc i <= m)
    /\ (m = 0 \/ exists i, (i < N sg)%nat /\ alloc i = m).
Proof.
  intros Hs. destruct (max_mem_max alloc (g_srvs sg) 0 0 ltac:(lia) Hs) as (m&E&_&Hall&Hatt). by exists m.
Qed.

(** A clerk of a test is its clerk, and every call is counted. *)
Theorem test_clerk_transparent {S} get put cs cfg (s : S) :
  0 <= c_ops cfg -> c_ops cfg + Z.of_nat (length cs) < 2 ^ 31 ->
  exists cfg', do_clerks get put cs (cfg, s) = (cfg', (plain_calls get put cs s).1, (plain_calls get put cs s).2)
    /\ c_ops cfg' = c_ops cfg + Z.of_nat (length cs).
Proof. intros H0 Hn. eexists. split; [apply do_clerks_plain|by apply counted_ops]. Qed.

(** A random value has as many bytes as asked for, all of them letters. *)
Theorem RandValue_letters rs :
  Forall (fun r => 0 <= r) rs ->
  String.length (RandValue rs) = length rs /\ forall c, has_byte c (RandValue rs) = true -> has_byte c letterBytes = true.
Proof.
  intros Hr. unfold RandValue. induction Hr as [|r rs Hr _ [IHl IHc]]; [done|].
  destruct (letter_of r Hr) as (d&Hd&Hin). cbn [fmap list_fmap string_of_list_ascii String.length]. rewrite Hd. split; [exact (f_equal Datatypes.S IHl)|].
  intros c. cbn [has_byte from_option]. intros [Hc|Hc]%orb_true_iff; [|by apply IHc]. apply bool_decide_eq_true in Hc. by subst c.
Qed.

(** The end of a test.  [Cleanup] of a test that has not run for more than two minutes, or has failed already, returns and closes the network if all daemons answer, and ends the tester if one does not;
    one that has run longer is failed before anything is cleaned up. *)
Theorem cleanup_outcome now cfg :
  cinv cfg -> is_Some (Group GRP0 cfg) ->
  if (negb (c_failed cfg) && bool_decide (now - c_start cfg > 120 * 10 ^ 9)) || negb (all_well cfg)
  then kvtest_Cleanup now cfg = Crash Fatal
  else exists cfg', kvtest_Cleanup now cfg = Ret cfg' /\ Labrpc.done (c_net cfg') = true.
Proof.
  intros Hc [sg Hg]. unfold kvtest_Cleanup, TesterConfig.End, CheckTimeout. destruct (_ && _); [done|]. simpl.
  pose proof (cfg_Cleanup_cases cfg Hc) as H. destruct (all_well cfg); simpl; [|destruct (c_failed cfg); [done|by rewrite Hg]].
  destruct H as [cfg' E].
  assert (Labrpc.done (c_net cfg') = true) as Hd.
  { unfold cfg_Cleanup in E. destruct (clnts_cleanup cfg) as [c1|]; [|done]. simpl in E.
    destruct (cleanup_groups _ c1) as [c2|]; [|done]. simpl in E. unfold Labrpc.Cleanup in E.
    destruct (Labrpc.done (c_net c2)); simplify_eq/=; done. }
  exists cfg'. split; [|done]. destruct (c_failed cfg); simpl; [done|]. by rewrite Hg.
Qed.

(** A new test of the replicated state machine: every server has a proxy, to its running daemon. *)
Theorem rsm_test_ready nsrv rnd st maxraftstate now :
  NoDup (grid rnd (seq 0 nsrv) nsrv ++ grid (st_rnd st) (seq 0 nsrv) nsrv) -> (forall i, (i < nsrv)%nat -> st_ok st i = true) ->
  exists ts, rsm_makeTest nsrv rnd st maxraftstate now = Ret ts /\ getLeader ts = 0%nat /\ cinv (rt_config ts)
    /\ forall i, (i < nsrv)%nat -> exists rs p, rt_servers ts !! i = Some (Some rs) /\ getRSM rs = Some (Some p).
Proof.
  intros Hnd Hok. destruct (MakeConfig_spec rnd st nsrv true now Hnd) as (cfg&sg&E&Hc&Hg&HN&Hr);
    [apply st_ok_dials; intros i [_ Hi]%elem_of_seq; by apply Hok|].
  unfold rsm_makeTest. rewrite E. simpl. rewrite Hg.
  destruct (rsm_mksrvs_ok sg (seq 0 nsrv) (mkRsmTest cfg (replicate nsrv None) 0 maxraftstate)) as (ts&Ets&Hcfg&Hl&_&Hall).
  { apply list.Forall_forall. intros i [_ Hi]%elem_of_seq. lia. }
  { simpl. by rewrite length_replicate. }
  exists ts. rewrite Hcfg. split_and!; [done..|]. intros i Hi. destruct (Hr i Hi) as [Hr0 _]. rewrite (Hok i Hi) in Hr0.
  unfold running in Hr0. destruct (g_srvs sg !! i) as [s|] eqn:Es; [|done]. rewrite (Hall i s Es), decide_True by (apply elem_of_seq; lia).
  simpl in Hr0. injection Hr0 as [p Hp]%bool_decide_eq_true. rewrite Hp. by exists (newRSMServer (Some p)), p.
Qed.

(** From the directory of the key/value server's tests; and from a package whose own name contains [src], where the
    program is looked for in the wrong place. *)
Example daemon_path_kvsrv :
  path "kvsrv1d" "/home/u/6.5840/src/kvsrv1" = Ret "/home/u/6.5840/src/main/kvsrv1d"%string
  /\ path "kvsrv1d" "/home/u/6.5840/src/mysrc" = Ret "/home/u/6.5840/src/my/src/main/kvsrv1d"%string.
Proof. split; vm_compute; reflexivity. Qed.

Example run_daemon_errors :
  runDaemon None (fun _ _ => true) false "raft1d" [] "t" 0 0 ["e"]%string = Ret None
  /\ runDaemon (Some "/src/raft1"%string) (fun _ _ => false) false "raft1d" [] "t" 0 0 ["e"]%string = Ret None
  /\ runDaemon (Some "/tmp"%string) (fun _ _ => true) false "raft1d" [] "t" 0 0 ["e"]%string = Crash Panic.
Proof. split_and!; vm_compute; reflexivity. Qed.
